(* ===== verification/_CoqProject ===== *)
-Q . S2P
Prelude.v
Rights.v
Cap.v
Budget.v
CSpace.v
CSpaceInv.v
CSpaceOps.v
CSpaceSched.v
CSpaceRevoke.v
CSpaceProps.v
CSpaceStep.v
CSpaceAlias.v
CSpaceReach.v
CSpaceTheorems.v
Buddy.v
BuddyInv.v
BuddyProps.v
BuddyTheorems.v
Slab.v
Ipc.v
Executor.v
Pex.v
PexEncode.v
Syscall.v
Arch.v
Loader.v
LoaderProps.v
LoaderTheorems.v
LoaderTrace.v
KSched.v
KSchedProps.v
KSchedTheorems.v
Userland.v
UserTheorems.v
Handoff.v
HandoffProps.v
MemInit.v
MemInitProps.v
Frames.v
Paging.v
PagingInv.v
PagingOps.v
PagingClone.v
PagingWorld.v
PagingBuild.v
PagingBoot.v
PagingHistory.v
PagingDomain.v
PagingTheorems.v
Boot.v
BootProps.v
BootTheorems.v
PagingCount.v
Process.v
ProcessMem.v
ProcessLoad.v
ProcessSys.v
ProcessInv.v
ProcessView.v
ProcessStart.v
ProcessTheorems.v
Refproc.v
RefprocServe.v
RefprocTheorems.v
KIpc.v
KIpcTheorems.v
PagingA64.v
PagingA64Sim.v
PagingA64Theorems.v
PagingA64Boot.v
Sync.v
Pku.v
Isolation.v
IsolationTheorems.v
IsolationA64.v
IsolationA64Theorems.v
SelfTests.v
SelfTestsTheorems.v
