(* ===== verification/Prelude.v ===== *)
(** * Praesidium: a verification of the capability microkernel

    Praesidium is a microkernel in Rust whose only authority is the held
    capability.  This development models its core crates and the kernel code
    that is built on them, proves the promises their documentation makes, and
    records where the code does less than it says.

    ** The program and its model

    Every component is translated operation by operation, with its guards in
    the order of the source.  Fixed-width integers are [Z] with their width
    written where the code computes ([arith w] panics on overflow, as every
    profile of the workspace sets [overflow-checks]; [checked w], [wrap w] and
    [sat_add w] are [checked_*], [as] and [saturating_*]).  A [&mut self] method
    is a state-and-error computation ([M]) that keeps its state on an error, so
    that leaving it unchanged on an error is something to prove.  A panic, an
    index out of range and a loop without fuel are all [Panic]: a theorem that an
    operation answers [Ok] or [Err] says that it terminates without panicking.

    - Rights, Cap, Budget: [cap-core/src/rights.rs], [cap.rs], [sched.rs].  The
      [bitflags] crate is the class [Bitflags], with its documented laws; the
      instance [bitflags_u32] shows that they can hold.
    - CSpace: [cap-core/src/cspace.rs], the slots with their parent links, every
      installation, RETYPE, MINT, COPY, MOVE, SPLIT, DELEGATE, the Reply
      capabilities, REVOKE, DELETE, and GRANT between two spaces; the calls of
      the zeroing hook are logged.  CSpaceInv, CSpaceOps, CSpaceSched,
      CSpaceRevoke: the invariant [wf] and what each operation does.
      CSpaceProps, CSpaceStep, CSpaceAlias, CSpaceReach: sequences of operations
      as a transition system and the invariants of all reachable spaces.
      CSpaceTheorems: the promises.
    - Buddy, BuddyInv, BuddyProps, BuddyTheorems: [mem/src/buddy.rs] and
      [frame.rs], the allocator with its intrusive free lists threaded through
      the descriptor array, and its refinement of a set of free frames.
    - Slab: [mem/src/slab.rs] (a free list inside the memory clients write) and
      [mem/src/retype.rs].
    - Ipc: [ipc/src/message.rs], [endpoint.rs], [notification.rs].
    - Executor: [sched/src]: the cooperative executor over arbitrary futures.
    - Pex, PexEncode: [abi/src/pex.rs] and [encode.rs], the parser of hostile
      images and the encoder.
    - Syscall: [abi/src/invoke.rs] and [kernel/src/syscall.rs], the dispatch of
      an invocation against a CSpace.
    - Loader, LoaderProps, LoaderTheorems: [kernel/src/loader/mod.rs], which
      calls Pex, CSpace and GRANT; zeroing, mapping, copying and cache maintenance
      are events of a log.  LoaderTrace: the whole log of a load, segment by segment.
    - KSched, KSchedProps, KSchedTheorems: [kernel/src/sched/scheduler.rs], the
      preemptive scheduler, one critical section a step.
    - Userland, UserTheorems: [kernel/src/user/mod.rs], the trap entry points and
      the blocking calls, one turn of a polling loop a step.
    - Handoff, HandoffProps: [kernel/src/boot], the boot structures with their
      computed layouts, and their validation and dump over an arbitrary memory.
    - MemInit, MemInitProps: [kernel/src/memory/mod.rs], the bootstrap of the
      allocator from the boot memory map.
    - Arch: the types of [kernel/src/arch/mod.rs].  Frames: what page tables need
      of an allocator, as the class [FrameSource], and its instances: the installed
      allocator, the same with some blocks out ([fenced]), and with its frames
      counted ([counted]).
    - Paging: [kernel/src/arch/x86_64/paging.rs], four-level tables in a memory of
      frames, with CR3 and the flushes as state.  PagingInv: a space as a tree of
      tables, and the walk as a function of it.  PagingOps, PagingClone,
      PagingBuild, PagingDomain: what splitting, mapping, cloning and building do
      to a space.  PagingWorld, PagingBoot, PagingHistory: all spaces at once,
      from boot through every history of processes.  PagingTheorems: the promises.
    - Boot, BootProps, BootTheorems: [kmain] to the end of [memory::init], which
      calls Handoff, MemInit, Paging, Slab and the untyped region: the kernel's own
      tables, the W^X check and the self-tests over live frames.
    - Process: [kernel/src/user/mod.rs] again, where Loader, Paging, Frames and the
      capability spaces act together: [load_process], [setup_shared_region] and the
      red-team peer; [perform] carries the events of the loader out on the machine.
      PagingCount: what page-table calls take from the allocator.  ProcessMem,
      ProcessLoad: what a load does.  ProcessSys: the histories of a session, where
      the kernel loads, shares, switches and reaps and a process stores anything
      into any page it can write.  ProcessInv, ProcessStart: the owner of every
      frame, as an invariant of all histories from boot.  ProcessView: memory as a
      process reads it.  ProcessTheorems: the promises, and a concrete session.
    - Refproc: [refproc/src], the runtime and the reference processes as programs of
      invocations, loads and stores, and the supervisor of the restart demonstration.
      RefprocServe, RefprocTheorems: those programs against the calls of Userland,
      one turn of one process at a time, in every order.
    - KIpc, KIpcTheorems: [kernel/src/ipc/mod.rs], the client and the server in the
      kernel over Ipc, CSpace, Budget and the Executor, one poll of one future at a
      time, and [run] with its checks.
    - PagingA64: [kernel/src/arch/aarch64/paging.rs] with the tagging of [mte.rs].
      PagingA64Sim: a descriptor read as an x86-64 entry, for each attribute bit, and
      the operations of the two architectures in lockstep under that reading, so that
      the lemmas of PagingInv, PagingOps, PagingClone and PagingBuild hold for both.
      PagingA64Theorems, PagingA64Boot: the promises, and the tables made at boot.
    - Sync: [kernel/src/sync.rs], the spin lock and its guard, and any number of
      threads that take turns on it.
    - Pku: [kernel/src/arch/x86_64/pku.rs], the probe of the protection keys and the
      register that is set when a task is switched in.
    - Isolation, IsolationTheorems: the x86-64 exception handlers with the single-shot
      recovery seam ([kernel/src/arch/x86_64/interrupts.rs]), the escape test of a
      protection domain ([x86_64/mod.rs]) and the isolation checks of the boot
      ([kernel/src/isolation/mod.rs]), over the tables of Paging.
    - IsolationA64, IsolationA64Theorems: the same of AArch64 ([aarch64/interrupts.rs],
      [aarch64/mte.rs]): the control registers, tagged pointers and granules, and the
      escape test of memory tagging, over the tables of PagingA64.
    - SelfTests, SelfTestsTheorems: the demonstrations of the boot over the components
      above ([kernel/src/cap/mod.rs], [sched/mod.rs], [loader/demo.rs]).

    ** What the theorems show

    - Capabilities: the invariant of every reachable space; no operation panics
      and an error changes nothing; REVOKE and DELETE destroy exactly the
      descendants and zero exactly the objects whose last capability goes;
      rights never widen; objects of one [Untyped] never overlap; CPU time is
      conserved; GRANT is all or nothing; a Reply is consumed once.
    - Memory: the buddy and slab allocators never hand memory out twice, whatever
      clients write in it, and refine a set of free frames.
    - Boot: whatever the loader leaves in memory, the kernel halts at the first
      check that fails or installs an allocator for exactly the usable frames; the
      boot structures are read as they were written; with the loader's contract met
      the memory subsystem comes up, in a state the page-table theorems start from.
    - Images and loading: the parser is total on hostile bytes and what it accepts
      is safe to map; the encoder round-trips; loading stays inside the process
      window, on fresh zeroed frames, never writable and executable at once, and
      the process gets exactly its manifest.
    - Invocation and processes: the dispatch grants exactly what a held capability
      allows, REVOKE cuts every derived holder off, a refused process is killed
      and touches nothing, no system call of any process panics the kernel or
      changes another process's space; CALL, RECV and REPLY deliver.
    - Scheduling: the running task is always on its own address space; round
      robin is fair; a tick charges and preempts; the executor's run ends.
    - Page tables: at boot the tables map exactly the kernel, the direct map and
      the identity map; mapping a page changes that page only; in every history the
      tables implement the map of the pages each process was given, no page is
      writable and executable, the calls do not panic, and reaping gives every
      frame back, once.
    - AArch64: the two roots made at boot map what the x86-64 tables map; mapping a
      page changes that page only, down to each attribute bit, and with a domain the
      alias of its frame becomes tagged memory with every granule tagged; a process's
      low half is its own; the cache maintenance covers the range it is given.
    - Processes as a whole: a loaded process reads its image; no process reaches a
      page table, a kernel frame or another's memory but for the shared page, which
      one of its holders at most writes; whatever the others do its private memory
      stays; reaping gives back what loading took.
    - Faults: a kernel fault is survived only at the armed address and once, a fault of
      user mode kills the process, and everything else halts; the probe is contained
      exactly where nothing is mapped; the escape tests of both architectures and the
      checks of guard pages pass, and change of the kernel's map only the pages they
      name; the boot's demonstrations pass; with
      protection keys on, a task reaches the pages of its own domain and of the shared
      one and no others.
    - Locks: critical sections under the spin lock are atomic in every interleaving.
    - IPC objects: sends meet receives in order; a notification loses no wakeup.
    - Programs over IPC: under every interleaving the echo client is answered, the
      client of a server that crashes and is restarted sees every answer, and the
      in-kernel call is served with its capability moved and its time paid for.

    ** Bounds

    Fuel is never a cap on the input.  [revoke] runs with one more turn than there
    are slots (each turn empties one), [is_descendant] with the bound of the
    source's own loop, [coalesce] and the splitting of a block with [MAX_ORDER]
    (each turn changes the order by one); the theorems of the component show that
    this is enough.  The number of iterations of [run_until_idle] is a parameter,
    and its theorem shows that there is one after which the run has ended; three are
    enough for the in-kernel call ([run_passes]).  The loop of [map_kernel] has one
    turn for each page of the image, and the loops of [sync_instruction_cache] one for
    each byte and one more, where a line has four at least ([icache_covered]).

    ** What is not modelled

    The rest of the architecture code (entry stubs, context switches, descriptor
    tables, devices) is assembly around what the theorems above assume of it: that the
    active root is the one last loaded, that an access without a mapping faults and
    that a trap reaches its handler.  The kernel heap hands a region to a library
    allocator.  The preemption demonstration waits for the timer, and the remaining
    demonstrations of the user code call the operations modelled here with fixed
    arguments and print.  [evil.rs] rewrites a protection-key register, and the build
    and fuzz tools run on the host.  Translation caches are not modelled beyond the log
    of flushes; that user mode is refused by a tag is left to the processor. *)

From Stdlib Require Export ZArith Lia.
From stdpp Require Export base list gmap.

Open Scope Z_scope.
Open Scope nat_scope.

(** ** Outcomes of Rust code

    [Ok]/[Err] are the two sides of a [Result]; [Panic] is a Rust panic: an
    arithmetic overflow (every profile of the workspace sets
    [overflow-checks = true]), an index out of range, a failed [assert!] or
    [expect].  A model loop that runs out of fuel also answers [Panic], so a
    theorem that an operation answers [Ok] or [Err] says that its loops end. *)
Inductive res (E A : Type) : Type :=
| Ok (a : A)
| Err (e : E)
| Panic.
Arguments Ok {E A} a.
Arguments Err {E A} e.
Arguments Panic {E A}.

#[export] Instance res_ret {E} : MRet (res E) := λ A a, Ok a.
#[export] Instance res_bind {E} : MBind (res E) := λ A B k m,
  match m with
  | Ok a => k a
  | Err e => Err e
  | Panic => Panic
  end.

(** A [&mut self] method returning a [Result]: the state after the call is
    there whatever the outcome, so that leaving it alone on an error is a
    property and not a convention of the model. *)
Definition M (S E A : Type) : Type := S → res E A * S.

#[export] Instance M_ret {S E} : MRet (M S E) := λ A a s, (Ok a, s).
#[export] Instance M_bind {S E} : MBind (M S E) := λ A B k m s,
  match m s with
  | (Ok a, s') => k a s'
  | (Err e, s') => (Err e, s')
  | (Panic, s') => (Panic, s')
  end.

Definition throw {S E A} (e : E) : M S E A := λ s, (Err e, s).
Definition panic {S E A} : M S E A := λ s, (Panic, s).
Definition get {S E} : M S E S := λ s, (Ok s, s).
Definition modify {S E} (f : S → S) : M S E unit := λ s, (Ok tt, f s).
(** A call of a [&self] method. *)
Definition reads {S E A} (f : S → res E A) : M S E A := λ s, (f s, s).
Definition lift {S E A} (r : res E A) : M S E A := λ s, (r, s).

(** [for x in l { body }] *)
Fixpoint mfor {S E A} (l : list A) (body : A → M S E unit) : M S E unit :=
  match l with
  | [] => mret ()
  | x :: l' => body x;; mfor l' body
  end.

Lemma mfor_no_err {S E A} (l : list A) (body : A → M S E unit) e s s' :
  (∀ x t e' t', body x t ≠ (Err e', t')) → mfor l body s ≠ (Err e, s').
Proof.
  intros H. revert s. induction l as [|x l IH]; intros s; [done|]. cbn [mfor].
  unfold mbind, M_bind. destruct (body x s) as [[[]|e'|] t] eqn:Hb; [apply IH| |done].
  by apply H in Hb.
Qed.

(** [iter.find(p)] with a predicate that may panic. *)
Fixpoint rfind {E A} (p : A → res E bool) (l : list A) : res E (option A) :=
  match l with
  | [] => Ok None
  | x :: l' => b ← p x; if b : bool then Ok (Some x) else rfind p l'
  end.

(** Run an operation on one half of a pair of states. *)
Definition on_fst {S T E A} (m : M S E A) : M (S * T) E A :=
  λ st, let '(r, s') := m st.1 in (r, (s', st.2)).
Definition on_snd {S T E A} (m : M T E A) : M (S * T) E A :=
  λ st, let '(r, t') := m st.2 in (r, (st.1, t')).

(** [l[i]] *)
Definition index {E A} (l : list A) (i : nat) : res E A :=
  match l !! i with
  | Some x => Ok x
  | None => Panic
  end.

(** [opt.ok_or(e)?] *)
Definition ok_or {E A} (o : option A) (e : E) : res E A :=
  match o with
  | Some x => Ok x
  | None => Err e
  end.

(** ** Machine integers

    A value of a [w]-bit unsigned type is a [Z] in [0, 2^w). *)
Definition fits (w x : Z) : bool := (0 <=? x)%Z && (x <? 2 ^ w)%Z.
Definition in_u (w x : Z) : Prop := (0 <= x < 2 ^ w)%Z.

(** [a.checked_add(b)] and its kin, on the exact result. *)
Definition checked (w x : Z) : option Z := if fits w x then Some x else None.
(** [a + b], [a * b], [a - b] under [overflow-checks]: trap unless in range. *)
Definition arith {E} (w x : Z) : res E Z := if fits w x then Ok x else Panic.
(** [x as uN] *)
Definition wrap (w x : Z) : Z := (x mod 2 ^ w)%Z.
(** [a.saturating_add(b)], [a.saturating_sub(b)] *)
Definition sat_add (w a b : Z) : Z := Z.min (2 ^ w - 1) (a + b).
Definition sat_sub (a b : Z) : Z := Z.max 0 (a - b).
(** [a.checked_add(b)] on [usize] slot indices. *)
Definition checked_usize (n : nat) : option nat :=
  if (Z.of_nat n <? 2 ^ 64)%Z then Some n else None.

Lemma fits_spec w x : fits w x = true ↔ in_u w x.
Proof. unfold fits, in_u. rewrite andb_true_iff, Z.leb_le, Z.ltb_lt. done. Qed.

Lemma fits_false w x : fits w x = false ↔ ¬ in_u w x.
Proof. rewrite <- fits_spec. destruct (fits w x); naive_solver. Qed.

Lemma arith_Ok {E} w x y : arith (E:=E) w x = Ok y ↔ in_u w x ∧ y = x.
Proof.
  unfold arith. destruct (fits w x) eqn:F.
  - apply fits_spec in F. naive_solver.
  - apply fits_false in F. split; [done|]. by intros [? _].
Qed.

Lemma arith_in {E} w x : in_u w x → arith (E:=E) w x = Ok x.
Proof. intros. apply arith_Ok. done. Qed.

Lemma checked_Some w x y : checked w x = Some y ↔ in_u w x ∧ y = x.
Proof.
  unfold checked. destruct (fits w x) eqn:F.
  - apply fits_spec in F. naive_solver.
  - apply fits_false in F. split; [done|]. by intros [? _].
Qed.

Lemma wrap_small w x : in_u w x → wrap w x = x.
Proof. unfold wrap, in_u. intros. by apply Z.mod_small. Qed.

(** ** Running the monads *)

(** Reduce the monadic plumbing, then split on the outcome of each call. *)
Ltac munfold :=
  unfold mbind, mret, M_bind, M_ret, res_bind, res_ret,
    throw, panic, get, modify, reads, lift, on_fst, on_snd, index, ok_or in *.
Ltac mrun := munfold; repeat (case_match; simplify_eq/=).

Lemma bind_ext {S E A B} (m : M S E A) (k1 k2 : A → M S E B) s :
  (∀ a s', k1 a s' = k2 a s') → (m ≫= k1) s = (m ≫= k2) s.
Proof. intros H. unfold mbind, M_bind. destruct (m s) as [[a|e|] s']; [apply H|done..]. Qed.

Lemma bind_run {S E A B} (m : M S E A) (k : A → M S E B) s a s' :
  m s = (Ok a, s') → (m ≫= k) s = k a s'.
Proof. intros H. unfold mbind, M_bind. by rewrite H. Qed.

Lemma mfor_app_run {S E A} (l1 l2 : list A) (body : A → M S E unit) s s' :
  mfor l1 body s = (Ok (), s') → mfor (l1 ++ l2) body s = mfor l2 body s'.
Proof.
  revert s. induction l1 as [|x l1 IH]; intros s; cbn [mfor app]; [by intros [= ->]|]. unfold mbind, M_bind.
  destruct (body x s) as [[u|e|] s1]; [|done..]. apply IH.
Qed.

Lemma mfor_ext {S E A} (l : list A) (b1 b2 : A → M S E unit) s : (∀ x t, b1 x t = b2 x t) → mfor l b1 s = mfor l b2 s.
Proof.
  intros H. revert s. induction l as [|x l IH]; intros s; [done|]. cbn [mfor]. unfold mbind, M_bind. rewrite H.
  destruct (b2 x s) as [[u|e|] s1]; [apply IH|done..].
Qed.

(** ** Triples

    [hoare P m Q X]: started in [P], [m] does not panic; if it answers [Ok a] the
    state is in [Q a], and if it answers an error the state is in [X]. *)
Definition hoare {S E A} (P : S → Prop) (m : M S E A) (Q : A → S → Prop) (X : S → Prop) : Prop :=
  ∀ s, P s →
    match m s with
    | (Ok a, s') => Q a s'
    | (Err _, s') => X s'
    | (Panic, _) => False
    end.

Section hoare.
Context {S E : Type}.

Lemma hoare_ret {A} (P : S → Prop) (Q : A → S → Prop) X (a : A) :
  (∀ s, P s → Q a s) → hoare (E:=E) P (mret a) Q X.
Proof. intros H s Hs. by apply H. Qed.

Lemma hoare_bind {A B} P (m : M S E A) (k : A → M S E B) R Q X :
  hoare P m R X → (∀ a, hoare (R a) (k a) Q X) → hoare P (m ≫= k) Q X.
Proof.
  intros H1 H2 s Hs. unfold mbind, M_bind. specialize (H1 s Hs).
  destruct (m s) as [[a|e|] s']; [by apply H2|done..].
Qed.

Lemma hoare_weaken {A} (P P' : S → Prop) (m : M S E A) (Q Q' : A → S → Prop) (X X' : S → Prop) :
  hoare P' m Q' X' → (∀ s, P s → P' s) → (∀ a s, Q' a s → Q a s) → (∀ s, X' s → X s) →
  hoare P m Q X.
Proof.
  intros H HP HQ HX s Hs. specialize (H s (HP s Hs)). destruct (m s) as [[a|e|] s']; auto.
Qed.

Lemma hoare_throw {A} (P : S → Prop) (Q : A → S → Prop) (X : S → Prop) (e : E) :
  (∀ s, P s → X s) → hoare P (throw e) Q X.
Proof. intros H s Hs. by apply H. Qed.

(** A pure outcome: what it answers becomes part of the precondition. *)
Lemma hoare_lift {A} (P : S → Prop) (r : res E A) (Q : A → S → Prop) (X : S → Prop) :
  r ≠ Panic → (∀ a s, r = Ok a → P s → Q a s) → (∀ s, P s → X s) → hoare P (lift r) Q X.
Proof. intros Hr HQ HX s Hs. unfold lift. destruct r; [by apply HQ|by apply HX|done]. Qed.

Lemma hoare_lift_Ok {A B} (P : S → Prop) (r : res E A) a (k : A → M S E B) Q X :
  r = Ok a → hoare P (k a) Q X → hoare P (lift r ≫= k) Q X.
Proof. intros -> H. exact H. Qed.

Lemma hoare_pure {A} (φ : Prop) P (m : M S E A) Q X :
  (φ → hoare P m Q X) → hoare (λ s, φ ∧ P s) m Q X.
Proof. intros H s [Hφ Hs]. by apply H. Qed.

(** The loop rule: the invariant may mention the number of elements done. *)
Lemma hoare_mfor (I : nat → S → Prop) (body : nat → M S E unit) X j n :
  (∀ i, j ≤ i < j + n → hoare (I i) (body i) (λ _, I (i + 1)) X) →
  hoare (I j) (mfor (seq j n) body) (λ _, I (j + n)) X.
Proof.
  revert j. induction n as [|n IH]; intros j H; cbn [seq mfor].
  - apply hoare_ret. by rewrite Nat.add_0_r.
  - eapply hoare_bind; [apply H; lia|]. intros []. cbn beta.
    replace (j + Datatypes.S n) with ((j + 1) + n) by lia. rewrite Nat.add_1_r.
    apply IH. intros i Hi. apply H. lia.
Qed.
End hoare.

(** [returns P m Q]: every answer [m] gives from [P] is in [Q]; partial, for facts
    about a run that is known to have succeeded. *)
Definition returns {S E A} (P : S → Prop) (m : M S E A) (Q : A → S → Prop) : Prop :=
  ∀ s a s', P s → m s = (Ok a, s') → Q a s'.

Section returns.
Context {S E : Type}.

Lemma returns_bind {A B} (P : S → Prop) (m : M S E A) (k : A → M S E B) R Q :
  returns P m R → (∀ a, returns (R a) (k a) Q) → returns P (m ≫= k) Q.
Proof.
  intros H1 H2 s b s' Hs H. unfold mbind, M_bind in H. destruct (m s) as [[a|e|] s1] eqn:Hm; [|done..].
  exact (H2 a s1 b s' (H1 s a s1 Hs Hm) H).
Qed.

Lemma returns_mfor {A} (P : S → Prop) (l : list A) (body : A → M S E unit) :
  (∀ x, x ∈ l → returns P (body x) (λ _, P)) → returns P (mfor l body) (λ _, P).
Proof.
  intros H. induction l as [|x l IH]; [intros s a s' Hs R; by injection R as <- <-|]. eapply returns_bind; [apply H; left|]. intros u. apply IH.
  intros y Hy. apply H. by right.
Qed.

Lemma returns_mfor_seq (P : nat → S → Prop) (body : nat → M S E unit) a n :
  (∀ i, a ≤ i < a + n → returns (P i) (body i) (λ _, P (i + 1))) → returns (P a) (mfor (seq a n) body) (λ _, P (a + n)).
Proof.
  revert a. induction n as [|n IH]; intros a H; [intros s x s' Hs R; injection R as <- <-; by rewrite Nat.add_0_r|].
  cbn [seq mfor]. eapply returns_bind; [apply H; lia|]. intros u. rewrite Nat.add_1_r, <- Nat.add_succ_comm. apply IH. intros i Hi. apply H. lia.
Qed.

Lemma returns_lift {A} (P : S → Prop) (r : res E A) : returns P (lift r) (λ a s, r = Ok a ∧ P s).
Proof. intros s a s' Hs R. injection R as -> <-. done. Qed.

Lemma returns_pure {A} (φ : Prop) (P : S → Prop) (m : M S E A) Q : (φ → returns P m Q) → returns (λ s, φ ∧ P s) m Q.
Proof. intros H s a s' [Hφ Hs]. by apply H. Qed.

Lemma hoare_returns {A} (P : S → Prop) (m : M S E A) Q X : hoare P m Q X → returns P m Q.
Proof. intros H s a s' Hs R. specialize (H s Hs). by rewrite R in H. Qed.

(** What does not change the state. *)
Lemma returns_same {A} (P : S → Prop) (m : M S E A) : (∀ s a s', m s = (Ok a, s') → s' = s) → returns P m (λ _, P).
Proof. intros H s a s' Hs R. by rewrite (H _ _ _ R). Qed.
End returns.

(** ** Sums over lists *)
Fixpoint sumZ {A} (f : A → Z) (l : list A) : Z :=
  match l with
  | [] => 0%Z
  | x :: l' => (f x + sumZ f l')%Z
  end.

Lemma sumZ_insert {A} (f : A → Z) (l : list A) i x y :
  l !! i = Some y → sumZ f (<[i:=x]> l) = (sumZ f l - f y + f x)%Z.
Proof.
  revert i. induction l as [|z l IH]; intros [|i] H; simplify_eq/=; [lia|].
  rewrite (IH _ H). lia.
Qed.

Lemma sumZ_replicate {A} (f : A → Z) n x : sumZ f (replicate n x) = (Z.of_nat n * f x)%Z.
Proof. induction n as [|n IH]; simpl sumZ; [done|]. rewrite IH. lia. Qed.

Lemma sumZ_nonneg {A} (f : A → Z) (l : list A) :
  (∀ x, x ∈ l → (0 <= f x)%Z) → (0 <= sumZ f l)%Z.
Proof.
  induction l as [|z l IH]; intros H; simpl; [lia|].
  assert (0 <= f z)%Z by (apply H; left).
  assert (0 <= sumZ f l)%Z by (apply IH; intros; apply H; by right). lia.
Qed.

Lemma sumZ_lookup_le {A} (f : A → Z) (l : list A) i x :
  (∀ x, x ∈ l → (0 <= f x)%Z) → l !! i = Some x → (f x <= sumZ f l)%Z.
Proof.
  revert i. induction l as [|z l IH]; intros [|i] H Hi; simplify_eq/=.
  - assert (0 <= sumZ f l)%Z by (apply sumZ_nonneg; intros; apply H; by right). lia.
  - assert (0 <= f z)%Z by (apply H; left).
    assert (f x <= sumZ f l)%Z by (eapply IH; [intros; apply H; by right|done]). lia.
Qed.

Lemma sumZ_app {A} (f : A → Z) (l k : list A) : sumZ f (l ++ k) = (sumZ f l + sumZ f k)%Z.
Proof. induction l as [|x l IH]; simpl; [done|]. rewrite IH. lia. Qed.

Lemma sumZ_ext {A} (f : A → Z) (l k : list A) :
  (∀ i, f <$> l !! i = f <$> k !! i) → sumZ f l = sumZ f k.
Proof.
  revert k. induction l as [|x l IH]; intros [|y k] H; simpl; try done; try (by specialize (H 0)).
  pose proof (H 0) as H0. simpl in H0. injection H0 as ->. f_equal. apply IH.
  intros i. apply (H (S i)).
Qed.

Lemma sumZ_perm {A} (f : A → Z) (l k : list A) : l ≡ₚ k → sumZ f l = sumZ f k.
Proof. induction 1; simpl; lia. Qed.

(** Sums over the values of a finite map. *)
Definition msum {A} (f : A → Z) (m : gmap Z A) : Z := sumZ (λ kv, f kv.2) (map_to_list m).

Lemma msum_delete {A} (f : A → Z) (m : gmap Z A) i x :
  m !! i = Some x → msum f (delete i m) = (msum f m - f x)%Z.
Proof. intros H. unfold msum. rewrite <- (sumZ_perm _ _ _ (map_to_list_delete m i x H)). simpl. lia. Qed.

Lemma msum_insert {A} (f : A → Z) (m : gmap Z A) i x y :
  m !! i = Some x → msum f (<[i:=y]> m) = (msum f m - f x + f y)%Z.
Proof.
  intros H. rewrite <- insert_delete_eq. unfold msum.
  rewrite (sumZ_perm _ _ _ (map_to_list_insert (delete i m) i y (lookup_delete_eq m i))). simpl.
  fold (msum f (delete i m)). rewrite (msum_delete f m i x H). unfold msum. lia.
Qed.

Lemma msum_nonneg {A} (f : A → Z) (m : gmap Z A) : (∀ x, (0 <= f x)%Z) → (0 <= msum f m)%Z.
Proof. intros H. apply sumZ_nonneg. intros. apply H. Qed.

(** ** Counting by filters *)
Lemma filter_length_lt {A} (P Q : A → Prop) `{∀ x, Decision (P x), ∀ x, Decision (Q x)} (l : list A) x :
  (∀ y, P y → Q y) → x ∈ l → Q x → ¬ P x → length (filter P l) < length (filter Q l).
Proof.
  intros HPQ Hx HQ HP. induction l as [|y l IH]; [by apply not_elem_of_nil in Hx|].
  assert (length (filter P l) ≤ length (filter Q l)) as Hle.
  { clear Hx IH. induction l as [|z l IH]; [done|]. rewrite !filter_cons.
    repeat case_decide; simpl; try lia. exfalso; eauto. }
  apply elem_of_cons in Hx as [<-|Hx]; rewrite !filter_cons.
  - rewrite decide_False, decide_True by done. simpl. lia.
  - specialize (IH Hx). repeat case_decide; simpl; try lia. exfalso; eauto.
Qed.

Lemma filter_length_le {A} (P : A → Prop) `{∀ x, Decision (P x)} (l : list A) :
  length (filter P l) ≤ length l.
Proof. apply length_filter. Qed.

Lemma omap_length_le {A C} (f : A → option C) (l : list A) : length (omap f l) ≤ length l.
Proof.
  induction l as [|x l IH]; [done|]. cbn. destruct (f x); cbn [length].
  - by apply le_n_S.
  - by apply le_S.
Qed.

(** ** Bits *)
Lemma land_idemp_absorb a b c :
  Z.land b a = a → Z.land c b = b → Z.land c a = a.
Proof. intros H1 H2. rewrite <- H1 at 1. rewrite Z.land_assoc, H2. done. Qed.

(** ** Bytes

    A byte string is a list of integers in [0, 256); multi-byte integers are
    little-endian on both targets and on the wire. *)
Abbreviation bytes := (list Z).

Fixpoint to_le (n : nat) (v : Z) : bytes :=
  match n with
  | O => []
  | S n' => (v mod 256)%Z :: to_le n' (v / 256)
  end.
Fixpoint from_le (l : bytes) : Z :=
  match l with
  | [] => 0%Z
  | x :: l' => (x + 256 * from_le l')%Z
  end.

Definition byte_list (b : bytes) : Prop := Forall (λ x, 0 <= x < 256)%Z b.

Lemma byte_list_check b : forallb (fits 8) b = true → byte_list b.
Proof.
  rewrite forallb_forall. intros H. apply Forall_forall. intros x Hx.
  apply list_elem_of_In in Hx. apply H, fits_spec in Hx. done.
Qed.

Lemma to_le_length n v : length (to_le n v) = n.
Proof. revert v. induction n as [|n IH]; intros v; simpl; [done|]. by rewrite IH. Qed.

Lemma from_to_le n v : (0 <= v < 256 ^ Z.of_nat n)%Z → from_le (to_le n v) = v.
Proof.
  revert v. induction n as [|n IH]; intros v Hv; [simpl in *; lia|].
  cbn [to_le from_le]. rewrite IH; [pose proof (Z.div_mod v 256); lia|].
  rewrite Nat2Z.inj_succ, Z.pow_succ_r in Hv by lia. split; [apply Z.div_pos; lia|].
  apply Z.div_lt_upper_bound; lia.
Qed.

Lemma from_le_bound l : byte_list l → (0 <= from_le l < 256 ^ Z.of_nat (length l))%Z.
Proof.
  induction 1 as [|x l Hx _ IH]; [simpl; lia|]. cbn [from_le length].
  rewrite Nat2Z.inj_succ, Z.pow_succ_r by lia. lia.
Qed.
