(* ===== verification/Rights.v ===== *)
(** * Capability rights ([cap-core/src/rights.rs])

    [Rights] is declared with the [bitflags!] macro of the [bitflags] crate.
    That crate is not part of the repository: the three generated methods the
    kernel calls are the class [Bitflags], whose laws are the crate's
    documented behaviour.  [bitflags_u32] is the instance that computes. *)

From S2P Require Import Prelude.

(** [a.contains(b)], [a | b] and [T::from_bits(bits)] (for the mask of all
    declared flags), on the underlying [u32]. *)
Class Bitflags := {
  bf_contains : Z → Z → bool;
  bf_union : Z → Z → Z;
  bf_from_bits : Z → Z → option Z;
  bf_contains_spec : ∀ a b, bf_contains a b = true ↔ Z.land a b = b;
  bf_union_spec : ∀ a b, bf_union a b = Z.lor a b;
  bf_from_bits_spec : ∀ all bits,
    bf_from_bits all bits = if decide (Z.land bits all = bits) then Some bits else None
}.

#[export, refine] Instance bitflags_u32 : Bitflags := {
  bf_contains a b := (Z.land a b =? b)%Z;
  bf_union := Z.lor;
  bf_from_bits all bits := if decide (Z.land bits all = bits) then Some bits else None
}.
Proof.
  - intros a b. apply Z.eqb_eq.
  - done.
  - done.
Defined.

Section rights.
Context {BF : Bitflags}.

Definition READ : Z := 1.
Definition WRITE : Z := 2.
Definition EXECUTE : Z := 4.
Definition MAP : Z := 8.
Definition GRANT : Z := 16.
Definition RETYPE : Z := 32.
Definition SEND : Z := 64.
Definition RECV : Z := 128.
Definition SIGNAL : Z := 256.
Definition DERIVE : Z := 512.
Definition ENTER : Z := 1024.
Definition WAIT : Z := 2048.

(** [Rights::empty()] and [Rights::all()]. *)
Definition rights_empty : Z := 0.
Definition ALL : Z := 4095.

(** [Rights::subset_of] *)
Definition subset_of (self parent : Z) : bool := bf_contains parent self.

Lemma subset_of_spec a b : subset_of a b = true ↔ Z.land b a = a.
Proof. unfold subset_of. apply bf_contains_spec. Qed.

Lemma subset_of_trans a b c :
  subset_of a b = true → subset_of b c = true → subset_of a c = true.
Proof. rewrite !subset_of_spec. apply land_idemp_absorb. Qed.

Lemma subset_of_refl a : subset_of a a = true.
Proof. apply subset_of_spec. apply Z.land_diag. Qed.

(** A right held by a derived capability is held by its source. *)
Lemma contains_subset a b r :
  subset_of a b = true → bf_contains a r = true → bf_contains b r = true.
Proof. intros H1 H2. eapply subset_of_trans; [exact H2|exact H1]. Qed.
End rights.

Create HintDb rights.
#[export] Hint Resolve subset_of_refl : rights.
#[export] Hint Resolve subset_of_trans contains_subset : rights.
