(* ===== verification/Cap.v ===== *)
(** * The capability record and its typed handle ([cap-core/src/cap.rs]) *)

From S2P Require Import Prelude Rights.

(** ** Object classes *)
Inductive CapType :=
| Null
| Untyped
| Frame
| CNode
| Endpoint
| Notification
| Task
| Sched
| Reply
| AddrSpace
| VSpace
| FNode
| Device
| IrqControl
| Domain
| SharedRo.

#[export] Instance CapType_eq_dec : EqDecision CapType.
Proof. solve_decision. Defined.
#[export] Instance CapType_inhabited : Inhabited CapType := populate Null.

(** [cap_type as u8]: the discriminants of the [#[repr(u8)]] enum. *)
Definition cap_type_u8 (t : CapType) : Z :=
  match t with
  | Null => 0 | Untyped => 1 | Frame => 2 | CNode => 3
  | Endpoint => 4 | Notification => 5 | Task => 6 | Sched => 7
  | Reply => 8 | AddrSpace => 9 | VSpace => 10 | FNode => 11
  | Device => 12 | IrqControl => 13 | Domain => 14 | SharedRo => 15
  end.

#[export] Instance cap_type_u8_inj : Inj (=) (=) cap_type_u8.
Proof. intros [] []; done. Qed.

(** [a as u8 == b as u8] *)
Definition same_type (a b : CapType) : bool := (cap_type_u8 a =? cap_type_u8 b)%Z.

Lemma same_type_spec a b : same_type a b = true ↔ a = b.
Proof.
  unfold same_type. rewrite Z.eqb_eq. split; [apply (inj cap_type_u8)|by intros ->].
Qed.

(** [a == b] on the derived [PartialEq] *)
Definition is_type (a b : CapType) : bool := bool_decide (a = b).

Lemma is_type_true a b : is_type a b = true ↔ a = b.
Proof. unfold is_type. by rewrite bool_decide_eq_true. Qed.
Lemma is_type_false a b : is_type a b = false ↔ a ≠ b.
Proof. unfold is_type. by rewrite bool_decide_eq_false. Qed.

(** ** The type-erased record *)
Record RawCap := mkRawCap {
  cap_type : CapType;
  rights : Z;      (* u32 bits *)
  objref : Z;      (* u64 *)
  size : Z;        (* u32 *)
  watermark : Z;   (* u32 *)
  aux : Z;         (* u32 *)
  badge : Z        (* u64 *)
}.

#[export] Instance RawCap_eq_dec : EqDecision RawCap.
Proof. solve_decision. Defined.

Definition RawCap_NULL : RawCap := mkRawCap Null rights_empty 0 0 0 0 0.
#[export] Instance RawCap_inhabited : Inhabited RawCap := populate RawCap_NULL.

Definition is_null (c : RawCap) : bool := match cap_type c with Null => true | _ => false end.

Lemma is_null_true c : is_null c = true ↔ cap_type c = Null.
Proof. unfold is_null. by destruct (cap_type c). Qed.
Lemma is_null_false c : is_null c = false ↔ cap_type c ≠ Null.
Proof. unfold is_null. by destruct (cap_type c). Qed.

(** Every field within its declared width. *)
Definition RawCap_wf (c : RawCap) : Prop :=
  in_u 32 (rights c) ∧ in_u 64 (objref c) ∧ in_u 32 (size c) ∧
  in_u 32 (watermark c) ∧ in_u 32 (aux c) ∧ in_u 64 (badge c).

(** Struct update syntax [RawCap { rights, badge, ..s }] *)
Definition with_rights_badge (s : RawCap) (r b : Z) : RawCap :=
  mkRawCap (cap_type s) r (objref s) (size s) (watermark s) (aux s) b.
(** Assignments [cap.watermark = w] and [cap.size = n]. *)
Definition set_watermark (s : RawCap) (w : Z) : RawCap :=
  mkRawCap (cap_type s) (rights s) (objref s) (size s) w (aux s) (badge s).
Definition set_size (s : RawCap) (n : Z) : RawCap :=
  mkRawCap (cap_type s) (rights s) (objref s) n (watermark s) (aux s) (badge s).

(** ** Typed handles

    The zero-sized markers of [object_types!] and the trait that ties each to
    its tag. *)
Class ObjectType (T : Type) := TYPE : CapType.

Module Obj.
Inductive Untyped := untyped.
Inductive Frame := frame.
Inductive CNode := cnode.
Inductive Endpoint := endpoint.
Inductive Notification := notification.
Inductive Task := task.
Inductive Sched := sched.
Inductive Reply := reply.
Inductive AddrSpace := addrspace.
Inductive VSpace := vspace.
Inductive FNode := fnode.
Inductive Device := device.
Inductive IrqControl := irqcontrol.
Inductive Domain := domain.
Inductive SharedRo := sharedro.
End Obj.

#[export] Instance Untyped_type : ObjectType Obj.Untyped := Untyped.
#[export] Instance Frame_type : ObjectType Obj.Frame := Frame.
#[export] Instance CNode_type : ObjectType Obj.CNode := CNode.
#[export] Instance Endpoint_type : ObjectType Obj.Endpoint := Endpoint.
#[export] Instance Notification_type : ObjectType Obj.Notification := Notification.
#[export] Instance Task_type : ObjectType Obj.Task := Task.
#[export] Instance Sched_type : ObjectType Obj.Sched := Sched.
#[export] Instance Reply_type : ObjectType Obj.Reply := Reply.
#[export] Instance AddrSpace_type : ObjectType Obj.AddrSpace := AddrSpace.
#[export] Instance VSpace_type : ObjectType Obj.VSpace := VSpace.
#[export] Instance FNode_type : ObjectType Obj.FNode := FNode.
#[export] Instance Device_type : ObjectType Obj.Device := Device.
#[export] Instance IrqControl_type : ObjectType Obj.IrqControl := IrqControl.
#[export] Instance Domain_type : ObjectType Obj.Domain := Domain.
#[export] Instance SharedRo_type : ObjectType Obj.SharedRo := SharedRo.

Record Cap (T : Type) := mkCap { raw : RawCap }.
Arguments mkCap {T} raw.
Arguments raw {T} c.

(** [Cap::fabricate]; its [debug_assert!] is compiled out of the release image. *)
Definition fabricate {T} `{ObjectType T} (r : RawCap) : Cap T := mkCap r.
Definition cap_rights {T} (c : Cap T) : Z := rights (raw c).
Definition cap_objref {T} (c : Cap T) : Z := objref (raw c).
Definition cap_badge {T} (c : Cap T) : Z := badge (raw c).
Definition allows {BF : Bitflags} {T} (c : Cap T) (r : Z) : bool := bf_contains (rights (raw c)) r.
Definition to_raw {T} (c : Cap T) : RawCap := raw c.
