(* ===== verification/Budget.v ===== *)
(** * CPU time as a capability: the budget model ([cap-core/src/sched.rs]) *)

From S2P Require Import Prelude Rights Cap.

Record Budget := mkBudget {
  capacity : Z;   (* u32 *)
  consumed : Z;   (* u32 *)
  period : Z      (* u32 *)
}.

#[export] Instance Budget_eq_dec : EqDecision Budget.
Proof. solve_decision. Defined.
#[export] Instance Budget_inhabited : Inhabited Budget := populate (mkBudget 0 0 0).

Definition budget_new (cap per : Z) : Budget := mkBudget cap 0 per.

Definition from_cap (c : RawCap) : Budget := mkBudget (size c) (watermark c) (aux c).

Definition write_into (b : Budget) (c : RawCap) : RawCap :=
  mkRawCap (cap_type c) (rights c) (objref c) (capacity b) (consumed b) (period b) (badge c).

Definition is_depleted (b : Budget) : bool := (capacity b <=? consumed b)%Z.

Definition remaining (b : Budget) : Z := sat_sub (capacity b) (consumed b).

Definition charge (b : Budget) (n : Z) : Budget :=
  mkBudget (capacity b) (sat_add 32 (consumed b) n) (period b).

Definition replenish (b : Budget) : Budget := mkBudget (capacity b) 0 (period b).

(** [Budget::split]: the new [self] and the child.  [self.capacity -= amount]
    cannot underflow once the guard has passed. *)
Definition budget_split (b : Budget) (amount : Z) : option (Budget * Budget) :=
  if (amount =? 0)%Z || (remaining b <? amount)%Z then None
  else Some (mkBudget (capacity b - amount) (consumed b) (period b),
             mkBudget amount 0 (period b)).

(** [Budget::delegate]: [None] is the answer [false] that leaves both alone. *)
Definition budget_delegate (b dst : Budget) (amount : Z) : option (Budget * Budget) :=
  if (amount =? 0)%Z || (remaining b <? amount)%Z then None
  else match checked 32 (capacity dst + amount) with
       | None => None
       | Some credited =>
           Some (mkBudget (capacity b - amount) (consumed b) (period b),
                 mkBudget credited (consumed dst) (period dst))
       end.

Definition Budget_wf (b : Budget) : Prop :=
  in_u 32 (capacity b) ∧ in_u 32 (consumed b) ∧ in_u 32 (period b).

Lemma from_write_cap b c : from_cap (write_into b c) = b.
Proof. by destruct b. Qed.

Lemma write_from_cap c : write_into (from_cap c) c = c.
Proof. by destruct c. Qed.

Lemma is_depleted_remaining b : (0 <= remaining b)%Z ∧ (is_depleted b = true ↔ remaining b = 0%Z).
Proof. unfold is_depleted, remaining, sat_sub. rewrite Z.leb_le. lia. Qed.

Lemma budget_split_Some b amount b' c :
  (0 <= amount)%Z →
  budget_split b amount = Some (b', c) →
  (0 < amount)%Z ∧ (amount <= capacity b - consumed b)%Z ∧
  b' = mkBudget (capacity b - amount) (consumed b) (period b) ∧
  c = mkBudget amount 0 (period b).
Proof.
  unfold budget_split, remaining, sat_sub. intros Hp H. case_match; simplify_eq.
  apply orb_false_iff in H0 as [?%Z.eqb_neq ?%Z.ltb_ge]. repeat split; lia.
Qed.

Lemma budget_delegate_Some b d amount b' d' :
  (0 <= amount)%Z →
  budget_delegate b d amount = Some (b', d') →
  (0 < amount)%Z ∧ (amount <= capacity b - consumed b)%Z ∧
  in_u 32 (capacity d + amount) ∧
  b' = mkBudget (capacity b - amount) (consumed b) (period b) ∧
  d' = mkBudget (capacity d + amount) (consumed d) (period d).
Proof.
  unfold budget_delegate, remaining, sat_sub. intros Hp H. repeat case_match; simplify_eq.
  apply orb_false_iff in H0 as [?%Z.eqb_neq ?%Z.ltb_ge].
  match goal with H : checked _ _ = _ |- _ => apply checked_Some in H as [? ->] end.
  repeat split; unfold in_u in *; lia.
Qed.
