(* ===== verification/CSpace.v ===== *)
(** * The capability space: state and operations ([cap-core/src/cspace.rs])

    A single-level CSpace of [N] slots with a parent link per slot (the MDB).
    [N] is [length (slots cs)]; a parent link that the source compares with
    [NIL = usize::MAX] is [None] here, which no slot index can equal because an
    array is shorter than [usize::MAX].  The object-zeroing hook [zero] is a
    function pointer supplied by the kernel: its calls are recorded, in order,
    in [zlog].  [debug_assert!] is compiled out of the kernel image. *)

From S2P Require Import Prelude Rights Cap Budget.

Inductive CapError :=
| OutOfBounds
| EmptySlot
| WrongType
| SlotOccupied
| InsufficientRights
| OutOfBudget.

#[export] Instance CapError_eq_dec : EqDecision CapError.
Proof. solve_decision. Defined.

Record Cte := mkCte { cap : RawCap; parent : option nat }.

#[export] Instance Cte_eq_dec : EqDecision Cte.
Proof. solve_decision. Defined.

Definition Cte_EMPTY : Cte := mkCte RawCap_NULL None.
#[export] Instance Cte_inhabited : Inhabited Cte := populate Cte_EMPTY.

Record CSpace := mkCSpace {
  slots : list Cte;
  next_obj : Z;              (* u64 *)
  zlog : list (Z * Z)        (* calls (frame, frames) of the zeroing hook *)
}.

Abbreviation CM := (M CSpace CapError).

(** [CSpace::<N>::new(zero)] *)
Definition cspace_new (N : nat) : CSpace := mkCSpace (replicate N Cte_EMPTY) 1 [].

(** [self.slots[i] = e] *)
Definition set_slot (i : nat) (e : Cte) : CM unit := λ cs,
  if decide (i < length (slots cs))
  then (Ok (), mkCSpace (<[i:=e]> (slots cs)) (next_obj cs) (zlog cs))
  else (Panic, cs).

(** [self.next_obj += 1] *)
Definition bump_next_obj : CM unit := λ cs,
  match arith (E:=CapError) 64 (next_obj cs + 1) with
  | Ok n => (Ok (), mkCSpace (slots cs) n (zlog cs))
  | _ => (Panic, cs)
  end.

(** [(self.zero)(frame, frames)] *)
Definition zero (frame frames : Z) : CM unit := λ cs,
  (Ok (), mkCSpace (slots cs) (next_obj cs) (zlog cs ++ [(frame, frames)])).

(** [self.slots[i]] and the assignment of its [cap] field. *)
Definition slot (cs : CSpace) (i : nat) : res CapError Cte := index (slots cs) i.
Definition set_cap (i : nat) (c : RawCap) : CM unit :=
  e ← reads (λ cs, slot cs i);
  set_slot i (mkCte c (parent e)).

Section ops.
Context {BF : Bitflags}.

(** ** Boot-time installation of root capabilities *)

Definition set_root_untyped (base frames : Z) : CM unit :=
  set_slot 0 (mkCte (mkRawCap Untyped RETYPE base frames 0 0 0) None).

Definition set_root_sched (s : nat) (budget per : Z) : CM unit :=
  cs ← get;
  let obj := next_obj cs in
  bump_next_obj;;
  set_slot s (mkCte (mkRawCap Sched (bf_union DERIVE GRANT) obj budget 0 per 0) None).

Definition set_root_domain (s : nat) (domain_id : Z) : CM unit :=
  set_slot s (mkCte (mkRawCap Domain ENTER domain_id 0 0 0 0) None).

Definition install_notification (s : nat) (notif_id r : Z) : CM unit :=
  set_slot s (mkCte (mkRawCap Notification r notif_id 0 0 0 0) None).

Definition install_shared_ro (s : nat) (base_pfn frames va : Z) : CM unit :=
  set_slot s (mkCte (mkRawCap SharedRo READ base_pfn frames 0
                       (wrap 32 (Z.shiftr va 12)) 0) None).

Definition install_frame (s : nat) (base_pfn frames r : Z) : CM unit :=
  set_slot s (mkCte (mkRawCap Frame r base_pfn frames 0 0 0) None).

(** ** Resolution *)

Definition live (cs : CSpace) (c : nat) : res CapError RawCap :=
  if decide (length (slots cs) ≤ c) then Err OutOfBounds else
  e ← slot cs c;
  if is_null (cap e) then Err EmptySlot else Ok (cap e).

Definition resolve (cs : CSpace) (c : nat) : res CapError RawCap := live cs c.

Definition get_cap (T : Type) `{ObjectType T} (cs : CSpace) (c : nat) : res CapError (Cap T) :=
  r ← live cs c;
  if negb (same_type (cap_type r) (TYPE (T:=T))) then Err WrongType
  else Ok (fabricate r).

Definition shared_ro_region (cs : CSpace) (c : nat) : res CapError Z :=
  s ← live cs c;
  if negb (is_type (cap_type s) SharedRo) then Err WrongType else
  if negb (bf_contains (rights s) READ) then Err InsufficientRights else
  Ok (wrap 64 (Z.shiftl (aux s) 12)).

Definition enter_domain (cs : CSpace) (c : nat) : res CapError Z :=
  d ← live cs c;
  if negb (is_type (cap_type d) Domain) then Err WrongType else
  if negb (bf_contains (rights d) ENTER) then Err InsufficientRights else
  Ok (objref d).

(** ** Internals *)

Definition cte_ref (cs : CSpace) (c : nat) : res CapError Cte :=
  if decide (length (slots cs) ≤ c) then Err OutOfBounds else
  e ← slot cs c;
  if is_null (cap e) then Err EmptySlot else Ok e.

Definition place (dest : nat) (c : RawCap) (p : option nat) : CM unit :=
  cs ← get;
  if decide (length (slots cs) ≤ dest) then throw OutOfBounds else
  e ← reads (λ cs, slot cs dest);
  if negb (is_null (cap e)) then throw SlotOccupied else
  set_slot dest (mkCte c p).

Definition has_children (cs : CSpace) (d : nat) : bool :=
  existsb (λ e, negb (is_null (cap e)) && bool_decide (parent e = Some d)) (slots cs).

(** [for _ in 0..=N { .. }] walks at most [N + 1] parent links. *)
Fixpoint descendant_loop (fuel : nat) (cs : CSpace) (d ancestor : nat) : res CapError bool :=
  match fuel with
  | O => Ok false
  | S fuel' =>
      e ← slot cs d;
      match parent e with
      | None => Ok false
      | Some p => if decide (p = ancestor) then Ok true
                  else descendant_loop fuel' cs p ancestor
      end
  end.

Definition is_descendant (cs : CSpace) (start ancestor : nat) : res CapError bool :=
  descendant_loop (S (length (slots cs))) cs start ancestor.

(** Types whose last capability is destroyed without zeroing anything. *)
Definition unzeroed_type (t : CapType) : bool :=
  match t with
  | Untyped | Sched | Reply | Domain | SharedRo => true
  | _ => false
  end.

(** [p.size = p.size.saturating_add(cap.size)] on a [Sched] parent. *)
Definition credit_parent (c : RawCap) (p : option nat) : CM unit :=
  match p with
  | Some p =>
      if is_type (cap_type c) Sched then
        e ← reads (λ cs, slot cs p);
        if is_type (cap_type (cap e)) Sched
        then set_slot p (mkCte (set_size (cap e) (sat_add 32 (size (cap e)) (size c))) (parent e))
        else mret ()
      else mret ()
  | None => mret ()
  end.

Definition another_cap (cs : CSpace) (c : RawCap) : bool :=
  existsb (λ e, negb (is_null (cap e)) && same_type (cap_type (cap e)) (cap_type c)
                && (objref (cap e) =? objref c)%Z) (slots cs).

Definition destroy_slot (d : nat) : CM unit :=
  e ← reads (λ cs, slot cs d);
  if is_null (cap e) then mret () else
  set_slot d Cte_EMPTY;;
  credit_parent (cap e) (parent e);;
  cs ← get;
  if negb (another_cap cs (cap e)) && negb (unzeroed_type (cap_type (cap e)))
  then zero (objref (cap e)) (size (cap e))
  else mret ().

(** ** Derivation *)

Definition is_retypeable (t : CapType) : bool :=
  match t with
  | Null | Untyped | Reply | IrqControl | Sched | Domain | SharedRo => false
  | _ => true
  end.

Definition default_rights (t : CapType) : Z :=
  match t with
  | Untyped => RETYPE
  | Frame => bf_union (bf_union (bf_union (bf_union READ WRITE) MAP) GRANT) DERIVE
  | CNode => bf_union DERIVE GRANT
  | Endpoint => bf_union (bf_union (bf_union SEND RECV) GRANT) DERIVE
  | Notification => bf_union (bf_union SIGNAL RECV) DERIVE
  | _ => DERIVE
  end.

(** The two loop bodies of [retype]: the occupancy check of one destination,
    and the commit of one object (zeroed before its capability exists). *)
Definition dest_free (dest_start i : nat) : CM unit :=
  e ← reads (λ cs, slot cs (dest_start + i));
  if negb (is_null (cap e)) then throw SlotOccupied else mret ().

Definition retype_obj (ut : nat) (new_type : CapType) (frames_per_obj base : Z)
    (dest_start i : nat) : CM unit :=
  off ← lift (arith 32 (wrap 32 (Z.of_nat i) * frames_per_obj));
  obj ← lift (arith 64 (base + off));
  zero obj frames_per_obj;;
  set_slot (dest_start + i)
    (mkCte (mkRawCap new_type (default_rights new_type) obj frames_per_obj 0 0 0) (Some ut)).

Definition retype (ut : nat) (new_type : CapType) (frames_per_obj count : Z)
    (dest_start : nat) : CM unit :=
  u ← reads (λ cs, live cs ut);
  if negb (is_type (cap_type u) Untyped) then throw WrongType else
  if negb (bf_contains (rights u) RETYPE) then throw InsufficientRights else
  if negb (is_retypeable new_type) then throw WrongType else
  if (frames_per_obj =? 0)%Z || (count =? 0)%Z then throw OutOfBudget else
  need ← lift (ok_or (checked 32 (frames_per_obj * count)) OutOfBudget);
  avail ← lift (arith 32 (size u - watermark u));
  if (avail <? need)%Z then throw OutOfBudget else
  fin ← lift (ok_or (checked 64 (Z.of_nat dest_start + count)) OutOfBounds);
  cs ← get;
  if (Z.of_nat (length (slots cs)) <? fin)%Z then throw OutOfBounds else
  mfor (seq 0 (Z.to_nat count)) (dest_free dest_start);;
  base ← lift (arith 64 (objref u + watermark u));
  w ← lift (arith 32 (watermark u + need));
  set_cap ut (set_watermark u w);;
  mfor (seq 0 (Z.to_nat count)) (retype_obj ut new_type frames_per_obj base dest_start).

(** The types COPY and MINT refuse. *)
Definition non_duplicable (t : CapType) : bool :=
  match t with
  | Untyped | Sched | Reply | Domain | SharedRo => true
  | _ => false
  end.

Definition mint (src dest : nat) (new_rights b : Z) : CM unit :=
  s ← reads (λ cs, live cs src);
  if non_duplicable (cap_type s) then throw InsufficientRights else
  if negb (bf_contains (rights s) DERIVE) then throw InsufficientRights else
  if negb (subset_of new_rights (rights s)) then throw InsufficientRights else
  place dest (with_rights_badge s new_rights b) (Some src).

Definition copy (src dest : nat) : CM unit :=
  s ← reads (λ cs, live cs src);
  if non_duplicable (cap_type s) then throw InsufficientRights else
  if negb (bf_contains (rights s) DERIVE) then throw InsufficientRights else
  e ← reads (λ cs, slot cs src);
  let p := match parent e with None => src | Some q => q end in
  place dest s (Some p).

(** [for k in 0..N { if self.slots[k].parent == src { .. = dest } }] *)
Definition reparent (src dest : nat) (e : Cte) : Cte :=
  if bool_decide (parent e = Some src) then mkCte (cap e) (Some dest) else e.

Definition move_cap (src dest : nat) : CM unit :=
  e ← reads (λ cs, cte_ref cs src);
  if decide (dest = src) then mret () else
  cs ← get;
  if decide (length (slots cs) ≤ dest) then throw OutOfBounds else
  d ← reads (λ cs, slot cs dest);
  if negb (is_null (cap d)) then throw SlotOccupied else
  modify (λ cs, mkCSpace (reparent src dest <$> slots cs) (next_obj cs) (zlog cs));;
  set_slot dest e;;
  set_slot src Cte_EMPTY.

(** ** CPU-time budgets *)

Definition split (src dest : nat) (amount : Z) : CM unit :=
  s ← reads (λ cs, live cs src);
  if negb (is_type (cap_type s) Sched) then throw WrongType else
  if negb (bf_contains (rights s) DERIVE) then throw InsufficientRights else
  pc ← lift (ok_or (budget_split (from_cap s) amount) OutOfBudget);
  let '(par, child) := pc : Budget * Budget in
  cs ← get;
  place dest (mkRawCap Sched (rights s) (next_obj cs)
                (capacity child) (consumed child) (period child) 0) (Some src);;
  e ← reads (λ cs, slot cs src);
  set_cap src (write_into par (cap e));;
  bump_next_obj.

Definition delegate (src dest : nat) (amount : Z) : CM unit :=
  if decide (src = dest) then mret () else
  s ← reads (λ cs, live cs src);
  d ← reads (λ cs, live cs dest);
  if negb (is_type (cap_type s) Sched) || negb (is_type (cap_type d) Sched)
  then throw WrongType else
  if negb (bf_contains (rights s) DERIVE) then throw InsufficientRights else
  match budget_delegate (from_cap s) (from_cap d) amount with
  | None => throw OutOfBudget
  | Some (sb, db) =>
      es ← reads (λ cs, slot cs src);
      set_cap src (write_into sb (cap es));;
      ed ← reads (λ cs, slot cs dest);
      set_cap dest (write_into db (cap ed))
  end.

(** ** Reply authority *)

Definition mint_reply (dest : nat) (caller b : Z) : CM unit :=
  place dest (mkRawCap Reply rights_empty caller 0 0 0 b) None.

Definition consume_reply (dest : nat) : CM Z :=
  r ← reads (λ cs, live cs dest);
  if negb (is_type (cap_type r) Reply) then throw WrongType else
  destroy_slot dest;;
  mret (objref r).

(** ** Revocation *)

(** The predicate of the [find] in [revoke]: a live leaf below [c]. *)
Definition leaf_below (cs : CSpace) (c d : nat) : res CapError bool :=
  if decide (d = c) then Ok false else
  e ← slot cs d;
  if is_null (cap e) then Ok false else
  b ← is_descendant cs d c;
  if negb b then Ok false else Ok (negb (has_children cs d)).

Definition find_leaf (cs : CSpace) (c : nat) : res CapError (option nat) :=
  rfind (leaf_below cs c) (seq 0 (length (slots cs))).

Fixpoint revoke_loop (fuel : nat) (c : nat) : CM unit :=
  match fuel with
  | O => panic
  | S fuel' =>
      o ← reads (λ cs, find_leaf cs c);
      match o with
      | None => mret ()
      | Some d => destroy_slot d;; revoke_loop fuel' c
      end
  end.

Definition revoke (c : nat) : CM unit :=
  reads (λ cs, live cs c);;
  cs ← get;
  revoke_loop (S (length (slots cs))) c;;
  e ← reads (λ cs, slot cs c);
  if is_type (cap_type (cap e)) Untyped
  then set_cap c (set_watermark (cap e) 0)
  else mret ().

Definition delete (c : nat) : CM unit :=
  revoke c;;
  destroy_slot c.

(** ** GRANT over IPC: transfer between two CSpaces *)

Inductive GrantMode := GMove | GMint.

Definition not_grantable (t : CapType) : bool :=
  match t with Reply | SharedRo => true | _ => false end.
Definition not_mint_grantable (t : CapType) : bool :=
  match t with Untyped | Sched | Domain => true | _ => false end.
Definition is_move (m : GrantMode) : bool := match m with GMove => true | GMint => false end.

Definition grant (src_slot dst_slot : nat) (new_rights b : Z) (mode : GrantMode)
    : M (CSpace * CSpace) CapError unit :=
  s ← reads (λ st, live st.1 src_slot);
  if not_grantable (cap_type s) then throw InsufficientRights else
  if negb (is_move mode) && not_mint_grantable (cap_type s) then throw InsufficientRights else
  if negb (bf_contains (rights s) GRANT) then throw InsufficientRights else
  if negb (subset_of new_rights (rights s)) then throw InsufficientRights else
  st ← get;
  if is_move mode && has_children st.1 src_slot then throw InsufficientRights else
  on_snd (place dst_slot (with_rights_badge s new_rights b) None);;
  if is_move mode then on_fst (set_slot src_slot Cte_EMPTY) else mret ().
End ops.

(** ** Sequences of operations *)

Inductive cap_op :=
| ORetype (ut : nat) (t : CapType) (frames count : Z) (dest : nat)
| OMint (src dest : nat) (r b : Z)
| OCopy (src dest : nat)
| OMove (src dest : nat)
| OSplit (src dest : nat) (amount : Z)
| ODelegate (src dest : nat) (amount : Z)
| OMintReply (dest : nat) (caller b : Z)
| OConsumeReply (dest : nat)
| ORevoke (c : nat)
| ODelete (c : nat).

Definition run_op {BF : Bitflags} (o : cap_op) : CM unit :=
  match o with
  | ORetype ut t f n d => retype ut t f n d
  | OMint s d r b => mint s d r b
  | OCopy s d => copy s d
  | OMove s d => move_cap s d
  | OSplit s d a => split s d a
  | ODelegate s d a => delegate s d a
  | OMintReply d k b => mint_reply d k b
  | OConsumeReply d => consume_reply d;; mret ()
  | ORevoke c => revoke c
  | ODelete c => delete c
  end.

(** The arguments are values of their Rust types. *)
Definition op_args (o : cap_op) : Prop :=
  match o with
  | ORetype _ _ f n _ => in_u 32 f ∧ in_u 32 n
  | OMint _ _ r b => in_u 32 r ∧ in_u 64 b
  | OSplit _ _ a | ODelegate _ _ a => in_u 32 a
  | OMintReply _ k b => in_u 64 k ∧ in_u 64 b
  | _ => True
  end.
