(* ===== verification/CSpaceInv.v ===== *)
(** * The invariant of the capability space

    [wf] is what every CSpace operation relies on and re-establishes: empty
    slots are exactly [Cte::EMPTY], parent links never dangle, the derivation
    forest is acyclic, every child is a legal derivation of its parent
    (same object, rights no wider; a retyped object inside the consumed part of
    its [Untyped]; a [Sched] below a [Sched]) and every field has its width. *)

From S2P Require Import Prelude Rights Cap Budget CSpace.

(** ** Final states of the primitives *)
Definition upd_slot (i : nat) (e : Cte) (cs : CSpace) : CSpace :=
  mkCSpace (<[i:=e]> (slots cs)) (next_obj cs) (zlog cs).
Definition upd_next (n : Z) (cs : CSpace) : CSpace := mkCSpace (slots cs) n (zlog cs).
Definition add_zero (f n : Z) (cs : CSpace) : CSpace :=
  mkCSpace (slots cs) (next_obj cs) (zlog cs ++ [(f, n)]).

(** ** The derivation forest *)
Definition parent_of (cs : CSpace) (k p : nat) : Prop :=
  ∃ e, slots cs !! k = Some e ∧ parent e = Some p.
(** [k] lies strictly below [a]. *)
Abbreviation below cs := (tc (parent_of cs)).
Definition holds (cs : CSpace) (k : nat) (c : RawCap) : Prop :=
  cap_type c ≠ Null ∧ ∃ p, slots cs !! k = Some (mkCte c p).

Section inv.
Context {BF : Bitflags}.

(** [c] is a legal derivation child of [pc]. *)
Definition child_ok (pc c : RawCap) : Prop :=
  match cap_type pc with
  | Untyped =>
      is_retypeable (cap_type c) = true ∧
      (objref pc <= objref c)%Z ∧ (objref c + size c <= objref pc + watermark pc)%Z
  | Sched => cap_type c = Sched ∧ subset_of (rights c) (rights pc) = true
  | Null | Reply | Domain | SharedRo => False
  | _ => cap_type c = cap_type pc ∧ objref c = objref pc ∧ size c = size pc ∧
         subset_of (rights c) (rights pc) = true
  end.

(** The fields of one record. *)
Definition cap_ok (c : RawCap) : Prop :=
  RawCap_wf c ∧
  (cap_type c = Untyped → (watermark c <= size c)%Z ∧ (objref c + size c <= 2 ^ 64)%Z).

Record wf (cs : CSpace) : Prop := mkWf {
  wf_null k e : slots cs !! k = Some e → cap_type (cap e) = Null → e = Cte_EMPTY;
  wf_parent k e p : slots cs !! k = Some e → parent e = Some p →
    ∃ pe, slots cs !! p = Some pe ∧ child_ok (cap pe) (cap e);
  wf_rank : ∃ rank : nat → nat, ∀ k p, parent_of cs k p → rank p < rank k;
  wf_caps k e : slots cs !! k = Some e → cap_ok (cap e);
  wf_next : in_u 64 (next_obj cs)
}.

(** *** Equations of the primitives *)

Lemma set_slot_eq i e cs :
  i < length (slots cs) → set_slot i e cs = (Ok (), upd_slot i e cs).
Proof. intros. unfold set_slot. by rewrite decide_True. Qed.

Lemma live_Ok cs c r :
  live cs c = Ok r ↔ cap_type r ≠ Null ∧ ∃ e, slots cs !! c = Some e ∧ cap e = r.
Proof.
  unfold live, slot. munfold. split.
  - intros H. repeat case_match; simplify_eq. split; [by apply is_null_false|eauto].
  - intros [Hn (e & He & <-)]. rewrite decide_False by (apply lookup_lt_Some in He; lia).
    rewrite He. apply is_null_false in Hn. by rewrite Hn.
Qed.

Lemma cte_ref_Ok cs c e :
  cte_ref cs c = Ok e ↔ cap_type (cap e) ≠ Null ∧ slots cs !! c = Some e.
Proof.
  unfold cte_ref, slot. munfold. split.
  - intros H. repeat case_match; simplify_eq. split; [by apply is_null_false|done].
  - intros [Hn He]. rewrite decide_False by (apply lookup_lt_Some in He; lia).
    rewrite He. apply is_null_false in Hn. by rewrite Hn.
Qed.

Lemma place_eq dest c p cs :
  place dest c p cs =
  match slots cs !! dest with
  | None => (Err OutOfBounds, cs)
  | Some e => if is_null (cap e) then (Ok (), upd_slot dest (mkCte c p) cs)
              else (Err SlotOccupied, cs)
  end.
Proof.
  unfold place, slot. munfold. case_decide as Hd.
  - by rewrite lookup_ge_None_2.
  - destruct (slots cs !! dest) as [e|] eqn:He.
    + destruct (is_null (cap e)) eqn:Hn; simpl; [|done].
      apply set_slot_eq. lia.
    + apply lookup_ge_None_1 in He. lia.
Qed.

Lemma set_cap_eq i c e cs :
  slots cs !! i = Some e → set_cap i c cs = (Ok (), upd_slot i (mkCte c (parent e)) cs).
Proof.
  intros He. unfold set_cap, slot. munfold. rewrite He.
  apply set_slot_eq. by eapply lookup_lt_Some.
Qed.

Lemma live_cases cs c :
  (∃ r, live cs c = Ok r) ∨ live cs c = Err OutOfBounds ∨ live cs c = Err EmptySlot.
Proof.
  unfold live, slot. munfold. case_decide as Hd; [by eauto|].
  destruct (slots cs !! c) eqn:He; [|apply lookup_ge_None_1 in He; lia].
  case_match; eauto.
Qed.

Lemma slot_Some cs k e : slots cs !! k = Some e → slot cs k = Ok e.
Proof. unfold slot, index. by intros ->. Qed.

Lemma live_slot cs c r : live cs c = Ok r → ∃ e, slots cs !! c = Some e ∧ cap e = r.
Proof. intros [_ ?]%live_Ok. done. Qed.

(** *** Facts about well-formed spaces *)

Lemma parent_live cs k p : wf cs → parent_of cs k p →
  ∃ ek ep, slots cs !! k = Some ek ∧ slots cs !! p = Some ep ∧
    cap_type (cap ek) ≠ Null ∧ cap_type (cap ep) ≠ Null ∧ child_ok (cap ep) (cap ek).
Proof.
  intros W (e & He & Hp). destruct (wf_parent _ W _ _ _ He Hp) as (pe & Hpe & Hok).
  exists e, pe. split_and!; try done.
  - intros Hn. rewrite (wf_null _ W _ _ He Hn) in Hp. done.
  - intros Hn. unfold child_ok in Hok. by rewrite Hn in Hok.
Qed.

Lemma no_child_of_null cs d e k :
  wf cs → slots cs !! d = Some e → cap_type (cap e) = Null → ¬ parent_of cs k d.
Proof.
  intros W He Hn Hk. destruct (parent_live _ _ _ W Hk) as (?&?&?&?&?&?&?). simplify_eq.
Qed.

Lemma has_children_true cs d :
  wf cs → has_children cs d = true ↔ ∃ k, parent_of cs k d.
Proof.
  intros W. unfold has_children. rewrite existsb_exists. split.
  - intros (e & He%list_elem_of_In & [_ Hp]%andb_true_iff).
    apply list_elem_of_lookup in He as [k Hk]. apply bool_decide_eq_true in Hp.
    exists k, e. done.
  - intros (k & e & He & Hp). exists e. split.
    + apply list_elem_of_In. by eapply list_elem_of_lookup_2.
    + apply andb_true_iff. split; [|by apply bool_decide_eq_true].
      destruct (is_null (cap e)) eqn:Hn; [|done].
      apply is_null_true in Hn. rewrite (wf_null _ W _ _ He Hn) in Hp. done.
Qed.

Lemma has_children_false cs d :
  wf cs → has_children cs d = false ↔ ∀ k, ¬ parent_of cs k d.
Proof.
  intros W. rewrite <- not_true_iff_false, has_children_true by done. split.
  - intros H k Hk. apply H. by exists k.
  - intros H [k Hk]. by eapply H.
Qed.

(** *** How the elementary updates preserve the invariant *)

Lemma wf_slots cs cs' :
  slots cs' = slots cs → in_u 64 (next_obj cs') → wf cs → wf cs'.
Proof.
  intros E En [H1 H2 [rank H3] H4 _]. split; [..|done].
  - rewrite E. apply H1.
  - rewrite E. apply H2.
  - exists rank. intros k p. unfold parent_of. rewrite E. apply H3.
  - rewrite E. apply H4.
Qed.

Lemma cap_ok_null : cap_ok RawCap_NULL.
Proof. split; [|done]. unfold RawCap_wf, in_u. split_and!; vm_compute; congruence. Qed.

Lemma wf_new N : wf (cspace_new N).
Proof.
  assert (∀ k e, slots (cspace_new N) !! k = Some e → e = Cte_EMPTY) as E.
  { intros k e [-> _]%lookup_replicate. done. }
  split; [..|done].
  - intros k e He _. by apply E in He.
  - intros k e p He Hp. apply E in He as ->. done.
  - exists (λ _, 0). intros k p (e & He & Hp). apply E in He as ->. done.
  - intros k e He. apply E in He as ->. apply cap_ok_null.
Qed.

(** Links of an updated table. *)
Lemma parent_of_upd cs d e k p :
  parent_of (upd_slot d e cs) k p ↔
  (k = d ∧ d < length (slots cs) ∧ parent e = Some p) ∨ (k ≠ d ∧ parent_of cs k p).
Proof.
  unfold parent_of; simpl. setoid_rewrite list_lookup_insert_Some.
  destruct (decide (k = d)); naive_solver.
Qed.

Definition parent_legal (cs : CSpace) (p : option nat) (c : RawCap) : Prop :=
  ∀ q, p = Some q → ∃ qe, slots cs !! q = Some qe ∧ child_ok (cap qe) c.

(** Filling an empty slot with a legal derivation. *)
Lemma wf_fill cs d e c p :
  wf cs → slots cs !! d = Some e → cap_type (cap e) = Null →
  cap_type c ≠ Null → cap_ok c → parent_legal cs p c →
  wf (upd_slot d (mkCte c p) cs).
Proof.
  intros W He Hn Hc Hok Hp.
  assert (∀ k, ¬ parent_of cs k d) as Hno by (intros; by eapply no_child_of_null).
  split; [..|apply (wf_next _ W)].
  - intros k e' [(->&<-&?)|[??]]%list_lookup_insert_Some; [done|by eapply wf_null].
  - intros k e' q [(->&<-&?)|[??]]%list_lookup_insert_Some Hq; simpl in *.
    + destruct (Hp _ Hq) as (qe & Hqe & Hch). exists qe. split; [|done].
      rewrite list_lookup_insert_ne; [done|]. intros ->. simplify_eq.
      unfold child_ok in Hch. by rewrite Hn in Hch.
    + destruct (wf_parent _ W _ _ _ H0 Hq) as (qe & Hqe & Hch). exists qe. split; [|done].
      rewrite list_lookup_insert_ne; [done|]. intros ->. eapply Hno. exists e'. done.
  - destruct (wf_rank _ W) as [rank Hr].
    exists (λ x, if decide (x = d) then S (from_option rank 0 p) else rank x).
    intros k q [(->&_&Hq)|[Hkd Hq]]%parent_of_upd; simpl in *; subst.
    + rewrite (decide_True (P:=d = d)) by done. case_decide; simpl; [|lia].
      destruct (Hp _ eq_refl) as (qe & Hqe & Hch). subst. simplify_eq.
      unfold child_ok in Hch. by rewrite Hn in Hch.
    + rewrite (decide_False (P:=k = d)) by done. rewrite decide_False.
      * by apply Hr.
      * intros ->. by eapply Hno.
  - intros k e' [(->&<-&?)|[??]]%list_lookup_insert_Some; [done|by eapply wf_caps].
Qed.

(** Rewriting the record of a live slot in place. *)
Lemma wf_rewrite cs k e c :
  wf cs → slots cs !! k = Some e → cap_type c ≠ Null → cap_ok c →
  (∀ j ej, slots cs !! j = Some ej → parent ej = Some k → child_ok c (cap ej)) →
  parent_legal cs (parent e) c →
  wf (upd_slot k (mkCte c (parent e)) cs).
Proof.
  intros W He Hc Hok Hch Hp. destruct (wf_rank _ W) as [rank Hr].
  assert (∀ j q, parent_of (upd_slot k (mkCte c (parent e)) cs) j q → parent_of cs j q) as Hsub.
  { intros j q [(->&_&Hq)|[??]]%parent_of_upd; [|done]. exists e. done. }
  split; [..|apply (wf_next _ W)].
  - intros j e' [(->&<-&?)|[??]]%list_lookup_insert_Some; [done|by eapply wf_null].
  - intros j e' q Hj Hq. assert (rank q < rank j) by (apply Hr, Hsub; exists e'; done).
    simpl in Hj. apply list_lookup_insert_Some in Hj as [(->&<-&?)|[Hne Hj]]; simpl in *.
    + destruct (Hp _ Hq) as (qe & Hqe & ?). exists qe. split; [|done].
      rewrite list_lookup_insert_ne; [done|]. intros ->. lia.
    + destruct (decide (q = k)) as [->|Hqk].
      * exists (mkCte c (parent e)). split; [|by eapply Hch].
        apply list_lookup_insert_eq. by eapply lookup_lt_Some.
      * destruct (wf_parent _ W _ _ _ Hj Hq) as (qe & Hqe & ?). exists qe.
        split; [|done]. by rewrite list_lookup_insert_ne.
  - exists rank. intros j q Hq. by apply Hr, Hsub.
  - intros j e' [(->&<-&?)|[??]]%list_lookup_insert_Some; [done|by eapply wf_caps].
Qed.

(** Emptying a slot nothing derives from. *)
Lemma wf_empty cs d :
  wf cs → (∀ k, ¬ parent_of cs k d) → wf (upd_slot d Cte_EMPTY cs).
Proof.
  intros W Hno. split; [..|apply (wf_next _ W)].
  - intros k e [(->&<-&?)|[??]]%list_lookup_insert_Some ?; [done|by eapply wf_null].
  - intros k e q [(->&<-&?)|[Hne Hk]]%list_lookup_insert_Some Hq; [done|].
    destruct (wf_parent _ W _ _ _ Hk Hq) as (qe & Hqe & ?). exists qe. split; [|done].
    simpl. rewrite list_lookup_insert_ne; [done|]. intros ->. eapply Hno. exists e. done.
  - destruct (wf_rank _ W) as [rank Hr]. exists rank.
    intros k q [(->&_&Hq)|[??]]%parent_of_upd; [done|by apply Hr].
  - intros k e [(->&<-&?)|[??]]%list_lookup_insert_Some; [apply cap_ok_null|by eapply wf_caps].
Qed.
End inv.
