(* ===== verification/CSpaceOps.v ===== *)
(** * The operations on a well-formed capability space

    The final state of each operation that succeeds, and that it is again
    well-formed.  [destroy_slot], the step of REVOKE and DELETE, is described by
    the pure function [destroy_state]; RETYPE's loop by [retype_loop]. *)

From S2P Require Import Prelude Rights Cap Budget CSpace CSpaceInv.

(** The state after [credit_parent] and [destroy_slot]. *)
Definition credit_state (c : RawCap) (p : option nat) (cs : CSpace) : CSpace :=
  match p with
  | Some p =>
      match slots cs !! p with
      | Some pe =>
          if is_type (cap_type c) Sched && is_type (cap_type (cap pe)) Sched
          then upd_slot p (mkCte (set_size (cap pe) (sat_add 32 (size (cap pe)) (size c))) (parent pe)) cs
          else cs
      | None => cs
      end
  | None => cs
  end.

Definition destroy_state (d : nat) (e : Cte) (cs : CSpace) : CSpace :=
  let cs1 := credit_state (cap e) (parent e) (upd_slot d Cte_EMPTY cs) in
  if negb (another_cap cs1 (cap e)) && negb (unzeroed_type (cap_type (cap e)))
  then add_zero (objref (cap e)) (size (cap e)) cs1
  else cs1.

(** The state after [move_cap] and its loop. *)
Definition move_state (src dest : nat) (e : Cte) (cs : CSpace) : CSpace :=
  mkCSpace (<[src:=Cte_EMPTY]> (<[dest:=e]> (reparent src dest <$> slots cs)))
    (next_obj cs) (zlog cs).

(** The [i]-th object of a RETYPE. *)
Definition retyped_cte {BF : Bitflags} (ut : nat) (t : CapType) (f base : Z) (i : nat) : Cte :=
  mkCte (mkRawCap t (default_rights t) (base + Z.of_nat i * f) f 0 0 0) (Some ut).

(** What every operation guarantees on a well-formed space: it ends without a
    panic; a success leaves a well-formed space, an error leaves it alone. *)
Definition good {BF : Bitflags} {A} (cs : CSpace) (out : res CapError A * CSpace) : Prop :=
  match out with
  | (Ok _, cs') => wf cs'
  | (Err _, cs') => cs' = cs
  | (Panic, _) => False
  end.

Section ops.
Context {BF : Bitflags}.

(** ** Destroying a slot *)

Lemma destroy_slot_eq d e cs :
  wf cs → slots cs !! d = Some e → cap_type (cap e) ≠ Null →
  destroy_slot d cs = (Ok (), destroy_state d e cs).
Proof.
  intros W He Hn. unfold destroy_slot, destroy_state, credit_state, credit_parent, slot.
  munfold. rewrite He. apply is_null_false in Hn. rewrite Hn.
  rewrite set_slot_eq by (by eapply lookup_lt_Some).
  destruct (parent e) as [p|] eqn:Hp; [|by case_match].
  destruct (wf_parent _ W _ _ _ He Hp) as (pe & Hpe & Hch).
  assert (p ≠ d) as Hpd.
  { intros ->. destruct (wf_rank _ W) as [rank Hr].
    assert (rank d < rank d) by (apply Hr; exists e; done). lia. }
  assert (<[d:=Cte_EMPTY]> (slots cs) !! p = Some pe) as Hl
    by (by rewrite list_lookup_insert_ne).
  destruct (is_type (cap_type (cap e)) Sched) eqn:Ht; simpl; rewrite ?Hl; [|by case_match].
  destruct (is_type (cap_type (cap pe)) Sched) eqn:Ht'; [|by case_match].
  rewrite set_slot_eq; [by case_match|]. by eapply lookup_lt_Some.
Qed.

Lemma destroy_state_slots d e cs :
  slots (destroy_state d e cs) = slots (credit_state (cap e) (parent e) (upd_slot d Cte_EMPTY cs)).
Proof. unfold destroy_state. by case_match. Qed.

Lemma destroy_state_next d e cs : next_obj (destroy_state d e cs) = next_obj cs.
Proof. unfold destroy_state, credit_state. by repeat case_match. Qed.

Lemma cap_ok_set_size c n :
  cap_type c = Sched → cap_ok c → in_u 32 n → cap_ok (set_size c n).
Proof.
  unfold cap_ok, RawCap_wf; simpl. intros -> (?&_) ?. split; [|done]. naive_solver.
Qed.

Lemma cap_ok_size c : cap_ok c → in_u 32 (size c).
Proof. intros [(_&_&?&_) _]. done. Qed.

Lemma sat_add_in a b : in_u 32 a → in_u 32 b → in_u 32 (sat_add 32 a b).
Proof. unfold in_u, sat_add. lia. Qed.

Lemma child_ok_sched_size pc c n :
  cap_type pc = Sched → child_ok pc c → child_ok (set_size pc n) c.
Proof. unfold child_ok; simpl. by intros ->. Qed.

Lemma child_of_sched_size pc c n :
  cap_type c = Sched → child_ok pc c → child_ok pc (set_size c n).
Proof.
  unfold child_ok; simpl. intros Hc Hok. destruct (cap_type pc) eqn:Hp; try done; simpl;
    destruct Hok; try (split; congruence); try congruence.
  by rewrite Hc in *.
Qed.

(** Changing the budget of one [Sched] keeps the invariant. *)
Lemma wf_set_sched_size cs k e n :
  wf cs → slots cs !! k = Some e → cap_type (cap e) = Sched → in_u 32 n →
  wf (upd_slot k (mkCte (set_size (cap e) n) (parent e)) cs).
Proof.
  intros W He Ht Hn. eapply wf_rewrite; try done.
  - simpl. by rewrite Ht.
  - apply cap_ok_set_size; [done|by eapply wf_caps|done].
  - intros j ej Hj Hp. destruct (wf_parent _ W _ _ _ Hj Hp) as (?&?&?). simplify_eq.
    by apply child_ok_sched_size.
  - intros q Hq. destruct (wf_parent _ W _ _ _ He Hq) as (qe&?&?). exists qe.
    split; [done|]. by apply child_of_sched_size.
Qed.

Lemma wf_credit cs c p :
  wf cs → cap_ok c → wf (credit_state c p cs).
Proof.
  intros W Hc. unfold credit_state. repeat case_match; try done.
  match goal with H : _ && _ = true |- _ => apply andb_true_iff in H as [?%is_type_true Ht%is_type_true] end.
  apply wf_set_sched_size; try done.
  apply sat_add_in; apply cap_ok_size; [by eapply wf_caps|done].
Qed.

Lemma wf_destroy cs d e :
  wf cs → slots cs !! d = Some e → (∀ k, ¬ parent_of cs k d) → wf (destroy_state d e cs).
Proof.
  intros W He Hno.
  assert (wf (credit_state (cap e) (parent e) (upd_slot d Cte_EMPTY cs))) as W'.
  { apply wf_credit; [by apply wf_empty|by eapply wf_caps]. }
  eapply wf_slots; [apply destroy_state_slots| |exact W'].
  rewrite destroy_state_next. apply (wf_next _ W).
Qed.

(** ** MOVE *)

Lemma move_state_lookup src dest e cs k :
  src < length (slots cs) → dest < length (slots cs) → src ≠ dest →
  slots (move_state src dest e cs) !! k =
  if decide (k = src) then Some Cte_EMPTY else
  if decide (k = dest) then Some e else reparent src dest <$> (slots cs !! k).
Proof.
  intros. unfold move_state; simpl. case_decide as E1; [subst|].
  { apply list_lookup_insert_eq. by rewrite length_insert, length_fmap. }
  rewrite list_lookup_insert_ne by done. case_decide as E2; [subst|].
  { apply list_lookup_insert_eq. by rewrite length_fmap. }
  rewrite list_lookup_insert_ne by done. apply list_lookup_fmap.
Qed.

Lemma reparent_cap src dest e : cap (reparent src dest e) = cap e.
Proof. unfold reparent. by case_match. Qed.

(** Where a parent link of the moved table comes from. *)
Lemma move_parent src dest e cs k e' q :
  wf cs → slots cs !! src = Some e → dest < length (slots cs) → src ≠ dest →
  slots (move_state src dest e cs) !! k = Some e' → parent e' = Some q →
  ∃ k0 e0 q0, slots cs !! k0 = Some e0 ∧ parent e0 = Some q0 ∧ cap e0 = cap e' ∧
    k ≠ src ∧ k0 = (if decide (k = dest) then src else k) ∧
    q = (if decide (q0 = src) then dest else q0).
Proof.
  intros W He Hd Hne Hk Hq. rewrite move_state_lookup in Hk by (done || by eapply lookup_lt_Some).
  case_decide as E1; [simplify_eq|]. case_decide as E2; simplify_eq.
  - exists src, e', q. split_and!; try done. rewrite decide_False; [done|].
    intros ->. destruct (wf_rank _ W) as [rank Hr].
    assert (rank src < rank src) by (apply Hr; exists e'; done). lia.
  - apply fmap_Some in Hk as (e0 & He0 & ->). unfold reparent in *. case_bool_decide as Hp; simpl in *.
    + exists k, e0, src. simplify_eq. split_and!; try done. by rewrite decide_True.
    + exists k, e0, q. split_and!; try done. rewrite decide_False; [done|]. congruence.
Qed.

Lemma wf_move cs src dest e d :
  wf cs → slots cs !! src = Some e → cap_type (cap e) ≠ Null →
  slots cs !! dest = Some d → cap_type (cap d) = Null → src ≠ dest →
  wf (move_state src dest e cs).
Proof.
  intros W He Hn Hd Hdn Hne. pose proof (lookup_lt_Some _ _ _ He) as Ls.
  pose proof (lookup_lt_Some _ _ _ Hd) as Ld.
  assert (∀ k, slots (move_state src dest e cs) !! k =
    if decide (k = src) then Some Cte_EMPTY else
    if decide (k = dest) then Some e else reparent src dest <$> (slots cs !! k)) as L
    by (intros; by apply move_state_lookup).
  split; [..|apply (wf_next _ W)].
  - intros k e' Hk Hk'. rewrite L in Hk. repeat case_decide; simplify_eq; try done.
    apply fmap_Some in Hk as (e0 & He0 & ->). rewrite reparent_cap in Hk'.
    rewrite (wf_null _ W _ _ He0 Hk'). done.
  - intros k e' q Hk Hq.
    destruct (move_parent _ _ _ _ _ _ _ W He Ld Hne Hk Hq) as (k0&e0&q0&H0&Hq0&Hcap&_&_&->).
    destruct (wf_parent _ W _ _ _ H0 Hq0) as (pe & Hpe & Hch). rewrite Hcap in Hch.
    rewrite L. case_decide as E; [subst|].
    + simplify_eq. exists e. rewrite decide_False, decide_True by done. done.
    + exists (reparent src dest pe). rewrite decide_False, decide_False, Hpe, reparent_cap; try done.
      intros ->. simplify_eq. unfold child_ok in Hch. by rewrite Hdn in Hch.
  - destruct (wf_rank _ W) as [rank Hr].
    exists (λ x, rank (if decide (x = dest) then src else x)). intros k q (e' & Hk & Hq).
    destruct (move_parent _ _ _ _ _ _ _ W He Ld Hne Hk Hq) as (k0&e0&q0&H0&Hq0&Hcap&_&<-&->).
    assert (parent_of cs k0 q0) as Hp by (exists e0; done). apply Hr in Hp as Hlt. cbv beta.
    destruct (decide (q0 = src)) as [->|Hs]; [by rewrite (decide_True (P:=dest = dest))|].
    rewrite (decide_False (P:=q0 = dest)); [done|]. intros ->. exact (no_child_of_null _ _ _ _ W Hd Hdn Hp).
  - intros k e' Hk. rewrite L in Hk. repeat case_decide; simplify_eq.
    + apply cap_ok_null.
    + by eapply wf_caps.
    + apply fmap_Some in Hk as (e0 & He0 & ->). rewrite reparent_cap. by eapply wf_caps.
Qed.

(** ** RETYPE *)

(** The occupancy check reads every destination and changes nothing. *)
Lemma retype_check dest n j cs :
  dest + (j + n) ≤ length (slots cs) →
  mfor (seq j n) (dest_free dest) cs =
  (if forallb (λ i, match slots cs !! (dest + i) with
                    | Some e => is_null (cap e) | None => false end) (seq j n)
   then Ok () else Err SlotOccupied, cs).
Proof.
  revert j. induction n as [|n IH]; intros j Hb; [done|]. simpl.
  destruct (lookup_lt_is_Some_2 (slots cs) (dest + j)) as [e He]; [lia|].
  assert (dest_free dest j cs = (if is_null (cap e) then Ok () else Err SlotOccupied, cs)) as Hd
    by (unfold dest_free, slot; munfold; rewrite He; destruct (is_null (cap e)); reflexivity).
  unfold mbind, M_bind. rewrite Hd, He. destruct (is_null (cap e)); simpl; [|done]. apply IH. lia.
Qed.

Lemma default_rights_u32 t : in_u 32 (default_rights t).
Proof.
  unfold default_rights. destruct t; rewrite ?bf_union_spec; vm_compute; split; congruence.
Qed.

(** The commit loop, on destinations known to be empty. *)
Section retype_loop.
Context (ut : nat) (t : CapType) (f base : Z) (dest : nat) (count : nat).
Context (u : RawCap) (pu : option nat).
Context (Hu : cap_type u = Untyped) (Ht : is_retypeable t = true).
Context (Hf : (0 < f)%Z) (Hneed : (Z.of_nat count * f < 2 ^ 32)%Z).
Context (Hbase : (objref u <= base)%Z ∧ (0 <= base)%Z).
Context (Hend : (base + Z.of_nat count * f <= objref u + watermark u)%Z).

Lemma retype_obj_ok cs i :
  wf cs → slots cs !! ut = Some (mkCte u pu) → i < count →
  let c := cap (retyped_cte ut t f base i) in
  cap_type c ≠ Null ∧ cap_ok c ∧ child_ok u c ∧
  in_u 32 (Z.of_nat i * f) ∧ in_u 64 (base + Z.of_nat i * f) ∧ in_u 32 (Z.of_nat i).
Proof.
  intros W Hut Hi. destruct (wf_caps _ W _ _ Hut) as [_ Hc]. simpl in Hc.
  destruct (Hc Hu) as [Hw Hs]. pose proof (default_rights_u32 t).
  assert (Z.of_nat i * f + f <= Z.of_nat count * f)%Z by nia.
  assert (0 <= Z.of_nat i * f)%Z by nia. assert (Z.of_nat i <= Z.of_nat i * f)%Z by nia.
  unfold cap_ok, RawCap_wf, child_ok, in_u in *; simpl. rewrite Hu.
  split_and!; try lia; try done; intros ->; done.
Qed.

Lemma retype_loop n j cs :
  wf cs → slots cs !! ut = Some (mkCte u pu) → j + n ≤ count →
  (∀ i, j ≤ i < j + n → ∃ e, slots cs !! (dest + i) = Some e ∧ cap_type (cap e) = Null) →
  ∃ cs',
    mfor (seq j n) (retype_obj ut t f base dest) cs = (Ok (), cs') ∧
    wf cs' ∧ next_obj cs' = next_obj cs ∧
    zlog cs' = zlog cs ++ ((λ i, (base + Z.of_nat i * f, f)%Z) <$> seq j n) ∧
    (∀ k, slots cs' !! k = if decide (dest + j ≤ k < dest + j + n)
                           then Some (retyped_cte ut t f base (k - dest)) else slots cs !! k).
Proof.
  revert j cs. induction n as [|n IH]; intros j cs W Hut Hjn Hnull.
  { exists cs. simpl. rewrite app_nil_r. split_and!; try done.
    intros k. rewrite decide_False by lia. done. }
  destruct (retype_obj_ok _ j W Hut) as (Hn & Hok & Hch & Ha & Hb & Hw); [lia|].
  destruct (Hnull j) as (e & He & Hen); [lia|].
  assert (dest + j ≠ ut) as Hne by (intros E; rewrite E in He; simplify_eq; simpl in *; congruence).
  set (cs1 := upd_slot (dest + j) (retyped_cte ut t f base j) (add_zero (base + Z.of_nat j * f) f cs)).
  assert (wf cs1) as W1.
  { eapply wf_fill; simpl; try done.
    - apply (wf_slots cs); [done|apply (wf_next _ W)|done].
    - intros q [= <-]. exists (mkCte u pu). done. }
  destruct (IH (S j) cs1 W1) as (cs' & Hrun & W' & Hnx & Hz & Hl).
  { simpl. by rewrite list_lookup_insert_ne. }
  { lia. }
  { intros i Hi. simpl. rewrite list_lookup_insert_ne by lia. apply Hnull. lia. }
  assert (retype_obj ut t f base dest j cs = (Ok (), cs1)) as Hobj.
  { unfold retype_obj, zero. munfold. rewrite wrap_small, (arith_in 32), (arith_in 64) by done.
    rewrite set_slot_eq by (simpl; by eapply lookup_lt_Some). done. }
  exists cs'. simpl. unfold mbind, M_bind. rewrite Hobj.
  split_and!; [exact Hrun|done|by rewrite Hnx| |].
  { rewrite Hz. simpl. by rewrite <- app_assoc. }
  intros k. rewrite Hl. simpl. destruct (decide (k = dest + j)) as [->|Hk].
  - rewrite decide_False, decide_True by lia. rewrite list_lookup_insert_eq
      by (by eapply lookup_lt_Some). do 2 f_equal. lia.
  - rewrite list_lookup_insert_ne by done. repeat case_decide; lia || done.
Qed.
End retype_loop.

(** ** Each operation is [good] *)

Lemma live_bind {A} cs c (k : RawCap → CM A) :
  (∀ r e, slots cs !! c = Some e → cap e = r → cap_type r ≠ Null → good cs (k r cs)) →
  good cs ((r ← reads (λ cs, live cs c); k r) cs).
Proof.
  intros H. munfold. destruct (live_cases cs c) as [[r Hr]|[Hr|Hr]]; rewrite Hr; [|done..].
  apply live_Ok in Hr as (? & e & ? & <-). by eapply H.
Qed.

(** Filling an empty destination is the whole effect. *)
Lemma place_good cs dest c p :
  wf cs → cap_type c ≠ Null → cap_ok c → parent_legal cs p c → good cs (place dest c p cs).
Proof.
  intros. rewrite place_eq. destruct (slots cs !! dest) as [e|] eqn:He; [|done].
  destruct (is_null (cap e)) eqn:Hn; [|done]. apply is_null_true in Hn. by eapply wf_fill.
Qed.

Lemma child_ok_derived s r b :
  cap_type s ≠ Null → non_duplicable (cap_type s) = false →
  subset_of r (rights s) = true → child_ok s (with_rights_badge s r b).
Proof. unfold child_ok. destruct (cap_type s) eqn:E; simpl; try done; rewrite ?E; naive_solver. Qed.

Lemma mint_good cs src dest r b :
  wf cs → in_u 32 r → in_u 64 b → good cs (mint src dest r b cs).
Proof.
  intros W Hr Hb. unfold mint. apply live_bind. intros s e He Hs Hn.
  repeat (case_match; [done|]). apply negb_false_iff in H1.
  apply place_good; simpl; try done.
  - destruct (wf_caps _ W _ _ He) as [(?&?&?&?&?&?) ?]. rewrite Hs in *.
    unfold cap_ok, RawCap_wf; simpl. naive_solver.
  - intros q [= <-]. exists e. rewrite Hs. split; [done|]. by apply child_ok_derived.
Qed.

Lemma copy_good cs src dest : wf cs → good cs (copy src dest cs).
Proof.
  intros W. unfold copy. apply live_bind. intros s e He Hs Hn.
  repeat (case_match; [done|]). munfold. unfold slot. munfold. rewrite He.
  apply place_good; try done.
  - rewrite <- Hs. by eapply wf_caps.
  - intros q [= <-]. destruct (parent e) as [q|] eqn:Hp.
    + destruct (wf_parent _ W _ _ _ He Hp) as (qe & ? & ?). exists qe. by rewrite <- Hs.
    + exists e. rewrite Hs. split; [done|].
      replace s with (with_rights_badge s (rights s) (badge s)) at 2 by (by destruct s).
      apply child_ok_derived; try done. apply subset_of_refl.
Qed.

Lemma move_good cs src dest : wf cs → good cs (move_cap src dest cs).
Proof.
  intros W. unfold move_cap. munfold.
  destruct (cte_ref cs src) as [e|er|] eqn:Hr; [|done|].
  2:{ exfalso. revert Hr. unfold cte_ref, slot. munfold. case_decide; [done|].
      destruct (slots cs !! src) eqn:He; [by case_match|]. apply lookup_ge_None_1 in He. lia. }
  apply cte_ref_Ok in Hr as [Hn He]. case_decide as Hds; [done|].
  case_decide as Hd; [done|]. unfold slot, index.
  destruct (lookup_lt_is_Some_2 (slots cs) dest) as [d Hd']; [lia|]. rewrite Hd'.
  destruct (is_null (cap d)) eqn:Hdn; [|done]. apply is_null_true in Hdn. simpl.
  pose proof (lookup_lt_Some _ _ _ He).
  rewrite set_slot_eq by (simpl; rewrite length_fmap; lia).
  rewrite set_slot_eq by (simpl; rewrite length_insert, length_fmap; lia).
  by eapply (wf_move cs src dest e d).
Qed.

Lemma mint_reply_good cs dest k b :
  wf cs → in_u 64 k → in_u 64 b → good cs (mint_reply dest k b cs).
Proof.
  intros W Hk Hb. apply place_good; simpl; done.
Qed.

(** A [Reply] is always a leaf: nothing can be derived from it. *)
Lemma reply_leaf cs d e k :
  wf cs → slots cs !! d = Some e → cap_type (cap e) = Reply → ¬ parent_of cs k d.
Proof.
  intros W He Ht Hk. destruct (parent_live _ _ _ W Hk) as (?&?&_&?&_&_&Hc). simplify_eq.
  unfold child_ok in Hc. by rewrite Ht in Hc.
Qed.

Lemma consume_reply_good cs d : wf cs → good cs (consume_reply d cs).
Proof.
  intros W. unfold consume_reply. apply live_bind. intros r e He Hr Hn. case_match; [done|].
  munfold. subst r. rewrite (destroy_slot_eq _ _ _ W He) by done.
  apply negb_false_iff, is_type_true in H.
  apply wf_destroy; try done. intros k. by eapply reply_leaf.
Qed.

(** RETYPE: all its guards, and the table and zeroing it leaves behind. *)
Record retyped (ut : nat) (t : CapType) (f n : Z) (dest : nat) (u : Cte) (cs cs' : CSpace) : Prop := {
  rt_untyped : slots cs !! ut = Some u ∧ cap_type (cap u) = Untyped;
  rt_right : bf_contains (rights (cap u)) RETYPE = true;
  rt_type : is_retypeable t = true;
  rt_pos : (0 < f)%Z ∧ (0 < n)%Z;
  rt_budget : (watermark (cap u) + f * n <= size (cap u))%Z;
  rt_free i : i < Z.to_nat n → ∃ e, slots cs !! (dest + i) = Some e ∧ cap_type (cap e) = Null;
  rt_next : next_obj cs' = next_obj cs;
  rt_zlog : zlog cs' = zlog cs ++
    ((λ i, (objref (cap u) + watermark (cap u) + Z.of_nat i * f, f)%Z) <$> seq 0 (Z.to_nat n));
  rt_slots k : slots cs' !! k =
    if decide (dest ≤ k < dest + Z.to_nat n)
    then Some (retyped_cte ut t f (objref (cap u) + watermark (cap u)) (k - dest))
    else if decide (k = ut)
    then Some (mkCte (set_watermark (cap u) (watermark (cap u) + f * n)) (parent u))
    else slots cs !! k
}.

(** Consuming part of an [Untyped] keeps the space well-formed. *)
Lemma wf_consume cs ut u need :
  wf cs → slots cs !! ut = Some u → cap_type (cap u) = Untyped →
  (0 <= need)%Z → (watermark (cap u) + need <= size (cap u))%Z →
  wf (upd_slot ut (mkCte (set_watermark (cap u) (watermark (cap u) + need)) (parent u)) cs).
Proof.
  intros W Hu Ht Hn Hle. destruct (wf_caps _ W _ _ Hu) as [(?&?&?&?&?&?) Hc].
  destruct (Hc Ht) as [_ ?]. unfold in_u in *.
  apply wf_rewrite; simpl; try done; [by rewrite Ht|..].
  - unfold cap_ok, RawCap_wf, in_u; simpl. split_and!; lia.
  - intros j ej Hj Hp. destruct (wf_parent _ W _ _ _ Hj Hp) as (?&?&Hch). simplify_eq.
    unfold child_ok in *; simpl. rewrite Ht in *. destruct Hch as (?&?&?). split_and!; [done|lia..].
  - intros q Hq. destruct (wf_parent _ W _ _ _ Hu Hq) as (qe&?&Hch). exists qe. split; [done|].
    exfalso. unfold child_ok in Hch. rewrite Ht in Hch.
    destruct (cap_type (cap qe)); naive_solver.
Qed.

Lemma retype_spec cs ut t f n dest :
  wf cs → in_u 32 f → in_u 32 n →
  match retype ut t f n dest cs with
  | (Ok _, cs') => wf cs' ∧ ∃ u, retyped ut t f n dest u cs cs'
  | (Err _, cs') => cs' = cs
  | (Panic, _) => False
  end.
Proof.
  intros W Hf Hn. unfold retype. munfold.
  destruct (live_cases cs ut) as [[r Hr]|[Hr|Hr]]; rewrite Hr; [|done..].
  apply live_Ok in Hr as (_ & u & Hu & <-).
  destruct (is_type (cap_type (cap u)) Untyped) eqn:Ht; [|done]. apply is_type_true in Ht.
  destruct (bf_contains _ _) eqn:Hrt; [|done]. destruct (is_retypeable t) eqn:Hty; [|done].
  simpl. destruct (_ || _) eqn:Hz; [done|]. apply orb_false_iff in Hz as [?%Z.eqb_neq ?%Z.eqb_neq].
  destruct (wf_caps _ W _ _ Hu) as [(?&?&?&?&?&?) Hc]. destruct (Hc Ht) as [Hws Hos].
  unfold in_u in *. assert (0 < f * n)%Z by nia.
  destruct (checked 32 _) as [need|] eqn:Hneed; [|done]. apply checked_Some in Hneed as [Hneed ->].
  unfold in_u in Hneed. rewrite (arith_in 32) by (unfold in_u; lia).
  destruct (_ <? _)%Z eqn:Hlt; [done|]. apply Z.ltb_ge in Hlt.
  destruct (checked 64 _) as [fin|] eqn:Hfin; [|done]. apply checked_Some in Hfin as [_ ->].
  destruct (_ <? _)%Z eqn:Hlt2; [done|]. apply Z.ltb_ge in Hlt2.
  rewrite retype_check by lia.
  destruct (forallb _ _) eqn:Hall; [|done].
  rewrite (arith_in 64) by (unfold in_u; lia). rewrite (arith_in 32) by (unfold in_u; lia).
  rewrite (set_cap_eq _ _ u) by done.
  assert (∀ i, i < Z.to_nat n → ∃ e, slots cs !! (dest + i) = Some e ∧ cap_type (cap e) = Null) as Hfree.
  { intros i Hi. rewrite forallb_forall in Hall. specialize (Hall i). rewrite in_seq in Hall.
    destruct (slots cs !! (dest + i)) as [e|]; [|by discriminate Hall; lia].
    exists e. split; [done|]. apply is_null_true, Hall. lia. }
  assert (∀ i, i < Z.to_nat n → dest + i ≠ ut) as Hneq.
  { intros i Hi <-. destruct (Hfree i Hi) as (?&?&?). simplify_eq. congruence. }
  destruct (retype_loop ut t f (objref (cap u) + watermark (cap u)) dest (Z.to_nat n)
              (set_watermark (cap u) (watermark (cap u) + f * n)) (parent u))
    with (n:=Z.to_nat n) (j:=0) (cs:=upd_slot ut (mkCte (set_watermark (cap u) (watermark (cap u) + f * n)) (parent u)) cs)
    as (cs' & Hrun & W' & Hnx & Hzl & Hl); simpl; try done; try lia.
  - by apply wf_consume; [..|lia|lia].
  - apply list_lookup_insert_eq. by eapply lookup_lt_Some.
  - intros i Hi. rewrite list_lookup_insert_ne by (apply not_eq_sym, Hneq; lia). apply Hfree. lia.
  - rewrite Hrun. split; [done|]. exists u. split; try done; try lia.
    intros k. rewrite Hl. simpl. rewrite !Nat.add_0_r. case_decide; [done|]. case_decide; [subst|].
    + apply list_lookup_insert_eq. by eapply lookup_lt_Some.
    + by rewrite list_lookup_insert_ne.
Qed.

(** Nothing but those guards refuses a RETYPE. *)
Lemma retype_complete cs ut t f n dest u :
  wf cs → in_u 32 f → in_u 32 n → slots cs !! ut = Some u → cap_type (cap u) = Untyped →
  bf_contains (rights (cap u)) RETYPE = true → is_retypeable t = true → (0 < f)%Z → (0 < n)%Z →
  (watermark (cap u) + f * n <= size (cap u))%Z → (Z.of_nat (length (slots cs)) < 2 ^ 64)%Z →
  dest + Z.to_nat n ≤ length (slots cs) →
  (∀ i, i < Z.to_nat n → ∃ e, slots cs !! (dest + i) = Some e ∧ cap_type (cap e) = Null) →
  ∃ cs', retype ut t f n dest cs = (Ok (), cs').
Proof.
  intros W Hf Hn Hu Ht Hr Hty Hf0 Hn0 Hb Hlen Hd Hfree.
  pose proof (retype_spec cs ut t f n dest W Hf Hn) as S.
  destruct (retype ut t f n dest cs) as [[[]|e|] cs'] eqn:E; [by exists cs'| |done]. exfalso. clear S.
  destruct (wf_caps _ W _ _ Hu) as [(?&?&?&?&?&?) Hc]. destruct (Hc Ht) as [Hws Hos].
  unfold in_u in *. assert (0 < f * n)%Z by nia.
  assert (live cs ut = Ok (cap u)) as Hl by (apply live_Ok; split; [congruence|eauto]).
  revert E. unfold retype, mbind, M_bind, reads, lift, throw, get. rewrite Hl, Ht, Hr, Hty. simpl.
  rewrite (proj2 (Z.eqb_neq f 0)), (proj2 (Z.eqb_neq n 0)) by lia. simpl.
  unfold checked. rewrite !(proj2 (fits_spec _ _)) by (unfold in_u; lia). simpl.
  rewrite (arith_in 32 (size _ - _)) by (unfold in_u; lia).
  rewrite (proj2 (Z.ltb_ge _ _)) by lia. rewrite (proj2 (Z.ltb_ge _ _)) by lia.
  rewrite retype_check by lia. rewrite (proj2 (forallb_forall _ _)).
  2:{ intros i Hi%in_seq. destruct (Hfree i) as (d & -> & Hdn); [lia|]. by apply is_null_true. }
  rewrite (arith_in 64) by (unfold in_u; lia). rewrite (arith_in 32) by (unfold in_u; lia).
  rewrite (set_cap_eq _ _ u) by done. apply mfor_no_err. intros i cs1 e' cs2.
  unfold retype_obj, mbind, M_bind, lift, zero, set_slot, arith. repeat case_match; congruence.
Qed.

Lemma retype_good cs ut t f n dest :
  wf cs → in_u 32 f → in_u 32 n → good cs (retype ut t f n dest cs).
Proof.
  intros W Hf Hn. pose proof (retype_spec cs ut t f n dest W Hf Hn) as H.
  unfold good. repeat case_match; naive_solver.
Qed.
End ops.
