(* ===== verification/CSpaceSched.v ===== *)
(** * SPLIT and DELEGATE: CPU time moves, it is never made

    The final states of the two budget operations of [cap-core/src/cspace.rs],
    that they keep the invariant, and that the CPU time held by the [Sched]
    capabilities of a space is the same before and after. *)

From S2P Require Import Prelude Rights Cap Budget CSpace CSpaceInv CSpaceOps.

(** The CPU time a slot holds, and a whole space. *)
Definition sched_time (e : Cte) : Z := if is_type (cap_type (cap e)) Sched then size (cap e) else 0.
Definition cpu_time (cs : CSpace) : Z := sumZ sched_time (slots cs).

Lemma sched_time_Sched e : cap_type (cap e) = Sched → sched_time e = size (cap e).
Proof. unfold sched_time. intros ->. done. Qed.

Lemma sched_time_null e : cap_type (cap e) = Null → sched_time e = 0%Z.
Proof. unfold sched_time. intros ->. done. Qed.

(** Replacing one record changes the total by the difference. *)
Lemma cpu_time_upd cs k e e' :
  slots cs !! k = Some e →
  cpu_time (upd_slot k e' cs) = (cpu_time cs - sched_time e + sched_time e')%Z.
Proof. intros. by apply sumZ_insert. Qed.

Section sched.
Context {BF : Bitflags}.

Lemma sched_time_nonneg cs e : wf cs → e ∈ slots cs → (0 <= sched_time e)%Z.
Proof.
  intros W [k Hk]%list_elem_of_lookup. unfold sched_time. case_match; [|lia].
  destruct (wf_caps _ W _ _ Hk) as [(_&_&[? _]&_) _]. done.
Qed.

Lemma cpu_time_slot cs k e :
  wf cs → slots cs !! k = Some e → (sched_time e <= cpu_time cs)%Z.
Proof. intros W. apply sumZ_lookup_le. intros x. by apply sched_time_nonneg. Qed.

(** Two different slots hold no more than the total. *)
Lemma cpu_time_two cs j k ej ek :
  wf cs → j ≠ k → slots cs !! j = Some ej → slots cs !! k = Some ek →
  (sched_time ej + sched_time ek <= cpu_time cs)%Z.
Proof.
  intros W Hne Hj Hk.
  assert (sched_time ek <= cpu_time (upd_slot j Cte_EMPTY cs))%Z as H.
  { apply sumZ_lookup_le with (i:=k).
    - intros x [i Hi]%list_elem_of_lookup. simpl in Hi.
      apply list_lookup_insert_Some in Hi as [(?&<-&?)|[? Hi]]; [done|].
      eapply sched_time_nonneg; [done|]. by eapply list_elem_of_lookup_2.
    - simpl. by rewrite list_lookup_insert_ne. }
  rewrite (cpu_time_upd _ _ ej) in H by done. change (sched_time Cte_EMPTY) with 0%Z in H. lia.
Qed.

(** ** SPLIT *)

Definition split_child (s : RawCap) (obj amount : Z) : RawCap :=
  mkRawCap Sched (rights s) obj amount 0 (aux s) 0.

Definition split_state (src dest : nat) (s : Cte) (amount : Z) (cs : CSpace) : CSpace :=
  upd_next (next_obj cs + 1)
    (upd_slot src (mkCte (set_size (cap s) (size (cap s) - amount)) (parent s))
       (upd_slot dest (mkCte (split_child (cap s) (next_obj cs) amount) (Some src)) cs)).

Record split_ok (src dest : nat) (amount : Z) (s : Cte) (cs : CSpace) : Prop := {
  sp_src : slots cs !! src = Some s;
  sp_type : cap_type (cap s) = Sched;
  sp_right : bf_contains (rights (cap s)) DERIVE = true;
  sp_amount : (0 < amount)%Z ∧ (amount <= size (cap s) - watermark (cap s))%Z;
  sp_dest : ∃ d, slots cs !! dest = Some d ∧ cap_type (cap d) = Null;
  sp_ne : src ≠ dest
}.

Lemma split_spec cs src dest amount :
  in_u 32 amount → in_u 64 (next_obj cs + 1) →
  match split src dest amount cs with
  | (Ok _, cs') => ∃ s, split_ok src dest amount s cs ∧ cs' = split_state src dest s amount cs
  | (Err _, cs') => cs' = cs
  | (Panic, _) => False
  end.
Proof.
  intros [Ha _] Hn. unfold split. munfold.
  destruct (live_cases cs src) as [[r Hr]|[Hr|Hr]]; rewrite Hr; [|done..].
  apply live_Ok in Hr as (_ & s & Hs & <-).
  destruct (is_type _ _) eqn:Ht; [|done]. apply is_type_true in Ht.
  destruct (bf_contains _ _) eqn:Hd; [|done]. simpl.
  destruct (budget_split _ _) as [[b c]|] eqn:Hb; [|done].
  apply budget_split_Some in Hb as (?&?&->&->); [|done]. simpl.
  rewrite place_eq. destruct (slots cs !! dest) as [d|] eqn:Hde; [|done].
  destruct (is_null (cap d)) eqn:Hdn; [|done]. apply is_null_true in Hdn.
  assert (src ≠ dest) by (intros ->; simplify_eq; congruence).
  unfold slot, index. simpl. rewrite list_lookup_insert_ne, Hs by done.
  rewrite (set_cap_eq _ _ s) by (simpl; by rewrite list_lookup_insert_ne).
  unfold bump_next_obj. simpl. rewrite arith_in by done.
  exists s. split; [split; eauto|]. done.
Qed.

Lemma wf_split cs src dest amount s :
  wf cs → in_u 64 (next_obj cs + 1) → split_ok src dest amount s cs →
  wf (split_state src dest s amount cs).
Proof.
  intros W Hn [Hs Ht _ [Ha Hle] (d & Hd & Hdn) Hne].
  destruct (wf_caps _ W _ _ Hs) as [(?&?&?&?&?&?) _]. unfold in_u in *.
  assert (wf (upd_slot dest (mkCte (split_child (cap s) (next_obj cs) amount) (Some src)) cs)) as W1.
  { eapply wf_fill; try done.
    - unfold cap_ok, RawCap_wf, in_u; simpl. pose proof (wf_next _ W) as Hx. unfold in_u in Hx.
      split_and!; try lia; done.
    - intros q [= <-]. exists s. split; [done|]. unfold child_ok. rewrite Ht. simpl.
      split; [done|]. apply subset_of_refl. }
  unfold split_state. eapply wf_slots; [|done|apply (wf_set_sched_size _ src s (size (cap s) - amount)%Z W1)]; try done.
  - simpl. by rewrite list_lookup_insert_ne.
  - unfold in_u. lia.
Qed.

Lemma split_time cs src dest amount s :
  split_ok src dest amount s cs → cpu_time (split_state src dest s amount cs) = cpu_time cs.
Proof.
  intros [Hs Ht _ _ (d & Hd & Hdn) Hne]. unfold split_state.
  change (cpu_time (upd_next ?n ?c)) with (cpu_time c).
  rewrite (cpu_time_upd _ _ s) by (simpl; by rewrite list_lookup_insert_ne).
  rewrite (cpu_time_upd _ _ d) by done.
  rewrite (sched_time_null d), !sched_time_Sched by done. simpl. lia.
Qed.

Lemma split_good cs src dest amount :
  wf cs → in_u 32 amount → in_u 64 (next_obj cs + 1) → good cs (split src dest amount cs).
Proof.
  intros W Ha Hn. pose proof (split_spec cs src dest amount Ha Hn) as H.
  unfold good. repeat case_match; try done. destruct H as (s & Hok & ->). by apply wf_split.
Qed.

(** ** DELEGATE *)

Definition delegate_state (src dest : nat) (s d : Cte) (amount : Z) (cs : CSpace) : CSpace :=
  upd_slot dest (mkCte (set_size (cap d) (size (cap d) + amount)) (parent d))
    (upd_slot src (mkCte (set_size (cap s) (size (cap s) - amount)) (parent s)) cs).

Record delegate_ok (src dest : nat) (amount : Z) (s d : Cte) (cs : CSpace) : Prop := {
  dl_src : slots cs !! src = Some s;
  dl_dest : slots cs !! dest = Some d;
  dl_types : cap_type (cap s) = Sched ∧ cap_type (cap d) = Sched;
  dl_right : bf_contains (rights (cap s)) DERIVE = true;
  dl_amount : (0 < amount)%Z ∧ (amount <= size (cap s) - watermark (cap s))%Z;
  dl_fits : in_u 32 (size (cap d) + amount);
  dl_ne : src ≠ dest
}.

Lemma delegate_spec cs src dest amount :
  in_u 32 amount →
  match delegate src dest amount cs with
  | (Ok _, cs') => src = dest ∧ cs' = cs ∨
      ∃ s d, delegate_ok src dest amount s d cs ∧ cs' = delegate_state src dest s d amount cs
  | (Err _, cs') => cs' = cs
  | (Panic, _) => False
  end.
Proof.
  intros [Ha _]. unfold delegate. case_decide as Hne; [by left|]. munfold.
  destruct (live_cases cs src) as [[r Hr]|[Hr|Hr]]; rewrite Hr; [|done..].
  apply live_Ok in Hr as (_ & s & Hs & <-).
  destruct (live_cases cs dest) as [[r Hr]|[Hr|Hr]]; rewrite Hr; [|done..].
  apply live_Ok in Hr as (_ & d & Hd & <-).
  destruct (is_type _ _) eqn:Ht; [|done]. apply is_type_true in Ht.
  destruct (is_type (cap_type (cap d)) _) eqn:Htd; [|done]. apply is_type_true in Htd. simpl.
  destruct (bf_contains _ _) eqn:Hr; [|done]. simpl.
  destruct (budget_delegate _ _ _) as [[b c]|] eqn:Hb; [|done].
  apply budget_delegate_Some in Hb as (?&?&?&->&->); [|done]. simpl in *.
  unfold slot, index. rewrite Hs. rewrite (set_cap_eq _ _ s) by done. simpl.
  rewrite list_lookup_insert_ne, Hd by done.
  rewrite (set_cap_eq _ _ d) by (simpl; by rewrite list_lookup_insert_ne).
  right. exists s, d. split; [by split|]. done.
Qed.

Lemma wf_delegate cs src dest amount s d :
  wf cs → delegate_ok src dest amount s d cs → wf (delegate_state src dest s d amount cs).
Proof.
  intros W [Hs Hd [Ht Htd] _ [??] Hfit Hne].
  destruct (wf_caps _ W _ _ Hs) as [(?&?&?&?&?&?) _]. unfold in_u in *.
  unfold delegate_state. apply wf_set_sched_size; try done.
  - apply wf_set_sched_size; try done. unfold in_u; lia.
  - simpl. by rewrite list_lookup_insert_ne.
Qed.

Lemma delegate_time cs src dest amount s d :
  delegate_ok src dest amount s d cs →
  cpu_time (delegate_state src dest s d amount cs) = cpu_time cs.
Proof.
  intros [Hs Hd [Ht Htd] _ _ _ Hne]. unfold delegate_state.
  rewrite (cpu_time_upd _ _ d) by (simpl; by rewrite list_lookup_insert_ne).
  rewrite (cpu_time_upd _ _ s) by done.
  rewrite !sched_time_Sched by done. simpl. lia.
Qed.

Lemma delegate_good cs src dest amount :
  wf cs → in_u 32 amount → good cs (delegate src dest amount cs).
Proof.
  intros W Ha. pose proof (delegate_spec cs src dest amount Ha) as H.
  unfold good. repeat case_match; try done.
  destruct H as [[_ ->]|(s & d & Hok & ->)]; [done|by eapply wf_delegate].
Qed.
End sched.
