(* ===== verification/CSpaceRevoke.v ===== *)
(** * REVOKE and DELETE

    [is_descendant] decides the derivation order, [revoke]'s search finds a leaf
    as long as a descendant is left, each pass destroys one, and the loop ends
    within [N] passes with exactly the strict descendants gone. *)

From S2P Require Import Prelude Rights Cap Budget CSpace CSpaceInv CSpaceOps CSpaceSched.

(** What destroying [d] (whose entry was [de]) makes of slot [k]. *)
Definition credited (de : Cte) (k : nat) (ek : Cte) : Cte :=
  if bool_decide (parent de = Some k) && is_type (cap_type (cap de)) Sched
     && is_type (cap_type (cap ek)) Sched
  then mkCte (set_size (cap ek) (sat_add 32 (size (cap ek)) (size (cap de)))) (parent ek)
  else ek.

(** The number of live slots, the measure of REVOKE's loop. *)
Definition live_slots (cs : CSpace) : Z :=
  sumZ (λ e, if is_null (cap e) then 0%Z else 1%Z) (slots cs).

Section revoke.
Context {BF : Bitflags}.

(** ** The derivation order *)

(** A rank bounded by the number of slots. *)
Lemma bounded_rank cs :
  wf cs → ∃ rank : nat → nat, (∀ k p, parent_of cs k p → rank p < rank k) ∧
    ∀ k, rank k ≤ length (slots cs).
Proof.
  intros W. destruct (wf_rank _ W) as [r Hr].
  exists (λ k, length (filter (λ j, r j < r k) (seq 0 (length (slots cs))))). split.
  - intros k p Hkp. destruct (parent_live _ _ _ W Hkp) as (ek&ep&_&Hp&_).
    apply Hr in Hkp. eapply (filter_length_lt _ _ _ p); [lia| |lia|lia].
    apply elem_of_seq. apply lookup_lt_Some in Hp. lia.
  - intros k. etrans; [apply filter_length_le|]. by rewrite length_seq.
Qed.

(** A chain of parent links is no longer than the table. *)
Lemma chain_bound cs n k a :
  wf cs → nsteps (parent_of cs) n k a → n ≤ length (slots cs).
Proof.
  intros W H. destruct (bounded_rank cs W) as (rank & Hr & Hb).
  assert (n + rank a ≤ rank k) as Hn.
  { clear -H Hr. induction H as [x|n x y z Hxy _ IH]; [lia|]. apply Hr in Hxy. lia. }
  specialize (Hb k). lia.
Qed.

Lemma parent_of_det cs k p e : slots cs !! k = Some e → parent_of cs k p ↔ parent e = Some p.
Proof. intros He. split; [intros (?&?&?); congruence|by exists e]. Qed.

Lemma descendant_loop_spec cs n d a :
  wf cs → d < length (slots cs) →
  ∃ b, descendant_loop n cs d a = Ok b ∧
    (b = true ↔ ∃ m, 0 < m ≤ n ∧ nsteps (parent_of cs) m d a).
Proof.
  intros W. revert d. induction n as [|n IH]; intros d Hd.
  { exists false. split; [done|]. split; [done|]. intros (m & ? & _). lia. }
  destruct (lookup_lt_is_Some_2 _ _ Hd) as [e He]. simpl.
  rewrite (slot_Some _ _ _ He). munfold.
  destruct (parent e) as [p|] eqn:Hp.
  2:{ exists false. split; [done|]. split; [done|]. intros (m & Hm & Hs).
      inv Hs; [lia|]. apply (parent_of_det _ _ _ _ He) in H. congruence. }
  case_decide as Ha; [subst|].
  { exists true. split; [done|]. split; [|done]. intros _. exists 1. split; [lia|].
    apply nsteps_once. by exists e. }
  destruct (wf_parent _ W _ _ _ He Hp) as (pe & Hpe & _).
  destruct (IH p) as (b & -> & Hb); [by eapply lookup_lt_Some|].
  exists b. split; [done|]. rewrite Hb. split.
  - intros (m & Hm & Hs). exists (S m). split; [lia|]. econstructor; [|done]. by exists e.
  - intros (m & Hm & Hs). inv Hs; [lia|]. apply (parent_of_det _ _ _ _ He) in H.
    simplify_eq. exists n0. split; [|done]. destruct n0; [inv H0; done|lia].
Qed.

Lemma is_descendant_spec cs d a :
  wf cs → d < length (slots cs) →
  ∃ b, is_descendant cs d a = Ok b ∧ (b = true ↔ below cs d a).
Proof.
  intros W Hd. unfold is_descendant.
  destruct (descendant_loop_spec cs (S (length (slots cs))) d a W Hd) as (b & -> & Hb).
  exists b. split; [done|]. rewrite Hb, tc_nsteps. split.
  - intros (m & Hm & Hs). exists m. split; [lia|done].
  - intros (m & Hm & Hs). exists m. split; [|done]. apply chain_bound in Hs; [lia|done].
Qed.

Lemma below_lookup cs k a : below cs k a → ∃ e, slots cs !! k = Some e.
Proof. intros H. apply tc_nsteps in H as (n & Hn & Hs). inv Hs; [lia|]. destruct H as (e&?&?). eauto. Qed.

Lemma below_irrefl cs k : wf cs → ¬ below cs k k.
Proof.
  intros W H. destruct (wf_rank _ W) as [r Hr].
  assert (∀ x y, below cs x y → r y < r x) as Hlt.
  { induction 1 as [x y Hxy|x y z Hxy _ IH]; [by apply Hr|]. apply Hr in Hxy. lia. }
  apply Hlt in H. lia.
Qed.

Lemma below_live cs k a e :
  wf cs → below cs k a → slots cs !! k = Some e → cap_type (cap e) ≠ Null ∧ ∃ p, parent e = Some p.
Proof.
  intros W H He. apply tc_nsteps in H as (n & Hn & Hs). inv Hs; [lia|].
  destruct (parent_live _ _ _ W H) as (?&?&?&?&?&?&?). simplify_eq.
  split; [done|]. apply (parent_of_det _ _ _ _ He) in H. eauto.
Qed.

(** Below any slot with a descendant there is a leaf. *)
Lemma leaf_exists cs k c :
  wf cs → below cs k c → ∃ d, below cs d c ∧ ∀ j, ¬ parent_of cs j d.
Proof.
  intros W H. destruct (bounded_rank cs W) as (rank & Hr & Hb).
  remember (length (slots cs) - rank k) as m eqn:Hm. revert k H Hm.
  induction (lt_wf m) as [m _ IH]; intros k H ->.
  destruct (has_children cs k) eqn:Hc.
  - apply has_children_true in Hc as [j Hj]; [|done].
    apply (IH (length (slots cs) - rank j)) with (k:=j); [|by eapply tc_l|done].
    pose proof (Hr _ _ Hj). pose proof (Hb j). lia.
  - exists k. split; [done|]. by apply has_children_false.
Qed.

(** ** The search *)

Lemma leaf_below_spec cs c d :
  wf cs → d < length (slots cs) →
  ∃ b, leaf_below cs c d = Ok b ∧ (b = true ↔ below cs d c ∧ ∀ j, ¬ parent_of cs j d).
Proof.
  intros W Hd. unfold leaf_below. case_decide as Hc; [subst|].
  { exists false. split; [done|]. split; [done|]. intros [H _]. by apply below_irrefl in H. }
  destruct (lookup_lt_is_Some_2 _ _ Hd) as [e He]. rewrite (slot_Some _ _ _ He). munfold.
  destruct (is_null (cap e)) eqn:Hn.
  { apply is_null_true in Hn. exists false. split; [done|]. split; [done|]. intros [H _].
    by apply (below_live _ _ _ e W) in H as [? _]. }
  destruct (is_descendant_spec cs d c W Hd) as (b & -> & Hb). destruct b; simpl.
  - exists (negb (has_children cs d)). split; [done|].
    rewrite negb_true_iff, has_children_false by done. naive_solver.
  - exists false. split; [done|]. split; [done|]. intros [H _]. by apply Hb in H.
Qed.

Lemma rfind_spec {A} (p : A → res CapError bool) (P : A → Prop) (l : list A) :
  (∀ x, x ∈ l → ∃ b, p x = Ok b ∧ (b = true ↔ P x)) →
  ∃ o, rfind p l = Ok o ∧
    match o with Some x => x ∈ l ∧ P x | None => ∀ x, x ∈ l → ¬ P x end.
Proof.
  induction l as [|x l IH]; intros H; simpl.
  { exists None. split; [done|]. intros x. by rewrite elem_of_nil. }
  destruct (H x) as (b & -> & Hb); [left|]. munfold. destruct b.
  { exists (Some x). split; [done|]. split; [left|by apply Hb]. }
  destruct IH as (o & -> & Ho); [intros; apply H; by right|].
  exists o. split; [done|]. destruct o as [y|].
  - destruct Ho. split; [by right|done].
  - intros y [->|Hy]%elem_of_cons; [|by apply Ho]. intros HP. by apply Hb in HP.
Qed.

Lemma find_leaf_spec cs c :
  wf cs →
  ∃ o, find_leaf cs c = Ok o ∧
    match o with
    | Some d => below cs d c ∧ ∀ j, ¬ parent_of cs j d
    | None => ∀ k, ¬ below cs k c
    end.
Proof.
  intros W. unfold find_leaf.
  destruct (rfind_spec (leaf_below cs c) (λ d, below cs d c ∧ ∀ j, ¬ parent_of cs j d)
    (seq 0 (length (slots cs)))) as (o & -> & Ho).
  { intros d Hd%elem_of_seq. apply leaf_below_spec; [done|lia]. }
  exists o. split; [done|]. destruct o as [d|]; [by destruct Ho|].
  intros k Hk. destruct (leaf_exists _ _ _ W Hk) as (d & Hd & Hj).
  apply (Ho d); [|done]. apply elem_of_seq.
  apply below_lookup in Hd as [e He]. apply lookup_lt_Some in He. lia.
Qed.

(** ** One pass *)

Lemma destroy_lookup cs d de k :
  slots cs !! d = Some de →
  slots (destroy_state d de cs) !! k =
  if decide (k = d) then Some Cte_EMPTY else credited de k <$> (slots cs !! k).
Proof.
  intros Hd. rewrite destroy_state_slots. pose proof (lookup_lt_Some _ _ _ Hd) as Hlt.
  unfold credit_state, credited. destruct (parent de) as [p|]; simpl.
  2:{ case_decide; [subst; by apply list_lookup_insert_eq|].
      rewrite list_lookup_insert_ne by done. by destruct (slots cs !! k). }
  destruct (decide (p = d)) as [->|Hp].
  { rewrite list_lookup_insert_eq by done. simpl. rewrite andb_false_r. simpl.
    case_decide; [subst; by apply list_lookup_insert_eq|].
    rewrite list_lookup_insert_ne by done. rewrite bool_decide_eq_false_2 by congruence.
    by destruct (slots cs !! k). }
  rewrite list_lookup_insert_ne by done. destruct (decide (k = p)) as [->|Hk].
  - rewrite (decide_False (P:=p = d)), bool_decide_eq_true_2 by done.
    destruct (slots cs !! p) as [pe|] eqn:Hpe; simpl.
    + case_match; simpl; [|by rewrite list_lookup_insert_ne].
      apply list_lookup_insert_eq. rewrite length_insert. by eapply lookup_lt_Some.
    + by rewrite list_lookup_insert_ne.
  - rewrite bool_decide_eq_false_2 by congruence. simpl.
    replace ((λ ek, ek) <$> slots cs !! k) with (slots cs !! k) by (by destruct (slots cs !! k)).
    repeat case_match; simpl; rewrite ?(list_lookup_insert_ne _ p) by done; case_decide; subst;
      try (by apply list_lookup_insert_eq); by rewrite list_lookup_insert_ne.
Qed.

Lemma credited_parent de k ek : parent (credited de k ek) = parent ek.
Proof. unfold credited. by case_match. Qed.
Lemma credited_type de k ek : cap_type (cap (credited de k ek)) = cap_type (cap ek).
Proof. unfold credited. by case_match. Qed.
Lemma credited_objref de k ek : objref (cap (credited de k ek)) = objref (cap ek).
Proof. unfold credited. by case_match. Qed.
Lemma credited_other de k ek : parent de ≠ Some k → credited de k ek = ek.
Proof. intros. unfold credited. by rewrite bool_decide_eq_false_2. Qed.
(** A credit only rewrites the [size] of a [Sched]. *)
Lemma credited_size de k ek :
  ∃ n, credited de k ek = mkCte (set_size (cap ek) n) (parent ek) ∧
    (cap_type (cap ek) ≠ Sched → n = size (cap ek)).
Proof.
  unfold credited. case_match.
  - eexists. split; [done|]. intros Hn. apply andb_true_iff in H as [_ ?%is_type_true]. done.
  - exists (size (cap ek)). split; [|done]. destruct ek as [[] ?]. done.
Qed.

Lemma destroy_parent_of cs d de k q :
  slots cs !! d = Some de →
  parent_of (destroy_state d de cs) k q ↔ k ≠ d ∧ parent_of cs k q.
Proof.
  intros Hd. unfold parent_of. rewrite (destroy_lookup _ _ _ _ Hd). case_decide as Hk.
  - split; [|naive_solver]. intros (e & [= <-] & ?). done.
  - split.
    + intros (e & (e0 & He & ->)%fmap_Some & Hp). rewrite credited_parent in Hp.
      split; [done|]. by exists e0.
    + intros [_ (e & He & Hp)]. exists (credited de k e). rewrite He.
      split; [done|]. by rewrite credited_parent.
Qed.

(** Destroying a leaf removes it from the order and nothing else. *)
Lemma destroy_below cs d de k a :
  slots cs !! d = Some de → (∀ j, ¬ parent_of cs j d) →
  below (destroy_state d de cs) k a ↔ k ≠ d ∧ below cs k a.
Proof.
  intros Hd Hleaf. split.
  - induction 1 as [x y H|x y z H _ [_ IH]]; apply (destroy_parent_of _ _ _ _ _ Hd) in H as [??].
    + split; [done|]. by constructor.
    + split; [done|]. by eapply tc_l.
  - intros [Hk H]. induction H as [x y H|x y z H H' IH].
    + constructor. by apply destroy_parent_of.
    + assert (y ≠ d) by (intros ->; by eapply Hleaf).
      eapply tc_l; [by apply destroy_parent_of|by apply IH].
Qed.

Lemma destroy_another cs d de c :
  another_cap (destroy_state d de cs) c =
  another_cap (credit_state (cap de) (parent de) (upd_slot d Cte_EMPTY cs)) c.
Proof. unfold another_cap. by rewrite destroy_state_slots. Qed.

Lemma destroy_zlog cs d de :
  zlog (destroy_state d de cs) =
  zlog cs ++ (if negb (another_cap (destroy_state d de cs) (cap de))
                 && negb (unzeroed_type (cap_type (cap de)))
              then [(objref (cap de), size (cap de))] else []).
Proof.
  rewrite destroy_another. unfold destroy_state.
  assert (zlog (credit_state (cap de) (parent de) (upd_slot d Cte_EMPTY cs)) = zlog cs) as Hz
    by (unfold credit_state; by repeat case_match).
  case_match; simpl; rewrite Hz; by rewrite ?app_nil_r.
Qed.

Lemma another_cap_true cs c :
  another_cap cs c = true ↔
  ∃ k e, slots cs !! k = Some e ∧ cap_type (cap e) ≠ Null ∧
    cap_type (cap e) = cap_type c ∧ objref (cap e) = objref c.
Proof.
  unfold another_cap. rewrite existsb_exists. split.
  - intros (e & He%list_elem_of_In & H). apply list_elem_of_lookup in He as [k Hk].
    apply andb_true_iff in H as [[Hn%negb_true_iff Ht%same_type_spec]%andb_true_iff Ho%Z.eqb_eq].
    exists k, e. split_and!; try done. by apply is_null_false.
  - intros (k & e & He & Hn & Ht & Ho). exists e. split.
    + apply list_elem_of_In. by eapply list_elem_of_lookup_2.
    + apply is_null_false in Hn. rewrite Hn, Ho, Z.eqb_refl, andb_true_r. simpl.
      by apply same_type_spec.
Qed.

Lemma live_slots_destroy cs d de :
  wf cs → slots cs !! d = Some de → cap_type (cap de) ≠ Null →
  live_slots (destroy_state d de cs) = (live_slots cs - 1)%Z.
Proof.
  intros W Hd Hn. unfold live_slots. rewrite destroy_state_slots.
  assert (sumZ (λ e, if is_null (cap e) then 0%Z else 1%Z) (slots (upd_slot d Cte_EMPTY cs)) =
    (live_slots cs - 1)%Z) as H1.
  { simpl. rewrite (sumZ_insert _ _ _ _ _ Hd). apply is_null_false in Hn. rewrite Hn.
    unfold live_slots. simpl. lia. }
  unfold live_slots in H1. rewrite <- H1. unfold credit_state. repeat case_match; try done.
  match goal with H : slots _ !! _ = Some _ |- _ => simpl; rewrite (sumZ_insert _ _ _ _ _ H) end.
  match goal with H : _ && _ = true |- _ => apply andb_true_iff in H as [_ Ht%is_type_true] end. unfold is_null. simpl. rewrite Ht. lia.
Qed.

Lemma live_slots_bound cs : (0 <= live_slots cs <= Z.of_nat (length (slots cs)))%Z.
Proof.
  unfold live_slots. induction (slots cs) as [|e l IH]; simpl; [lia|]. case_match; lia.
Qed.

(** The CPU time of a destroyed [Sched] returns to its parent. *)
Lemma sched_parent cs d de p :
  wf cs → slots cs !! d = Some de → parent de = Some p → cap_type (cap de) = Sched →
  ∃ pe, slots cs !! p = Some pe ∧ cap_type (cap pe) = Sched ∧ p ≠ d.
Proof.
  intros W Hd Hp Ht. destruct (wf_parent _ W _ _ _ Hd Hp) as (pe & Hpe & Hch).
  exists pe. split; [done|]. split.
  - unfold child_ok in Hch. rewrite Ht in Hch. destruct (cap_type (cap pe)); naive_solver.
  - intros ->. apply (below_irrefl cs d W). constructor. by exists de.
Qed.

Lemma destroy_time cs d de p :
  wf cs → slots cs !! d = Some de → parent de = Some p → (cpu_time cs < 2 ^ 32)%Z →
  cpu_time (destroy_state d de cs) = cpu_time cs.
Proof.
  intros W Hd Hp Hlt. unfold cpu_time at 1. rewrite destroy_state_slots.
  change (cpu_time (credit_state (cap de) (parent de) (upd_slot d Cte_EMPTY cs)) = cpu_time cs).
  unfold credit_state. rewrite Hp. destruct (is_type (cap_type (cap de)) Sched) eqn:Ht.
  - apply is_type_true in Ht.
    destruct (sched_parent _ _ _ _ W Hd Hp Ht) as (pe & Hpe & Htp & Hne).
    assert (slots (upd_slot d Cte_EMPTY cs) !! p = Some pe) as Hpe'
      by (simpl; by rewrite list_lookup_insert_ne).
    rewrite Hpe', Htp. simpl. rewrite (cpu_time_upd _ _ pe) by done.
    rewrite (cpu_time_upd _ _ de) by done. change (sched_time Cte_EMPTY) with 0%Z.
    pose proof (cpu_time_two cs p d pe de W Hne Hpe Hd).
    rewrite !sched_time_Sched in * by done. simpl. unfold sat_add. lia.
  - assert (sched_time de = 0%Z) as Hz by (unfold sched_time; by rewrite Ht).
    assert (cpu_time (upd_slot d Cte_EMPTY cs) = cpu_time cs) as Hu.
    { rewrite (cpu_time_upd _ _ de) by done. change (sched_time Cte_EMPTY) with 0%Z. lia. }
    by repeat case_match.
Qed.

(** ** The loop *)

(** Destroying all strict descendants of [c], with the zeroing calls [zs]. *)
Record revoked (c : nat) (cs cs' : CSpace) (zs : list (Z * Z)) : Prop := {
  rv_wf : wf cs';
  rv_len : length (slots cs') = length (slots cs);
  rv_next : next_obj cs' = next_obj cs;
  (* every descendant is gone *)
  rv_below k : below cs k c → slots cs' !! k = Some Cte_EMPTY;
  (* nothing else is touched *)
  rv_other k : k ≠ c → ¬ below cs k c → slots cs' !! k = slots cs !! k;
  (* but for the CPU time that returns to a [Sched] *)
  rv_self e : slots cs !! c = Some e →
    ∃ n, slots cs' !! c = Some (mkCte (set_size (cap e) n) (parent e)) ∧
      (cap_type (cap e) ≠ Sched → n = size (cap e));
  rv_zlog : zlog cs' = zlog cs ++ zs;
  (* an object whose last capability went is zeroed ... *)
  rv_zero k e : below cs k c → slots cs !! k = Some e → unzeroed_type (cap_type (cap e)) = false →
    another_cap cs' (cap e) = true ∨
    ∃ k' e', below cs k' c ∧ slots cs !! k' = Some e' ∧ cap_type (cap e') = cap_type (cap e) ∧
      objref (cap e') = objref (cap e) ∧ (objref (cap e), size (cap e')) ∈ zs;
  (* ... and no other memory is *)
  rv_only f n : (f, n) ∈ zs →
    ∃ k e, below cs k c ∧ slots cs !! k = Some e ∧ f = objref (cap e) ∧ n = size (cap e) ∧
      unzeroed_type (cap_type (cap e)) = false ∧ another_cap cs' (cap e) = false;
  rv_time : (cpu_time cs < 2 ^ 32)%Z → cpu_time cs' = cpu_time cs
}.

Lemma below_cases cs k a : wf cs → below cs k a ∨ ¬ below cs k a.
Proof.
  intros W. destruct (decide (k < length (slots cs))) as [Hk|Hk].
  - destruct (is_descendant_spec cs k a W Hk) as ([] & _ & Hb); [left|right].
    + by apply Hb.
    + intros H. by apply Hb in H.
  - right. intros [e He]%below_lookup. apply lookup_lt_Some in He. done.
Qed.

Lemma revoked_survivor c cs cs' zs k e' :
  wf cs → revoked c cs cs' zs → slots cs' !! k = Some e' → cap_type (cap e') ≠ Null →
  ∃ e, slots cs !! k = Some e ∧ ¬ below cs k c ∧
    cap_type (cap e) = cap_type (cap e') ∧ objref (cap e) = objref (cap e').
Proof.
  intros W R Hk Hn. destruct (below_cases cs k c W) as [Hb|Hb].
  { apply (rv_below _ _ _ _ R) in Hb. by simplify_eq. }
  destruct (decide (k = c)) as [->|Hc].
  - destruct (lookup_lt_is_Some_2 (slots cs) c) as [e He].
    { rewrite <- (rv_len _ _ _ _ R). by eapply lookup_lt_Some. }
    destruct (rv_self _ _ _ _ R _ He) as (n & Hn' & _). simplify_eq. eauto.
  - rewrite (rv_other _ _ _ _ R) in Hk by done. eauto.
Qed.

Lemma revoked_keeps c cs cs' zs k e :
  revoked c cs cs' zs → slots cs !! k = Some e → ¬ below cs k c →
  ∃ e', slots cs' !! k = Some e' ∧ parent e' = parent e ∧
    cap_type (cap e') = cap_type (cap e) ∧ objref (cap e') = objref (cap e).
Proof.
  intros R Hk Hb. destruct (decide (k = c)) as [->|Hc].
  - destruct (rv_self _ _ _ _ R _ Hk) as (n & Hn' & _). by eexists.
  - exists e. by rewrite (rv_other _ _ _ _ R).
Qed.

Lemma revoked_none c cs : wf cs → (∀ k, ¬ below cs k c) → revoked c cs cs [].
Proof.
  intros W Hno. split; try done.
  - intros k Hk. by apply Hno in Hk.
  - intros e He. exists (size (cap e)). rewrite He. by destruct e as [[] ?].
  - by rewrite app_nil_r.
  - intros k e Hk. by apply Hno in Hk.
  - intros f n H. by apply elem_of_nil in H.
Qed.

(** A zeroable entry is not touched by a credit. *)
Lemma credited_zeroable de k e :
  unzeroed_type (cap_type (cap e)) = false → credited de k e = e.
Proof.
  intros Hz. destruct (credited_size de k e) as (n & -> & Hn). rewrite Hn.
  - by destruct e as [[] ?].
  - intros Ht. by rewrite Ht in Hz.
Qed.

Section pass.
Context (c d : nat) (de : Cte) (cs cs' : CSpace) (zs : list (Z * Z)).
Context (W : wf cs) (Hd : slots cs !! d = Some de) (Hdc : below cs d c).
Context (Hleaf : ∀ j, ¬ parent_of cs j d).
Let cs1 := destroy_state d de cs.
Context (R : revoked c cs1 cs' zs).
Let z0 := if negb (another_cap cs1 (cap de)) && negb (unzeroed_type (cap_type (cap de)))
          then [(objref (cap de), size (cap de))] else [].

Local Lemma pass_below k : below cs1 k c ↔ k ≠ d ∧ below cs k c.
Proof. by apply destroy_below. Qed.

Local Lemma pass_parent p : parent de = Some p → p = c ∨ below cs p c.
Proof.
  intros Hp. apply tc_nsteps in Hdc as (n & Hn & Hs). inv Hs; [lia|].
  apply (parent_of_det _ _ _ _ Hd) in H. simplify_eq.
  destruct n0; [inv H0; by left|]. right. apply tc_nsteps. exists (S n0). split; [lia|done].
Qed.

Local Lemma pass_ne : d ≠ c.
Proof. intros ->. by apply below_irrefl in Hdc. Qed.

Local Lemma pass_gone : slots cs' !! d = Some Cte_EMPTY.
Proof.
  rewrite (rv_other _ _ _ _ R) by (apply pass_ne || (rewrite pass_below; naive_solver)).
  unfold cs1. by rewrite (destroy_lookup _ _ _ _ Hd), decide_True.
Qed.

Local Lemma pass_other k : k ≠ c → ¬ below cs k c → slots cs' !! k = slots cs !! k.
Proof.
  intros Hk Hb. assert (k ≠ d) by (by intros ->).
  rewrite (rv_other _ _ _ _ R) by (done || rewrite pass_below; naive_solver).
  unfold cs1. rewrite (destroy_lookup _ _ _ _ Hd), decide_False by done.
  destruct (slots cs !! k) eqn:He; [|done]. simpl. f_equal. apply credited_other.
  intros Hp. by destruct (pass_parent _ Hp).
Qed.

Local Lemma pass_self e : slots cs !! c = Some e →
  ∃ n, slots cs' !! c = Some (mkCte (set_size (cap e) n) (parent e)) ∧
    (cap_type (cap e) ≠ Sched → n = size (cap e)).
Proof.
  intros He. pose proof pass_ne. destruct (credited_size de c e) as (m & Hm & Hm').
  destruct (rv_self _ _ _ _ R (credited de c e)) as (n & Hn & Hn').
  { unfold cs1. by rewrite (destroy_lookup _ _ _ _ Hd), decide_False, He by done. }
  rewrite Hm in Hn, Hn'. simpl in *. exists n. split; [done|].
  intros Ht. rewrite Hn' by done. by apply Hm'.
Qed.

(** An entry of the space after the pass is one of the space before it. *)
Local Lemma pass_entry k e :
  slots cs1 !! k = Some e → unzeroed_type (cap_type (cap e)) = false →
  cap_type (cap e) ≠ Null → k ≠ d ∧ slots cs !! k = Some e.
Proof.
  unfold cs1. rewrite (destroy_lookup _ _ _ _ Hd). case_decide; [by intros [= <-]|].
  intros (e0 & He & ->)%fmap_Some Hz _. split; [done|].
  rewrite credited_type in Hz. by rewrite credited_zeroable.
Qed.

Local Lemma pass_zero k e :
  below cs k c → slots cs !! k = Some e → unzeroed_type (cap_type (cap e)) = false →
  another_cap cs' (cap e) = true ∨
  ∃ k' e', below cs k' c ∧ slots cs !! k' = Some e' ∧ cap_type (cap e') = cap_type (cap e) ∧
    objref (cap e') = objref (cap e) ∧ (objref (cap e), size (cap e')) ∈ z0 ++ zs.
Proof.
  intros Hb He Hz.
  assert (∀ k1 e1, below cs1 k1 c → slots cs1 !! k1 = Some e1 → cap_type (cap e1) = cap_type (cap e) →
    objref (cap e1) = objref (cap e) → another_cap cs' (cap e) = true ∨
    ∃ k' e', below cs k' c ∧ slots cs !! k' = Some e' ∧ cap_type (cap e') = cap_type (cap e) ∧
      objref (cap e') = objref (cap e) ∧ (objref (cap e), size (cap e')) ∈ z0 ++ zs) as IH.
  { intros k1 e1 Hb1 He1 Ht1 Ho1.
    destruct (rv_zero _ _ _ _ R k1 e1) as [Ha|(k'&e'&Hb'&He'&Ht'&Ho'&Hin)]; try done; [by rewrite Ht1|..].
    - left. rewrite <- Ha. unfold another_cap. by rewrite Ht1, Ho1.
    - right. rewrite Ht1 in Ht'. rewrite Ho1 in *. apply pass_below in Hb' as [Hk' Hb'].
      destruct (below_lookup _ _ _ Hb') as [e0 He0].
      assert (cap_type (cap e') ≠ Null).
      { rewrite Ht'. by apply (below_live cs k c e W Hb). }
      destruct (pass_entry k' e') as [_ ?]; [done|by rewrite Ht'|done|].
      exists k', e'. split_and!; try done. apply elem_of_app. by right. }
  destruct (decide (k = d)) as [->|Hk].
  - simplify_eq. destruct (another_cap cs1 (cap de)) eqn:Ha.
    + pose proof Ha as Ha'. apply another_cap_true in Ha' as (k1 & e1 & He1 & Hn1 & Ht1 & Ho1).
      destruct (below_cases cs1 k1 c) as [Hb1|Hb1]; [by apply wf_destroy|by eapply IH|].
      left. destruct (revoked_keeps _ _ _ _ _ _ R He1 Hb1) as (e' & He' & _ & Ht' & Ho').
      apply another_cap_true. exists k1, e'. split_and!; congruence.
    + right. exists d, de. split_and!; try done. apply elem_of_app. left.
      unfold z0. rewrite Hz. by apply list_elem_of_singleton.
  - apply (IH k e); try done; [by apply pass_below|].
    unfold cs1. rewrite (destroy_lookup _ _ _ _ Hd), decide_False, He by done. simpl.
    by rewrite credited_zeroable.
Qed.

Local Lemma pass_only f n : (f, n) ∈ z0 ++ zs →
  ∃ k e, below cs k c ∧ slots cs !! k = Some e ∧ f = objref (cap e) ∧ n = size (cap e) ∧
    unzeroed_type (cap_type (cap e)) = false ∧ another_cap cs' (cap e) = false.
Proof.
  intros [H|H]%elem_of_app.
  - unfold z0 in H. destruct (_ && _) eqn:Hc; [|by apply elem_of_nil in H].
    apply list_elem_of_singleton in H as [= -> ->].
    apply andb_true_iff in Hc as [Ha%negb_true_iff Hz%negb_true_iff].
    exists d, de. split_and!; try done. apply not_true_iff_false. intros Ha'.
    apply another_cap_true in Ha' as (k & e' & He' & Hn' & Ht' & Ho').
    destruct (revoked_survivor _ _ _ _ _ _ (wf_destroy _ _ _ W Hd Hleaf) R He' Hn')
      as (e & He & _ & Ht & Ho).
    apply not_true_iff_false in Ha. apply Ha, another_cap_true.
    exists k, e. split_and!; [exact He|congruence..].
  - destruct (rv_only _ _ _ _ R _ _ H) as (k & e & Hb & He & -> & -> & Hz & Ha).
    apply pass_below in Hb as [Hk Hb]. exists k, e. split_and!; try done.
    unfold cs1 in He. rewrite (destroy_lookup _ _ _ _ Hd), decide_False in He by done.
    apply fmap_Some in He as (e0 & He0 & ->). rewrite credited_type in Hz.
    by rewrite (credited_zeroable _ _ _ Hz).
Qed.

Lemma revoked_step : revoked c cs cs' (z0 ++ zs).
Proof.
  split.
  - apply (rv_wf _ _ _ _ R).
  - rewrite (rv_len _ _ _ _ R). unfold cs1. rewrite destroy_state_slots.
    unfold credit_state. repeat case_match; simpl; by rewrite ?length_insert.
  - rewrite (rv_next _ _ _ _ R). apply destroy_state_next.
  - intros k Hk. destruct (decide (k = d)) as [->|Hkd]; [apply pass_gone|].
    apply (rv_below _ _ _ _ R). by apply pass_below.
  - apply pass_other.
  - apply pass_self.
  - rewrite (rv_zlog _ _ _ _ R). unfold cs1. rewrite destroy_zlog. by rewrite <- app_assoc.
  - apply pass_zero.
  - apply pass_only.
  - intros Ht. destruct (below_live _ _ _ _ W Hdc Hd) as [_ [p Hp]].
    pose proof (destroy_time _ _ _ _ W Hd Hp Ht) as Hc.
    rewrite (rv_time _ _ _ _ R); [done|]. unfold cs1. by rewrite Hc.
Qed.
End pass.

(** The loop ends, within one pass per live slot. *)
Lemma revoke_loop_spec fuel c cs :
  wf cs → (live_slots cs < Z.of_nat fuel)%Z →
  ∃ cs' zs, revoke_loop fuel c cs = (Ok (), cs') ∧ revoked c cs cs' zs.
Proof.
  revert cs. induction fuel as [|fuel IH]; intros cs W Hf.
  { pose proof (live_slots_bound cs). lia. }
  simpl. unfold reads, mbind, M_bind. destruct (find_leaf_spec cs c W) as (o & -> & Ho).
  destruct o as [d|].
  - destruct Ho as [Hb Hleaf]. destruct (below_lookup _ _ _ Hb) as [de Hd].
    destruct (below_live _ _ _ _ W Hb Hd) as [Hn _].
    rewrite (destroy_slot_eq _ _ _ W Hd Hn).
    destruct (IH (destroy_state d de cs)) as (cs' & zs & -> & R).
    { by apply wf_destroy. }
    { rewrite live_slots_destroy by done. lia. }
    exists cs'. eexists. split; [done|]. by apply (revoked_step _ _ _ _ _ _ W Hd Hb Hleaf R).
  - exists cs, []. split; [done|]. by apply revoked_none.
Qed.
End revoke.
