(* ===== verification/CSpaceProps.v ===== *)
(** * Theorems about the capability space

    The properties of [cap-core/src/cspace.rs] that the rest of the kernel
    relies on, each with a witness on a small concrete space. *)

From S2P Require Import Prelude Rights Cap Budget CSpace CSpaceInv CSpaceOps CSpaceSched CSpaceRevoke.

(** The state REVOKE leaves: the loop's, with an [Untyped]'s watermark reset. *)
Definition reclaim (c : nat) (cs : CSpace) : CSpace :=
  match slots cs !! c with
  | Some e => if is_type (cap_type (cap e)) Untyped
              then upd_slot c (mkCte (set_watermark (cap e) 0) (parent e)) cs else cs
  | None => cs
  end.

(** A run of requests: an error leaves the space as it is, a panic stops. *)
Fixpoint run_ops {BF : Bitflags} (os : list cap_op) (cs : CSpace) : option CSpace :=
  match os with
  | [] => Some cs
  | o :: os' =>
      match run_op o cs with
      | (Panic, _) => None
      | (_, cs') => run_ops os' cs'
      end
  end.

Section props.
Context {BF : Bitflags}.

(** ** REVOKE and DELETE as a whole *)

Lemma revoke_spec cs c e :
  wf cs → slots cs !! c = Some e → cap_type (cap e) ≠ Null →
  ∃ cs1 zs, revoked c cs cs1 zs ∧ revoke c cs = (Ok (), reclaim c cs1).
Proof.
  intros W He Hn. unfold revoke, mbind, M_bind, reads, get.
  assert (live cs c = Ok (cap e)) as -> by (apply live_Ok; eauto).
  destruct (revoke_loop_spec (S (length (slots cs))) c cs W) as (cs1 & zs & -> & R).
  { pose proof (live_slots_bound cs). lia. }
  exists cs1, zs. split; [done|]. destruct (rv_self _ _ _ _ R _ He) as (n & He1 & _).
  rewrite (slot_Some _ _ _ He1). unfold reclaim. rewrite He1. simpl.
  case_match; [|done]. by rewrite (set_cap_eq _ _ _ _ He1).
Qed.

Lemma revoke_dead cs c :
  (∀ e, slots cs !! c = Some e → cap_type (cap e) = Null) → ∃ er, revoke c cs = (Err er, cs).
Proof.
  intros Hn. unfold revoke, mbind, M_bind, reads.
  destruct (live_cases cs c) as [[r Hr]|[Hr|Hr]]; rewrite Hr; [|eauto..].
  apply live_Ok in Hr as (Hr & e & He & <-). by apply Hn in He.
Qed.

Lemma revoked_no_child c cs cs' zs k : wf cs → revoked c cs cs' zs → ¬ parent_of cs' k c.
Proof.
  intros W R (e & He & Hp).
  destruct (parent_live _ k c (rv_wf _ _ _ _ R)) as (e'&_&He'&_&Hn&_); [by exists e|].
  simplify_eq. destruct (revoked_survivor _ _ _ _ _ _ W R He Hn) as (e0 & He0 & Hb & _).
  destruct (revoked_keeps _ _ _ _ _ _ R He0 Hb) as (e1 & He1 & Hp1 & _). simplify_eq.
  apply Hb. constructor. exists e0. split; [done|]. congruence.
Qed.

Lemma wf_reclaim c cs : wf cs → (∀ k, ¬ parent_of cs k c) → wf (reclaim c cs).
Proof.
  intros W Hno. unfold reclaim. destruct (slots cs !! c) as [e|] eqn:He; [|done].
  destruct (is_type _ _) eqn:Ht; [|done]. apply is_type_true in Ht.
  destruct (wf_caps _ W _ _ He) as [(?&?&?&?&?&?) Hc]. destruct (Hc Ht). unfold in_u in *.
  apply wf_rewrite; try done.
  - simpl. by rewrite Ht.
  - unfold cap_ok, RawCap_wf, in_u; simpl. split_and!; try lia; done.
  - intros j ej Hj Hp. exfalso. eapply Hno. by exists ej.
  - intros q Hq. destruct (wf_parent _ W _ _ _ He Hq) as (qe & ? & Hch). exfalso.
    unfold child_ok in Hch. rewrite Ht in Hch. destruct (cap_type (cap qe)); naive_solver.
Qed.

Lemma slot_cases cs c :
  (∃ e, slots cs !! c = Some e ∧ cap_type (cap e) ≠ Null) ∨
  (∀ e, slots cs !! c = Some e → cap_type (cap e) = Null).
Proof.
  destruct (slots cs !! c) as [e|]; [|by right].
  destruct (decide (cap_type (cap e) = Null)); [right|left]; naive_solver.
Qed.

Lemma revoke_good cs c : wf cs → good cs (revoke c cs).
Proof.
  intros W. destruct (slot_cases cs c) as [(e & He & Hn)|Hn].
  - destruct (revoke_spec cs c e W He Hn) as (cs1 & zs & R & ->).
    apply wf_reclaim; [apply (rv_wf _ _ _ _ R)|]. intros k. by eapply revoked_no_child.
  - by destruct (revoke_dead cs c Hn) as [er ->].
Qed.

Lemma reclaim_lookup_ne c cs k : k ≠ c → slots (reclaim c cs) !! k = slots cs !! k.
Proof. intros. unfold reclaim. repeat case_match; try done. simpl. by rewrite list_lookup_insert_ne. Qed.

Lemma reclaim_lookup c cs e :
  slots cs !! c = Some e →
  slots (reclaim c cs) !! c =
    Some (if is_type (cap_type (cap e)) Untyped then mkCte (set_watermark (cap e) 0) (parent e) else e).
Proof.
  intros He. unfold reclaim. rewrite He. case_match; [|done]. simpl.
  apply list_lookup_insert_eq. by eapply lookup_lt_Some.
Qed.

Lemma reclaim_parent_of c cs k p : parent_of (reclaim c cs) k p ↔ parent_of cs k p.
Proof.
  unfold reclaim. destruct (slots cs !! c) as [e|] eqn:He; [|done]. case_match; [|done].
  rewrite parent_of_upd. simpl. pose proof (lookup_lt_Some _ _ _ He).
  destruct (decide (k = c)) as [->|]; [|naive_solver].
  rewrite (parent_of_det _ _ _ _ He). naive_solver.
Qed.

Lemma reclaim_another c cs x : another_cap (reclaim c cs) x = another_cap cs x.
Proof.
  apply eq_true_iff_eq. rewrite !another_cap_true.
  destruct (slots cs !! c) as [e|] eqn:He; [|by unfold reclaim; rewrite He].
  pose proof (reclaim_lookup _ _ _ He) as Hl.
  split; intros (k & ek & Hk & H); destruct (decide (k = c)) as [->|Hne].
  - exists c, e. split; [done|]. simplify_eq. by destruct (is_type _ _).
  - exists k, ek. by rewrite reclaim_lookup_ne in Hk.
  - eexists c, _. split; [exact Hl|]. simplify_eq. by destruct (is_type _ _).
  - exists k, ek. by rewrite reclaim_lookup_ne.
Qed.

Lemma delete_spec cs c e :
  wf cs → slots cs !! c = Some e → cap_type (cap e) ≠ Null →
  ∃ cs1 zs e1, revoked c cs cs1 zs ∧ slots (reclaim c cs1) !! c = Some e1 ∧
    parent e1 = parent e ∧ cap_type (cap e1) = cap_type (cap e) ∧ objref (cap e1) = objref (cap e) ∧
    wf (reclaim c cs1) ∧ (∀ k, ¬ parent_of (reclaim c cs1) k c) ∧
    delete c cs = (Ok (), destroy_state c e1 (reclaim c cs1)).
Proof.
  intros W He Hn. destruct (revoke_spec cs c e W He Hn) as (cs1 & zs & R & Hr).
  destruct (rv_self _ _ _ _ R _ He) as (n & He1 & _).
  pose proof (reclaim_lookup _ _ _ He1) as Hl. simpl in Hl.
  assert (∀ k, ¬ parent_of (reclaim c cs1) k c) as Hno.
  { intros k Hk%reclaim_parent_of. by eapply revoked_no_child. }
  assert (wf (reclaim c cs1)) as W1.
  { apply wf_reclaim; [apply (rv_wf _ _ _ _ R)|]. intros k. by eapply revoked_no_child. }
  eexists cs1, zs, _. split; [done|]. split; [exact Hl|]. split_and!; try done; try (by case_match).
  unfold delete, mbind, M_bind. rewrite Hr. apply destroy_slot_eq; try done. by case_match.
Qed.

Lemma delete_good cs c : wf cs → good cs (delete c cs).
Proof.
  intros W. destruct (slot_cases cs c) as [(e & He & Hn)|Hn].
  - destruct (delete_spec cs c e W He Hn) as (cs1 & zs & e1 & R & Hl & _ & _ & _ & W1 & Hno & ->).
    by apply wf_destroy.
  - destruct (revoke_dead cs c Hn) as [er Hr]. unfold delete, mbind, M_bind. by rewrite Hr.
Qed.

Lemma run_op_good o cs :
  wf cs → op_args o → in_u 64 (next_obj cs + 1) → good cs (run_op o cs).
Proof.
  intros W Ha Hn. destruct o; simpl in *.
  - apply retype_good; naive_solver.
  - apply mint_good; naive_solver.
  - by apply copy_good.
  - by apply move_good.
  - by apply split_good.
  - by apply delegate_good.
  - apply mint_reply_good; naive_solver.
  - pose proof (consume_reply_good cs dest W) as H. unfold mbind, M_bind.
    by destruct (consume_reply dest cs) as [[] ?].
  - by apply revoke_good.
  - by apply delete_good.
Qed.
End props.
