(* ===== verification/CSpaceStep.v ===== *)
(** * The capability space as a transition system

    [step cs o cs'] lists, for each operation of [cap-core/src/cspace.rs], the
    guards it checked and the space it leaves when it answers [Ok].  The
    executable operations refine it ([run_op_step]), so a property of all
    operations is proved by cases on [step] and a property of all histories by
    induction on the list of requests. *)

From S2P Require Import Prelude Rights Cap Budget CSpace CSpaceInv CSpaceOps CSpaceSched CSpaceRevoke CSpaceProps.

Section step.
Context {BF : Bitflags}.

Definition occupied (cs : CSpace) (k : nat) (e : Cte) : Prop :=
  slots cs !! k = Some e ∧ cap_type (cap e) ≠ Null.
Definition vacant (cs : CSpace) (k : nat) : Prop :=
  ∃ e, slots cs !! k = Some e ∧ cap_type (cap e) = Null.
(** The guards COPY and MINT share. *)
Definition derivable (s : RawCap) : Prop :=
  non_duplicable (cap_type s) = false ∧ bf_contains (rights s) DERIVE = true.

Inductive step (cs : CSpace) : cap_op → CSpace → Prop :=
| S_retype ut t f n dest u cs' :
    retyped ut t f n dest u cs cs' → step cs (ORetype ut t f n dest) cs'
| S_mint src dest r b s :
    occupied cs src s → derivable (cap s) → subset_of r (rights (cap s)) = true → vacant cs dest →
    step cs (OMint src dest r b) (upd_slot dest (mkCte (with_rights_badge (cap s) r b) (Some src)) cs)
| S_copy src dest s :
    occupied cs src s → derivable (cap s) → vacant cs dest →
    step cs (OCopy src dest) (upd_slot dest (mkCte (cap s) (Some (default src (parent s)))) cs)
| S_move_self src s : occupied cs src s → step cs (OMove src src) cs
| S_move src dest s :
    occupied cs src s → vacant cs dest → step cs (OMove src dest) (move_state src dest s cs)
| S_split src dest amount s :
    split_ok src dest amount s cs → step cs (OSplit src dest amount) (split_state src dest s amount cs)
| S_delegate_self src amount : step cs (ODelegate src src amount) cs
| S_delegate src dest amount s d :
    delegate_ok src dest amount s d cs →
    step cs (ODelegate src dest amount) (delegate_state src dest s d amount cs)
| S_mint_reply dest caller b :
    vacant cs dest →
    step cs (OMintReply dest caller b)
      (upd_slot dest (mkCte (mkRawCap Reply rights_empty caller 0 0 0 b) None) cs)
| S_consume_reply dest e :
    occupied cs dest e → cap_type (cap e) = Reply →
    step cs (OConsumeReply dest) (destroy_state dest e cs)
| S_revoke c e cs1 zs :
    occupied cs c e → revoked c cs cs1 zs → step cs (ORevoke c) (reclaim c cs1)
| S_delete c e cs1 zs e1 :
    occupied cs c e → revoked c cs cs1 zs → slots (reclaim c cs1) !! c = Some e1 →
    parent e1 = parent e → cap_type (cap e1) = cap_type (cap e) →
    (∀ k, ¬ parent_of (reclaim c cs1) k c) → wf (reclaim c cs1) →
    step cs (ODelete c) (destroy_state c e1 (reclaim c cs1)).

(** The calls every operation starts and ends with. *)
Lemma live_inv {A} cs c (k : RawCap → CM A) a cs' :
  (r ← reads (λ cs, live cs c); k r) cs = (Ok a, cs') →
  ∃ e, occupied cs c e ∧ k (cap e) cs = (Ok a, cs').
Proof.
  munfold. destruct (live cs c) as [r| |] eqn:Hr; [|done..].
  apply live_Ok in Hr as (Hn & e & He & <-). exists e. done.
Qed.

Lemma place_inv cs dest c p cs' :
  place dest c p cs = (Ok (), cs') → vacant cs dest ∧ cs' = upd_slot dest (mkCte c p) cs.
Proof.
  rewrite place_eq. destruct (slots cs !! dest) as [d|] eqn:Hd; [|done].
  destruct (is_null (cap d)) eqn:Hn; [|done]. intros [= <-]. split; [|done].
  exists d. split; [done|]. by apply is_null_true.
Qed.

Lemma mint_step cs src dest r b cs' :
  mint src dest r b cs = (Ok (), cs') → step cs (OMint src dest r b) cs'.
Proof.
  unfold mint. intros (s & Hs & H)%live_inv.
  destruct (non_duplicable _) eqn:H1; [done|]. destruct (bf_contains _ _) eqn:H2; [|done].
  destruct (subset_of _ _) eqn:H3; [|done]. apply place_inv in H as [Hd ->]. by econstructor.
Qed.

Lemma copy_step cs src dest cs' :
  copy src dest cs = (Ok (), cs') → step cs (OCopy src dest) cs'.
Proof.
  unfold copy. intros (s & Hs & H)%live_inv.
  destruct (non_duplicable _) eqn:H1; [done|]. destruct (bf_contains _ _) eqn:H2; [|done].
  pose proof (proj1 Hs) as He. simpl in H. unfold mbind, M_bind, reads in H.
  rewrite (slot_Some _ _ _ He) in H.
  apply place_inv in H as [Hd ->].
  replace (match parent s with Some q => q | None => src end) with (default src (parent s))
    by (by destruct (parent s)). by econstructor.
Qed.

Lemma move_step cs src dest cs' :
  move_cap src dest cs = (Ok (), cs') → step cs (OMove src dest) cs'.
Proof.
  unfold move_cap, mbind, M_bind, reads, get, throw, modify.
  destruct (cte_ref cs src) as [e| |] eqn:Hr; [|done..].
  apply cte_ref_Ok in Hr as [Hn He]. case_decide as Hds.
  { intros [= <-]. subst. econstructor. by split. }
  case_decide as Hd; [done|]. unfold slot, index.
  destruct (slots cs !! dest) as [d|] eqn:Hd'; [|done].
  destruct (is_null (cap d)) eqn:Hdn; [|done]. apply is_null_true in Hdn. simpl.
  pose proof (lookup_lt_Some _ _ _ He).
  rewrite set_slot_eq by (simpl; rewrite length_fmap; lia).
  rewrite set_slot_eq by (simpl; rewrite length_insert, length_fmap; lia).
  intros [= <-]. apply (S_move cs src dest e); [by split|]. by exists d.
Qed.

Lemma consume_reply_step cs dest v cs' :
  wf cs → consume_reply dest cs = (Ok v, cs') →
  ∃ e, occupied cs dest e ∧ cap_type (cap e) = Reply ∧ v = objref (cap e) ∧
    cs' = destroy_state dest e cs.
Proof.
  intros W. unfold consume_reply. intros (e & [He Hn] & H)%live_inv.
  destruct (is_type _ _) eqn:Ht; [|done]. apply is_type_true in Ht. simpl in H.
  unfold mbind, M_bind in H. rewrite (destroy_slot_eq _ _ _ W He Hn) in H.
  injection H as <- <-. exists e. done.
Qed.

(** The executable operations refine the transition relation. *)
Lemma run_op_step o cs cs' :
  wf cs → op_args o → in_u 64 (next_obj cs + 1) → run_op o cs = (Ok (), cs') → step cs o cs'.
Proof.
  intros W Ha Hn H. destruct o; simpl in *.
  - pose proof (retype_spec cs ut t frames count dest W (proj1 Ha) (proj2 Ha)) as Hs.
    rewrite H in Hs. destruct Hs as [_ [u Hu]]. by econstructor.
  - by apply mint_step.
  - by apply copy_step.
  - by apply move_step.
  - pose proof (split_spec cs src dest amount Ha Hn) as Hs. rewrite H in Hs.
    destruct Hs as (s & Hok & ->). by econstructor.
  - pose proof (delegate_spec cs src dest amount Ha) as Hs. rewrite H in Hs.
    destruct Hs as [[-> ->]|(s & d & Hok & ->)]; by econstructor.
  - apply place_inv in H as [Hd ->]. by econstructor.
  - unfold mbind, M_bind in H. destruct (consume_reply dest cs) as [[v| |] cs1] eqn:Hc; [|done..].
    injection H as <-. destruct (consume_reply_step _ _ _ _ W Hc) as (e & He & Ht & _ & ->).
    by econstructor.
  - destruct (slot_cases cs c) as [(e & He & Hne)|Hne].
    + destruct (revoke_spec cs c e W He Hne) as (cs1 & zs & R & Hr).
      rewrite Hr in H. injection H as <-. by econstructor.
    + destruct (revoke_dead cs c Hne) as [er Hr]. congruence.
  - destruct (slot_cases cs c) as [(e & He & Hne)|Hne].
    + destruct (delete_spec cs c e W He Hne) as (cs1 & zs & e1 & R & Hl & Hp & Ht & _ & W1 & Hno & Hr).
      rewrite Hr in H. injection H as <-. eapply S_delete; try done; by split.
    + destruct (revoke_dead cs c Hne) as [er Hr]. unfold delete, mbind, M_bind in H.
      by rewrite Hr in H.
Qed.

Lemma step_wf o cs cs' :
  wf cs → op_args o → in_u 64 (next_obj cs + 1) → run_op o cs = (Ok (), cs') → wf cs'.
Proof. intros W Ha Hn H. pose proof (run_op_good o cs W Ha Hn) as G. by rewrite H in G. Qed.

(** The identity counter grows by at most one per operation. *)
Lemma step_next cs o cs' :
  step cs o cs' → (next_obj cs <= next_obj cs' <= next_obj cs + 1)%Z.
Proof.
  assert (∀ c cs1, next_obj (reclaim c cs1) = next_obj cs1) as Hr
    by (intros; unfold reclaim; by repeat case_match).
  destruct 1; rewrite ?destroy_state_next, ?Hr;
    repeat match goal with
    | R : revoked _ _ _ _ |- _ => rewrite (rv_next _ _ _ _ R); clear R
    | R : retyped _ _ _ _ _ _ _ _ |- _ => rewrite (rt_next _ _ _ _ _ _ _ _ R); clear R
    end; simpl; lia.
Qed.

(** ** CPU time *)

(** DELETE of a derivation root drops that root's own budget. *)
Definition drops_root_sched (cs : CSpace) (o : cap_op) : bool :=
  match o with
  | ODelete c =>
      match slots cs !! c with
      | Some e => is_type (cap_type (cap e)) Sched && bool_decide (parent e = None)
      | None => false
      end
  | _ => false
  end.

Lemma fill_time cs k e :
  vacant cs k → cpu_time (upd_slot k e cs) = (cpu_time cs + sched_time e)%Z.
Proof.
  intros (d & Hd & Hn). rewrite (cpu_time_upd _ _ d) by done. rewrite (sched_time_null d) by done. lia.
Qed.

Lemma sched_time_other c p : cap_type c ≠ Sched → sched_time (mkCte c p) = 0%Z.
Proof. intros H. unfold sched_time. apply is_type_false in H. simpl. by rewrite H. Qed.

Lemma derivable_not_sched s : derivable s → cap_type s ≠ Sched.
Proof. intros [H _] Ht. by rewrite Ht in H. Qed.

Lemma retype_time ut t f n dest u cs cs' :
  retyped ut t f n dest u cs cs' → cpu_time cs' = cpu_time cs.
Proof.
  intros R. apply sumZ_ext. intros k. rewrite (rt_slots _ _ _ _ _ _ _ _ R).
  destruct (rt_untyped _ _ _ _ _ _ _ _ R) as [Hu Ht]. case_decide as Hk.
  - destruct (rt_free _ _ _ _ _ _ _ _ R (k - dest)) as (e & He & Hn); [lia|].
    replace (dest + (k - dest)) with k in He by lia. rewrite He. simpl.
    rewrite (sched_time_null e) by done. f_equal. apply sched_time_other. simpl.
    intros ->. by pose proof (rt_type _ _ _ _ _ _ _ _ R).
  - case_decide; [subst|done]. rewrite Hu. simpl. unfold sched_time. simpl. by rewrite Ht.
Qed.

Lemma move_time cs src dest s :
  occupied cs src s → vacant cs dest → cpu_time (move_state src dest s cs) = cpu_time cs.
Proof.
  intros [Hs Hn] (d & Hd & Hdn). unfold cpu_time, move_state. simpl.
  assert (src ≠ dest) by (intros ->; simplify_eq).
  assert (sumZ sched_time (reparent src dest <$> slots cs) = sumZ sched_time (slots cs)) as He.
  { apply sumZ_ext. intros i. rewrite list_lookup_fmap. destruct (slots cs !! i) as [e|]; [|done].
    simpl. f_equal. unfold sched_time. by rewrite reparent_cap. }
  rewrite (sumZ_insert _ _ src _ (reparent src dest s)).
  2:{ rewrite list_lookup_insert_ne by done. by rewrite list_lookup_fmap, Hs. }
  rewrite (sumZ_insert _ _ dest _ (reparent src dest d)) by (by rewrite list_lookup_fmap, Hd).
  rewrite He. unfold sched_time. rewrite !reparent_cap, Hdn. simpl. lia.
Qed.

Lemma reclaim_time c cs : cpu_time (reclaim c cs) = cpu_time cs.
Proof.
  unfold reclaim. destruct (slots cs !! c) as [e|] eqn:He; [|done].
  destruct (is_type _ _) eqn:Ht; [|done]. apply is_type_true in Ht.
  rewrite (cpu_time_upd _ _ e) by done. unfold sched_time. simpl. rewrite Ht. simpl. lia.
Qed.

Lemma destroy_root_time cs d de :
  slots cs !! d = Some de → parent de = None →
  cpu_time (destroy_state d de cs) = (cpu_time cs - sched_time de)%Z.
Proof.
  intros Hd Hp. unfold cpu_time at 1. rewrite destroy_state_slots, Hp.
  change (cpu_time (upd_slot d Cte_EMPTY cs) = (cpu_time cs - sched_time de)%Z).
  rewrite (cpu_time_upd _ _ de) by done. change (sched_time Cte_EMPTY) with 0%Z. lia.
Qed.

Lemma step_time cs o cs' :
  wf cs → step cs o cs' → (cpu_time cs < 2 ^ 32)%Z →
  (cpu_time cs' <= cpu_time cs)%Z ∧ (drops_root_sched cs o = false → cpu_time cs' = cpu_time cs).
Proof.
  intros W H Hlt.
  assert (cpu_time cs' = cpu_time cs ∨ drops_root_sched cs o = true ∧ (cpu_time cs' <= cpu_time cs)%Z)
    as HH; [|destruct HH as [HH|[HH HH']]; split; try lia; congruence].
  destruct H.
  - left. by eapply retype_time.
  - left. rewrite fill_time, sched_time_other by (done || by apply (derivable_not_sched (cap s))). lia.
  - left. rewrite fill_time, sched_time_other by (done || by apply (derivable_not_sched (cap s))). lia.
  - by left.
  - left. by apply move_time.
  - left. by apply split_time.
  - by left.
  - left. by apply delegate_time.
  - left. rewrite fill_time by done. change (sched_time _) with 0%Z. lia.
  - left. destruct H as [He _]. destruct (parent e) as [p|] eqn:Hp; [by eapply destroy_time|].
    rewrite destroy_root_time by done. destruct e. rewrite sched_time_other; [lia|].
    simpl in *. congruence.
  - left. rewrite reclaim_time. by apply (rv_time _ _ _ _ H0).
  - assert (cpu_time (reclaim c cs1) = cpu_time cs) as Hc.
    { rewrite reclaim_time. by apply (rv_time _ _ _ _ H0). }
    destruct (parent e1) as [p|] eqn:Hp.
    + left. rewrite <- Hc. eapply destroy_time; try done. lia.
    + rewrite (destroy_root_time _ _ _ H1 Hp), Hc.
      destruct (is_type (cap_type (cap e1)) Sched) eqn:Ht.
      * right. destruct H as [He _]. unfold drops_root_sched. rewrite He, <- H3, Ht, <- H2.
        split; [done|].
        pose proof (sched_time_nonneg _ e1 H5 (list_elem_of_lookup_2 _ _ _ H1)). lia.
      * left. unfold sched_time. rewrite Ht. lia.
Qed.
End step.
