(* ===== verification/CSpaceAlias.v ===== *)
(** * Objects of one [Untyped] never overlap

    RETYPE hands out frames by bumping a watermark and REVOKE resets it, so
    whether two capabilities can name overlapping memory is a property of
    histories: [noalias] is the invariant, preserved by every step. *)

From S2P Require Import Prelude Rights Cap Budget CSpace CSpaceInv CSpaceOps CSpaceSched CSpaceRevoke CSpaceProps CSpaceStep.

(** Same frames, or no frame in common. *)
Definition compatible (a b : RawCap) : Prop :=
  (objref a = objref b ∧ size a = size b) ∨
  (objref a + size a <= objref b)%Z ∨ (objref b + size b <= objref a)%Z.

(** Any two objects retyped from the same [Untyped] are compatible. *)
Definition noalias (cs : CSpace) : Prop := ∀ j k u ej ek eu,
  slots cs !! j = Some ej → parent ej = Some u →
  slots cs !! k = Some ek → parent ek = Some u →
  slots cs !! u = Some eu → cap_type (cap eu) = Untyped →
  compatible (cap ej) (cap ek).

(** [cs'] keeps a part of the entries of [cs], up to CPU time and watermark. *)
Definition part_of (cs' cs : CSpace) : Prop := ∀ k e,
  slots cs' !! k = Some e → cap_type (cap e) ≠ Null →
  ∃ e0, slots cs !! k = Some e0 ∧ parent e0 = parent e ∧ cap_type (cap e0) = cap_type (cap e) ∧
    objref (cap e0) = objref (cap e) ∧ (cap_type (cap e) ≠ Sched → size (cap e0) = size (cap e)).

#[export] Instance part_of_preorder : PreOrder part_of.
Proof.
  split.
  - intros cs k e He Hn. by exists e.
  - intros c3 c2 c1 H1 H2 k e He Hn.
    destruct (H1 k e He Hn) as (e2 & He2 & Hp2 & Ht2 & Ho2 & Hs2).
    destruct (H2 k e2 He2) as (e3 & He3 & Hp3 & Ht3 & Ho3 & Hs3); [congruence|].
    exists e3. split_and!; try congruence. intros Hs. rewrite Hs3 by congruence. by apply Hs2.
Qed.

Section alias.
Context {BF : Bitflags}.

Lemma part_destroy cs d de : slots cs !! d = Some de → part_of (destroy_state d de cs) cs.
Proof.
  intros Hd k e He Hn. rewrite (destroy_lookup _ _ _ _ Hd) in He. case_decide; [by simplify_eq|].
  apply fmap_Some in He as (e0 & He0 & ->). exists e0.
  rewrite credited_parent, credited_type, credited_objref. split_and!; try done.
  intros Hs. destruct (credited_size de k e0) as (n & -> & Hn'). simpl. by rewrite Hn'.
Qed.

Lemma part_reclaim c cs : part_of (reclaim c cs) cs.
Proof.
  intros k e He Hn. destruct (decide (k = c)) as [->|Hk].
  - destruct (slots cs !! c) as [e0|] eqn:He0.
    + rewrite (reclaim_lookup _ _ _ He0) in He. simplify_eq. exists e0. by case_match.
    + unfold reclaim in He. by rewrite He0, He0 in He.
  - rewrite reclaim_lookup_ne in He by done. by exists e.
Qed.

Lemma part_revoked c cs cs' zs : wf cs → revoked c cs cs' zs → part_of cs' cs.
Proof.
  intros W R k e He Hn.
  destruct (revoked_survivor _ _ _ _ _ _ W R He Hn) as (e0 & He0 & Hb & Ht & Ho).
  exists e0. destruct (decide (k = c)) as [->|Hk].
  - destruct (rv_self _ _ _ _ R _ He0) as (n & He1 & Hs). simplify_eq. simpl in *.
    split_and!; try done. intros ?. by rewrite Hs.
  - rewrite (rv_other _ _ _ _ R) in He by done. simplify_eq. done.
Qed.

(** The links to an [Untyped] of [cs'] come from links of [cs]. *)
Lemma noalias_map (φ : nat → nat) cs cs' :
  wf cs' → noalias cs →
  (∀ k e p pe, slots cs' !! k = Some e → parent e = Some p → slots cs' !! p = Some pe →
     cap_type (cap pe) = Untyped → is_retypeable (cap_type (cap e)) = true →
     ∃ k0 e0 pe0, slots cs !! k0 = Some e0 ∧ parent e0 = Some (φ p) ∧
       slots cs !! φ p = Some pe0 ∧ cap_type (cap pe0) = Untyped ∧
       objref (cap e0) = objref (cap e) ∧ size (cap e0) = size (cap e)) →
  noalias cs'.
Proof.
  intros W' NA H j k u ej ek eu Hj Hpj Hk Hpk Hu Hut.
  assert (∀ i e, slots cs' !! i = Some e → parent e = Some u → is_retypeable (cap_type (cap e)) = true) as Hr.
  { intros i e Hi Hp. destruct (wf_parent _ W' _ _ _ Hi Hp) as (pe & Hpe & Hch). simplify_eq.
    unfold child_ok in Hch. rewrite Hut in Hch. apply Hch. }
  destruct (H j ej u eu) as (j0&e0&u0&Hj0&Hpj0&Hu0&Hut0&Ho&Hs); eauto.
  destruct (H k ek u eu) as (k0&e1&u1&Hk0&Hpk0&Hu1&Hut1&Ho'&Hs'); eauto.
  specialize (NA _ _ _ _ _ _ Hj0 Hpj0 Hk0 Hpk0 Hu0 Hut0). unfold compatible in *.
  by rewrite <- Ho, <- Hs, <- Ho', <- Hs'.
Qed.

Lemma noalias_part cs cs' : wf cs' → noalias cs → part_of cs' cs → noalias cs'.
Proof.
  intros W' NA P. apply (noalias_map id cs); [done..|]. intros k e p pe He Hp Hpe Ht Hr.
  destruct (P k e He) as (e0 & He0 & Hp0 & _ & Ho & Hs); [by intros E; rewrite E in Hr|].
  destruct (P p pe Hpe) as (pe0 & Hpe0 & _ & Ht0 & _); [congruence|].
  exists k, e0, pe0. split_and!; try done; [by rewrite Hp0|congruence|].
  apply Hs. intros E. by rewrite E in Hr.
Qed.

(** Filling a vacant slot with something that is no new object. *)
Lemma noalias_fill cs k c p :
  wf cs → wf (upd_slot k (mkCte c p) cs) → noalias cs → vacant cs k →
  (∀ q qe, p = Some q → slots cs !! q = Some qe → cap_type (cap qe) = Untyped →
    ∃ k0 e0, slots cs !! k0 = Some e0 ∧ parent e0 = Some q ∧
      objref (cap e0) = objref c ∧ size (cap e0) = size c) →
  noalias (upd_slot k (mkCte c p) cs).
Proof.
  intros W W' NA (d & Hd & Hdn) Hnew. apply (noalias_map id cs); [done..|].
  intros j e q qe Hj Hq Hqe Ht Hr.
  assert (q ≠ k) as Hqk.
  { intros ->. assert (parent_of (upd_slot k (mkCte c p) cs) j k) as Hjk by (by exists e).
    apply parent_of_upd in Hjk as [(->&_&Hk)|[_ Hjk]]; [|exact (no_child_of_null _ _ _ _ W Hd Hdn Hjk)].
    apply (below_irrefl _ k W'). constructor. exists (mkCte c p). split; [|done].
    simpl. apply list_lookup_insert_eq. by eapply lookup_lt_Some. }
  simpl in Hqe. rewrite list_lookup_insert_ne in Hqe by done. simpl in Hj.
  apply list_lookup_insert_Some in Hj as [(<-&<-&_)|[Hne Hj]]; simpl in *.
  - destruct (Hnew _ _ Hq Hqe Ht) as (k0 & e0 & ? & ? & ? & ?). by exists k0, e0, qe.
  - by exists j, e, qe.
Qed.

Lemma noalias_move cs src dest s :
  wf cs → occupied cs src s → vacant cs dest → noalias cs → noalias (move_state src dest s cs).
Proof.
  intros W [Hs Hn] (d & Hd & Hdn) NA. assert (src ≠ dest) as Hne by (intros ->; simplify_eq).
  pose proof (wf_move _ _ _ _ _ W Hs Hn Hd Hdn Hne) as W'.
  apply (noalias_map (λ p, if decide (p = dest) then src else p) cs); [done..|].
  intros k e p pe Hk Hp Hpe Ht Hr.
  destruct (move_parent _ _ _ _ _ _ _ W Hs (lookup_lt_Some _ _ _ Hd) Hne Hk Hp)
    as (k0&e0&q0&H0&Hq0&Hcap&_&_&->).
  rewrite move_state_lookup in Hpe by (done || by eapply lookup_lt_Some).
  destruct (decide (q0 = src)) as [->|Hq].
  - rewrite decide_False, decide_True in Hpe by done. rewrite decide_True by done.
    exists k0, e0, pe. rewrite Hcap. split_and!; try done. congruence.
  - assert (q0 ≠ dest) as Hqd.
    { intros ->. eapply (no_child_of_null cs dest d k0); try done. by exists e0. }
    rewrite !decide_False in Hpe by done. rewrite decide_False by done.
    apply fmap_Some in Hpe as (pe0 & Hpe0 & ->). rewrite reparent_cap in Ht.
    exists k0, e0, pe0. by rewrite Hcap.
Qed.

Lemma noalias_retype ut t f n dest u cs cs' :
  wf cs → retyped ut t f n dest u cs cs' → noalias cs → noalias cs'.
Proof.
  intros W R NA. destruct (rt_untyped _ _ _ _ _ _ _ _ R) as [Hu Hut].
  destruct (rt_pos _ _ _ _ _ _ _ _ R) as [Hf Hn].
  assert (∀ k e p, slots cs' !! k = Some e → parent e = Some p →
    (∃ i, e = retyped_cte ut t f (objref (cap u) + watermark (cap u)) i ∧ p = ut) ∨
    (p = ut ∧ objref (cap u) <= objref (cap e) ∧
     objref (cap e) + size (cap e) <= objref (cap u) + watermark (cap u))%Z ∧ slots cs !! k = Some e ∨
    p ≠ ut ∧ ∃ e0, slots cs !! k = Some e0 ∧ parent e0 = Some p ∧
      objref (cap e0) = objref (cap e) ∧ size (cap e0) = size (cap e)) as Hcase.
  { intros k e p Hk Hp. rewrite (rt_slots _ _ _ _ _ _ _ _ R) in Hk. case_decide as Hd.
    { simplify_eq. left. eexists. split; [done|]. simpl in Hp. congruence. }
    right. destruct (decide (p = ut)) as [->|Hne].
    - left. case_decide as Hku.
      { subst. injection Hk as <-. simpl in Hp.
        exfalso. apply (below_irrefl _ ut W). constructor. by exists u. }
      destruct (wf_parent _ W _ _ _ Hk Hp) as (pe & Hpe & Hch). simplify_eq.
      unfold child_ok in Hch. rewrite Hut in Hch. destruct Hch as (?&?&?). done.
    - right. split; [done|]. case_decide as Hku; [subst; injection Hk as <-|]; eauto. }
  intros j k p ej ek eu Hj Hpj Hk Hpk Heu Hte. unfold compatible.
  destruct (Hcase _ _ _ Hj Hpj) as [(i&->&->)|[[(->&?&?) Hj0]|(?&e0&He0&Hp0&Ho0&Hs0)]];
  destruct (Hcase _ _ _ Hk Hpk) as [(i'&->&?)|[[(?&?&?) Hk0]|(?&e1&He1&Hp1&Ho1&Hs1)]];
    try congruence; simpl.
  - destruct (Nat.lt_trichotomy i i') as [?|[->|?]]; [right; left; nia|by left|right; right; nia].
  - right. right. nia.
  - right. left. nia.
  - exact (NA _ _ _ _ _ _ Hj0 Hpj Hk0 Hpk Hu Hut).
  - rewrite (rt_slots _ _ _ _ _ _ _ _ R) in Heu. case_decide as Hd.
    { destruct (rt_free _ _ _ _ _ _ _ _ R (p - dest)) as (z & Hz & Hzn); [lia|].
      replace (dest + (p - dest)) with p in Hz by lia.
      exfalso. eapply (no_child_of_null cs p z j); try done. by exists e0. }
    rewrite decide_False in Heu by done.
    specialize (NA _ _ _ _ _ _ He0 Hp0 He1 Hp1 Heu Hte). unfold compatible in NA.
    by rewrite <- Ho0, <- Hs0, <- Ho1, <- Hs1.
Qed.
End alias.
