(* ===== verification/CSpaceReach.v ===== *)
(** * Reachable capability spaces

    [reachable] is every history of a CSpace: creation, the boot-time
    installations, any sequence of operations (successful or not) and grants
    from and to other reachable spaces.  The invariant holds in all of them. *)

From S2P Require Import Prelude Rights Cap Budget CSpace CSpaceInv CSpaceOps CSpaceSched CSpaceRevoke CSpaceProps CSpaceStep CSpaceAlias.

(** The boot-time installations. *)
Inductive install_op :=
| IUntyped (base frames : Z)
| ISched (s : nat) (budget per : Z)
| IDomain (s : nat) (id : Z)
| INotification (s : nat) (id r : Z)
| ISharedRo (s : nat) (pfn frames va : Z)
| IFrame (s : nat) (pfn frames r : Z).

Definition run_install {BF : Bitflags} (o : install_op) : CM unit :=
  match o with
  | IUntyped b f => set_root_untyped b f
  | ISched s b p => set_root_sched s b p
  | IDomain s i => set_root_domain s i
  | INotification s i r => install_notification s i r
  | ISharedRo s p f v => install_shared_ro s p f v
  | IFrame s p f r => install_frame s p f r
  end.

Definition install_slot (o : install_op) : nat :=
  match o with
  | IUntyped _ _ => 0
  | ISched s _ _ | IDomain s _ | INotification s _ _ | ISharedRo s _ _ _ | IFrame s _ _ _ => s
  end.

(** The arguments are values of their types; an [Untyped] is real memory. *)
Definition install_args (o : install_op) : Prop :=
  match o with
  | IUntyped b f => in_u 64 b ∧ in_u 32 f ∧ (b + f <= 2 ^ 64)%Z
  | ISched _ b p => in_u 32 b ∧ in_u 32 p
  | IDomain _ i => in_u 64 i
  | INotification _ i r => in_u 64 i ∧ in_u 32 r
  | ISharedRo _ p f v => in_u 64 p ∧ in_u 32 f ∧ in_u 64 v
  | IFrame _ p f r => in_u 64 p ∧ in_u 32 f ∧ in_u 32 r
  end.

Section reach.
Context {BF : Bitflags}.

Inductive reachable : CSpace → Prop :=
| R_new N : reachable (cspace_new N)
| R_install cs o r cs' :
    reachable cs → install_args o → vacant cs (install_slot o) → in_u 64 (next_obj cs + 1) →
    run_install o cs = (r, cs') → reachable cs'
| R_op cs o r cs' :
    reachable cs → op_args o → in_u 64 (next_obj cs + 1) → run_op o cs = (r, cs') → reachable cs'
| R_grant_src src dst s d rs b m r src' dst' :
    reachable src → reachable dst → in_u 32 rs → in_u 64 b →
    grant s d rs b m (src, dst) = (r, (src', dst')) → reachable src'
| R_grant_dst src dst s d rs b m r src' dst' :
    reachable src → reachable dst → in_u 32 rs → in_u 64 b →
    grant s d rs b m (src, dst) = (r, (src', dst')) → reachable dst'.

(** ** Installation *)

Lemma wrap_in w x : (0 <= w)%Z → in_u w (wrap w x).
Proof. intros. unfold in_u, wrap. apply Z.mod_pos_bound. apply Z.pow_pos_nonneg; lia. Qed.

Lemma install_eq o cs :
  wf cs → install_args o → vacant cs (install_slot o) → in_u 64 (next_obj cs + 1) →
  ∃ c n, run_install o cs = (Ok (), upd_slot (install_slot o) (mkCte c None) (upd_next n cs)) ∧
    cap_type c ≠ Null ∧ cap_ok c ∧ in_u 64 n.
Proof.
  intros W Ha (d & Hd & _) Hn. pose proof (lookup_lt_Some _ _ _ Hd) as Hlt.
  pose proof (wf_next _ W) as Hx.
  assert (upd_next (next_obj cs) cs = cs) as Hs by (by destruct cs).
  assert (∀ r, r ∈ [RETYPE; bf_union DERIVE GRANT; ENTER; READ] → in_u 32 r) as Hr.
  { intros r Hr. rewrite bf_union_spec in Hr. repeat (apply elem_of_cons in Hr as [->|Hr]; [by vm_compute|]).
    by apply elem_of_nil in Hr. }
  assert (in_u 32 0 ∧ in_u 64 0) as [H0 H0'] by (split; by vm_compute).
  pose proof (λ x, wrap_in 32 x ltac:(lia)) as Hw.
  destruct o; simpl in *; unfold set_root_untyped, set_root_domain, install_notification,
    install_shared_ro, install_frame.
  2:{ unfold set_root_sched. munfold. unfold bump_next_obj. rewrite arith_in by done.
      rewrite set_slot_eq by done. eexists _, _. split; [reflexivity|]. split_and!; try done.
      unfold cap_ok, RawCap_wf; simpl. split_and!; try done; try (by apply Ha).
      apply Hr. rewrite !elem_of_cons. auto. }
  all: rewrite set_slot_eq by done; eexists _, (next_obj cs); rewrite Hs;
    (split; [reflexivity|]); split_and!; try done;
    unfold cap_ok, RawCap_wf; simpl; split_and!; try done; try (by apply Ha); try (by apply Hw);
    try (apply Hr; rewrite !elem_of_cons; by auto).
  all: intros _; destruct Ha as ([??]&[??]&?); lia.
Qed.

(** ** GRANT *)

Record granted (s d : nat) (rs b : Z) (m : GrantMode) (src dst src' dst' : CSpace) (e : Cte) : Prop := {
  gr_src : occupied src s e;
  gr_dst : vacant dst d;
  gr_type : not_grantable (cap_type (cap e)) = false;
  gr_mint : m = GMint → not_mint_grantable (cap_type (cap e)) = false;
  gr_right : bf_contains (rights (cap e)) GRANT = true;
  gr_subset : subset_of rs (rights (cap e)) = true;
  gr_leaf : m = GMove → has_children src s = false;
  gr_dst' : dst' = upd_slot d (mkCte (with_rights_badge (cap e) rs b) None) dst;
  gr_src' : src' = match m with GMove => upd_slot s Cte_EMPTY src | GMint => src end
}.

Lemma grant_spec s d rs b m src dst :
  match grant s d rs b m (src, dst) with
  | (Ok _, (src', dst')) => ∃ e, granted s d rs b m src dst src' dst' e
  | (Err _, (src', dst')) => src' = src ∧ dst' = dst
  | (Panic, _) => False
  end.
Proof.
  unfold grant. munfold. cbn [fst snd].
  destruct (live_cases src s) as [[r Hr]|[Hr|Hr]]; rewrite Hr; [|done..].
  apply live_Ok in Hr as (Hn & e & He & <-).
  destruct (not_grantable _) eqn:H1; [done|].
  destruct (negb (is_move m) && _) eqn:H2; [done|].
  destruct (bf_contains _ _) eqn:H3; [|done]. destruct (subset_of _ _) eqn:H4; [|done]. simpl.
  destruct (is_move m && _) eqn:H5; [done|].
  rewrite place_eq. cbn [fst snd]. destruct (slots dst !! d) as [de|] eqn:Hd; [|by simpl].
  destruct (is_null (cap de)) eqn:Hdn; [|by simpl]. apply is_null_true in Hdn.
  destruct m; simpl in *.
  - rewrite set_slot_eq by (by eapply lookup_lt_Some).
    exists e. split; try done. by exists de.
  - exists e. split; try done. by exists de.
Qed.

Lemma granted_wf s d rs b m src dst src' dst' e :
  wf src → wf dst → in_u 32 rs → in_u 64 b → granted s d rs b m src dst src' dst' e →
  wf src' ∧ wf dst'.
Proof.
  intros Ws Wd Hr Hb [[He Hn] (de & Hd & Hdn) _ _ _ _ Hl -> ->]. split.
  - destruct m; [|done]. apply wf_empty; [done|]. apply has_children_false; auto.
  - eapply wf_fill; try done. destruct (wf_caps _ Ws _ _ He) as [(?&?&?&?&?&?) Hc].
    unfold cap_ok, RawCap_wf; simpl. split_and!; try done; by apply Hc.
Qed.

Lemma granted_time s d rs b m src dst src' dst' e :
  granted s d rs b m src dst src' dst' e →
  (cpu_time src' + cpu_time dst' = cpu_time src + cpu_time dst)%Z.
Proof.
  intros [[He Hn] Hv Ht Hm Hg Hs _ -> ->]. rewrite (fill_time _ _ _ Hv). destruct m.
  - rewrite (cpu_time_upd _ _ e) by done. change (sched_time Cte_EMPTY) with 0%Z.
    assert (sched_time (mkCte (with_rights_badge (cap e) rs b) None) = sched_time e) as -> by done. lia.
  - rewrite sched_time_other; [lia|]. simpl. specialize (Hm eq_refl). intros E. by rewrite E in Hm.
Qed.

Lemma granted_noalias s d rs b m src dst src' dst' e :
  wf src → wf dst → in_u 32 rs → in_u 64 b → granted s d rs b m src dst src' dst' e →
  noalias src → noalias dst → noalias src' ∧ noalias dst'.
Proof.
  intros Ws Wd Hr Hb G Ns Nd. destruct (granted_wf _ _ _ _ _ _ _ _ _ _ Ws Wd Hr Hb G) as [Ws' Wd'].
  destruct G as [[He Hn] Hv _ _ _ _ Hl -> ->]. split.
  - destruct m; [|done]. apply (noalias_part src); [done..|]. intros k e' Hk Hn'.
    simpl in Hk. apply list_lookup_insert_Some in Hk as [(_&<-&_)|[_ Hk]]; [done|by exists e'].
  - by apply noalias_fill.
Qed.

(** ** Every step keeps the invariant *)

Lemma step_noalias cs o cs' : wf cs → wf cs' → step cs o cs' → noalias cs → noalias cs'.
Proof.
  intros W W' H NA. destruct H.
  - exact (noalias_retype _ _ _ _ _ _ _ _ W H NA).
  - apply noalias_fill; try done. intros q qe [= <-] Hq Ht. destruct H as [Hs _]. simplify_eq.
    destruct H0 as [Hd _]. by rewrite Ht in Hd.
  - apply noalias_fill; try done. intros q qe [= <-] Hq Ht. destruct H as [Hs _].
    destruct (parent s) as [p|] eqn:Hp; simpl in *; [by exists src, s|]. simplify_eq.
    destruct H0 as [Hd _]. by rewrite Ht in Hd.
  - done.
  - by apply noalias_move.
  - destruct H as [Hs Ht _ _ Hv Hne]. eapply (noalias_map id cs); [done..|].
    intros k e p pe Hk Hp Hpe Hpt Hr. unfold split_state in *. simpl in *.
    assert (p ≠ src) as Hps.
    { intros ->. rewrite list_lookup_insert_eq in Hpe
        by (rewrite length_insert; by eapply lookup_lt_Some). simplify_eq. simpl in *. congruence. }
    rewrite list_lookup_insert_ne in Hpe by done.
    apply list_lookup_insert_Some in Hk as [(<-&<-&_)|[Hne' Hk]]; simpl in *.
    { rewrite Ht in Hr. done. }
    apply list_lookup_insert_Some in Hk as [(<-&<-&_)|[Hne'' Hk]]; simpl in *; [done|].
    apply list_lookup_insert_Some in Hpe as [(<-&<-&_)|[_ Hpe]]; [done|]. by exists k, e, pe.
  - done.
  - destruct H as [Hs Hd [Ht Htd] _ _ _ Hne]. apply (noalias_part cs); [done..|].
    intros k e Hk Hn. unfold delegate_state in Hk. simpl in Hk.
    apply list_lookup_insert_Some in Hk as [(<-&<-&_)|[_ Hk]]; [by exists d|].
    apply list_lookup_insert_Some in Hk as [(<-&<-&_)|[_ Hk]]; [by exists s|by exists e].
  - by apply noalias_fill.
  - apply (noalias_part cs); [done..|]. by apply part_destroy, H.
  - apply (noalias_part cs); [done..|]. etrans; [apply part_reclaim|by eapply part_revoked].
  - apply (noalias_part cs); [done..|]. etrans; [by apply part_destroy|].
    etrans; [apply part_reclaim|by eapply part_revoked].
Qed.

Lemma reachable_inv cs : reachable cs → wf cs ∧ noalias cs.
Proof.
  induction 1 as [N|cs o r cs' _ [W NA] Ha Hv Hn Hrun|cs o r cs' _ [W NA] Ha Hn Hrun
    |src dst s d rs b m r src' dst' _ [Ws Ns] _ [Wd Nd] Hrs Hb Hrun
    |src dst s d rs b m r src' dst' _ [Ws Ns] _ [Wd Nd] Hrs Hb Hrun].
  - split; [apply wf_new|]. intros j k u ej ek eu Hj Hpj.
    apply lookup_replicate in Hj as [-> _]. done.
  - destruct (install_eq o cs W Ha Hv Hn) as (c & n & Heq & Hc & Hok & Hnx).
    rewrite Heq in Hrun. injection Hrun as <- <-. destruct Hv as (d & Hd & Hdn).
    assert (wf (upd_next n cs)) as W1 by (by apply (wf_slots cs)).
    assert (wf (upd_slot (install_slot o) (mkCte c None) (upd_next n cs))) as W2 by (by eapply wf_fill).
    split; [done|]. apply noalias_fill; try done. by exists d.
  - pose proof (run_op_good o cs W Ha Hn) as G. rewrite Hrun in G. destruct r as [[]|e|]; [|simpl in G; subst; by split|done].
    split; [done|]. eapply step_noalias; [exact W|done| |done]. by apply run_op_step.
  - pose proof (grant_spec s d rs b m src dst) as G. rewrite Hrun in G.
    destruct r; [|by destruct G as [-> ->]|done]. destruct G as [e G].
    destruct (granted_wf _ _ _ _ _ _ _ _ _ _ Ws Wd Hrs Hb G).
    by destruct (granted_noalias _ _ _ _ _ _ _ _ _ _ Ws Wd Hrs Hb G Ns Nd).
  - pose proof (grant_spec s d rs b m src dst) as G. rewrite Hrun in G.
    destruct r; [|by destruct G as [-> ->]|done]. destruct G as [e G].
    destruct (granted_wf _ _ _ _ _ _ _ _ _ _ Ws Wd Hrs Hb G).
    by destruct (granted_noalias _ _ _ _ _ _ _ _ _ _ Ws Wd Hrs Hb G Ns Nd).
Qed.
End reach.
