(* ===== verification/CSpaceTheorems.v ===== *)
(** * The promises of the capability space

    The theorems about [cap-core/src/cspace.rs] as the rest of the kernel uses
    them, with witnesses on [demo], a small space built by the operations. *)

From S2P Require Import Prelude Rights Cap Budget CSpace CSpaceInv CSpaceOps CSpaceSched CSpaceRevoke CSpaceProps CSpaceStep CSpaceAlias CSpaceReach.

(** A space with an [Untyped] (slot 0), a [Sched] (1) split into 5, two frames
    retyped (2, 3), one of them minted read-only (4), and a [Reply] (6). *)
Definition demo_u : CSpace := (run_install (IUntyped 100 16) (cspace_new 8)).2.
Definition demo0 : CSpace := (run_install (ISched 1 1000 100) demo_u).2.
Definition demo1 : CSpace := (run_op (ORetype 0 Frame 2 2 2) demo0).2.
Definition demo2 : CSpace := (run_op (OMint 2 4 READ 7) demo1).2.
Definition demo3 : CSpace := (run_op (OSplit 1 5 300) demo2).2.
Definition demo : CSpace := (run_op (OMintReply 6 42 9) demo3).2.

Ltac u_bounds := unfold in_u; split; vm_compute; congruence.

Lemma demo_reachable : reachable demo.
Proof.
  eapply (R_op demo3 (OMintReply 6 42 9)); [|split; u_bounds|u_bounds|vm_compute; reflexivity].
  eapply (R_op demo2 (OSplit 1 5 300)); [|u_bounds|u_bounds|vm_compute; reflexivity].
  eapply (R_op demo1 (OMint 2 4 READ 7)); [|split; u_bounds|u_bounds|vm_compute; reflexivity].
  eapply (R_op demo0 (ORetype 0 Frame 2 2 2)); [|split; u_bounds|u_bounds|vm_compute; reflexivity].
  eapply (R_install demo_u (ISched 1 1000 100));
    [|split; u_bounds|eexists; split; vm_compute; reflexivity|u_bounds|vm_compute; reflexivity].
  eapply (R_install (cspace_new 8) (IUntyped 100 16));
    [|split_and!; [u_bounds|u_bounds|vm_compute; congruence]|eexists; split; vm_compute; reflexivity|u_bounds|vm_compute; reflexivity].
  apply R_new.
Qed.

Lemma demo_wf : wf demo.
Proof. apply reachable_inv, demo_reachable. Qed.

Section theorems.
Context {BF : Bitflags}.

(** ** Histories *)


(** C6: On a well-formed space no operation panics (no index out of range, no
    arithmetic overflow, REVOKE's loop ends): it answers [Ok] and leaves a
    well-formed space, or answers an error and leaves the space exactly as it
    was ("all-or-nothing"). *)
Theorem operations_total cs o :
  wf cs → op_args o → in_u 64 (next_obj cs + 1) →
  match run_op o cs with
  | (Ok _, cs') => wf cs'
  | (Err _, cs') => cs' = cs
  | (Panic, _) => False
  end.
Proof. apply run_op_good. Qed.

(** ** Revocation *)

(** C2: REVOKE of a live slot succeeds and destroys exactly the strict
    descendants of [c]: each of them resolves to [EmptySlot] afterwards, every
    other slot is untouched, and [c] keeps its type, object, rights and
    parent. *)
Theorem revoke_exact cs c r :
  wf cs → live cs c = Ok r →
  ∃ cs', revoke c cs = (Ok (), cs') ∧
    (∀ k, below cs k c → resolve cs' k = Err EmptySlot) ∧
    (∀ k, k ≠ c → ¬ below cs k c → slots cs' !! k = slots cs !! k) ∧
    ∃ e e', slots cs !! c = Some e ∧ slots cs' !! c = Some e' ∧ parent e' = parent e ∧
      cap_type (cap e') = cap_type r ∧ objref (cap e') = objref r ∧ rights (cap e') = rights r ∧
      (cap_type r = Untyped → watermark (cap e') = 0%Z).
Proof.
  intros W (Hn & e & He & <-)%live_Ok.
  destruct (revoke_spec cs c e W He Hn) as (cs1 & zs & R & Hr).
  destruct (rv_self _ _ _ _ R _ He) as (n & He1 & _).
  exists (reclaim c cs1). split; [done|]. split_and!.
  - intros k Hk. assert (k ≠ c) by (intros ->; by apply below_irrefl in Hk).
    apply (rv_below _ _ _ _ R) in Hk. unfold resolve, live.
    rewrite <- (reclaim_lookup_ne c) in Hk by done.
    rewrite decide_False by (apply lookup_lt_Some in Hk; lia).
    rewrite (slot_Some _ _ _ Hk). done.
  - intros k Hk Hb. rewrite reclaim_lookup_ne by done. by apply (rv_other _ _ _ _ R).
  - eexists e, _. split; [done|]. split; [by apply reclaim_lookup|]. simpl.
    destruct (is_type _ _) eqn:Ht; [done|]. split_and!; try done.
    intros Hu. apply is_type_false in Ht. done.
Qed.

(** REVOKE zeroes an object exactly when it destroys its last capability:
    a destroyed frame-backed object either still has a live capability or was
    handed to the zeroing hook with the size of one of its destroyed
    capabilities, and every zeroing call is of such an object, of which no
    live capability remains. *)
Theorem revoke_zeroes cs c r :
  wf cs → live cs c = Ok r →
  ∃ cs' zs, revoke c cs = (Ok (), cs') ∧ zlog cs' = zlog cs ++ zs ∧
    (∀ k e, below cs k c → slots cs !! k = Some e → unzeroed_type (cap_type (cap e)) = false →
      another_cap cs' (cap e) = true ∨
      ∃ k' e', below cs k' c ∧ slots cs !! k' = Some e' ∧ cap_type (cap e') = cap_type (cap e) ∧
        objref (cap e') = objref (cap e) ∧ (objref (cap e), size (cap e')) ∈ zs) ∧
    (∀ f n, (f, n) ∈ zs → ∃ k e, below cs k c ∧ slots cs !! k = Some e ∧
      f = objref (cap e) ∧ n = size (cap e) ∧
      unzeroed_type (cap_type (cap e)) = false ∧ another_cap cs' (cap e) = false).
Proof.
  intros W (Hn & e & He & <-)%live_Ok.
  destruct (revoke_spec cs c e W He Hn) as (cs1 & zs & R & Hr).
  exists (reclaim c cs1), zs. split; [done|].
  assert (zlog (reclaim c cs1) = zlog cs1) as -> by (unfold reclaim; by repeat case_match).
  assert (∀ x, another_cap (reclaim c cs1) x = another_cap cs1 x) as Ha.
  { intros x. apply reclaim_another. }
  split_and!; [apply (rv_zlog _ _ _ _ R)|..].
  - intros k ek. rewrite Ha. apply (rv_zero _ _ _ _ R).
  - intros f n Hin. destruct (rv_only _ _ _ _ R _ _ Hin) as (k & ek & ?). exists k, ek. by rewrite Ha.
Qed.

(** DELETE of a live slot succeeds, empties it and every descendant, and
    leaves every slot that is neither, but for the parent a [Sched] returns
    its CPU time to, as it was. *)
Theorem delete_exact cs c r :
  wf cs → live cs c = Ok r →
  ∃ cs', delete c cs = (Ok (), cs') ∧ wf cs' ∧ slots cs' !! c = Some Cte_EMPTY ∧
    (∀ k, below cs k c → slots cs' !! k = Some Cte_EMPTY) ∧
    (∀ k, k ≠ c → ¬ below cs k c → ¬ (cap_type r = Sched ∧ parent_of cs c k) →
      slots cs' !! k = slots cs !! k).
Proof.
  intros W (Hn & e & He & <-)%live_Ok.
  destruct (delete_spec cs c e W He Hn)
    as (cs1 & zs & e1 & R & Hl & Hp & Ht & _ & W1 & Hno & Hd).
  exists (destroy_state c e1 (reclaim c cs1)). split; [done|]. split; [by apply wf_destroy|].
  split; [by rewrite (destroy_lookup _ _ _ _ Hl), decide_True|]. split.
  - intros k Hk. assert (k ≠ c) by (intros ->; by apply below_irrefl in Hk).
    rewrite (destroy_lookup _ _ _ _ Hl), decide_False, reclaim_lookup_ne by done.
    rewrite (rv_below _ _ _ _ R _ Hk). simpl. f_equal. unfold credited. simpl. by rewrite andb_false_r.
  - intros k Hk Hb Hnp. rewrite (destroy_lookup _ _ _ _ Hl), decide_False, reclaim_lookup_ne by done.
    rewrite (rv_other _ _ _ _ R) by done. destruct (slots cs !! k) as [ek|] eqn:Hek; [|done].
    simpl. f_equal. unfold credited. case_match; [|done]. exfalso. apply Hnp.
    apply andb_true_iff in H as [[Hpk%bool_decide_eq_true Hs%is_type_true]%andb_true_iff _].
    split; [congruence|]. exists e. split; [done|]. congruence.
Qed.

(** [is_descendant] decides the derivation order: it answers whether a
    non-empty chain of parent links leads from [d] to [a]; the [N + 1] steps
    of its loop are always enough. *)
Theorem is_descendant_decides cs d a :
  wf cs → d < length (slots cs) →
  ∃ b, is_descendant cs d a = Ok b ∧ (b = true ↔ below cs d a).
Proof. apply is_descendant_spec. Qed.

(** ** CPU time *)


(** ** Memory *)

(** A successful RETYPE checked type, right, budget and that every
    destination is free; it zeroes each new object, charges the watermark, and
    the [i]-th object starts at the old watermark plus [i] object sizes, so the
    new objects lie beyond every earlier child of the [Untyped]. *)
Theorem retype_fresh cs ut t f n dest cs' :
  wf cs → in_u 32 f → in_u 32 n → retype ut t f n dest cs = (Ok (), cs') →
  ∃ u, slots cs !! ut = Some u ∧ cap_type (cap u) = Untyped ∧
    bf_contains (rights (cap u)) RETYPE = true ∧ is_retypeable t = true ∧
    (watermark (cap u) + f * n <= size (cap u))%Z ∧
    slots cs' !! ut = Some (mkCte (set_watermark (cap u) (watermark (cap u) + f * n)) (parent u)) ∧
    (∀ i, i < Z.to_nat n → vacant cs (dest + i) ∧ slots cs' !! (dest + i) = Some (mkCte
      (mkRawCap t (default_rights t) (objref (cap u) + watermark (cap u) + Z.of_nat i * f) f 0 0 0)
      (Some ut))) ∧
    (∀ k, k ≠ ut → ¬ dest ≤ k < dest + Z.to_nat n → slots cs' !! k = slots cs !! k) ∧
    zlog cs' = zlog cs ++
      ((λ i, (objref (cap u) + watermark (cap u) + Z.of_nat i * f, f)%Z) <$> seq 0 (Z.to_nat n)) ∧
    (∀ k e, slots cs !! k = Some e → parent e = Some ut →
      (objref (cap e) + size (cap e) <= objref (cap u) + watermark (cap u))%Z).
Proof.
  intros W Hf Hn H. pose proof (retype_spec cs ut t f n dest W Hf Hn) as S. rewrite H in S.
  destruct S as [_ [u R]]. destruct (rt_untyped _ _ _ _ _ _ _ _ R) as [Hu Ht].
  pose proof (rt_slots _ _ _ _ _ _ _ _ R) as Hs. exists u.
  split_and!; try done; try (by apply R).
  - rewrite Hs, decide_False, decide_True; [done..|]. intros Hk.
    destruct (rt_free _ _ _ _ _ _ _ _ R (ut - dest)) as (e & He & Hn'); [lia|].
    replace (dest + (ut - dest)) with ut in He by lia. congruence.
  - intros i Hi. split; [exact (rt_free _ _ _ _ _ _ _ _ R i Hi)|].
    rewrite Hs, decide_True by lia. by replace (dest + i - dest) with i by lia.
  - intros k Hk Hd. by rewrite Hs, !decide_False.
  - intros k e He Hp. destruct (wf_parent _ W _ _ _ He Hp) as (pe & Hpe & Hch). simplify_eq.
    unfold child_ok in Hch. rewrite Ht in Hch. apply Hch.
Qed.

Lemma below_untyped cs j u eu :
  wf cs → below cs j u → slots cs !! u = Some eu → cap_type (cap eu) = Untyped →
  ∃ ej k ek, slots cs !! j = Some ej ∧ slots cs !! k = Some ek ∧ parent ek = Some u ∧
    is_retypeable (cap_type (cap ej)) = true ∧
    objref (cap ej) = objref (cap ek) ∧ size (cap ej) = size (cap ek).
Proof.
  intros W H Hu Ht. induction H as [x y (e & He & Hp)|x y z (e & He & Hp) _ IH].
  - destruct (wf_parent _ W _ _ _ He Hp) as (pe & Hpe & Hch). simplify_eq.
    unfold child_ok in Hch. rewrite Ht in Hch. exists e, x, e. naive_solver.
  - destruct (IH Hu) as (ej & k & ek & Hj & Hk & Hpk & Hr & Ho & Hs).
    destruct (wf_parent _ W _ _ _ He Hp) as (pe & Hpe & Hch). simplify_eq.
    exists e, k, ek. unfold child_ok in Hch. destruct (cap_type (cap ej)); try done;
      destruct Hch as (Hc1 & Hc2 & Hc3 & _); rewrite Hc1; split_and!; congruence.
Qed.


(** ** Authority *)

Lemma below_rights cs k a ek ea :
  wf cs → below cs k a → slots cs !! k = Some ek → slots cs !! a = Some ea →
  cap_type (cap ea) ≠ Untyped →
  cap_type (cap ek) = cap_type (cap ea) ∧ subset_of (rights (cap ek)) (rights (cap ea)) = true ∧
  (cap_type (cap ea) ≠ Sched → objref (cap ek) = objref (cap ea)).
Proof.
  intros W H. revert ek. induction H as [x y (e & He & Hp)|x y z (e & He & Hp) Hyz IH];
    intros ek Hk Ha Hu; simplify_eq.
  - destruct (wf_parent _ W _ _ _ He Hp) as (pe & Hpe & Hch). simplify_eq.
    unfold child_ok in Hch. destruct (cap_type (cap ea)); naive_solver.
  - destruct (wf_parent _ W _ _ _ He Hp) as (pe & Hpe & Hch).
    destruct (IH pe Hpe Ha Hu) as (Ht & Hr & Ho). rewrite <- Ht in *.
    assert (cap_type (cap e) = cap_type (cap pe) ∧ subset_of (rights (cap e)) (rights (cap pe)) = true
      ∧ (cap_type (cap pe) ≠ Sched → objref (cap e) = objref (cap pe))) as (Ht' & Hr' & Ho').
    { unfold child_ok in Hch. destruct (cap_type (cap pe)); naive_solver. }
    split_and!; [done|by eapply subset_of_trans|]. intros Hs. rewrite Ho' by done. by apply Ho.
Qed.

Lemma below_ancestor_live cs k a e :
  wf cs → below cs k a → slots cs !! a = Some e → cap_type (cap e) ≠ Null.
Proof.
  intros W H. induction H as [x y Hp|x y z _ _ IH]; [|exact IH]. intros Ha.
  destruct (parent_live _ _ _ W Hp) as (?&?&?&?&?&?&?). by simplify_eq.
Qed.


Lemma reply_consumed cs dest caller b cs' :
  wf cs → in_u 64 caller → in_u 64 b → mint_reply dest caller b cs = (Ok (), cs') →
  ∃ cs'', consume_reply dest cs' = (Ok caller, cs'') ∧ slots cs'' = slots cs ∧
    zlog cs'' = zlog cs ∧ consume_reply dest cs'' = (Err EmptySlot, cs'').
Proof.
  intros W Hc Hb H. pose proof (mint_reply_good cs dest caller b W Hc Hb) as W'.
  rewrite H in W'. unfold mint_reply in H. apply place_inv in H as [(d & Hd & Hdn) ->].
  set (r := mkRawCap Reply rights_empty caller 0 0 0 b) in *. cbn in W'.
  assert (slots (upd_slot dest (mkCte r None) cs) !! dest = Some (mkCte r None)) as Hl
    by (simpl; apply list_lookup_insert_eq; by eapply lookup_lt_Some).
  assert (slots (destroy_state dest (mkCte r None) (upd_slot dest (mkCte r None) cs)) = slots cs) as Hs.
  { rewrite destroy_state_slots. simpl. rewrite list_insert_insert_eq.
    rewrite <- (wf_null _ W _ _ Hd Hdn). by apply list_insert_id. }
  eexists. split_and!.
  - unfold consume_reply, mbind, M_bind, reads.
    assert (live (upd_slot dest (mkCte r None) cs) dest = Ok r) as -> by (apply live_Ok; eauto).
    change (is_type (cap_type r) Reply) with true. cbn [negb].
    rewrite (destroy_slot_eq _ _ _ W' Hl) by done. reflexivity.
  - exact Hs.
  - rewrite destroy_zlog. simpl. rewrite andb_false_r. apply app_nil_r.
  - unfold consume_reply, mbind, M_bind, reads, live. rewrite Hs.
    rewrite decide_False by (apply lookup_lt_Some in Hd; lia).
    unfold slot. rewrite Hs. unfold index. rewrite Hd. simpl.
    apply is_null_true in Hdn. by rewrite Hdn.
Qed.

Lemma mint_reply_run cs dest caller b : vacant cs dest →
  ∃ cs', mint_reply dest caller b cs = (Ok (), cs') ∧
    ∃ r, resolve cs' dest = Ok r ∧ cap_type r = Reply ∧ objref r = caller.
Proof.
  intros (d & Hd & Hn). unfold mint_reply. rewrite place_eq, Hd.
  apply is_null_true in Hn. rewrite Hn. eexists. split; [reflexivity|].
  eexists. split; [apply live_Ok; split; [|eexists; split; [apply list_lookup_insert_eq; by eapply lookup_lt_Some|reflexivity]]|]; done.
Qed.

(** Reply authority is single-use and names one caller: the [Reply] minted
    for [caller] into a free slot is consumed once, yielding that caller and
    restoring the space, and a second consume answers [EmptySlot]. *)
Theorem reply_once cs dest caller b cs' :
  wf cs → in_u 64 caller → in_u 64 b → mint_reply dest caller b cs = (Ok (), cs') →
  ∃ cs'', consume_reply dest cs' = (Ok caller, cs'') ∧ slots cs'' = slots cs ∧
    zlog cs'' = zlog cs ∧ consume_reply dest cs'' = (Err EmptySlot, cs'').
Proof. apply reply_consumed. Qed.

(** GRANT is all-or-nothing across the two spaces and never widens: an
    error leaves both as they were; a success has checked GRANT and the subset
    of rights, adds exactly one capability naming the source's object to a free
    destination slot, keeps both spaces well-formed, and for a MOVE conserves
    the CPU time of the two spaces together. *)
Theorem grant_atomic s d rs b m src dst :
  wf src → wf dst → in_u 32 rs → in_u 64 b →
  match grant s d rs b m (src, dst) with
  | (Ok _, (src', dst')) =>
      wf src' ∧ wf dst' ∧
      (∃ e, occupied src s e ∧ vacant dst d ∧ bf_contains (rights (cap e)) GRANT = true ∧
        subset_of rs (rights (cap e)) = true ∧
        dst' = upd_slot d (mkCte (with_rights_badge (cap e) rs b) None) dst ∧
        src' = match m with GMove => upd_slot s Cte_EMPTY src | GMint => src end) ∧
      (cpu_time src' + cpu_time dst' = cpu_time src + cpu_time dst)%Z
  | (Err _, st) => st = (src, dst)
  | (Panic, _) => False
  end.
Proof.
  intros Ws Wd Hr Hb. pose proof (grant_spec s d rs b m src dst) as G.
  destruct (grant s d rs b m (src, dst)) as [[] [src' dst']]; [|by destruct G as [-> ->]|done].
  destruct G as [e G]. destruct (granted_wf _ _ _ _ _ _ _ _ _ _ Ws Wd Hr Hb G) as [Ws' Wd'].
  pose proof (granted_time _ _ _ _ _ _ _ _ _ _ G). destruct G. split_and!; try done. by exists e.
Qed.

(** C39: A typed handle is only fabricated for a live capability of that type:
    [get::<T>] succeeds exactly when the slot is in range, occupied and its tag
    is [T]'s, and then carries the stored record. *)
Theorem get_typed (T : Type) `{ObjectType T} cs c h :
  get_cap T cs c = Ok h ↔
  ∃ e, slots cs !! c = Some e ∧ cap_type (cap e) ≠ Null ∧
    cap_type (cap e) = TYPE (T:=T) ∧ to_raw h = cap e.
Proof.
  unfold get_cap. munfold. destruct (live cs c) as [r| |] eqn:Hl.
  - apply live_Ok in Hl as (Hn & e & He & <-).
    destruct (same_type (cap_type (cap e)) TYPE) eqn:Ht; simpl.
    + apply same_type_spec in Ht. split; [intros [= <-]; by exists e|].
      intros (e' & He' & _ & _ & Hr). destruct h. simpl in Hr. by simplify_eq.
    + split; [done|]. intros (e' & He' & _ & Ht' & _). simplify_eq.
      apply same_type_spec in Ht'. congruence.
  - split; [done|]. intros (e0 & He & Hn & _). exfalso.
    assert (live cs c = Ok (cap e0)) by (apply live_Ok; eauto). congruence.
  - split; [done|]. intros (e & He & Hn & _). exfalso.
    assert (live cs c = Ok (cap e)) by (apply live_Ok; eauto). congruence.
Qed.

(** The window of a [SharedRo] is the address it was installed with: for a
    page-aligned [va] below 2^44 the packing into [aux] loses nothing. *)
Theorem shared_ro_roundtrip cs s pfn frames va cs' :
  (0 <= va < 2 ^ 44)%Z → Z.land va 4095 = 0%Z →
  install_shared_ro s pfn frames va cs = (Ok (), cs') → shared_ro_region cs' s = Ok va.
Proof.
  intros Hva Hal H. unfold install_shared_ro, set_slot in H. case_decide as Hs; [|done].
  injection H as <-. unfold shared_ro_region, live, slot. munfold. simpl.
  rewrite length_insert, decide_False by lia. rewrite list_lookup_insert_eq by done. simpl.
  assert (bf_contains READ READ = true) as -> by (by apply bf_contains_spec). simpl. f_equal.
  rewrite Z.shiftr_div_pow2 by lia.
  assert (in_u 32 (va / 2 ^ 12)) as Hin.
  { split; [apply Z.div_pos; lia|]. apply Z.div_lt_upper_bound; lia. }
  rewrite (wrap_small 32) by done. rewrite Z.shiftl_mul_pow2 by lia.
  change 4095%Z with (Z.ones 12) in Hal. rewrite Z.land_ones in Hal by lia.
  rewrite wrap_small; [|unfold in_u in *]; pose proof (Z.div_mod va (2 ^ 12)); lia.
Qed.
End theorems.

(** ** Witnesses on [demo] *)

Lemma demo_link k p : (parent <$> slots demo !! k) = Some (Some p) → parent_of demo k p.
Proof. intros (e & He & Hp)%fmap_Some. exists e. split; [exact He|symmetry; exact Hp]. Qed.

Lemma demo_4_below_0 : below demo 4 0.
Proof. eapply tc_l; [|constructor]; apply demo_link; vm_compute; reflexivity. Qed.
Lemma demo_3_below_0 : below demo 3 0.
Proof. constructor. apply demo_link. vm_compute. reflexivity. Qed.


Lemma operations_total_witness :
  match run_op (ORevoke 0) demo with
  | (Ok _, cs') => wf cs' | (Err _, cs') => cs' = demo | (Panic, _) => False end.
Proof. apply (operations_total demo (ORevoke 0)); [apply demo_wf|exact I|u_bounds]. Defined.

Lemma revoke_exact_witness :
  ∃ cs', revoke 0 demo = (Ok (), cs') ∧ resolve cs' 4 = Err EmptySlot ∧ slots cs' !! 5 = slots demo !! 5.
Proof.
  destruct (revoke_exact demo 0 (mkRawCap Untyped RETYPE 100 16 4 0 0)) as (cs' & Hr & Hb & Ho & _).
  - apply demo_wf.
  - vm_compute. reflexivity.
  - exists cs'. split; [exact Hr|]. split; [apply Hb, demo_4_below_0|].
    vm_compute in Hr. injection Hr as <-. reflexivity.
Defined.

Lemma revoke_zeroes_witness :
  ∃ cs' zs, revoke 0 demo = (Ok (), cs') ∧ zlog cs' = zlog demo ++ zs ∧ zs = [(102, 2); (100, 2)]%Z.
Proof.
  destruct (revoke_zeroes demo 0 (mkRawCap Untyped RETYPE 100 16 4 0 0)) as (cs' & zs & Hr & Hz & _).
  - apply demo_wf.
  - vm_compute. reflexivity.
  - exists cs', zs. split; [exact Hr|]. split; [exact Hz|].
    vm_compute in Hr. injection Hr as <-. vm_compute in Hz. by injection Hz as <-.
Defined.

Lemma delete_exact_witness : ∃ cs', delete 1 demo = (Ok (), cs') ∧ slots cs' !! 1 = Some Cte_EMPTY.
Proof.
  destruct (delete_exact demo 1 (mkRawCap Sched 528 1 700 0 100 0)) as (cs' & Hd & _ & He & _).
  - apply demo_wf.
  - vm_compute. reflexivity.
  - exists cs'. split; [exact Hd|exact He].
Defined.

Lemma is_descendant_decides_witness : ∃ b, is_descendant demo 4 0 = Ok b ∧ (b = true ↔ below demo 4 0).
Proof. apply (is_descendant_decides demo 4 0); [apply demo_wf|vm_compute; lia]. Defined.


Lemma retype_fresh_witness :
  ∃ u, slots demo !! 0 = Some u ∧ cap_type (cap u) = Untyped.
Proof.
  destruct (retype_fresh demo 0 Endpoint 1 1 7 (retype 0 Endpoint 1 1 7 demo).2) as (u & Hu & Ht & _).
  - apply demo_wf.
  - u_bounds.
  - u_bounds.
  - vm_compute. reflexivity.
  - exists u. split; [exact Hu|exact Ht].
Defined.



Lemma reply_once_witness :
  ∃ cs'', consume_reply 7 (mint_reply 7 5 6 demo).2 = (Ok 5%Z, cs'') ∧
    consume_reply 7 cs'' = (Err EmptySlot, cs'').
Proof.
  destruct (reply_once demo 7 5 6 (mint_reply 7 5 6 demo).2) as (cs'' & H1 & _ & _ & H2).
  - apply demo_wf.
  - u_bounds.
  - u_bounds.
  - vm_compute. reflexivity.
  - exists cs''. split; [exact H1|exact H2].
Defined.

Lemma grant_atomic_witness :
  ∃ src' dst', grant 1 0 16 0 GMove (demo0, cspace_new 2) = (Ok (), (src', dst')) ∧
    (cpu_time src' + cpu_time dst' = cpu_time demo0 + cpu_time (cspace_new 2))%Z.
Proof.
  pose proof (grant_atomic 1 0 16 0 GMove demo0 (cspace_new 2)) as H.
  assert (wf demo0) as W.
  { apply reachable_inv. eapply (R_install demo_u (ISched 1 1000 100));
      [|split; u_bounds|eexists; split; vm_compute; reflexivity|u_bounds|vm_compute; reflexivity].
    eapply (R_install (cspace_new 8) (IUntyped 100 16));
      [apply R_new|split_and!; [u_bounds|u_bounds|vm_compute; congruence]
      |eexists; split; vm_compute; reflexivity|u_bounds|vm_compute; reflexivity]. }
  assert (∃ st, grant 1 0 16 0 GMove (demo0, cspace_new 2) = (Ok (), st)) as [[src' dst'] E]
    by (eexists; vm_compute; reflexivity).
  rewrite E in H. exists src', dst'. split; [exact E|].
  apply H; [exact W|apply wf_new|u_bounds|u_bounds].
Defined.

Lemma shared_ro_roundtrip_witness :
  shared_ro_region (install_shared_ro 7 3 1 (16 * 4096) demo).2 7 = Ok (16 * 4096)%Z.
Proof.
  apply (shared_ro_roundtrip demo 7 3 1 (16 * 4096)); [lia|vm_compute; reflexivity|vm_compute; reflexivity].
Defined.
