(* ===== verification/Buddy.v ===== *)
(** * The physical frame allocator ([mem/src/buddy.rs], [mem/src/frame.rs])

    A binary buddy allocator over a frame-descriptor array that carries the
    intrusive free lists.  A frame number ([Pfn], a [u32]) is a [nat] whose
    additions are checked at 32 bits; a link that the source compares with
    [NIL = u32::MAX] is [None], which no frame of an array of fewer than 2^32
    descriptors can equal.  No operation answers an error. *)

From S2P Require Import Prelude.

Module Buddy.

Definition MAX_ORDER : nat := 18.

Record FrameDesc := mkDesc {
  next : option nat;
  prev : option nat;
  order : nat;      (* u8 *)
  free : bool
}.

Definition RESERVED : FrameDesc := mkDesc None None 0 false.

Record Buddy := mkBuddy {
  desc : list FrameDesc;
  heads : list (option nat);   (* the field [free] *)
  nframes : nat;
  free_frames : nat
}.

Abbreviation BM := (M Buddy Empty_set).

(** [n] as the result of a [u32] addition or subtraction, and [1u32 << n]. *)
Definition u32 (z : Z) : BM nat := x ← lift (arith 32 z); mret (Z.to_nat x).
Definition shl32 (n : nat) : BM nat := if n <? 32 then mret (2 ^ n) else panic.

(** Reads and writes of the array elements. *)
Definition get_desc (i : nat) : BM FrameDesc := reads (λ b, index (desc b) i).
Definition set_desc (i : nat) (d : FrameDesc) : BM unit := λ b,
  if decide (i < length (desc b))
  then (Ok (), mkBuddy (<[i:=d]> (desc b)) (heads b) (nframes b) (free_frames b))
  else (Panic, b).
Definition get_head (o : nat) : BM (option nat) := reads (λ b, index (heads b) o).
Definition set_head (o : nat) (h : option nat) : BM unit := λ b,
  if decide (o < length (heads b))
  then (Ok (), mkBuddy (desc b) (<[o:=h]> (heads b)) (nframes b) (free_frames b))
  else (Panic, b).
Definition set_free_frames (n : nat) : BM unit := λ b,
  (Ok (), mkBuddy (desc b) (heads b) (nframes b) n).

Definition with_next (d : FrameDesc) (n : option nat) := mkDesc n (prev d) (order d) (free d).
Definition with_prev (d : FrameDesc) (p : option nat) := mkDesc (next d) p (order d) (free d).
Definition with_order (d : FrameDesc) (o : nat) := mkDesc (next d) (prev d) o (free d).
Definition with_free (d : FrameDesc) (f : bool) := mkDesc (next d) (prev d) (order d) f.

(** [Buddy::new] over an array of [len] descriptors, whatever they held. *)
Definition new (ds : list FrameDesc) : Buddy :=
  mkBuddy ((λ _, RESERVED) <$> ds) (replicate (S MAX_ORDER) None)
    (Z.to_nat (wrap 32 (Z.of_nat (length ds)))) 0.

Definition total_frames (b : Buddy) : nat := nframes b.

Definition insert (base ord : nat) : BM unit :=
  head ← get_head ord;
  set_desc base (mkDesc head None ord true);;
  match head with
  | Some h => dh ← get_desc h; set_desc h (with_prev dh (Some base))
  | None => mret ()
  end;;
  set_head ord (Some base).

Definition unlink (base ord : nat) : BM unit :=
  d ← get_desc base;
  match prev d with
  | Some p => dp ← get_desc p; set_desc p (with_next dp (next d))
  | None => set_head ord (next d)
  end;;
  match next d with
  | Some n => dn ← get_desc n; set_desc n (with_prev dn (prev d))
  | None => mret ()
  end;;
  d' ← get_desc base;
  set_desc base (with_free d' false).

(** [x.trailing_zeros()] for [x ≠ 0]. *)
Fixpoint trailing_zeros_pos (fuel x : nat) : nat :=
  match fuel with
  | O => 0
  | S fuel' => if Nat.odd x then 0 else S (trailing_zeros_pos fuel' (Nat.div2 x))
  end.
Definition trailing_zeros (x : nat) : nat := if x =? 0 then 32 else trailing_zeros_pos 32 x.
(** [x.leading_zeros()] of a [u32]. *)
Definition leading_zeros (x : nat) : nat := if x =? 0 then 32 else 31 - Nat.log2 x.

(** The order of the next block of a run: aligned at [base], inside the run. *)
Definition run_order (base fin : nat) : nat :=
  let align_order := if base =? 0 then MAX_ORDER else trailing_zeros base in
  let size_order := 31 - leading_zeros (fin - base) in
  Nat.min (Nat.min align_order size_order) MAX_ORDER.

Fixpoint add_loop (fuel base fin : nat) : BM unit :=
  if base <? fin then
    match fuel with
    | O => panic
    | S fuel' =>
        let ord := run_order base fin in
        sz ← shl32 ord;
        b ← get;
        n ← u32 (Z.of_nat (free_frames b) + Z.of_nat sz);
        set_free_frames n;;
        insert base ord;;
        base' ← u32 (Z.of_nat base + Z.of_nat sz);
        add_loop fuel' base' fin
    end
  else mret ().

Definition add_frames (start count : nat) : BM unit :=
  if count =? 0 then mret () else
  fin ← u32 (Z.of_nat start + Z.of_nat count);
  add_loop count start fin.

(** [while o <= MAX_ORDER && self.free[o] == NIL { o += 1; }] *)
Fixpoint find_order (fuel o : nat) : BM nat :=
  match fuel with
  | O => panic
  | S fuel' =>
      if o <=? MAX_ORDER then
        h ← get_head o;
        match h with
        | None => find_order fuel' (S o)
        | Some _ => mret o
        end
      else mret o
  end.

(** [while o > order { o -= 1; self.insert(base + (1 << o), o); }] *)
Fixpoint split_loop (base o ord : nat) : BM unit :=
  match o with
  | O => mret ()
  | S o' =>
      if ord <? o then
        sz ← shl32 o';
        upper ← u32 (Z.of_nat base + Z.of_nat sz);
        insert upper o';;
        split_loop base o' ord
      else mret ()
  end.

Definition alloc (ord : nat) : BM (option nat) :=
  if MAX_ORDER <? ord then mret None else
  o ← find_order (S (S MAX_ORDER)) ord;
  if MAX_ORDER <? o then mret None else
  h ← get_head o;
  match h with
  | None => panic   (* NIL as an index: not reached, the loop stopped here *)
  | Some base =>
      unlink base o;;
      split_loop base o ord;;
      d ← get_desc base;
      set_desc base (with_order d ord);;
      d' ← get_desc base;
      set_desc base (with_free d' false);;
      sz ← shl32 ord;
      b ← get;
      n ← u32 (Z.of_nat (free_frames b) - Z.of_nat sz);
      set_free_frames n;;
      mret (Some base)
  end.

Fixpoint coalesce (fuel base ord : nat) : BM unit :=
  if ord <? MAX_ORDER then
    match fuel with
    | O => panic
    | S fuel' =>
        sz ← shl32 ord;
        let buddy := Nat.lxor base sz in
        b ← get;
        if nframes b <=? buddy then insert base ord else
        bd ← get_desc buddy;
        if negb (free bd) || negb (order bd =? ord) then insert base ord else
        unlink buddy ord;;
        coalesce fuel' (if buddy <? base then buddy else base) (S ord)
    end
  else insert base ord.

Definition free_block (base : nat) : BM unit :=
  d ← get_desc base;
  sz ← shl32 (order d);
  b ← get;
  n ← u32 (Z.of_nat (free_frames b) + Z.of_nat sz);
  set_free_frames n;;
  coalesce MAX_ORDER base (order d).

End Buddy.

(** [pfn_to_phys] and [phys_to_pfn] of [frame.rs]. *)
Definition PAGE_SIZE : Z := 4096.
Definition PAGE_SHIFT : Z := 12.
Definition pfn_to_phys (pfn : Z) : Z := wrap 64 (Z.shiftl pfn PAGE_SHIFT).
Definition phys_to_pfn (phys : Z) : Z := wrap 32 (Z.shiftr phys PAGE_SHIFT).

Lemma pfn_to_phys_eq pfn : (0 <= pfn < 2 ^ 32)%Z → pfn_to_phys pfn = (pfn * 4096)%Z.
Proof.
  intros H. unfold pfn_to_phys, PAGE_SHIFT. rewrite Z.shiftl_mul_pow2 by lia.
  apply wrap_small. unfold in_u. lia.
Qed.
