(* ===== verification/BuddyInv.v ===== *)
(** * The invariant of the buddy allocator

    [shape] describes the intrusive lists pointwise: every free block is aligned
    and inside the array, free blocks are disjoint, its links are answered by its
    neighbours, heads and only heads have no predecessor, and the predecessor
    links are well-founded (so every free block is reachable from its head).
    [insert] and [unlink] are described by their effect on the set of free
    blocks, which is all the clients need. *)

From S2P Require Import Prelude Buddy.
Import Buddy.

(** A free block of order [o] starts at [p]. *)
Definition blk (b : Buddy) (p o : nat) : Prop :=
  ∃ d, desc b !! p = Some d ∧ free d = true ∧ order d = o.

(** Two blocks have no frame in common. *)
Definition apart (p o q r : nat) : Prop := p + 2 ^ o ≤ q ∨ q + 2 ^ r ≤ p.

(** The block [2^o] frames from [p] is a legal block of [b]. *)
Definition placed (b : Buddy) (p o : nat) : Prop :=
  o ≤ MAX_ORDER ∧ (2 ^ o | p) ∧ p + 2 ^ o ≤ nframes b.

(** Frame [f] belongs to a free block: the abstract state of the allocator. *)
Definition covered (b : Buddy) (f : nat) : Prop := ∃ p o, blk b p o ∧ p ≤ f < p + 2 ^ o.

(** Frames on the free lists. *)
Definition desc_frames (d : FrameDesc) : Z := if free d then 2 ^ Z.of_nat (order d) else 0.
Definition total_free (b : Buddy) : Z := sumZ desc_frames (desc b).

Record shape (b : Buddy) : Prop := {
  sh_len : length (desc b) = nframes b ∧ (Z.of_nat (nframes b) < 2 ^ 32)%Z;
  sh_heads : length (heads b) = S MAX_ORDER;
  sh_head o p : heads b !! o = Some (Some p) →
    ∃ d, desc b !! p = Some d ∧ free d = true ∧ order d = o ∧ prev d = None;
  sh_placed p o : blk b p o → placed b p o;
  sh_apart p o q r : blk b p o → blk b q r → p ≠ q → apart p o q r;
  sh_first p d : desc b !! p = Some d → free d = true → prev d = None →
    heads b !! order d = Some (Some p);
  sh_prev p d q : desc b !! p = Some d → free d = true → prev d = Some q →
    ∃ dq, desc b !! q = Some dq ∧ free dq = true ∧ order dq = order d ∧ next dq = Some p;
  sh_next p d q : desc b !! p = Some d → free d = true → next d = Some q →
    ∃ dq, desc b !! q = Some dq ∧ free dq = true ∧ order dq = order d ∧ prev dq = Some p;
  sh_rank : ∃ rank : nat → nat, ∀ p d q,
    desc b !! p = Some d → free d = true → prev d = Some q → rank q < rank p
}.

(** ** Powers of two *)

Lemma pow2_pos o : 0 < 2 ^ o.
Proof. pose proof (Nat.pow_nonzero 2 o). lia. Qed.

Lemma pow2_le o : o ≤ MAX_ORDER → (Z.of_nat (2 ^ o) <= 2 ^ 18)%Z.
Proof.
  intros H. rewrite Nat2Z.inj_pow. apply Z.pow_le_mono_r; [lia|]. unfold MAX_ORDER in H. lia.
Qed.

Lemma shl32_eq o b : o ≤ MAX_ORDER → shl32 o b = (Ok (2 ^ o), b).
Proof.
  intros H. unfold shl32. replace (o <? 32) with true; [done|]. symmetry. apply Nat.ltb_lt.
  unfold MAX_ORDER in H. lia.
Qed.

Lemma u32_eq z b : in_u 32 z → u32 z b = (Ok (Z.to_nat z), b).
Proof. intros H. unfold u32. munfold. by rewrite arith_in. Qed.

(** The buddy of an aligned block is the other half of the enclosing block. *)
Lemma buddy_half base o :
  (2 ^ o | base) →
  ((2 ^ S o | base) ∧ Nat.lxor base (2 ^ o) = base + 2 ^ o) ∨
  ((2 ^ S o | Nat.lxor base (2 ^ o)) ∧ base = Nat.lxor base (2 ^ o) + 2 ^ o).
Proof.
  intros [z ->].
  assert (∀ k, Nat.lxor (k * 2 ^ S o) (2 ^ o) = k * 2 ^ S o + 2 ^ o) as Hx.
  { intros k. symmetry. apply Nat.add_nocarry_lxor. apply Nat.bits_inj. intros i.
    rewrite Nat.land_spec, Nat.pow2_bits_eqb, Nat.bits_0.
    destruct (Nat.eqb_spec o i) as [->|]; [|by rewrite andb_false_r].
    rewrite Nat.mul_pow2_bits_low; [done|lia]. }
  destruct (Nat.Even_or_Odd z) as [[k ->]|[k ->]]; [left|right].
  - replace (2 * k * 2 ^ o) with (k * 2 ^ S o) by (rewrite Nat.pow_succ_r'; lia).
    split; [by exists k|apply Hx].
  - replace ((2 * k + 1) * 2 ^ o) with (k * 2 ^ S o + 2 ^ o) by (rewrite Nat.pow_succ_r'; lia).
    assert (Nat.lxor (k * 2 ^ S o + 2 ^ o) (2 ^ o) = k * 2 ^ S o) as ->.
    { rewrite <- Hx. by rewrite Nat.lxor_assoc, Nat.lxor_nilpotent, Nat.lxor_0_r. }
    split; [by exists k|done].
Qed.

(** ** The elementary writes *)

Definition upd (b : Buddy) (i : nat) (d : FrameDesc) : Buddy :=
  mkBuddy (<[i:=d]> (desc b)) (heads b) (nframes b) (free_frames b).
Definition updh (b : Buddy) (o : nat) (h : option nat) : Buddy :=
  mkBuddy (desc b) (<[o:=h]> (heads b)) (nframes b) (free_frames b).

Lemma set_desc_eq b i d : i < length (desc b) → set_desc i d b = (Ok (), upd b i d).
Proof. intros. unfold set_desc. by rewrite decide_True. Qed.
Lemma set_head_eq b o h : o < length (heads b) → set_head o h b = (Ok (), updh b o h).
Proof. intros. unfold set_head. by rewrite decide_True. Qed.
Lemma get_desc_eq b i d : desc b !! i = Some d → get_desc i b = (Ok d, b).
Proof. intros H. unfold get_desc, reads, index. by rewrite H. Qed.
Lemma get_head_eq b o h : heads b !! o = Some h → get_head o b = (Ok h, b).
Proof. intros H. unfold get_head, reads, index. by rewrite H. Qed.

Lemma placed_lookup b p o : shape b → placed b p o → ∃ d, desc b !! p = Some d.
Proof.
  intros S (_ & _ & Hp). apply lookup_lt_is_Some_2. destruct (sh_len _ S) as [-> _].
  pose proof (pow2_pos o). lia.
Qed.

(** A frame inside a block that no free block meets is not free itself. *)
Lemma apart_not_free b p o d :
  (∀ q r, blk b q r → apart q r p o) → desc b !! p = Some d → free d = false.
Proof.
  intros Ha Hd. destruct (free d) eqn:Hf; [|done]. exfalso.
  destruct (Ha p (order d)) as [H|H]; [by exists d|..].
  - pose proof (pow2_pos (order d)). lia.
  - pose proof (pow2_pos o). lia.
Qed.

(** What [insert] and [unlink] leave alone: everything about frames that are
    not free, but for the block itself. *)
Definition keeps (b b' : Buddy) (p : nat) : Prop :=
  nframes b' = nframes b ∧ free_frames b' = free_frames b ∧
  ∀ q d, desc b !! q = Some d → free d = false → q ≠ p → desc b' !! q = Some d.

Section insert.
Context (b : Buddy) (p o : nat) (d0 : FrameDesc) (h : option nat).
Context (S : shape b) (Hpl : placed b p o) (Hap : ∀ q r, blk b q r → apart q r p o).
Context (Hd0 : desc b !! p = Some d0) (Hh : heads b !! o = Some h).

(** The descriptors after the insertion. *)
Definition ins_desc : list FrameDesc :=
  match h with
  | Some hp => match desc b !! hp with
               | Some dh => <[hp:=with_prev dh (Some p)]> (<[p:=mkDesc h None o true]> (desc b))
               | None => <[p:=mkDesc h None o true]> (desc b)
               end
  | None => <[p:=mkDesc h None o true]> (desc b)
  end.
Definition ins_state : Buddy :=
  mkBuddy ins_desc (<[o:=Some p]> (heads b)) (nframes b) (free_frames b).

Lemma head_spec hp : h = Some hp →
  ∃ dh, desc b !! hp = Some dh ∧ free dh = true ∧ order dh = o ∧ prev dh = None ∧ hp ≠ p.
Proof.
  intros ->. destruct (sh_head _ S _ _ Hh) as (dh & Hdh & Hf & Ho & Hp).
  exists dh. split_and!; try done. intros ->.
  pose proof (apart_not_free _ _ _ _ Hap Hdh). congruence.
Qed.

Lemma insert_run : insert p o b = (Ok (), ins_state).
Proof.
  pose proof (lookup_lt_Some _ _ _ Hd0). pose proof (lookup_lt_Some _ _ _ Hh).
  unfold insert, mbind, M_bind, mret, M_ret. rewrite (get_head_eq _ _ _ Hh), set_desc_eq by done.
  unfold ins_state, ins_desc. pose proof head_spec as Hhs. destruct h as [hp|] eqn:Ehp; [|by rewrite set_head_eq].
  destruct (Hhs hp eq_refl) as (dh & Hdh & _ & _ & _ & Hne). rewrite Hdh.
  rewrite (get_desc_eq _ hp dh) by (simpl; by rewrite list_lookup_insert_ne).
  rewrite set_desc_eq by (simpl; rewrite length_insert; by eapply lookup_lt_Some).
  by rewrite set_head_eq.
Qed.

(** Every descriptor after the insertion. *)
Lemma ins_lookup q : ins_desc !! q =
  if decide (q = p) then Some (mkDesc h None o true) else
  if decide (h = Some q) then (λ d, with_prev d (Some p)) <$> desc b !! q else desc b !! q.
Proof.
  pose proof (lookup_lt_Some _ _ _ Hd0). unfold ins_desc. pose proof head_spec as Hhs. destruct h as [hp|] eqn:Ehp.
  - destruct (Hhs hp eq_refl) as (dh & Hdh & _ & _ & _ & Hne). rewrite Hdh.
    destruct (decide (q = hp)) as [->|Hq].
    + rewrite decide_False, decide_True, Hdh by done. apply list_lookup_insert_eq.
      rewrite length_insert. by eapply lookup_lt_Some.
    + rewrite list_lookup_insert_ne by done. rewrite (decide_False (P:=Some hp = Some q)) by congruence.
      case_decide; [subst; by apply list_lookup_insert_eq|by rewrite list_lookup_insert_ne].
  - rewrite (decide_False (P:=None = Some q)) by done.
    case_decide; [subst; by apply list_lookup_insert_eq|by rewrite list_lookup_insert_ne].
Qed.

(** A free descriptor after the insertion is the new one or an old one, whose
    [prev] may have been redirected to the new one. *)
Lemma ins_cases q d : ins_desc !! q = Some d → free d = true →
  q = p ∧ d = mkDesc h None o true ∨
  q ≠ p ∧ ∃ d1, desc b !! q = Some d1 ∧ free d1 = true ∧ order d1 = order d ∧ next d1 = next d ∧
    (h = Some q ∧ prev d = Some p ∧ order d = o ∨ h ≠ Some q ∧ prev d = prev d1).
Proof.
  intros Hq Hf. rewrite ins_lookup in Hq. case_decide; [left; by simplify_eq|]. right. split; [done|].
  case_decide as Hhq; [|by exists d; eauto 10].
  apply fmap_Some in Hq as (d1 & Hd1 & ->). destruct (head_spec q Hhq) as (dh & Hdh & _ & Ho & _).
  simplify_eq. exists d1. simpl in *. split_and!; try done. left. done.
Qed.

Lemma ins_blk q r : blk ins_state q r ↔ blk b q r ∨ q = p ∧ r = o.
Proof.
  unfold blk; simpl. split.
  - intros (d & Hq & Hf & Ho). destruct (ins_cases _ _ Hq Hf) as [[-> ->]|(_&d1&?&?&?&_)]; [by right|].
    left. exists d1. split_and!; congruence.
  - intros [(d & Hq & Hf & Ho)|[-> ->]].
    + rewrite ins_lookup, decide_False.
      2:{ intros ->. rewrite (apart_not_free _ _ _ _ Hap Hq) in Hf. done. }
      case_decide; rewrite Hq; simpl; [by eexists|by exists d].
    + rewrite ins_lookup, decide_True by done. by eexists.
Qed.

Lemma ins_total : total_free ins_state = (total_free b + 2 ^ Z.of_nat o)%Z.
Proof.
  unfold total_free; simpl. pose proof (apart_not_free _ _ _ _ Hap Hd0) as Hf0.
  assert (sumZ desc_frames (<[p:=mkDesc h None o true]> (desc b)) =
    (sumZ desc_frames (desc b) + 2 ^ Z.of_nat o)%Z) as Hs.
  { rewrite (sumZ_insert _ _ _ _ _ Hd0). unfold desc_frames at 2 3. rewrite Hf0. simpl. lia. }
  unfold ins_desc. pose proof head_spec as Hhs. destruct h as [hp|] eqn:Ehp; [|done].
  destruct (Hhs hp eq_refl) as (dh & Hdh & _ & _ & _ & Hne). rewrite Hdh.
  rewrite (sumZ_insert _ _ _ _ dh) by (by rewrite list_lookup_insert_ne). rewrite Hs.
  unfold desc_frames, with_prev; simpl. lia.
Qed.

Lemma ins_keeps : keeps b ins_state p.
Proof.
  split; [done|]. split; [done|]. intros q d Hq Hf Hne. simpl.
  rewrite ins_lookup, !decide_False; [done| |done].
  intros Hh'. destruct (head_spec q Hh') as (dh & Hdh & Hf' & _). congruence.
Qed.

Lemma ins_length : length ins_desc = length (desc b).
Proof. unfold ins_desc. repeat case_match; by rewrite ?length_insert. Qed.

Lemma ins_shape : shape ins_state.
Proof.
  pose proof (apart_not_free _ _ _ _ Hap Hd0) as Hf0.
  pose proof (lookup_lt_Some _ _ _ Hh) as Hol.
  split.
  - simpl. rewrite ins_length. apply S.
  - simpl. rewrite length_insert. apply S.
  - simpl. intros o' q Hq. rewrite ins_lookup.
    apply list_lookup_insert_Some in Hq as [(<-&[= ->]&_)|[Hne Hq]].
    + rewrite decide_True by done. by eexists.
    + destruct (sh_head _ S _ _ Hq) as (d & Hd & Hf & Ho & Hp).
      rewrite !decide_False; [by exists d| |intros ->; congruence].
      intros Hhq. destruct (head_spec q Hhq) as (dh & Hdh & _ & Ho' & _). congruence.
  - intros q r [Hq|[-> ->]]%ins_blk; [by apply (sh_placed _ S)|done].
  - intros q r q' r' [Hq|[-> ->]]%ins_blk [Hq'|[-> ->]]%ins_blk Hne; try done.
    + by apply (sh_apart _ S).
    + by apply Hap.
    + destruct (Hap _ _ Hq'); [by right|by left].
  - simpl. intros q d Hq Hf Hp.
    destruct (ins_cases _ _ Hq Hf) as [[-> ->]|(Hne&d1&Hd1&Hf1&Ho1&_&[(?&?&?)|[Hh1 Hp1]])].
    + simpl. by apply list_lookup_insert_eq.
    + congruence.
    + rewrite Hp in Hp1. pose proof (sh_first _ S _ _ Hd1 Hf1 (eq_sym Hp1)) as Hhd. rewrite Ho1 in Hhd.
      rewrite list_lookup_insert_ne; [done|]. intros ->. congruence.
  - simpl. intros q d q' Hq Hf Hp.
    destruct (ins_cases _ _ Hq Hf) as [[-> ->]|(Hne&d1&Hd1&Hf1&Ho1&Hn1&[(Hh1&Hp1&Ho)|[Hh1 Hp1]])].
    + done.
    + rewrite Hp in Hp1. injection Hp1 as ->. rewrite ins_lookup, decide_True by done.
      eexists. split; [done|]. simpl. done.
    + rewrite Hp in Hp1. destruct (sh_prev _ S _ _ _ Hd1 Hf1 (eq_sym Hp1)) as (dq & Hdq & Hfq & Hoq & Hnq).
      rewrite ins_lookup, decide_False by (intros ->; congruence).
      case_decide; rewrite Hdq; simpl; eexists; (split; [done|]); simpl; split_and!; congruence.
  - simpl. intros q d q' Hq Hf Hn.
    destruct (ins_cases _ _ Hq Hf) as [[-> ->]|(Hne&d1&Hd1&Hf1&Ho1&Hn1&_)].
    + simpl in Hn. destruct (head_spec q' Hn) as (dh & Hdh & Hfh & Hoh & _ & Hneh).
      rewrite ins_lookup, decide_False, decide_True, Hdh by done. simpl. by eexists.
    + rewrite Hn in Hn1. destruct (sh_next _ S _ _ _ Hd1 Hf1 Hn1) as (dq & Hdq & Hfq & Hoq & Hpq).
      rewrite ins_lookup, decide_False by (intros ->; congruence).
      rewrite decide_False; [exists dq; split_and!; congruence|].
      intros Hhq. destruct (head_spec _ Hhq) as (dh & Hdh & _ & _ & Hph & _). congruence.
  - destruct (sh_rank _ S) as [rank Hr].
    exists (λ x, if decide (x = p) then 0 else Datatypes.S (rank x)). intros q d q' Hq Hf Hp. simpl in Hq.
    destruct (ins_cases _ _ Hq Hf) as [[-> ->]|(Hne&d1&Hd1&Hf1&Ho1&Hn1&[(Hh1&Hp1&Ho)|[Hh1 Hp1]])].
    + done.
    + rewrite Hp in Hp1. injection Hp1 as ->. rewrite decide_True, decide_False by done. lia.
    + rewrite Hp in Hp1. pose proof (Hr _ _ _ Hd1 Hf1 (eq_sym Hp1)) as Hlt.
      rewrite (decide_False (P:=q = p)) by done. case_decide; lia.
Qed.
End insert.

(** [insert] adds one free block to a place no free block meets. *)
Lemma insert_spec b p o :
  shape b → placed b p o → (∀ q r, blk b q r → apart q r p o) →
  ∃ b', insert p o b = (Ok (), b') ∧ shape b' ∧
    (∀ q r, blk b' q r ↔ blk b q r ∨ q = p ∧ r = o) ∧
    total_free b' = (total_free b + 2 ^ Z.of_nat o)%Z ∧ keeps b b' p.
Proof.
  intros S Hpl Hap. destruct (placed_lookup _ _ _ S Hpl) as [d0 Hd0].
  destruct (lookup_lt_is_Some_2 (heads b) o) as [h Hh].
  { rewrite (sh_heads _ S). destruct Hpl. lia. }
  exists (ins_state b p o h). split; [by eapply insert_run|].
  split; [by eapply ins_shape|]. split; [intros; by eapply ins_blk|].
  split; [by eapply ins_total|by eapply ins_keeps].
Qed.

Section unlink.
Context (b : Buddy) (p : nat) (d : FrameDesc).
Context (S : shape b) (Hd : desc b !! p = Some d) (Hf : free d = true).

Lemma prev_ne q : prev d = Some q → q ≠ p.
Proof.
  intros Hp ->. destruct (sh_rank _ S) as [rank Hr]. pose proof (Hr _ _ _ Hd Hf Hp). lia.
Qed.
Lemma next_ne q : next d = Some q → q ≠ p.
Proof.
  intros Hn ->. destruct (sh_next _ S _ _ _ Hd Hf Hn) as (dq & Hdq & _ & _ & Hp). simplify_eq.
  by apply (prev_ne p).
Qed.
Lemma prev_next_ne q : prev d = Some q → next d ≠ Some q.
Proof.
  intros Hp Hn. destruct (sh_rank _ S) as [rank Hr]. pose proof (Hr _ _ _ Hd Hf Hp).
  destruct (sh_next _ S _ _ _ Hd Hf Hn) as (dq & Hdq & Hfq & _ & Hpq).
  pose proof (Hr _ _ _ Hdq Hfq Hpq). lia.
Qed.

(** What becomes of the descriptor of [q]. *)
Definition unl_at (q : nat) (dq : FrameDesc) : FrameDesc :=
  if decide (q = p) then with_free dq false else
  if decide (prev d = Some q) then with_next dq (next d) else
  if decide (next d = Some q) then with_prev dq (prev d) else dq.

Definition unl_heads : list (option nat) :=
  match prev d with None => <[order d:=next d]> (heads b) | Some _ => heads b end.

Ltac unl_lookup x :=
  repeat match goal with
  | |- context [<[?i:=_]> _ !! x] =>
      destruct (decide (x = i)) as [->|];
      [rewrite list_lookup_insert_eq by (rewrite ?length_insert; done)
      |rewrite (list_lookup_insert_ne _ i x) by done]
  end;
  rewrite ?Hd; repeat match goal with H : desc b !! _ = Some _ |- _ => rewrite H end;
  simpl; repeat case_decide; simplify_eq; try done; try (by destruct (desc b !! x)).

Lemma unlink_run :
  ∃ b', unlink p (order d) b = (Ok (), b') ∧ heads b' = unl_heads ∧ nframes b' = nframes b ∧
    free_frames b' = free_frames b ∧ length (desc b') = length (desc b) ∧
    ∀ q, desc b' !! q = unl_at q <$> desc b !! q.
Proof.
  pose proof (lookup_lt_Some _ _ _ Hd) as Hlt.
  pose proof prev_ne as Hpn. pose proof next_ne as Hnn. pose proof prev_next_ne as Hpnn.
  assert (order d < length (heads b)) as Hol.
  { rewrite (sh_heads _ S). destruct (sh_placed _ S p (order d)) as [? _]; [by exists d|lia]. }
  unfold unlink, mbind, M_bind, mret, M_ret. rewrite (get_desc_eq _ _ _ Hd). unfold unl_heads, unl_at.
  destruct (prev d) as [q|] eqn:Hp.
  - destruct (sh_prev _ S _ _ _ Hd Hf Hp) as (dq & Hdq & _). pose proof (lookup_lt_Some _ _ _ Hdq).
    rewrite (get_desc_eq _ _ _ Hdq), set_desc_eq by done. specialize (Hpn q eq_refl).
    destruct (next d) as [n|] eqn:Hn.
    + destruct (sh_next _ S _ _ _ Hd Hf Hn) as (dn & Hdn & _). pose proof (lookup_lt_Some _ _ _ Hdn).
      specialize (Hnn n eq_refl). assert (q ≠ n) by (intros ->; by apply (Hpnn n)).
      rewrite (get_desc_eq _ n dn) by (simpl; by rewrite list_lookup_insert_ne).
      rewrite set_desc_eq by (simpl; by rewrite length_insert).
      rewrite (get_desc_eq _ p d) by (simpl; by rewrite !list_lookup_insert_ne).
      rewrite set_desc_eq by (simpl; by rewrite !length_insert).
      eexists. split; [reflexivity|]. simpl. rewrite !length_insert. split_and!; try done.
      intros x. unl_lookup x.
    + rewrite (get_desc_eq _ p d) by (simpl; by rewrite !list_lookup_insert_ne).
      rewrite set_desc_eq by (simpl; by rewrite !length_insert).
      eexists. split; [reflexivity|]. simpl. rewrite !length_insert. split_and!; try done.
      intros x. unl_lookup x.
  - rewrite set_head_eq by done. destruct (next d) as [n|] eqn:Hn.
    + destruct (sh_next _ S _ _ _ Hd Hf Hn) as (dn & Hdn & _). pose proof (lookup_lt_Some _ _ _ Hdn).
      specialize (Hnn n eq_refl). rewrite (get_desc_eq _ n dn) by done.
      rewrite set_desc_eq by done.
      rewrite (get_desc_eq _ p d) by (simpl; by rewrite !list_lookup_insert_ne).
      rewrite set_desc_eq by (simpl; by rewrite !length_insert).
      eexists. split; [reflexivity|]. simpl. rewrite !length_insert. split_and!; try done.
      intros x. unl_lookup x.
    + rewrite (get_desc_eq _ p d) by done. rewrite set_desc_eq by done.
      eexists. split; [reflexivity|]. simpl. rewrite !length_insert. split_and!; try done.
      intros x. unl_lookup x.
Qed.

Section after.
Context (b' : Buddy) (Hh' : heads b' = unl_heads) (Hn' : nframes b' = nframes b).
Context (Hl' : length (desc b') = length (desc b)).
Context (Hd' : ∀ q, desc b' !! q = unl_at q <$> desc b !! q).

Lemma unl_cases q e : desc b' !! q = Some e → free e = true →
  q ≠ p ∧ ∃ d1, desc b !! q = Some d1 ∧ free d1 = true ∧ order d1 = order e ∧
    next e = (if decide (prev d = Some q) then next d else next d1) ∧
    prev e = (if decide (next d = Some q) then prev d else prev d1).
Proof.
  rewrite Hd'. intros (d1 & Hd1 & ->)%fmap_Some He. unfold unl_at in *.
  pose proof (prev_next_ne q) as Hpn.
  case_decide; [done|]. split; [done|]. exists d1.
  repeat case_decide; simpl in *; split_and!; try done; naive_solver.
Qed.

(** A free neighbour other than [p] is still there. *)
Lemma unl_free q d1 : desc b !! q = Some d1 → free d1 = true → q ≠ p →
  ∃ e, desc b' !! q = Some e ∧ free e = true ∧ order e = order d1 ∧
    next e = (if decide (prev d = Some q) then next d else next d1) ∧
    prev e = (if decide (next d = Some q) then prev d else prev d1).
Proof.
  intros Hd1 Hf1 Hne. rewrite Hd', Hd1. simpl. eexists. split; [done|]. unfold unl_at.
  pose proof (prev_next_ne q) as Hpn.
  rewrite decide_False by done. repeat case_decide; simpl in *; split_and!; try done; naive_solver.
Qed.

Lemma unl_blk q r : blk b' q r ↔ blk b q r ∧ q ≠ p.
Proof.
  split.
  - intros (e & He & Hfe & Ho). destruct (unl_cases _ _ He Hfe) as (?&d1&?&?&?&_).
    split; [|done]. exists d1. split_and!; congruence.
  - intros [(d1 & Hd1 & Hf1 & Ho) Hne]. destruct (unl_free _ _ Hd1 Hf1 Hne) as (e&?&?&?&_).
    exists e. split_and!; congruence.
Qed.

(** Who points at [p]. *)
Lemma unl_prev_of q d1 : desc b !! q = Some d1 → free d1 = true → prev d1 = Some p → next d = Some q.
Proof.
  intros Hd1 Hf1 Hp1. destruct (sh_prev _ S _ _ _ Hd1 Hf1 Hp1) as (dp & Hdp & _ & _ & Hn).
  by simplify_eq.
Qed.
Lemma unl_next_of q d1 : desc b !! q = Some d1 → free d1 = true → next d1 = Some p → prev d = Some q.
Proof.
  intros Hd1 Hf1 Hp1. destruct (sh_next _ S _ _ _ Hd1 Hf1 Hp1) as (dp & Hdp & _ & _ & Hn).
  by simplify_eq.
Qed.

Lemma unl_head o q : heads b' !! o = Some (Some q) →
  ∃ e, desc b' !! q = Some e ∧ free e = true ∧ order e = o ∧ prev e = None.
Proof.
  rewrite Hh'. unfold unl_heads. intros Hq.
  assert (heads b !! o = Some (Some q) → q ≠ p →
    ∃ e, desc b' !! q = Some e ∧ free e = true ∧ order e = o ∧ prev e = None) as Hold.
  { intros Ho Hne. destruct (sh_head _ S _ _ Ho) as (d1 & Hd1 & Hf1 & Ho1 & Hp1).
    destruct (unl_free _ _ Hd1 Hf1 Hne) as (e & He & Hfe & Hoe & _ & Hpe).
    exists e. split_and!; try done; [congruence|]. rewrite Hpe. case_decide; [|done].
    destruct (sh_next _ S _ _ _ Hd Hf H) as (? & ? & _ & _ & ?). congruence. }
  destruct (prev d) as [x|] eqn:Hp.
  - apply Hold; [done|]. intros ->. destruct (sh_head _ S _ _ Hq) as (d1 & Hd1 & _ & _ & Hp1).
    by simplify_eq.
  - apply list_lookup_insert_Some in Hq as [(<-&Hn&_)|[Hne Hq]].
    + destruct (sh_next _ S _ _ _ Hd Hf Hn) as (d1 & Hd1 & Hf1 & Ho1 & Hp1).
      destruct (unl_free _ _ Hd1 Hf1) as (e & He & Hfe & Hoe & _ & Hpe); [by apply next_ne|].
      exists e. split_and!; try done; [congruence|]. rewrite Hpe. by rewrite decide_True.
    + apply Hold; [done|]. intros ->. destruct (sh_head _ S _ _ Hq) as (d1 & Hd1 & _ & ? & _).
      simplify_eq.
Qed.

Lemma unl_first q e : desc b' !! q = Some e → free e = true → prev e = None →
  heads b' !! order e = Some (Some q).
Proof.
  intros He Hfe Hpe. destruct (unl_cases _ _ He Hfe) as (Hne&d1&Hd1&Hf1&Ho1&_&Hp1).
  rewrite Hpe in Hp1. rewrite Hh'. unfold unl_heads.
  assert (order d < length (heads b)) as Hol.
  { rewrite (sh_heads _ S). destruct (sh_placed _ S p (order d)) as [? _]; [by exists d|lia]. }
  case_decide as Hn.
  - rewrite <- Hp1. destruct (sh_next _ S _ _ _ Hd Hf Hn) as (d2 & Hd2 & _ & Ho2 & _). simplify_eq.
    rewrite <- Ho1, Ho2, Hn. by apply list_lookup_insert_eq.
  - pose proof (sh_first _ S _ _ Hd1 Hf1 (eq_sym Hp1)) as Hhd. rewrite <- Ho1.
    destruct (prev d) eqn:Hp; [done|].
    rewrite list_lookup_insert_ne; [done|]. intros Ho. rewrite <- Ho in Hhd.
    pose proof (sh_first _ S _ _ Hd Hf Hp) as Hhp. congruence.
Qed.

Lemma unl_prev q e x : desc b' !! q = Some e → free e = true → prev e = Some x →
  ∃ ex, desc b' !! x = Some ex ∧ free ex = true ∧ order ex = order e ∧ next ex = Some q.
Proof.
  intros He Hfe Hpe. destruct (unl_cases _ _ He Hfe) as (Hne&d1&Hd1&Hf1&Ho1&_&Hp1).
  rewrite Hpe in Hp1. case_decide as Hn.
  - symmetry in Hp1. destruct (sh_prev _ S _ _ _ Hd Hf Hp1) as (dx & Hdx & Hfx & Hox & _).
    destruct (unl_free _ _ Hdx Hfx (prev_ne _ Hp1)) as (ex & Hex & Hfex & Hoex & Hnex & _).
    destruct (sh_next _ S _ _ _ Hd Hf Hn) as (d2 & Hd2 & _ & Ho2 & _). simplify_eq.
    exists ex. split_and!; try done; [congruence|]. rewrite Hnex. by rewrite decide_True.
  - symmetry in Hp1. destruct (sh_prev _ S _ _ _ Hd1 Hf1 Hp1) as (dx & Hdx & Hfx & Hox & Hnx).
    assert (x ≠ p) as Hxp by (intros ->; apply Hn; by eapply unl_prev_of).
    destruct (unl_free _ _ Hdx Hfx Hxp) as (ex & Hex & Hfex & Hoex & Hnex & _).
    exists ex. split_and!; try done; [congruence|]. rewrite Hnex. rewrite decide_False; [done|].
    intros Hp. destruct (sh_prev _ S _ _ _ Hd Hf Hp) as (dx' & ? & _ & _ & ?). congruence.
Qed.

Lemma unl_next q e x : desc b' !! q = Some e → free e = true → next e = Some x →
  ∃ ex, desc b' !! x = Some ex ∧ free ex = true ∧ order ex = order e ∧ prev ex = Some q.
Proof.
  intros He Hfe Hpe. destruct (unl_cases _ _ He Hfe) as (Hne&d1&Hd1&Hf1&Ho1&Hp1&_).
  rewrite Hpe in Hp1. case_decide as Hn.
  - symmetry in Hp1. destruct (sh_next _ S _ _ _ Hd Hf Hp1) as (dx & Hdx & Hfx & Hox & _).
    destruct (unl_free _ _ Hdx Hfx (next_ne _ Hp1)) as (ex & Hex & Hfex & Hoex & _ & Hnex).
    destruct (sh_prev _ S _ _ _ Hd Hf Hn) as (d2 & Hd2 & _ & Ho2 & _). simplify_eq.
    exists ex. split_and!; try done; [congruence|]. rewrite Hnex. by rewrite decide_True.
  - symmetry in Hp1. destruct (sh_next _ S _ _ _ Hd1 Hf1 Hp1) as (dx & Hdx & Hfx & Hox & Hnx).
    assert (x ≠ p) as Hxp by (intros ->; apply Hn; by eapply unl_next_of).
    destruct (unl_free _ _ Hdx Hfx Hxp) as (ex & Hex & Hfex & Hoex & _ & Hnex).
    exists ex. split_and!; try done; [congruence|]. rewrite Hnex. rewrite decide_False; [done|].
    intros Hp. destruct (sh_next _ S _ _ _ Hd Hf Hp) as (dx' & ? & _ & _ & ?). congruence.
Qed.

Lemma unl_shape : shape b'.
Proof.
  split.
  - rewrite Hl', Hn'. apply S.
  - rewrite Hh'. unfold unl_heads. case_match; rewrite ?length_insert; apply S.
  - apply unl_head.
  - intros q r [Hq _]%unl_blk. unfold placed. rewrite Hn'. by apply (sh_placed _ S).
  - intros q r q' r' [Hq _]%unl_blk [Hq' _]%unl_blk. by apply (sh_apart _ S).
  - apply unl_first.
  - apply unl_prev.
  - apply unl_next.
  - destruct (sh_rank _ S) as [rank Hr]. exists rank. intros q e x He Hfe Hpe.
    destruct (unl_cases _ _ He Hfe) as (Hne&d1&Hd1&Hf1&Ho1&_&Hp1). rewrite Hpe in Hp1.
    case_decide as Hn; [|by eapply Hr]. pose proof (Hr _ _ _ Hd Hf (eq_sym Hp1)).
    destruct (sh_next _ S _ _ _ Hd Hf Hn) as (d2 & Hd2 & Hf2 & _ & Hp2).
    pose proof (Hr _ _ _ Hd2 Hf2 Hp2). lia.
Qed.

Lemma unl_total : total_free b' = (total_free b - 2 ^ Z.of_nat (order d))%Z.
Proof.
  unfold total_free.
  rewrite (sumZ_ext desc_frames (desc b') (<[p:=with_free d false]> (desc b))).
  - rewrite (sumZ_insert _ _ _ _ _ Hd). unfold desc_frames at 2 3. rewrite Hf. simpl. lia.
  - intros q. rewrite Hd'. destruct (decide (q = p)) as [->|Hne].
    + rewrite Hd, list_lookup_insert_eq by (by eapply lookup_lt_Some). simpl. f_equal.
      unfold unl_at. by rewrite decide_True.
    + rewrite list_lookup_insert_ne by done. destruct (desc b !! q) as [dq|]; [|done]. simpl.
      f_equal. unfold unl_at. rewrite decide_False by done. by repeat case_decide.
Qed.

Lemma unl_keeps q dq : desc b !! q = Some dq → free dq = false → desc b' !! q = Some dq.
Proof.
  intros Hq Hfq. rewrite Hd', Hq. simpl. f_equal. unfold unl_at.
  rewrite decide_False by (intros ->; congruence).
  rewrite decide_False. 2:{ intros Hp. destruct (sh_prev _ S _ _ _ Hd Hf Hp) as (?&?&?&_). congruence. }
  rewrite decide_False; [done|]. intros Hp.
  destruct (sh_next _ S _ _ _ Hd Hf Hp) as (?&?&?&_). congruence.
Qed.
End after.
End unlink.

(** [unlink] removes one free block. *)
Lemma unlink_spec b p o :
  shape b → blk b p o →
  ∃ b' d', unlink p o b = (Ok (), b') ∧ shape b' ∧
    (∀ q r, blk b' q r ↔ blk b q r ∧ q ≠ p) ∧
    total_free b' = (total_free b - 2 ^ Z.of_nat o)%Z ∧ keeps b b' p ∧
    desc b' !! p = Some d' ∧ free d' = false.
Proof.
  intros S (d & Hd & Hf & <-).
  destruct (unlink_run b p d S Hd Hf) as (b' & Hr & Hh & Hn & Hff & Hl & Hl').
  exists b', (with_free d false). split; [done|]. split; [by eapply unl_shape|].
  split; [intros q r; eapply (unl_blk b p d); eassumption|].
  split; [eapply (unl_total b p d); eassumption|].
  split; [split_and!; try done; intros q dq Hq Hfq _; eapply (unl_keeps b p d); eassumption|].
  rewrite Hl', Hd. simpl. unfold unl_at. by rewrite decide_True.
Qed.
