(* ===== verification/BuddyProps.v ===== *)
(** * The allocator hands out disjoint blocks

    [binv b A] adds to the shape of the free lists the blocks [A] the clients
    hold: they are placed, remembered in their descriptor, and disjoint from each
    other and from every free block; [free_frames] counts the free frames.  The
    operations are described by their effect on [A] and on the set of free frames
    ([covered]), the specification of a frame allocator. *)

From S2P Require Import Prelude Buddy BuddyInv.
Import Buddy.

Record binv (b : Buddy) (A : list (nat * nat)) : Prop := {
  bi_shape : shape b;
  bi_count : Z.of_nat (free_frames b) = total_free b;
  bi_alloc p o : (p, o) ∈ A →
    placed b p o ∧ ∃ d, desc b !! p = Some d ∧ free d = false ∧ order d = o;
  bi_apart p o q r : (p, o) ∈ A → blk b q r → apart q r p o;
  bi_pairs i j p o q r : A !! i = Some (p, o) → A !! j = Some (q, r) → i ≠ j → apart p o q r
}.

(** ** Free frames fit in the array *)

Lemma pow2_Z o : (2 ^ Z.of_nat o)%Z = Z.of_nat (2 ^ o).
Proof. by rewrite Nat2Z.inj_pow. Qed.

Lemma sumZ_drop_zeros {A} (f : A → Z) (l : list A) k m :
  (∀ j x, k ≤ j < k + m → l !! j = Some x → f x = 0%Z) → sumZ f (drop k l) = sumZ f (drop (k + m) l).
Proof.
  revert k. induction m as [|m IH]; intros k H; [by rewrite Nat.add_0_r|].
  destruct (l !! k) as [x|] eqn:Hx.
  - rewrite (drop_S _ _ _ Hx). simpl. rewrite (H k x) by (done || lia).
    rewrite (IH (S k)); [|intros j y Hj; apply H; lia]. by replace (S k + m) with (k + S m) by lia.
  - apply lookup_ge_None_1 in Hx. rewrite !drop_ge by lia. done.
Qed.

Lemma desc_frames_Z d : free d = true → desc_frames d = Z.of_nat (2 ^ order d).
Proof. intros H. unfold desc_frames. rewrite H. by rewrite Nat2Z.inj_pow. Qed.

Lemma total_free_drop b k :
  shape b → k ≤ nframes b → (sumZ desc_frames (drop k (desc b)) <= Z.of_nat (nframes b - k))%Z.
Proof.
  intros S. remember (nframes b - k) as m eqn:Hm. revert k Hm.
  induction (lt_wf m) as [m _ IH]. intros k -> Hk.
  destruct (desc b !! k) as [d|] eqn:Hd.
  2:{ apply lookup_ge_None_1 in Hd. rewrite drop_ge by done. simpl. lia. }
  assert (k < nframes b) as Hlt by (rewrite <- (proj1 (sh_len _ S)); by eapply lookup_lt_Some).
  rewrite (drop_S _ _ _ Hd). simpl. destruct (free d) eqn:Hf.
  - assert (blk b k (order d)) as Hb by (by exists d).
    destruct (sh_placed _ S _ _ Hb) as (_ & _ & Hend). pose proof (pow2_pos (order d)) as Hp.
    rewrite desc_frames_Z by done.
    rewrite (sumZ_drop_zeros _ _ (Datatypes.S k) (2 ^ order d - 1)).
    + replace (Datatypes.S k + (2 ^ order d - 1)) with (k + 2 ^ order d) by lia.
      pose proof (IH (nframes b - (k + 2 ^ order d)) ltac:(lia) (k + 2 ^ order d) eq_refl ltac:(lia)). lia.
    + intros j x Hj Hx. unfold desc_frames. destruct (free x) eqn:Hfx; [|done]. exfalso.
      destruct (sh_apart _ S k (order d) j (order x)) as [Ha|Ha]; [done|by exists x|lia|lia|].
      pose proof (pow2_pos (order x)). lia.
  - unfold desc_frames at 1. rewrite Hf.
    pose proof (IH (nframes b - Datatypes.S k) ltac:(lia) (Datatypes.S k) eq_refl ltac:(lia)). lia.
Qed.

Lemma total_free_bound b : shape b → (total_free b <= Z.of_nat (nframes b))%Z.
Proof.
  intros S. pose proof (total_free_drop b 0 S ltac:(lia)) as H. rewrite drop_0, Nat.sub_0_r in H. done.
Qed.

Lemma total_free_nonneg b : (0 <= total_free b)%Z.
Proof.
  apply sumZ_nonneg. intros d _. unfold desc_frames. case_match; [|done]. apply Z.pow_nonneg. lia.
Qed.

(** A block that no free block meets can be accounted for. *)
Lemma total_free_room b p o :
  shape b → placed b p o → (∀ q r, blk b q r → apart q r p o) →
  in_u 32 (total_free b + Z.of_nat (2 ^ o)).
Proof.
  intros S Hp Ha. destruct (insert_spec b p o S Hp Ha) as (b' & _ & S' & _ & Ht & Hn & _).
  pose proof (total_free_bound b' S') as Hb. rewrite Hn, Ht in Hb. pose proof (total_free_nonneg b).
  destruct (sh_len _ S) as [_ Hl]. rewrite pow2_Z in Hb. unfold in_u. lia.
Qed.

(** Every free block has a head above it. *)
Lemma blk_head b p o : shape b → blk b p o → ∃ q, heads b !! o = Some (Some q).
Proof.
  intros S (d & Hd & Hf & <-). destruct (sh_rank _ S) as [rank Hr].
  remember (rank p) as n eqn:Hn. revert p d Hd Hf Hn.
  induction (lt_wf n) as [n _ IH]. intros p d Hd Hf ->. destruct (prev d) as [q|] eqn:Hp.
  - destruct (sh_prev _ S _ _ _ Hd Hf Hp) as (dq & Hdq & Hfq & Hoq & _). rewrite <- Hoq.
    by eapply (IH (rank q)); [eapply Hr|..].
  - exists p. by apply (sh_first _ S).
Qed.

(** ** The loops *)

Lemma find_order_spec b fuel o :
  shape b → o ≤ S MAX_ORDER → S MAX_ORDER < fuel + o →
  ∃ o', find_order fuel o b = (Ok o', b) ∧ o ≤ o' ≤ S MAX_ORDER ∧
    (∀ r, o ≤ r < o' → heads b !! r = Some None) ∧
    (o' ≤ MAX_ORDER → ∃ p, heads b !! o' = Some (Some p)).
Proof.
  intros S. revert o. induction fuel as [|fuel IH]; intros o Ho Hf; [lia|].
  cbn [find_order]. destruct (Nat.leb_spec o MAX_ORDER) as [Hle|Hgt].
  2:{ exists o. split; [done|]. split; [lia|]. split; [intros; lia|intros; lia]. }
  destruct (lookup_lt_is_Some_2 (heads b) o) as [h Hh]; [rewrite (sh_heads _ S); lia|].
  unfold mbind, M_bind, mret, M_ret. rewrite (get_head_eq _ _ _ Hh). destruct h as [p|].
  - exists o. split; [done|]. split; [lia|]. split; [intros; lia|eauto].
  - destruct (IH (Datatypes.S o)) as (o' & -> & Hr & Hn & Hs); [lia|lia|].
    exists o'. split; [done|]. split; [lia|]. split; [|done]. intros r Hr'.
    destruct (decide (r = o)) as [->|]; [done|apply Hn; lia].
Qed.

(** Frames whose descriptor no step of an operation touches. *)
Definition steady (b b' : Buddy) (P : nat → Prop) : Prop :=
  ∀ q d, desc b !! q = Some d → free d = false → ¬ covered b q → ¬ P q → desc b' !! q = Some d.

Lemma split_loop_spec b base o ord :
  shape b → ord ≤ o → placed b base o → (∀ q r, blk b q r → apart q r base o) →
  ∃ b', split_loop base o ord b = (Ok (), b') ∧ shape b' ∧
    nframes b' = nframes b ∧ free_frames b' = free_frames b ∧
    (∀ f, covered b' f ↔ covered b f ∨ base + 2 ^ ord ≤ f < base + 2 ^ o) ∧
    (∀ q r, blk b' q r → apart q r base ord) ∧
    (total_free b' + Z.of_nat (2 ^ ord) = total_free b + Z.of_nat (2 ^ o))%Z ∧
    (∀ q d, desc b !! q = Some d → free d = false → ¬ (base < q < base + 2 ^ o) → desc b' !! q = Some d).
Proof.
  revert b. induction o as [|o IH]; intros b S Hle Hpl Hap.
  { exists b. replace ord with 0 by lia. split_and!; try done. intros f. split; [by left|].
    intros [?|?]; [done|lia]. }
  cbn [split_loop]. destruct (Nat.ltb_spec ord (Datatypes.S o)) as [Hlt|Hge].
  2:{ exists b. replace ord with (Datatypes.S o) by lia. split_and!; try done. intros f. split; [by left|].
      intros [?|?]; [done|lia]. }
  destruct Hpl as (Ho & [z Hz] & Hend). pose proof (pow2_pos o) as Hp. rewrite Nat.pow_succ_r' in *.
  destruct (sh_len _ S) as [_ Hn32].
  unfold mbind, M_bind. rewrite shl32_eq by lia. rewrite u32_eq by (unfold in_u; lia).
  replace (Z.to_nat (Z.of_nat base + Z.of_nat (2 ^ o))) with (base + 2 ^ o) by lia.
  destruct (insert_spec b (base + 2 ^ o) o) as (b1 & -> & S1 & Hb1 & Ht1 & Hn1 & Hf1 & Hk1); [done|..].
  { split; [lia|]. split; [|lia]. exists (2 * z + 1). lia. }
  { intros q r Hq. destruct (Hap _ _ Hq) as [H|H]; [left; lia|right]. rewrite Nat.pow_succ_r' in H. lia. }
  destruct (IH b1 S1) as (b' & -> & S' & Hn' & Hf' & Hc' & Ha' & Ht' & Hk'); [lia|..].
  { split; [lia|]. rewrite Hn1. split; [|lia]. exists (2 * z). lia. }
  { intros q r [Hq|[-> ->]]%Hb1; [|by right]. destruct (Hap _ _ Hq) as [H|H]; [by left|right].
    rewrite Nat.pow_succ_r' in H. lia. }
  exists b'. split_and!; try done; try congruence.
  - intros f. rewrite Hc'. unfold covered. setoid_rewrite Hb1.
    assert (2 ^ ord ≤ 2 ^ o) by (apply Nat.pow_le_mono_r; lia). split.
    + intros [(q & r & [Hq|[-> ->]] & Hf)|Hf]; [left; eauto|right; lia|right; lia].
    + intros [(q & r & Hq & Hf)|Hf]; [left; eauto|].
      destruct (decide (f < base + 2 ^ o)); [right; lia|left].
      exists (base + 2 ^ o), o. split; [by right|lia].
  - rewrite pow2_Z in Ht1. lia.
  - intros q d Hq Hfq Hout. apply Hk'; [|done|lia]. apply Hk1; [done..|]. lia.
Qed.

Lemma covered_insert b b' p o :
  (∀ q r, blk b' q r ↔ blk b q r ∨ q = p ∧ r = o) →
  ∀ f, covered b' f ↔ covered b f ∨ p ≤ f < p + 2 ^ o.
Proof.
  intros H f. unfold covered. setoid_rewrite H. split.
  - intros (q & r & [Hq|[-> ->]] & Hf); [left; eauto|by right].
  - intros [(q & r & Hq & Hf)|Hf]; [eauto 10|]. exists p, o. auto.
Qed.

Lemma coalesce_spec b fuel base ord :
  shape b → placed b base ord → MAX_ORDER ≤ fuel + ord → (∀ q r, blk b q r → apart q r base ord) →
  ∃ b', coalesce fuel base ord b = (Ok (), b') ∧ shape b' ∧
    nframes b' = nframes b ∧ free_frames b' = free_frames b ∧
    (∀ f, covered b' f ↔ covered b f ∨ base ≤ f < base + 2 ^ ord) ∧
    (total_free b' = total_free b + Z.of_nat (2 ^ ord))%Z ∧
    steady b b' (λ q, base ≤ q < base + 2 ^ ord).
Proof.
  revert b base ord. induction fuel as [|fuel IH]; intros b base ord S Hpl Hf Hap;
  assert (∃ b', insert base ord b = (Ok (), b') ∧ shape b' ∧
    nframes b' = nframes b ∧ free_frames b' = free_frames b ∧
    (∀ f, covered b' f ↔ covered b f ∨ base ≤ f < base + 2 ^ ord) ∧
    (total_free b' = total_free b + Z.of_nat (2 ^ ord))%Z ∧
    steady b b' (λ q, base ≤ q < base + 2 ^ ord)) as Hins.
  1, 3: destruct (insert_spec b base ord S Hpl Hap) as (b1 & -> & S1 & Hb1 & Ht1 & Hn1 & Hf1 & Hk1);
    exists b1; split_and!; try done;
    [by apply covered_insert
    |rewrite <- pow2_Z; exact Ht1
    |intros q d Hq Hfq _ Hout; apply Hk1; [done..|]; pose proof (pow2_pos ord); lia].
  { cbn [coalesce]. destruct (Nat.ltb_spec ord MAX_ORDER); [lia|done]. }
  cbn [coalesce]. destruct (Nat.ltb_spec ord MAX_ORDER) as [Hlt|]; [|done].
  pose proof Hpl as (Ho & Hdiv & Hend). pose proof (pow2_pos ord) as Hp.
  unfold mbind, M_bind, get. rewrite shl32_eq by done.
  set (buddy := Nat.lxor base (2 ^ ord)).
  destruct (Nat.leb_spec (nframes b) buddy) as [|Hbn]; [done|].
  destruct (lookup_lt_is_Some_2 (desc b) buddy) as [bd Hbd]; [by rewrite (proj1 (sh_len _ S))|].
  rewrite (get_desc_eq _ _ _ Hbd). destruct (free bd) eqn:Hfb; simpl; [|done].
  destruct (Nat.eqb_spec (order bd) ord) as [Hob|]; simpl; [|done]. clear Hins.
  assert (blk b buddy ord) as Hbb by (by exists bd).
  destruct (unlink_spec b buddy ord S Hbb) as (b1 & d1 & -> & S1 & Hb1 & Ht1 & (Hn1 & Hf1 & Hk1) & _).
  pose proof (sh_placed _ S _ _ Hbb) as (_ & _ & Hbend).
  set (nb := if buddy <? base then buddy else base).
  assert (nb = Nat.min base buddy ∧ (2 ^ Datatypes.S ord | nb) ∧
    (base = nb ∧ buddy = nb + 2 ^ ord ∨ buddy = nb ∧ base = nb + 2 ^ ord)) as (Hnb & Hnd & Hnc).
  { subst nb. destruct (buddy_half base ord Hdiv) as [[H1 H2]|[H1 H2]]; fold buddy in H1, H2;
      destruct (Nat.ltb_spec buddy base); split_and!; try done; try lia; auto. }
  destruct (IH b1 nb (Datatypes.S ord)) as (b' & -> & S' & Hn' & Hf' & Hc' & Ht' & Hk').
  { done. }
  { split; [lia|]. split; [done|]. rewrite Hn1, Nat.pow_succ_r'. lia. }
  { lia. }
  { intros q r [Hq Hqb]%Hb1. pose proof (Hap _ _ Hq) as H1.
    pose proof (sh_apart _ S _ _ _ _ Hq Hbb Hqb) as H2. pose proof (pow2_pos r).
    unfold apart in *. rewrite Nat.pow_succ_r'. lia. }
  exists b'. rewrite Nat.pow_succ_r' in *. split_and!; try done; try congruence.
  - intros f. rewrite Hc'. unfold covered. setoid_rewrite Hb1. split.
    + intros [(q & r & [Hq _] & Hfq)|Hfq]; [left; eauto|].
      destruct (decide (buddy ≤ f < buddy + 2 ^ ord)); [left; exists buddy, ord; auto|right; lia].
    + intros [(q & r & Hq & Hfq)|Hfq]; [|right; lia].
      destruct (decide (q = buddy)) as [->|Hne]; [|left; eauto 10]. right.
      destruct Hq as (d & Hd & _ & <-). simplify_eq. lia.
  - rewrite pow2_Z in Ht1. lia.
  - intros q d Hq Hfq Hcov Hout. assert (¬ (buddy ≤ q < buddy + 2 ^ ord)).
    { intros Hq'. apply Hcov. exists buddy, ord. done. }
    apply Hk'; [by apply Hk1; [done..|]; intros ->; congruence|done| |lia].
    intros (x & r & [Hx _]%Hb1 & Hxq). apply Hcov. by exists x, r.
Qed.

(** ** The operations *)

Lemma new_binv ds : (Z.of_nat (length ds) < 2 ^ 32)%Z → binv (new ds) [] ∧ ∀ f, ¬ covered (new ds) f.
Proof.
  intros Hl.
  assert (∀ p d, desc (new ds) !! p = Some d → free d = false) as Hf.
  { intros p d Hd. simpl in Hd. rewrite list_lookup_fmap in Hd.
    apply fmap_Some in Hd as (x & _ & ->). done. }
  assert (∀ p o, ¬ blk (new ds) p o) as Hb.
  { intros p o (d & Hd & Hfd & _). rewrite (Hf _ _ Hd) in Hfd. done. }
  split; [|intros f (p & o & H & _); by apply Hb in H]. split.
  - split.
    + unfold new; simpl nframes; simpl desc. rewrite length_fmap. unfold wrap. rewrite Z.mod_small by lia. lia.
    + done.
    + intros o p Ho. change (replicate (Datatypes.S MAX_ORDER) None !! o = Some (Some p)) in Ho. apply lookup_replicate in Ho as [? _]. done.
    + intros p o H. by apply Hb in H.
    + intros p o q r H. by apply Hb in H.
    + intros p d Hd Hfd. rewrite (Hf _ _ Hd) in Hfd. done.
    + intros p d q Hd Hfd. rewrite (Hf _ _ Hd) in Hfd. done.
    + intros p d q Hd Hfd. rewrite (Hf _ _ Hd) in Hfd. done.
    + exists (λ _, 0). intros p d q Hd Hfd. rewrite (Hf _ _ Hd) in Hfd. done.
  - unfold total_free, new; simpl. symmetry. induction ds as [|x ds IH]; [done|]. simpl in *. apply IH; [lia|..].
    + intros p d Hd. apply (Hf (S p) d Hd).
    + intros p o (d & Hd & H). apply (Hb (S p) o). by exists d.
  - intros p o H. by apply elem_of_nil in H.
  - intros p o q r H. by apply elem_of_nil in H.
  - intros i j p o q r H. done.
Qed.

(** A held block survives whatever leaves its descriptor alone. *)
Lemma held_steady b b' A P p o :
  binv b A → (p, o) ∈ A → nframes b' = nframes b → steady b b' P → ¬ P p →
  placed b' p o ∧ ∃ d, desc b' !! p = Some d ∧ free d = false ∧ order d = o.
Proof.
  intros I Hin Hn Hs HP. destruct (bi_alloc _ _ I _ _ Hin) as [Hpl (d & Hd & Hf & Ho)].
  split; [unfold placed; by rewrite Hn|]. exists d. split; [|done]. apply Hs; try done.
  intros (q & r & Hq & Hpq). pose proof (bi_apart _ _ I _ _ _ _ Hin Hq) as [H|H]; [lia|].
  pose proof (pow2_pos o). lia.
Qed.

(** Blocks of [b'] keep off a block none of whose frames is covered. *)
Lemma apart_uncovered b p o : (∀ f, p ≤ f < p + 2 ^ o → ¬ covered b f) →
  ∀ q r, blk b q r → apart q r p o.
Proof.
  intros H q r Hq. unfold apart. pose proof (pow2_pos o). pose proof (pow2_pos r).
  destruct (decide (q ≤ p)).
  - destruct (decide (q + 2 ^ r ≤ p)); [lia|]. exfalso. apply (H p); [lia|]. exists q, r. split; [done|lia].
  - destruct (decide (p + 2 ^ o ≤ q)); [lia|]. exfalso. apply (H q); [lia|]. exists q, r. split; [done|lia].
Qed.

Lemma apart_covered b p o f : (∀ q r, blk b q r → apart q r p o) → p ≤ f < p + 2 ^ o → ¬ covered b f.
Proof. intros H Hf (q & r & Hq & Hqf). destruct (H _ _ Hq); lia. Qed.

Lemma set_free_frames_shape b n : shape b → shape (mkBuddy (desc b) (heads b) (nframes b) n).
Proof. intros []. by split. Qed.

(** Changing a descriptor that is not free and stays so. *)
Lemma shape_not_free b p d d' :
  shape b → desc b !! p = Some d → free d = false → free d' = false → shape (upd b p d').
Proof.
  intros S Hd Hf Hf'.
  assert (∀ q e, free e = true → desc (upd b p d') !! q = Some e ↔ desc b !! q = Some e) as He.
  { intros q e Hfe. simpl. destruct (decide (q = p)) as [->|].
    - rewrite list_lookup_insert_eq by (by eapply lookup_lt_Some). split; congruence.
    - by rewrite list_lookup_insert_ne. }
  assert (∀ q r, blk (upd b p d') q r ↔ blk b q r) as Hb.
  { intros q r. unfold blk. split; intros (e & Hq & Hfe & ?); exists e; (split; [by apply He|done]). }
  split.
  - simpl. rewrite length_insert. apply S.
  - apply S.
  - intros o q Hq. destruct (sh_head _ S _ _ Hq) as (e & Hqe & Hfe & ?). exists e. split; [by apply He|done].
  - intros q r Hq%Hb. by apply (sh_placed _ S).
  - intros q r q' r' Hq%Hb Hq'%Hb. by apply (sh_apart _ S).
  - intros q e Hq Hfe. apply He in Hq; [|done]. by apply (sh_first _ S).
  - intros q e x Hq Hfe Hp. apply He in Hq; [|done].
    destruct (sh_prev _ S _ _ _ Hq Hfe Hp) as (dx & Hx & Hfx & ?). exists dx. split; [by apply He|done].
  - intros q e x Hq Hfe Hp. apply He in Hq; [|done].
    destruct (sh_next _ S _ _ _ Hq Hfe Hp) as (dx & Hx & Hfx & ?). exists dx. split; [by apply He|done].
  - destruct (sh_rank _ S) as [rank Hr]. exists rank. intros q e x Hq Hfe. apply He in Hq; [|done]. by apply Hr.
Qed.

Lemma blk_not_free b p d d' q r :
  desc b !! p = Some d → free d = false → free d' = false → blk (upd b p d') q r ↔ blk b q r.
Proof.
  intros Hd Hf Hf'. unfold blk. simpl. destruct (decide (q = p)) as [->|].
  - rewrite list_lookup_insert_eq by (by eapply lookup_lt_Some). split; intros (e & He & Hfe & _); congruence.
  - by rewrite list_lookup_insert_ne.
Qed.

(** The last lines of [alloc]: record the order and charge the counter. *)
Definition alloc_state (b : Buddy) (p : nat) (d : FrameDesc) (ord n : nat) : Buddy :=
  mkBuddy (<[p:=with_free (with_order d ord) false]> (desc b)) (heads b) (nframes b) n.

Lemma alloc_run b ord :
  shape b → Z.of_nat (free_frames b) = total_free b →
  match alloc ord b with
  | (Ok (Some p), b') => ∃ b2 d, b' = alloc_state b2 p d ord (free_frames b - 2 ^ ord) ∧
      shape b2 ∧ nframes b2 = nframes b ∧ placed b p ord ∧
      desc b2 !! p = Some d ∧ free d = false ∧ (∀ q r, blk b2 q r → apart q r p ord) ∧
      (∀ f, covered b f ↔ covered b2 f ∨ p ≤ f < p + 2 ^ ord) ∧
      (total_free b2 + Z.of_nat (2 ^ ord) = total_free b)%Z ∧
      (∀ q d, desc b !! q = Some d → free d = false → ¬ covered b q → desc b2 !! q = Some d)
  | (Ok None, b') => b' = b ∧ ∀ p o, blk b p o → o < ord
  | _ => False
  end.
Proof.
  intros S Hc. unfold alloc. destruct (Nat.ltb_spec MAX_ORDER ord) as [Hgt|Hord].
  { split; [done|]. intros p o Hb. destruct (sh_placed _ S _ _ Hb) as [? _]. lia. }
  unfold mbind, M_bind, mret, M_ret, get.
  destruct (find_order_spec b (Datatypes.S (Datatypes.S MAX_ORDER)) ord S) as (o & -> & Hr & Hnone & Hsome); [lia|lia|].
  assert (∀ p r, blk b p r → r < ord ∨ o ≤ r) as Hblk.
  { intros p r Hb. destruct (blk_head _ _ _ S Hb) as [q Hq].
    destruct (decide (r < ord)); [by left|]. destruct (decide (o ≤ r)); [by right|].
    rewrite Hnone in Hq by lia. done. }
  destruct (Nat.ltb_spec MAX_ORDER o) as [Hgt|Hle].
  { split; [done|]. intros p r Hb. destruct (Hblk _ _ Hb); [done|].
    destruct (sh_placed _ S _ _ Hb) as [? _]. lia. }
  destruct (Hsome Hle) as [p Hp]. rewrite (get_head_eq _ _ _ Hp).
  destruct (sh_head _ S _ _ Hp) as (d0 & Hd0 & Hf0 & Ho0 & _).
  assert (blk b p o) as Hb by (by exists d0). pose proof (sh_placed _ S _ _ Hb) as Hpl.
  destruct (unlink_spec b p o S Hb) as (b1 & d1 & -> & S1 & Hb1 & Ht1 & (Hn1 & Hf1 & Hk1) & Hd1 & Hfd1).
  assert (∀ q r, blk b1 q r → apart q r p o) as Hap.
  { intros q r [Hq Hne]%Hb1. by apply (sh_apart _ S). }
  destruct (split_loop_spec b1 p o ord S1) as (b2 & -> & S2 & Hn2 & Hf2 & Hc2 & Ha2 & Ht2 & Hk2); [lia|..].
  { unfold placed. by rewrite Hn1. }
  { done. }
  assert (desc b2 !! p = Some d1) as Hd2 by (apply Hk2; [done|done|lia]).
  pose proof (lookup_lt_Some _ _ _ Hd2) as Hlt.
  rewrite (get_desc_eq _ _ _ Hd2), set_desc_eq by done.
  rewrite (get_desc_eq _ p (with_order d1 ord)) by (simpl; by apply list_lookup_insert_eq).
  rewrite set_desc_eq by (simpl; by rewrite length_insert). rewrite shl32_eq by done. simpl.
  rewrite pow2_Z in Ht1. pose proof (total_free_nonneg b2). pose proof (pow2_pos ord).
  destruct (sh_len _ S) as [_ Hlen]. pose proof (total_free_bound b S).
  rewrite Hf2, Hf1, u32_eq by (unfold in_u; lia).
  assert (covered b p) as Hcp by (exists p, o; split; [done|]; pose proof (pow2_pos o); lia).
  assert (2 ^ ord ≤ 2 ^ o) as Hpow by (apply Nat.pow_le_mono_r; lia).
  exists b2, d1. split.
  { unfold set_free_frames, alloc_state, upd. simpl. rewrite list_insert_insert_eq. do 2 f_equal. lia. }
  split_and!; try done; try congruence; try lia.
  - destruct Hpl as (? & [z Hz] & ?). split; [lia|]. split; [|lia].
    exists (z * 2 ^ (o - ord)). rewrite <- Nat.mul_assoc, <- Nat.pow_add_r. by replace (o - ord + ord) with o by lia.
  - intros f. rewrite Hc2. unfold covered. setoid_rewrite Hb1. split.
    + intros (q & r & Hq & Hf). destruct (decide (q = p)) as [->|Hne]; [|left; left; eauto 10].
      destruct Hq as (d & ? & _ & <-). simplify_eq. destruct (decide (f < p + 2 ^ ord)); [right; lia|].
      left. right. lia.
    + intros [[(q & r & [Hq _] & Hf)|Hf]|Hf]; [eauto| |]; (exists p, o; split; [done|lia]).
  - intros q d Hq Hf Hcov. apply Hk2; [apply Hk1; [done..|by intros ->]|done|].
    intros Hin. apply Hcov. exists p, o. split; [done|lia].
Qed.

Lemma alloc_spec b A ord :
  binv b A →
  match alloc ord b with
  | (Ok (Some p), b') =>
      binv b' ((p, ord) :: A) ∧ nframes b' = nframes b ∧
      (∀ f, covered b f ↔ covered b' f ∨ p ≤ f < p + 2 ^ ord) ∧
      (∀ f, p ≤ f < p + 2 ^ ord → ¬ covered b' f) ∧ free_frames b = free_frames b' + 2 ^ ord
  | (Ok None, b') => b' = b ∧ ∀ p o, blk b p o → o < ord
  | _ => False
  end.
Proof.
  intros I. pose proof (alloc_run b ord (bi_shape _ _ I) (bi_count _ _ I)) as R.
  destruct (alloc ord b) as [[[p|]| |] b']; [|done..].
  destruct R as (b2 & d & -> & S2 & Hn2 & Hpl & Hd & Hfd & Ha2 & Hc2 & Ht2 & Hk2).
  set (d' := with_free (with_order d ord) false). set (b' := alloc_state b2 p d ord _).
  assert (shape b') as S'.
  { apply (set_free_frames_shape (upd b2 p d')). by apply (shape_not_free _ _ d). }
  assert (∀ q r, blk b' q r ↔ blk b2 q r) as Hb' by (intros; by apply (blk_not_free b2 p d d')).
  assert (∀ f, covered b' f ↔ covered b2 f) as Hc'.
  { intros f. unfold covered. by setoid_rewrite Hb'. }
  assert (∀ f, p ≤ f < p + 2 ^ ord → ¬ covered b' f) as Hnc.
  { intros f Hf. rewrite Hc'. by eapply apart_covered. }
  assert (nframes b' = nframes b) as Hn' by done.
  assert (∀ q o, (q, o) ∈ A → apart p ord q o) as HpA.
  { intros q o Hin. pose proof (pow2_pos o) as Hpo. pose proof (pow2_pos ord).
    assert (∀ f, q ≤ f < q + 2 ^ o → ¬ covered b f) as Hq.
    { intros f. apply apart_covered. intros x r Hx. by apply (bi_apart _ _ I). }
    destruct (decide (p + 2 ^ ord ≤ q)); [by left|]. destruct (decide (q + 2 ^ o ≤ p)); [by right|].
    exfalso. destruct (decide (q ≤ p)).
    - apply (Hq p); [lia|]. apply Hc2. right. lia.
    - apply (Hq q); [lia|]. apply Hc2. right. lia. }
  assert (steady b b' (λ q, q = p)) as Hst.
  { intros q e Hq Hf Hcov Hne. simpl. rewrite list_lookup_insert_ne by done. by apply Hk2. }
  assert (free_frames b = free_frames b' + 2 ^ ord) as Hff.
  { simpl. pose proof (bi_count _ _ I). pose proof (total_free_nonneg b2). lia. }
  split; [|split; [done|split; [intros f; rewrite Hc'; apply Hc2|done]]]. split.
  - done.
  - assert (total_free b' = total_free b2) as ->.
    { unfold total_free. simpl. rewrite (sumZ_insert _ _ _ _ d) by done.
      unfold desc_frames at 2 3. rewrite Hfd. simpl. lia. }
    simpl. pose proof (bi_count _ _ I). pose proof (total_free_nonneg b2). lia.
  - intros q o [[= -> ->]|Hin]%elem_of_cons.
    + split; [unfold placed; by rewrite Hn'|]. exists d'. split; [|done]. simpl.
      apply list_lookup_insert_eq. by eapply lookup_lt_Some.
    + eapply (held_steady b b'); try done. intros ->. destruct (HpA p o Hin) as [H|H].
      * pose proof (pow2_pos ord). lia.
      * pose proof (pow2_pos o). lia.
  - intros q o x r [[= -> ->]|Hin]%elem_of_cons Hx; [by apply Ha2, Hb'|].
    revert x r Hx. apply apart_uncovered. intros f Hf Hcf.
    assert (covered b f) as Hcb by (apply Hc2; left; by apply Hc').
    revert Hcb. apply apart_covered with (p:=q) (o:=o); [|done]. intros x r Hx. by apply (bi_apart _ _ I).
  - intros [|i] [|j] q o x r Hi Hj Hne; simplify_eq/=; try done.
    + apply HpA. by eapply list_elem_of_lookup_2.
    + destruct (HpA q o); [by eapply list_elem_of_lookup_2|by right|by left].
    + eapply (bi_pairs _ _ I i j); try done. lia.
Qed.

Lemma lookup_delete_skip {A} (l : list A) i j x :
  delete i l !! j = Some x → ∃ k, l !! k = Some x ∧ k ≠ i ∧ k = (if j <? i then j else S j).
Proof.
  intros H. destruct (Nat.ltb_spec j i) as [Hlt|Hge].
  - rewrite list_lookup_delete_lt in H by done. exists j. split_and!; [done|lia|done].
  - rewrite list_lookup_delete_ge in H by done. exists (S j). split_and!; [done|lia|done].
Qed.

Lemma free_spec b A i p o :
  binv b A → A !! i = Some (p, o) →
  ∃ b', free_block p b = (Ok (), b') ∧ binv b' (delete i A) ∧ nframes b' = nframes b ∧
    (∀ f, covered b' f ↔ covered b f ∨ p ≤ f < p + 2 ^ o) ∧ free_frames b' = free_frames b + 2 ^ o.
Proof.
  intros I Hi. pose proof (bi_shape _ _ I) as S. pose proof (bi_count _ _ I) as Hc.
  assert ((p, o) ∈ A) as Hin by (by eapply list_elem_of_lookup_2).
  destruct (bi_alloc _ _ I _ _ Hin) as [Hpl (d & Hd & Hf & Ho)].
  assert (∀ q r, blk b q r → apart q r p o) as Hap by (intros; by apply (bi_apart _ _ I)).
  pose proof (total_free_room b p o S Hpl Hap) as Hroom.
  unfold free_block, mbind, M_bind, get. rewrite (get_desc_eq _ _ _ Hd), Ho.
  rewrite shl32_eq by apply Hpl. rewrite u32_eq by (by rewrite Hc).
  unfold set_free_frames at 1. set (n := Z.to_nat _).
  destruct (coalesce_spec (mkBuddy (desc b) (heads b) (nframes b) n) MAX_ORDER p o)
    as (b' & Hr & S' & Hn' & Hf' & Hc' & Ht' & Hst); [by apply set_free_frames_shape|done|lia|done|].
  exists b'. split; [exact Hr|]. simpl in Hn', Hf'.
  change (covered (mkBuddy (desc b) (heads b) (nframes b) n)) with (covered b) in Hc'.
  change (total_free (mkBuddy (desc b) (heads b) (nframes b) n)) with (total_free b) in Ht'.
  change (steady (mkBuddy (desc b) (heads b) (nframes b) n)) with (steady b) in Hst.
  assert (∀ q r, (q, r) ∈ delete i A → (q, r) ∈ A ∧ apart q r p o) as HA.
  { intros q r [j Hj]%list_elem_of_lookup. apply lookup_delete_skip in Hj as (k & Hk & Hne & _).
    split; [by eapply list_elem_of_lookup_2|]. by eapply (bi_pairs _ _ I k i). }
  assert (free_frames b' = free_frames b + 2 ^ o) as Hff by (rewrite Hf'; unfold n; unfold in_u in Hroom; lia).
  split; [|done]. split.
  - done.
  - rewrite Hf', Ht'. unfold n. unfold in_u in Hroom. lia.
  - intros q r [Hq Hqp]%HA. eapply (held_steady b b'); try done.
    pose proof (pow2_pos r). destruct Hqp; lia.
  - intros q r x y [Hq Hqp]%HA. revert x y. apply apart_uncovered. intros f Hfq [Hcf|Hcf]%Hc'.
    + revert Hcf. apply apart_covered with (p:=q) (o:=r); [|done]. intros x y Hx. by apply (bi_apart _ _ I).
    + destruct Hqp; lia.
  - intros j k q r x y Hj Hk Hne.
    apply lookup_delete_skip in Hj as (j' & Hj & _ & ->). apply lookup_delete_skip in Hk as (k' & Hk & _ & ->).
    eapply (bi_pairs _ _ I); [exact Hj|exact Hk|].
    destruct (Nat.ltb_spec j i), (Nat.ltb_spec k i); lia.
Qed.

(** ** Releasing a run *)

Lemma trailing_zeros_divide fuel x : (2 ^ trailing_zeros_pos fuel x | x).
Proof.
  revert x. induction fuel as [|fuel IH]; intros x; cbn [trailing_zeros_pos]; [apply Nat.divide_1_l|].
  destruct (Nat.odd x) eqn:Ho; [apply Nat.divide_1_l|].
  rewrite Nat.pow_succ_r'. pose proof (Nat.div2_odd x) as Hx. rewrite Ho in Hx. simpl in Hx.
  destruct (IH (Nat.div2 x)) as [z Hz]. exists z. rewrite Hz in Hx at 1. lia.
Qed.

Lemma pow2_divide_le a b x : a ≤ b → (2 ^ b | x) → (2 ^ a | x).
Proof.
  intros Hab [z ->]. exists (z * 2 ^ (b - a)). rewrite <- Nat.mul_assoc, <- Nat.pow_add_r.
  by replace (b - a + a) with b by lia.
Qed.

Lemma run_order_spec base fin :
  base < fin → (Z.of_nat fin < 2 ^ 32)%Z →
  run_order base fin ≤ MAX_ORDER ∧ (2 ^ run_order base fin | base) ∧ base + 2 ^ run_order base fin ≤ fin.
Proof.
  intros Hlt Hfin. unfold run_order. set (al := if base =? 0 then _ else _).
  set (sz := 31 - leading_zeros (fin - base)).
  assert (2 ^ sz ≤ fin - base) as Hsz.
  { unfold sz, leading_zeros. destruct (Nat.eqb_spec (fin - base) 0); [lia|].
    assert (Nat.log2 (fin - base) ≤ 31).
    { assert (Nat.log2 (fin - base) < 32); [|lia]. apply Nat.log2_lt_pow2; [lia|].
      apply Nat2Z.inj_lt. rewrite Nat2Z.inj_pow. change (Z.of_nat 2 ^ Z.of_nat 32)%Z with (2 ^ 32)%Z. lia. }
    replace (31 - (31 - Nat.log2 (fin - base))) with (Nat.log2 (fin - base)) by lia.
    apply Nat.log2_spec. lia. }
  split; [apply Nat.le_min_r|]. split.
  - apply pow2_divide_le with (b:=al); [lia|]. subst al. destruct (Nat.eqb_spec base 0) as [->|Hne].
    + apply Nat.divide_0_r.
    + unfold trailing_zeros. rewrite (proj2 (Nat.eqb_neq base 0)) by done. apply trailing_zeros_divide.
  - assert (2 ^ Nat.min (Nat.min al sz) MAX_ORDER ≤ 2 ^ sz) by (apply Nat.pow_le_mono_r; lia). lia.
Qed.

Lemma add_loop_spec b fuel base fin :
  shape b → Z.of_nat (free_frames b) = total_free b → fin ≤ nframes b → fin ≤ fuel + base → base ≤ fin →
  (∀ f, base ≤ f < fin → ¬ covered b f) →
  ∃ b', add_loop fuel base fin b = (Ok (), b') ∧ shape b' ∧ Z.of_nat (free_frames b') = total_free b' ∧
    nframes b' = nframes b ∧ (∀ f, covered b' f ↔ covered b f ∨ base ≤ f < fin) ∧
    steady b b' (λ q, base ≤ q < fin).
Proof.
  revert b base. induction fuel as [|fuel IH]; intros b base S Hc Hfin Hfuel Hle Hun;
    cbn [add_loop]; destruct (Nat.ltb_spec base fin) as [Hlt|Hge]; try lia.
  1, 3: exists b; split_and!; try done; [intros f; split; [by left|]; intros [?|?]; [done|lia]|by intros ? ? ?].
  destruct (sh_len _ S) as [_ Hlen].
  destruct (run_order_spec base fin Hlt) as (Ho & Hdiv & Hend); [lia|]. set (o := run_order base fin) in *.
  pose proof (pow2_pos o) as Hp.
  assert (placed b base o) as Hpl by (split; [done|]; split; [done|lia]).
  assert (∀ q r, blk b q r → apart q r base o) as Hap by (apply apart_uncovered; intros f Hf; apply Hun; lia).
  pose proof (total_free_room b base o S Hpl Hap) as Hroom.
  unfold mbind, M_bind, get. rewrite shl32_eq by done. rewrite u32_eq by (by rewrite Hc).
  unfold set_free_frames at 1. set (n := Z.to_nat _).
  destruct (insert_spec (mkBuddy (desc b) (heads b) (nframes b) n) base o)
    as (b1 & Hr1 & S1 & Hb1 & Ht1 & Hn1 & Hf1 & Hk1); [by apply set_free_frames_shape|done|done|].
  rewrite Hr1. simpl in Hn1, Hf1, Hk1. rewrite u32_eq by (unfold in_u; lia).
  replace (Z.to_nat (Z.of_nat base + Z.of_nat (2 ^ o))) with (base + 2 ^ o) by lia.
  change (total_free (mkBuddy (desc b) (heads b) (nframes b) n)) with (total_free b) in Ht1.
  assert (∀ f, covered b1 f ↔ covered b f ∨ base ≤ f < base + 2 ^ o) as Hc1.
  { intros f. rewrite (covered_insert _ _ _ _ Hb1). done. }
  destruct (IH b1 (base + 2 ^ o) S1) as (b' & -> & S' & Hcnt & Hn' & Hc' & Hst).
  { rewrite Hf1, Ht1, pow2_Z. unfold n. unfold in_u in Hroom. lia. }
  { lia. } { lia. } { lia. }
  { intros f Hf [Hcf|Hcf]%Hc1; [apply (Hun f); [lia|done]|lia]. }
  exists b'. split_and!; try done; [congruence|..].
  - intros f. rewrite Hc', Hc1. split; [intros [[?|?]|?]; auto; right; lia|].
    intros [?|?]; [auto|]. destruct (decide (f < base + 2 ^ o)); [left; right; lia|right; lia].
  - intros q d Hq Hf Hcov Hout. apply Hst; [apply Hk1; [done|done|lia]|done| |lia].
    intros [?|?]%Hc1; [done|lia].
Qed.

Lemma add_frames_spec b A start count :
  binv b A → start + count ≤ nframes b →
  (∀ f, start ≤ f < start + count → ¬ covered b f) →
  (∀ p o, (p, o) ∈ A → p + 2 ^ o ≤ start ∨ start + count ≤ p) →
  ∃ b', add_frames start count b = (Ok (), b') ∧ binv b' A ∧ nframes b' = nframes b ∧
    ∀ f, covered b' f ↔ covered b f ∨ start ≤ f < start + count.
Proof.
  intros I Hend Hun HA. pose proof (bi_shape _ _ I) as S. destruct (sh_len _ S) as [_ Hlen].
  unfold add_frames. destruct (Nat.eqb_spec count 0) as [->|Hne].
  { exists b. split; [done|]. split; [done|]. split; [done|]. intros f. split; [by left|].
    intros [?|?]; [done|lia]. }
  unfold mbind, M_bind. rewrite u32_eq by (unfold in_u; lia).
  replace (Z.to_nat (Z.of_nat start + Z.of_nat count)) with (start + count) by lia.
  destruct (add_loop_spec b count start (start + count) S (bi_count _ _ I))
    as (b' & -> & S' & Hcnt & Hn' & Hc' & Hst); [lia..|done|].
  exists b'. split; [done|]. split; [|done]. split.
  - done.
  - done.
  - intros p o Hin. eapply (held_steady b b'); try done. pose proof (pow2_pos o).
    destruct (HA _ _ Hin); lia.
  - intros p o q r Hin. revert q r. apply apart_uncovered. intros f Hf [Hcf|Hcf]%Hc'.
    + revert Hcf. apply apart_covered with (p:=p) (o:=o); [|done]. intros q r Hq. by apply (bi_apart _ _ I).
    + destruct (HA _ _ Hin); lia.
  - apply (bi_pairs _ _ I).
Qed.
