(* ===== verification/BuddyTheorems.v ===== *)
(** * The promises of the frame allocator *)

From S2P Require Import Prelude Buddy BuddyInv BuddyProps.
Import Buddy.

(** Histories of an allocator whose clients keep the documented discipline: a
    run is released only while reserved, and only blocks held are freed.  The
    list is the blocks the clients hold. *)
Inductive history : Buddy → list (nat * nat) → Prop :=
| H_new ds : (Z.of_nat (length ds) < 2 ^ 32)%Z → history (new ds) []
| H_add b A start count b' :
    history b A → start + count ≤ nframes b →
    (∀ f, start ≤ f < start + count → ¬ covered b f) →
    (∀ p o, (p, o) ∈ A → p + 2 ^ o ≤ start ∨ start + count ≤ p) →
    add_frames start count b = (Ok (), b') → history b' A
| H_alloc b A ord p b' :
    history b A → alloc ord b = (Ok (Some p), b') → history b' ((p, ord) :: A)
| H_free b A i p o b' :
    history b A → A !! i = Some (p, o) → free_block p b = (Ok (), b') → history b' (delete i A).

Lemma history_binv b A : history b A → binv b A.
Proof.
  induction 1 as [ds Hl|b A s c b' _ I Hend Hun HA Hr|b A ord p b' _ I Hr|b A i p o b' _ I Hi Hr].
  - by apply new_binv.
  - destruct (add_frames_spec b A s c I Hend Hun HA) as (b1 & Hr1 & I1 & _). congruence.
  - pose proof (alloc_spec b A ord I) as Ha. rewrite Hr in Ha. apply Ha.
  - destruct (free_spec b A i p o I Hi) as (b1 & Hr1 & I1 & _). congruence.
Qed.

(** C30: In every history the blocks held by clients are aligned to their size,
    inside the array, disjoint from each other, and contain no free frame: the
    allocator never hands out memory twice. *)
Theorem held_blocks_disjoint b A i j p o q r :
  history b A → A !! i = Some (p, o) → A !! j = Some (q, r) → i ≠ j →
  (2 ^ o | p) ∧ p + 2 ^ o ≤ nframes b ∧
  (p + 2 ^ o ≤ q ∨ q + 2 ^ r ≤ p) ∧
  (∀ f, p ≤ f < p + 2 ^ o → ¬ covered b f).
Proof.
  intros I%history_binv Hi Hj Hne.
  assert ((p, o) ∈ A) as Hin by (by eapply list_elem_of_lookup_2).
  destruct (bi_alloc _ _ I _ _ Hin) as [(_ & Hd & He) _]. split_and!; try done.
  - by eapply (bi_pairs _ _ I i j).
  - intros f. apply apart_covered. intros x y Hx. by apply (bi_apart _ _ I).
Qed.

(** [alloc] never panics: it returns a block of [2^ord] free frames, which
    are exactly the frames that stop being free and are taken off the counter, or [None] with the state
    unchanged and no free block of that order or larger in existence. *)
Theorem alloc_refines b A ord :
  binv b A →
  match alloc ord b with
  | (Ok (Some p), b') =>
      binv b' ((p, ord) :: A) ∧ nframes b' = nframes b ∧
      (∀ f, covered b f ↔ covered b' f ∨ p ≤ f < p + 2 ^ ord) ∧
      (∀ f, p ≤ f < p + 2 ^ ord → ¬ covered b' f) ∧ free_frames b = free_frames b' + 2 ^ ord
  | (Ok None, b') => b' = b ∧ ∀ p o, blk b p o → o < ord
  | _ => False
  end.
Proof. apply alloc_spec. Qed.

(** [free] of a held block never panics and coalescing loses nothing: the
    frames of the block, and no others, become free, the counter rises by their
    number, and the other blocks stay held. *)
Theorem free_refines b A i p o :
  binv b A → A !! i = Some (p, o) →
  ∃ b', free_block p b = (Ok (), b') ∧ binv b' (delete i A) ∧ nframes b' = nframes b ∧
    (∀ f, covered b' f ↔ covered b f ∨ p ≤ f < p + 2 ^ o) ∧ free_frames b' = free_frames b + 2 ^ o.
Proof. apply free_spec. Qed.

(** [add_frames] of a reserved run inside the array terminates without a
    panic and its decomposition into aligned power-of-two blocks covers exactly
    the run. *)
Theorem add_frames_refines b A start count :
  binv b A → start + count ≤ nframes b →
  (∀ f, start ≤ f < start + count → ¬ covered b f) →
  (∀ p o, (p, o) ∈ A → p + 2 ^ o ≤ start ∨ start + count ≤ p) →
  ∃ b', add_frames start count b = (Ok (), b') ∧ binv b' A ∧ nframes b' = nframes b ∧
    ∀ f, covered b' f ↔ covered b f ∨ start ≤ f < start + count.
Proof. apply add_frames_spec. Qed.

(** ** Witnesses: twelve frames, of which 1 to 11 are usable *)
Definition demo_new : Buddy := new (replicate 12 RESERVED).
Definition demo_add : Buddy := (add_frames 1 11 demo_new).2.
Definition demo_a1 : Buddy := (alloc 1 demo_add).2.
Definition demo_a2 : Buddy := (alloc 0 demo_a1).2.

Lemma demo_new_uncovered f : ¬ covered demo_new f.
Proof. apply new_binv. vm_compute. congruence. Qed.
Lemma demo_history : history demo_a2 [(1, 0); (2, 1)].
Proof.
  apply (H_alloc demo_a1 _ 0 1); [|vm_compute; reflexivity].
  apply (H_alloc demo_add _ 1 2); [|vm_compute; reflexivity].
  apply (H_add demo_new [] 1 11); [apply H_new; vm_compute; congruence|vm_compute; lia| | |vm_compute; reflexivity].
  - intros f _. apply demo_new_uncovered.
  - intros p o H. by apply elem_of_nil in H.
Qed.

Lemma held_blocks_disjoint_witness :
  (2 ^ 0 | 1) ∧ 1 + 2 ^ 0 ≤ nframes demo_a2 ∧ (1 + 2 ^ 0 ≤ 2 ∨ 2 + 2 ^ 1 ≤ 1) ∧
  (∀ f, 1 ≤ f < 1 + 2 ^ 0 → ¬ covered demo_a2 f).
Proof.
  apply (held_blocks_disjoint demo_a2 [(1, 0); (2, 1)] 0 1 1 0 2 1);
    [apply demo_history|reflexivity|reflexivity|lia].
Defined.

Lemma alloc_refines_witness :
  alloc 5 demo_a2 = (Ok None, demo_a2) ∧ ∀ p o, blk demo_a2 p o → o < 5.
Proof.
  pose proof (alloc_refines demo_a2 [(1, 0); (2, 1)] 5 (history_binv _ _ demo_history)) as H.
  assert (alloc 5 demo_a2 = (Ok None, demo_a2)) as E by (vm_compute; reflexivity).
  rewrite E in H. split; [exact E|apply H].
Defined.

Lemma free_refines_witness :
  ∃ b', free_block 2 demo_a2 = (Ok (), b') ∧ binv b' [(1, 0)] ∧
    (∀ f, covered b' f ↔ covered demo_a2 f ∨ 2 ≤ f < 2 + 2 ^ 1) ∧ free_frames b' = free_frames demo_a2 + 2.
Proof.
  destruct (free_refines demo_a2 [(1, 0); (2, 1)] 1 2 1) as (b' & Hr & I & _ & Hc & Hf).
  - apply history_binv, demo_history.
  - reflexivity.
  - exists b'. split; [exact Hr|]. split; [exact I|]. split; [exact Hc|exact Hf].
Defined.

Lemma add_frames_refines_witness :
  ∃ b', add_frames 1 11 demo_new = (Ok (), b') ∧ ∀ f, covered b' f ↔ covered demo_new f ∨ 1 ≤ f < 1 + 11.
Proof.
  destruct (add_frames_refines demo_new [] 1 11) as (b' & Hr & _ & _ & Hc).
  - apply new_binv. vm_compute. congruence.
  - vm_compute. lia.
  - intros f _. apply demo_new_uncovered.
  - intros p o H. by apply elem_of_nil in H.
  - exists b'. split; [exact Hr|exact Hc].
Defined.
