(* ===== verification/Slab.v ===== *)
(** * The slab object cache and the untyped watermark
    ([mem/src/slab.rs], [mem/src/retype.rs])

    The cache threads its free list through the free slots of a byte region the
    caller passes in: the model keeps the bytes, so that what a client writes
    into its object is a real write to the memory the list lives in.  Addresses
    and sizes are [usize], 64 bits on both targets; both are little-endian, the
    byte order of [to_ne_bytes]. *)

From S2P Require Import Prelude.

Module Slab.

Definition NIL_OFF : Z := 2 ^ 64 - 1.

Record SlabCache := mkSlab {
  slot_size : Z;
  capacity : Z;
  free_head : Z;
  free_count : Z
}.

Abbreviation SM := (M (SlabCache * bytes) Empty_set).

(** [(x + align - 1) & !(align - 1)] *)
Definition round_up (x align : Z) : res Empty_set Z :=
  s ← arith 64 (x + align);
  t ← arith 64 (s - 1);
  m ← arith 64 (align - 1);
  Ok (Z.land t (2 ^ 64 - 1 - m)).

Definition write_link (mem : bytes) (off val : Z) : res Empty_set bytes :=
  e ← arith 64 (off + 8);
  if (e <=? Z.of_nat (length mem))%Z
  then Ok (list_inserts (Z.to_nat off) (to_le 8 val) mem)
  else Panic.

Definition read_link (mem : bytes) (off : Z) : res Empty_set Z :=
  e ← arith 64 (off + 8);
  if (e <=? Z.of_nat (length mem))%Z
  then Ok (from_le (take 8 (drop (Z.to_nat off) mem)))
  else Panic.

(** [SlabCache::new]; [region_len.checked_div(slot_size).unwrap_or(0)]. *)
Definition new (obj_size align region_len : Z) : res Empty_set SlabCache :=
  let al := Z.max align 8 in
  sz ← round_up (Z.max obj_size 8) al;
  let cap := if (sz =? 0)%Z then 0%Z else (region_len / sz)%Z in
  Ok (mkSlab sz cap NIL_OFF 0).

Definition init_step (i : nat) : SM unit := λ st,
  let '(c, mem) := st in
  match (off ← arith 64 (Z.of_nat i * slot_size c);
         mem' ← write_link mem off (free_head c);
         n ← arith 64 (free_count c + 1);
         Ok (mkSlab (slot_size c) (capacity c) off n, mem')) : res Empty_set _ with
  | Ok st' => (Ok (), st')
  | _ => (Panic, st)
  end.

(** [init]: the loop runs over the slots in reverse. *)
Definition init : SM unit :=
  modify (λ st, (mkSlab (slot_size st.1) (capacity st.1) NIL_OFF 0, st.2));;
  st ← get;
  mfor (rev (seq 0 (Z.to_nat (capacity st.1)))) init_step.

Definition alloc : SM (option Z) := λ st,
  let '(c, mem) := st in
  if (free_head c =? NIL_OFF)%Z then (Ok None, st) else
  match (h ← read_link mem (free_head c);
         n ← arith 64 (free_count c - 1);
         Ok (mkSlab (slot_size c) (capacity c) h n)) : res Empty_set _ with
  | Ok c' => (Ok (Some (free_head c)), (c', mem))
  | _ => (Panic, st)
  end.

Definition free (off : Z) : SM unit := λ st,
  let '(c, mem) := st in
  match (mem' ← write_link mem off (free_head c);
         n ← arith 64 (free_count c + 1);
         Ok (mkSlab (slot_size c) (capacity c) off n, mem')) : res Empty_set _ with
  | Ok st' => (Ok (), st')
  | _ => (Panic, st)
  end.

(** ** Links *)

(** Two memories with the same bytes in the link of [off] hold the same link. *)
Lemma read_link_agree mem mem' off :
  (0 <= off)%Z → length mem' = length mem →
  (∀ i, (Z.to_nat off ≤ i < Z.to_nat off + 8)%nat → mem' !! i = mem !! i) →
  read_link mem' off = read_link mem off.
Proof.
  intros Ho Hl H. unfold read_link. rewrite Hl.
  assert (take 8 (drop (Z.to_nat off) mem') = take 8 (drop (Z.to_nat off) mem)) as ->; [|done].
  apply list_eq. intros i. destruct (decide (i < 8)).
  - rewrite !lookup_take_lt, !lookup_drop by done. apply H. lia.
  - rewrite !lookup_take_ge by lia. done.
Qed.

Lemma read_write mem off val :
  (0 <= off)%Z → (off + 8 <= Z.of_nat (length mem))%Z → (Z.of_nat (length mem) < 2 ^ 64)%Z → in_u 64 val →
  ∃ mem', write_link mem off val = Ok mem' ∧ length mem' = length mem ∧ read_link mem' off = Ok val ∧
    ∀ i, ¬ (Z.to_nat off ≤ i < Z.to_nat off + 8) → mem' !! i = mem !! i.
Proof.
  intros Ho Hle Hl Hv. unfold write_link, read_link. munfold.
  rewrite (arith_in (E:=Empty_set) 64) by (unfold in_u; lia).
  rewrite (proj2 (Z.leb_le _ _) Hle). eexists. split; [done|].
  pose proof (length_inserts mem (Z.to_nat off) (to_le 8 val)) as Hlen. split; [done|].
  rewrite Hlen, (proj2 (Z.leb_le _ _) Hle). split.
  - f_equal. rewrite <- (from_to_le 8 val) at 2 by (unfold in_u in Hv; simpl; lia). f_equal.
    apply list_eq. intros i. destruct (decide (i < 8)) as [Hi|Hi].
    + rewrite lookup_take_lt, lookup_drop by done.
      rewrite list_lookup_inserts by (rewrite ?to_le_length; lia). f_equal. lia.
    + rewrite lookup_take_ge by lia. rewrite (lookup_ge_None_2 (to_le 8 val)); [done|].
      rewrite to_le_length. lia.
  - intros i Hi. destruct (decide (i < Z.to_nat off)).
    + by rewrite list_lookup_inserts_lt.
    + rewrite list_lookup_inserts_ge; [done|]. rewrite to_le_length. lia.
Qed.

(** ** The free list in memory *)

Fixpoint chain (mem : bytes) (head : Z) (l : list Z) : Prop :=
  match l with
  | [] => head = NIL_OFF
  | o :: l' => head = o ∧ ∃ h, read_link mem o = Ok h ∧ chain mem h l'
  end.

(** [off] is the offset of a slot. *)
Definition is_slot (c : SlabCache) (off : Z) : Prop :=
  ∃ k, (0 <= k < capacity c)%Z ∧ off = (k * slot_size c)%Z.

Record sinv (c : SlabCache) (mem : bytes) (l : list Z) : Prop := {
  si_size : (8 <= slot_size c)%Z;
  si_region : (0 <= capacity c)%Z ∧ (capacity c * slot_size c <= Z.of_nat (length mem))%Z ∧
              (Z.of_nat (length mem) < 2 ^ 64)%Z;
  si_chain : chain mem (free_head c) l;
  si_slots o : o ∈ l → is_slot c o;
  si_nodup : NoDup l;
  si_count : free_count c = Z.of_nat (length l)
}.

Lemma slot_bounds c mem l o : sinv c mem l → is_slot c o →
  (0 <= o)%Z ∧ (o + slot_size c <= Z.of_nat (length mem))%Z ∧ o ≠ NIL_OFF.
Proof.
  intros I (k & Hk & ->). pose proof (si_size _ _ _ I). destruct (si_region _ _ _ I) as (? & ? & ?).
  unfold NIL_OFF. nia.
Qed.

(** Different slots do not overlap. *)
Lemma slots_apart c o o' : (8 <= slot_size c)%Z → is_slot c o → is_slot c o' → o ≠ o' →
  (o + slot_size c <= o')%Z ∨ (o' + slot_size c <= o)%Z.
Proof. intros Hs (k & Hk & ->) (k' & Hk' & ->) Hne. assert (k < k' ∨ k' < k)%Z by nia. nia. Qed.

Lemma chain_agree mem mem' head l :
  (∀ o, o ∈ l → read_link mem' o = read_link mem o) → chain mem head l → chain mem' head l.
Proof.
  revert head. induction l as [|o l IH]; intros head H; simpl; [done|].
  intros [-> (h & Hh & Hc)]. split; [done|]. exists h. rewrite H by left. split; [done|].
  apply IH; [|done]. intros x Hx. apply H. by right.
Qed.

(** NoDup lists of slots are no longer than the capacity. *)
Lemma slots_length c l : (8 <= slot_size c)%Z → (0 <= capacity c)%Z → NoDup l →
  (∀ o, o ∈ l → is_slot c o) → (Z.of_nat (length l) <= capacity c)%Z.
Proof.
  intros Hs Hc Hn Hl.
  assert (length ((λ o, Z.to_nat (o / slot_size c)) <$> l) ≤ length (seq 0 (Z.to_nat (capacity c)))) as H.
  - apply submseteq_length, NoDup_submseteq.
    + apply NoDup_fmap_2_strong; [|done]. intros x y Hx Hy Hxy.
      destruct (Hl _ Hx) as (k & Hk & ->), (Hl _ Hy) as (k' & Hk' & ->).
      rewrite !Z.div_mul in Hxy by lia. f_equal. lia.
    + intros x (o & -> & Ho)%list_elem_of_fmap. destruct (Hl _ Ho) as (k & Hk & ->).
      rewrite Z.div_mul by lia. apply elem_of_seq. lia.
  - rewrite length_fmap, length_seq in H. lia.
Qed.

Lemma alloc_sinv c mem l : sinv c mem l →
  match l with
  | [] => alloc (c, mem) = (Ok None, (c, mem))
  | o :: l' => ∃ c', alloc (c, mem) = (Ok (Some o), (c', mem)) ∧ sinv c' mem l' ∧
      slot_size c' = slot_size c ∧ capacity c' = capacity c
  end.
Proof.
  intros I. unfold alloc. pose proof (si_chain _ _ _ I) as Hc. destruct l as [|o l]; simpl in Hc.
  - rewrite Hc, Z.eqb_refl. done.
  - destruct Hc as [Hh (h & Hr & Hc)]. assert (is_slot c o) as Ho by (apply (si_slots _ _ _ I); left).
    destruct (slot_bounds _ _ _ _ I Ho) as (? & ? & Hne).
    rewrite Hh, (proj2 (Z.eqb_neq _ _) Hne). munfold. rewrite Hr.
    pose proof (si_count _ _ _ I) as Hn. simpl in Hn.
    pose proof (slots_length c _ (si_size _ _ _ I) (proj1 (si_region _ _ _ I)) (si_nodup _ _ _ I) (si_slots _ _ _ I)) as Hle.
    simpl in Hle. destruct (si_region _ _ _ I) as (? & ? & ?). pose proof (si_size _ _ _ I).
    rewrite arith_in by (unfold in_u; nia). eexists. split; [reflexivity|]. split; [|done].
    split; simpl; try done.
    + intros x Hx. apply (si_slots _ _ _ I). by right.
    + by apply (NoDup_cons_1_2 o), (si_nodup _ _ _ I).
    + lia.
Qed.

Lemma free_sinv c mem l o : sinv c mem l → is_slot c o → o ∉ l →
  ∃ c' mem', free o (c, mem) = (Ok (), (c', mem')) ∧ sinv c' mem' (o :: l) ∧
    slot_size c' = slot_size c ∧ capacity c' = capacity c ∧ length mem' = length mem ∧
    ∀ i, ¬ (Z.to_nat o ≤ i < Z.to_nat o + 8) → mem' !! i = mem !! i.
Proof.
  intros I Ho Hin. destruct (slot_bounds _ _ _ _ I Ho) as (H0 & Hend & Hne).
  destruct (si_region _ _ _ I) as (Hcap & Hreg & Hlen). pose proof (si_size _ _ _ I) as Hs.
  assert (in_u 64 (free_head c)) as Hhd.
  { pose proof (si_chain _ _ _ I) as Hc. destruct l as [|h l]; simpl in Hc.
    - rewrite Hc. unfold in_u, NIL_OFF. lia.
    - destruct Hc as [-> _]. destruct (slot_bounds c mem (h :: l) h I) as (? & ? & _).
      { apply (si_slots _ _ _ I). left. }
      unfold in_u. lia. }
  destruct (read_write mem o (free_head c)) as (mem' & Hw & Hl' & Hr & Hag); [lia|lia|lia|done|].
  assert (NoDup (o :: l)) as Hnd by (apply NoDup_cons; split; [done|apply I]).
  assert (∀ x, x ∈ o :: l → is_slot c x) as Hsl.
  { intros x [->|Hx]%elem_of_cons; [done|by apply (si_slots _ _ _ I)]. }
  pose proof (slots_length c _ Hs Hcap Hnd Hsl) as Hle. simpl in Hle.
  pose proof (si_count _ _ _ I) as Hn.
  unfold free. munfold. rewrite Hw. rewrite arith_in by (unfold in_u; nia).
  eexists _, mem'. split; [reflexivity|]. split; [|done]. split; simpl; try done.
  - by rewrite Hl'.
  - split; [done|]. exists (free_head c). split; [done|]. eapply chain_agree; [|apply I].
    intros x Hx. apply read_link_agree; [by apply (slot_bounds c mem l x I), (si_slots _ _ _ I)|done|].
    intros i Hi. apply Hag. assert (x ≠ o) as Hxo by (by intros ->).
    destruct (slot_bounds _ _ _ _ I (si_slots _ _ _ I _ Hx)) as [? _].
    destruct (slots_apart c x o Hs) as [?|?]; [by apply (si_slots _ _ _ I)|done|done|lia|lia].
  - lia.
Qed.

(** Whatever a client writes outside the free slots leaves the list alone. *)
Lemma write_sinv c mem mem' l : sinv c mem l → length mem' = length mem →
  (∀ o i, o ∈ l → Z.to_nat o ≤ i < Z.to_nat o + 8 → mem' !! i = mem !! i) → sinv c mem' l.
Proof.
  intros I Hl Hag. destruct I as [Hs Hr Hc Hsl Hn Hcnt] eqn:E. split; try done; [by rewrite Hl|].
  eapply chain_agree; [|done]. intros o Ho. apply read_link_agree; [|done|intros i; by apply Hag].
  destruct (Hsl _ Ho) as (k & ? & ->). nia.
Qed.

(** ** Initialisation *)

(** The slots [i, i+1, ...] in order. *)
Definition slot_list (c : SlabCache) (i n : nat) : list Z :=
  (λ k, (Z.of_nat k * slot_size c)%Z) <$> seq i n.

Lemma init_step_eq i st : init_step i st =
  let '(c, mem) := st in
  match arith (E:=Empty_set) 64 (Z.of_nat i * slot_size c) with
  | Ok off => free off (c, mem)
  | _ => (Panic, (c, mem))
  end.
Proof. destruct st as [c mem]. unfold init_step, free. munfold. by destruct (arith 64 _). Qed.

Lemma init_loop c mem n k :
  sinv c mem (slot_list c n k) → (Z.of_nat (n + k) = capacity c)%Z →
  ∃ c' mem', mfor (rev (seq 0 n)) init_step (c, mem) = (Ok (), (c', mem')) ∧
    sinv c' mem' (slot_list c' 0 (n + k)) ∧ slot_size c' = slot_size c ∧
    capacity c' = capacity c ∧ length mem' = length mem.
Proof.
  revert c mem k. induction n as [|n IH]; intros c mem k I Hc; [by exists c, mem|].
  rewrite seq_S, rev_unit. cbn [mfor]. unfold mbind, M_bind.
  rewrite init_step_eq. destruct (si_region _ _ _ I) as (? & ? & ?). pose proof (si_size _ _ _ I).
  rewrite arith_in by (unfold in_u; nia).
  destruct (free_sinv c mem _ (Z.of_nat (0 + n) * slot_size c)%Z I) as (c1 & mem1 & -> & I1 & Hs1 & Hc1 & Hl1 & _).
  { exists (Z.of_nat n). split; [lia|done]. }
  { intros (k' & Hk' & Hin%elem_of_seq)%list_elem_of_fmap. nia. }
  destruct (IH c1 mem1 (S k)) as (c' & mem' & -> & I' & Hs' & Hc' & Hl').
  { replace (slot_list c1 n (S k)) with ((Z.of_nat (0 + n) * slot_size c)%Z :: slot_list c (S n) k); [done|].
    unfold slot_list. rewrite Hs1. done. }
  { rewrite Hc1. lia. }
  exists c', mem'. replace (S n + k) with (n + S k) by lia. split_and!; try done; congruence.
Qed.

(** The mask of [round_up] for a power of two. *)
Lemma round_mask t a : (0 <= t < 2 ^ 64)%Z → (0 <= a <= 64)%Z →
  Z.land t (2 ^ 64 - 1 - (2 ^ a - 1)) = (2 ^ a * (t / 2 ^ a))%Z.
Proof.
  intros Ht Ha. replace (2 ^ 64 - 1)%Z with (Z.ones 64) by done.
  replace (2 ^ a - 1)%Z with (Z.ones a) by (rewrite Z.ones_equiv; lia).
  rewrite Z.sub_nocarry_ldiff.
  2:{ apply Z.bits_inj'. intros i Hi. rewrite Z.ldiff_spec, Z.bits_0.
      destruct (Z.ltb_spec i a); [|rewrite Z.ones_spec_high by lia; done].
      rewrite (Z.ones_spec_low 64) by lia. by rewrite andb_false_r. }
  assert (Z.land t (Z.ldiff (Z.ones 64) (Z.ones a)) = Z.ldiff t (Z.ones a)) as ->.
  { apply Z.bits_inj'. intros i Hi. rewrite Z.land_spec, !Z.ldiff_spec.
    destruct (Z.ltb_spec i 64); [by rewrite Z.ones_spec_low by lia|].
    assert (Z.testbit t i = false) as ->; [|done].
    destruct (decide (t = 0%Z)) as [->|]; [apply Z.bits_0|]. apply Z.bits_above_log2; [lia|].
    apply Z.log2_lt_pow2; [lia|]. assert (2 ^ 64 <= 2 ^ i)%Z by (apply Z.pow_le_mono_r; lia). lia. }
  rewrite Z.ldiff_ones_r by lia. rewrite Z.shiftl_mul_pow2, Z.shiftr_div_pow2 by lia. lia.
Qed.

Lemma new_spec obj_size a region_len :
  (0 <= obj_size)%Z → (0 <= a < 64)%Z → (0 <= region_len < 2 ^ 64)%Z →
  (Z.max obj_size 8 + Z.max (2 ^ a) 8 < 2 ^ 64)%Z →
  ∃ c, new obj_size (2 ^ a) region_len = Ok c ∧ free_head c = NIL_OFF ∧ free_count c = 0%Z ∧
    (obj_size <= slot_size c)%Z ∧ (8 <= slot_size c)%Z ∧ (2 ^ a | slot_size c)%Z ∧
    (0 <= capacity c)%Z ∧ (capacity c * slot_size c <= region_len)%Z.
Proof.
  intros Ho Ha Hr Hfit. unfold new, round_up. munfold.
  assert (∃ m, Z.max (2 ^ a) 8 = 2 ^ m ∧ a <= m < 64 ∧ 3 <= m)%Z as (m & Hm & Ham & H3m).
  { destruct (Z.le_gt_cases 3 a) as [H3|H3].
    - exists a. assert (2 ^ 3 <= 2 ^ a)%Z by (apply Z.pow_le_mono_r; lia). lia.
    - exists 3%Z. assert (2 ^ a <= 2 ^ 3)%Z by (apply Z.pow_le_mono_r; lia). lia. }
  rewrite Hm in *. assert (0 < 2 ^ m)%Z by (apply Z.pow_pos_nonneg; lia).
  rewrite (arith_in (E:=Empty_set) 64 (_ + _)) by (unfold in_u; lia).
  rewrite (arith_in (E:=Empty_set) 64 (_ - 1)) by (unfold in_u; lia).
  rewrite (arith_in (E:=Empty_set) 64 (2 ^ m - 1)) by (unfold in_u; lia).
  rewrite round_mask by lia. set (q := ((Z.max obj_size 8 + 2 ^ m - 1) / 2 ^ m)%Z).
  assert (Z.max obj_size 8 <= 2 ^ m * q)%Z as Hq.
  { pose proof (Z.div_mod (Z.max obj_size 8 + 2 ^ m - 1) (2 ^ m) ltac:(lia)) as Hd.
    pose proof (Z.mod_pos_bound (Z.max obj_size 8 + 2 ^ m - 1) (2 ^ m) ltac:(lia)). fold q in Hd. lia. }
  rewrite (proj2 (Z.eqb_neq _ _)) by lia. eexists. split; [reflexivity|]. simpl.
  split_and!; try done; try lia.
  - exists (2 ^ (m - a) * q)%Z. replace m with (m - a + a)%Z at 1 by lia. rewrite Z.pow_add_r by lia. lia.
  - apply Z.div_pos; lia.
  - rewrite Z.mul_comm. apply Z.mul_div_le. lia.
Qed.

(** ** Histories of a cache

    The list is the objects held by clients, who write only inside them. *)
Definition inside (c : SlabCache) (held : list Z) (i : nat) : Prop :=
  ∃ o, o ∈ held ∧ (o <= Z.of_nat i < o + slot_size c)%Z.

Inductive history : SlabCache → bytes → list Z → Prop :=
| SH_init obj a mem c c' mem' :
    (0 <= obj)%Z → (0 <= a < 64)%Z → (Z.of_nat (length mem) < 2 ^ 64)%Z →
    (Z.max obj 8 + Z.max (2 ^ a) 8 < 2 ^ 64)%Z →
    new obj (2 ^ a) (Z.of_nat (length mem)) = Ok c → init (c, mem) = (Ok (), (c', mem')) →
    history c' mem' []
| SH_alloc c mem held o c' mem' :
    history c mem held → alloc (c, mem) = (Ok (Some o), (c', mem')) → history c' mem' (o :: held)
| SH_free c mem held i o c' mem' :
    history c mem held → held !! i = Some o → free o (c, mem) = (Ok (), (c', mem')) →
    history c' mem' (delete i held)
| SH_write c mem held mem' :
    history c mem held → length mem' = length mem →
    (∀ i, ¬ inside c held i → mem' !! i = mem !! i) → history c mem' held.

Lemma init_spec c mem :
  (8 <= slot_size c)%Z → (0 <= capacity c)%Z → (capacity c * slot_size c <= Z.of_nat (length mem))%Z →
  (Z.of_nat (length mem) < 2 ^ 64)%Z →
  ∃ c' mem', init (c, mem) = (Ok (), (c', mem')) ∧
    sinv c' mem' (slot_list c' 0 (Z.to_nat (capacity c'))) ∧ slot_size c' = slot_size c ∧
    capacity c' = capacity c ∧ length mem' = length mem.
Proof.
  intros Hs Hc Hr Hl. unfold init, mbind, M_bind, modify, get. simpl.
  set (c0 := mkSlab (slot_size c) (capacity c) NIL_OFF 0).
  destruct (init_loop c0 mem (Z.to_nat (capacity c)) 0) as (c' & mem' & Hrun & I & Hs' & Hc' & Hl').
  { split; simpl; try done. intros o Ho. by apply elem_of_nil in Ho. apply NoDup_nil_2. }
  { simpl. lia. }
  exists c', mem'. rewrite Nat.add_0_r in I. simpl in *. rewrite Hc'. done.
Qed.

(** Free and held objects are together exactly the slots. *)
Lemma history_inv c mem held : history c mem held →
  ∃ l, sinv c mem l ∧ l ++ held ≡ₚ slot_list c 0 (Z.to_nat (capacity c)).
Proof.
  assert (∀ c, (8 <= slot_size c)%Z → NoDup (slot_list c 0 (Z.to_nat (capacity c)))) as Hnd.
  { intros c0 H. apply NoDup_fmap_2_strong; [|apply NoDup_seq]. intros x y _ _ Hxy. nia. }
  assert (∀ c o, o ∈ slot_list c 0 (Z.to_nat (capacity c)) → is_slot c o) as Hslot.
  { intros c0 o (k & -> & Hk%elem_of_seq)%list_elem_of_fmap. exists (Z.of_nat k). split; [lia|done]. }
  induction 1 as [obj a mem c c' mem' H1 H2 H3 H4 Hn Hi|c mem held o c' mem' _ (l & I & P) Ha
    |c mem held i o c' mem' _ (l & I & P) Hi Hf|c mem held mem' _ (l & I & P) Hl Hag].
  - destruct (new_spec obj a (Z.of_nat (length mem))) as (c0 & Hn' & _ & _ & _ & Hs & _ & Hc & Hr); [lia..|].
    rewrite Hn in Hn'. injection Hn' as <-.
    destruct (init_spec c mem) as (c1 & mem1 & Hi' & I & _); [done..|].
    rewrite Hi in Hi'. injection Hi' as <- <-. eexists. split; [done|]. by rewrite app_nil_r.
  - pose proof (alloc_sinv c mem l I) as Hal. destruct l as [|x l]; [congruence|].
    destruct Hal as (c1 & Hr & I1 & Hs & Hc). rewrite Ha in Hr. injection Hr as -> <- ->.
    exists l. split; [done|]. unfold slot_list. rewrite Hs, Hc. rewrite <- P. simpl. symmetry. apply Permutation_middle.
  - assert (o ∈ l ++ held) as Hin by (apply elem_of_app; right; by eapply list_elem_of_lookup_2).
    pose proof (delete_Permutation held i o Hi) as Pd.
    assert (o ∉ l) as Hno.
    { assert (NoDup (l ++ held)) as N by (rewrite P; apply Hnd, I). apply NoDup_app in N as (_ & N & _).
      intros Ho. apply (N o Ho). by eapply list_elem_of_lookup_2. }
    destruct (free_sinv c mem l o I) as (c1 & mem1 & Hr & I1 & Hs & Hc & _); [|done|].
    { apply Hslot. by rewrite <- P. }
    rewrite Hf in Hr. injection Hr as -> ->. exists (o :: l). split; [done|].
    unfold slot_list. rewrite Hs, Hc. etrans; [|exact P].
    etrans; [apply Permutation_middle|]. by apply Permutation_app_head.
  - exists l. split; [|done]. apply (write_sinv c mem); [done..|]. intros o i Ho Hi. apply Hag.
    intros (x & Hx & Hxi). pose proof (si_size _ _ _ I) as Hs.
    assert (NoDup (l ++ held)) as N by (rewrite P; by apply Hnd). apply NoDup_app in N as (_ & N & _).
    assert (is_slot c x) as Hsx by (apply Hslot; rewrite <- P; apply elem_of_app; by right).
    pose proof (si_slots _ _ _ I _ Ho) as Hso.
    destruct (slot_bounds _ _ _ _ I Hsx) as [? _]. destruct (slot_bounds _ _ _ _ I Hso) as [? _].
    destruct (slots_apart c o x Hs Hso Hsx); [|lia..]. intros ->. by apply (N x).
Qed.

(** C40: In every history of a slab cache (allocations, frees of held objects
    and arbitrary client writes inside held objects) any two objects held are
    disjoint, inside the region, the free count plus the objects held is the
    capacity, and the next [alloc] neither panics nor fails while an object is
    free: it returns an object nobody holds. *)
Theorem slab_objects_disjoint c mem held :
  history c mem held →
  NoDup held ∧
  (∀ o, o ∈ held → 0 <= o ∧ o + slot_size c <= Z.of_nat (length mem))%Z ∧
  (∀ o o', o ∈ held → o' ∈ held → o ≠ o' → o + slot_size c <= o' ∨ o' + slot_size c <= o)%Z ∧
  (free_count c + Z.of_nat (length held) = capacity c)%Z ∧
  match alloc (c, mem) with
  | (Ok (Some o), _) => o ∉ held
  | (Ok None, st) => st = (c, mem) ∧ Z.of_nat (length held) = capacity c
  | _ => False
  end.
Proof.
  intros (l & I & P)%history_inv. pose proof (si_size _ _ _ I) as Hs.
  assert (NoDup (l ++ held)) as N.
  { rewrite P. apply NoDup_fmap_2_strong; [|apply NoDup_seq]. intros x y _ _ Hxy. nia. }
  apply NoDup_app in N as (_ & Nd & Nh).
  assert (∀ o, o ∈ held → is_slot c o) as Hsl.
  { intros o Ho. assert (o ∈ l ++ held) as Hin by (apply elem_of_app; by right).
    rewrite P in Hin. apply list_elem_of_fmap in Hin as (k & -> & Hk%elem_of_seq).
    exists (Z.of_nat k). split; [lia|done]. }
  assert (free_count c + Z.of_nat (length held) = capacity c)%Z as Hcnt.
  { rewrite (si_count _ _ _ I). apply Permutation_length in P. unfold slot_list in P.
    rewrite length_app, length_fmap, length_seq in P. destruct (si_region _ _ _ I). lia. }
  split_and!; try done.
  - intros o Ho. destruct (slot_bounds _ _ _ _ I (Hsl _ Ho)) as (? & ? & _). done.
  - intros o o' Ho Ho'. apply slots_apart; auto.
  - pose proof (alloc_sinv c mem l I) as Ha. destruct l as [|x l].
    + rewrite Ha. split; [done|]. rewrite (si_count _ _ _ I) in Hcnt. simpl in Hcnt. lia.
    + destruct Ha as (c' & -> & _). apply Nd. left.
Qed.

(** A cache of two 24-byte objects, the first held and overwritten. *)
Definition demo_mem : bytes := replicate 50 0%Z.
Definition demo_c : SlabCache := mkSlab 24 2 NIL_OFF 0.
Definition demo_i : SlabCache * bytes := (init (demo_c, demo_mem)).2.
Definition demo_a : SlabCache * bytes := (alloc demo_i).2.
Definition demo_w : bytes := list_inserts 0 (replicate 24 255%Z) demo_a.2.

Lemma slab_objects_disjoint_witness : NoDup [0%Z] ∧ free_count demo_a.1 = 1%Z.
Proof.
  assert (history demo_a.1 demo_w [0%Z]) as H.
  { apply (SH_write _ demo_a.2); [|vm_compute; reflexivity|].
    - apply (SH_alloc demo_i.1 demo_i.2 []); [|vm_compute; reflexivity].
      apply (SH_init 20 3 demo_mem demo_c); try (vm_compute; congruence); try (by vm_compute); lia.
    - intros i Hi. unfold demo_w. rewrite list_lookup_inserts_ge; [done|].
      rewrite length_replicate. destruct (decide (24 ≤ i)); [lia|]. exfalso. apply Hi. exists 0%Z.
      split; [left|]. vm_compute slot_size. lia. }
  destruct (slab_objects_disjoint demo_a.1 demo_w [0%Z] H) as (Hn & _ & _ & Hc & _).
  split; [exact Hn|]. vm_compute. reflexivity.
Defined.

End Slab.

(** ** [mem/src/retype.rs]: the bump watermark of an [Untyped] region *)
Module Retype.

Record Untyped := mkUntyped {
  base : Z;        (* Pfn *)
  frames : Z;
  watermark : Z
}.

Definition new (b f : Z) : Untyped := mkUntyped b f 0.
Definition used (u : Untyped) : Z := watermark u.
Definition remaining (u : Untyped) : res Empty_set Z := arith 32 (frames u - watermark u).

Definition retype (frames_per_obj count : Z) : M Untyped Empty_set (option Z) := λ u,
  match checked 32 (frames_per_obj * count) with
  | None => (Ok None, u)
  | Some need =>
      match remaining u with
      | Ok r =>
          if (r <? need)%Z then (Ok None, u) else
          match arith (E:=Empty_set) 32 (base u + watermark u), arith (E:=Empty_set) 32 (watermark u + need) with
          | Ok start, Ok w => (Ok (Some start), mkUntyped (base u) (frames u) w)
          | _, _ => (Panic, u)
          end
      | _ => (Panic, u)
      end
  end.

Definition reset (u : Untyped) : Untyped := mkUntyped (base u) (frames u) 0.

(** The region is real memory and the watermark inside it. *)
Definition uwf (u : Untyped) : Prop :=
  (0 <= watermark u <= frames u)%Z ∧ (0 <= base u)%Z ∧ (base u + frames u <= 2 ^ 32 - 1)%Z.

(** A sequence of retype requests and the runs they were given. *)
Fixpoint run_retypes (rs : list (Z * Z)) (u : Untyped) : option (list (Z * Z) * Untyped) :=
  match rs with
  | [] => Some ([], u)
  | (f, n) :: rs' =>
      match retype f n u with
      | (Ok o, u') =>
          match run_retypes rs' u' with
          | Some (l, u'') => Some (match o with Some s => (s, f * n)%Z :: l | None => l end, u'')
          | None => None
          end
      | _ => None
      end
  end.

Lemma region_retype_spec f n u : uwf u → (0 <= f)%Z → (0 <= n)%Z →
  (∃ u', retype f n u = (Ok (Some (base u + watermark u)%Z), u') ∧ uwf u' ∧
    watermark u' = (watermark u + f * n)%Z ∧ base u' = base u ∧ frames u' = frames u) ∨
  retype f n u = (Ok None, u) ∧ (frames u - watermark u < f * n)%Z.
Proof.
  intros (Hw & Hb & He) Hf Hn. unfold retype, remaining.
  destruct (checked 32 (f * n)) as [need|] eqn:Hc.
  - apply checked_Some in Hc as [Hc ->]. rewrite arith_in by (unfold in_u; lia).
    destruct (Z.ltb_spec (frames u - watermark u) (f * n)); [right; done|left].
    unfold in_u in Hc. rewrite !arith_in by (unfold in_u; lia).
    eexists. split; [done|]. unfold uwf. simpl. lia.
  - right. split; [done|]. unfold checked in Hc. destruct (fits 32 (f * n)) eqn:E; [done|].
    apply fits_false in E. unfold in_u in E. nia.
Qed.

(** Whatever sequence of RETYPE requests an [Untyped] region gets, none
    panics, and the runs handed out are consecutive, disjoint and inside the
    region, from the watermark at the start to the watermark at the end. *)
Theorem runs_disjoint rs u :
  uwf u → Forall (λ r, 0 <= r.1 ∧ 0 <= r.2)%Z rs →
  ∃ l u', run_retypes rs u = Some (l, u') ∧ uwf u' ∧ base u' = base u ∧ frames u' = frames u ∧
    (watermark u <= watermark u' <= frames u)%Z ∧
    ∀ i s n, l !! i = Some (s, n) →
      (base u + watermark u <= s)%Z ∧ (s + n <= base u + watermark u')%Z ∧
      ∀ j s' n', l !! j = Some (s', n') → i < j → (s + n <= s')%Z.
Proof.
  revert u. induction rs as [|[f n] rs IH]; intros u W Hrs.
  { exists [], u. split_and!; try done; try apply W. }
  inv Hrs. simpl in *. destruct H1 as [Hf Hn].
  destruct (region_retype_spec f n u W Hf Hn) as [(u1 & -> & W1 & Hw1 & Hb1 & Hf1)|[-> Hlt]].
  - destruct (IH u1 W1 H2) as (l & u' & -> & W' & Hb & Hfr & Hw & Hl).
    exists ((base u + watermark u, f * n)%Z :: l), u'. split_and!; try done; try congruence; try nia.
    intros [|i] s m Hi; simpl in Hi.
    + injection Hi as <- <-. split_and!; [lia|nia|]. intros [|j] s' m' Hj Hij; [lia|].
      destruct (Hl _ _ _ Hj) as (? & _). lia.
    + destruct (Hl _ _ _ Hi) as (? & ? & Hlt). split_and!; [nia|lia|].
      intros [|j] s' m' Hj Hij; [lia|]. eapply Hlt; [done|lia].
  - destruct (IH u W H2) as (l & u' & -> & H). by exists l, u'.
Qed.

Lemma runs_disjoint_witness :
  ∃ l u', run_retypes [(2, 3); (100, 1); (1, 4)]%Z (new 100 10) = Some (l, u') ∧
    l = [(100, 6); (106, 4)]%Z ∧ uwf u'.
Proof.
  destruct (runs_disjoint [(2, 3); (100, 1); (1, 4)]%Z (new 100 10)) as (l & u' & Hr & W & _).
  - unfold uwf. simpl. lia.
  - repeat constructor; simpl; lia.
  - exists l, u'. split; [exact Hr|]. split; [|exact W]. vm_compute in Hr. by injection Hr as <- _.
Defined.

End Retype.
