(* ===== verification/Ipc.v ===== *)
(** * Inter-process communication objects ([ipc/src])

    The message descriptor parser ([message.rs]), the endpoint rendezvous
    ([endpoint.rs]) and the notification ([notification.rs]).  A [VecDeque] used
    as a queue is a list: [pop_front] takes its head, [push_back] appends. *)

From S2P Require Import Prelude Rights CSpace.

(** ** Messages *)
Module Message.

Definition MSG_REGS : nat := 4.
Definition MAX_CAPS : nat := 2.

Inductive MsgError := TooManyRegs | TooManyCaps.

Record MessageInfo := mkInfo {
  label : Z;    (* u32 *)
  n_regs : Z;   (* u8 *)
  n_caps : Z    (* u8 *)
}.

Definition info_new (l r c : Z) : res MsgError MessageInfo :=
  if (Z.of_nat MSG_REGS <? r)%Z then Err TooManyRegs else
  if (Z.of_nat MAX_CAPS <? c)%Z then Err TooManyCaps else
  Ok (mkInfo l r c).

Definition encode (mi : MessageInfo) : Z :=
  Z.lor (Z.lor (wrap 64 (Z.shiftl (label mi) 16)) (wrap 64 (Z.shiftl (n_caps mi) 8))) (n_regs mi).

Definition decode (word : Z) : res MsgError MessageInfo :=
  let r := wrap 8 (Z.land word 255) in
  let c := wrap 8 (Z.land (Z.shiftr word 8) 255) in
  let l := wrap 32 (Z.land (Z.shiftr word 16) 4294967295) in
  info_new l r c.

Record CapXfer := mkXfer { src : nat; xrights : Z; mode : GrantMode }.
Definition XFER_NONE : CapXfer := mkXfer 0 rights_empty GMove.

Record Message := mkMessage {
  info : MessageInfo;
  regs : list Z;         (* [u64; MSG_REGS] *)
  caps : list CapXfer;   (* [CapXfer; MAX_CAPS] *)
  mbadge : Z
}.

(** The arrays have their declared lengths, the counts are [u8]s. *)
Definition message_wf (m : Message) : Prop :=
  length (regs m) = MSG_REGS ∧ length (caps m) = MAX_CAPS ∧
  in_u 8 (n_regs (info m)) ∧ in_u 8 (n_caps (info m)).

Definition empty (l : Z) : Message :=
  mkMessage (match info_new l 0 0 with Ok i => i | _ => mkInfo l 0 0 end)
    (replicate MSG_REGS 0%Z) (replicate MAX_CAPS XFER_NONE) 0.

(** [regs[..n].copy_from_slice(&words[..n])] *)
Definition with_data (l : Z) (words : list Z) : Message :=
  let n := Nat.min (length words) MSG_REGS in
  mkMessage (mkInfo l (Z.of_nat n) 0)
    (list_inserts 0 (take n words) (replicate MSG_REGS 0%Z))
    (replicate MAX_CAPS XFER_NONE) 0.

(** [&a[..n]]: a panic when [n] exceeds the array. *)
Definition slice_to {A} (l : list A) (n : nat) : res Empty_set (list A) :=
  if n <=? length l then Ok (take n l) else Panic.

Definition data (m : Message) : res Empty_set (list Z) :=
  slice_to (regs m) (Nat.min (Z.to_nat (n_regs (info m))) MSG_REGS).
Definition transfers (m : Message) : res Empty_set (list CapXfer) :=
  slice_to (caps m) (Nat.min (Z.to_nat (n_caps (info m))) MAX_CAPS).

(** *** The packed word *)

Lemma land_ones_wrap w x : (0 <= w)%Z → Z.land x (Z.ones w) = wrap w x.
Proof. intros. unfold wrap. by apply Z.land_ones. Qed.

Lemma wrap_idem w x : (0 <= w)%Z → wrap w (wrap w x) = wrap w x.
Proof. intros. unfold wrap. apply Z.mod_mod. assert (0 < 2 ^ w)%Z by (apply Z.pow_pos_nonneg; lia). lia. Qed.

Lemma decode_fields word :
  decode word = info_new (wrap 32 (word / 2 ^ 16)) (wrap 8 word) (wrap 8 (word / 2 ^ 8)).
Proof.
  unfold decode. change 255%Z with (Z.ones 8). change 4294967295%Z with (Z.ones 32).
  rewrite !land_ones_wrap, !wrap_idem, !Z.shiftr_div_pow2 by lia. done.
Qed.

Lemma lor_disjoint_add a b n : (0 <= n)%Z → (0 <= b < 2 ^ n)%Z → Z.lor (a * 2 ^ n) b = (a * 2 ^ n + b)%Z.
Proof.
  intros Hn Hb. rewrite <- Z.lxor_lor; [rewrite <- Z.add_nocarry_lxor; [done|]|].
  all: apply Z.bits_inj'; intros i Hi; rewrite Z.land_spec, Z.bits_0.
  all: destruct (Z.ltb_spec i n); [rewrite Z.mul_pow2_bits_low by lia; done|].
  all: assert (Z.testbit b i = false) as ->; [|by rewrite andb_false_r].
  all: destruct (decide (b = 0%Z)) as [->|]; [apply Z.bits_0|].
  all: apply Z.bits_above_log2; [lia|]; apply Z.log2_lt_pow2; [lia|].
  all: assert (2 ^ n <= 2 ^ i)%Z by (apply Z.pow_le_mono_r; lia); lia.
Qed.

Lemma encode_sum mi :
  in_u 32 (label mi) → in_u 8 (n_regs mi) → in_u 8 (n_caps mi) →
  encode mi = (label mi * 2 ^ 16 + n_caps mi * 2 ^ 8 + n_regs mi)%Z.
Proof.
  unfold in_u. intros Hl Hr Hc. unfold encode. rewrite !Z.shiftl_mul_pow2 by lia.
  rewrite !wrap_small by (unfold in_u; lia). rewrite lor_disjoint_add by lia.
  replace (label mi * 2 ^ 16 + n_caps mi * 2 ^ 8)%Z with ((label mi * 2 ^ 8 + n_caps mi) * 2 ^ 8)%Z by lia.
  by rewrite lor_disjoint_add by lia.
Qed.

Lemma info_new_Ok l r c mi : info_new l r c = Ok mi ↔
  (r <= 4)%Z ∧ (c <= 2)%Z ∧ mi = mkInfo l r c.
Proof.
  unfold info_new, MSG_REGS, MAX_CAPS. split.
  - destruct (Z.ltb_spec (Z.of_nat 4) r); [done|]. destruct (Z.ltb_spec (Z.of_nat 2) c); [done|].
    intros [= <-]. split_and!; [lia..|done].
  - intros (? & ? & ->). rewrite !(proj2 (Z.ltb_ge _ _)) by lia. done.
Qed.

(** Encoding and decoding a descriptor are inverse: a descriptor accepted by
    [MessageInfo::new] decodes from its word to itself, and a word that decodes
    encodes back to its low 48 bits. *)
Theorem encode_decode_roundtrip l r c mi word mi' :
  in_u 32 l → in_u 8 r → in_u 8 c → info_new l r c = Ok mi →
  (0 <= word)%Z → decode word = Ok mi' →
  decode (encode mi) = Ok mi ∧ encode mi' = (word mod 2 ^ 48)%Z.
Proof.
  intros Hl Hr Hc Hnew Hw Hdec. split.
  - apply info_new_Ok in Hnew as (H1 & H2 & ->). rewrite encode_sum by done. simpl.
    rewrite decode_fields. unfold in_u, wrap in *. apply info_new_Ok.
    replace ((l * 2 ^ 16 + c * 2 ^ 8 + r) / 2 ^ 16)%Z with l by (apply Z.div_unique with (c * 2 ^ 8 + r)%Z; lia).
    replace ((l * 2 ^ 16 + c * 2 ^ 8 + r) / 2 ^ 8)%Z with (l * 2 ^ 8 + c)%Z
      by (apply Z.div_unique with r; lia).
    replace ((l * 2 ^ 16 + c * 2 ^ 8 + r) mod 2 ^ 8)%Z with r
      by (apply Z.mod_unique with (l * 2 ^ 8 + c)%Z; lia).
    replace ((l * 2 ^ 8 + c) mod 2 ^ 8)%Z with c by (apply Z.mod_unique with l; lia).
    rewrite Z.mod_small by lia. done.
  - rewrite decode_fields in Hdec. apply info_new_Ok in Hdec as (H1 & H2 & ->).
    assert (∀ x, in_u 8 (wrap 8 x)) as W8 by (intros; unfold in_u, wrap; apply Z.mod_pos_bound; lia).
    rewrite encode_sum; simpl; [|unfold in_u, wrap; apply Z.mod_pos_bound; lia|apply W8..].
    unfold wrap. rewrite (Z.mod_eq word (2 ^ 8)), (Z.mod_eq (word / 2 ^ 8) (2 ^ 8)), Z.div_div by lia.
    change (2 ^ 8 * 2 ^ 8)%Z with (2 ^ 16)%Z.
    rewrite (Z.mod_eq (word / 2 ^ 16) (2 ^ 32)), Z.div_div, (Z.mod_eq word (2 ^ 48)) by lia.
    change (2 ^ 16 * 2 ^ 32)%Z with (2 ^ 48)%Z. lia.
Qed.

Lemma encode_decode_roundtrip_witness :
  decode (encode (mkInfo 43981 3 1)) = Ok (mkInfo 43981 3 1) ∧
  encode (mkInfo 7 4 2) = ((7 * 2 ^ 16 + 2 * 2 ^ 8 + 4 + 2 ^ 50) mod 2 ^ 48)%Z.
Proof.
  apply (encode_decode_roundtrip 43981 3 1 _ (7 * 2 ^ 16 + 2 * 2 ^ 8 + 4 + 2 ^ 50)%Z);
    try (unfold in_u; lia); vm_compute; reflexivity.
Defined.

(** C38: No hostile descriptor indexes past a message: [decode] of any word is an
    error or counts within the limits, and [data] and [transfers] of a message
    with any counts at all do not panic and return at most [MSG_REGS] words and
    [MAX_CAPS] transfers. *)
Theorem hostile_counts_bounded word m :
  message_wf m →
  match decode word with
  | Ok mi => (0 <= n_regs mi <= Z.of_nat MSG_REGS)%Z ∧ (0 <= n_caps mi <= Z.of_nat MAX_CAPS)%Z
  | Err _ => True
  | Panic => False
  end ∧
  (∃ ds, data m = Ok ds ∧ length ds = Nat.min (Z.to_nat (n_regs (info m))) MSG_REGS ∧ ds `prefix_of` regs m) ∧
  (∃ ts, transfers m = Ok ts ∧ length ts = Nat.min (Z.to_nat (n_caps (info m))) MAX_CAPS ∧ ts `prefix_of` caps m).
Proof.
  intros (Hr & Hc & _). split_and!.
  - rewrite decode_fields. unfold info_new, MSG_REGS, MAX_CAPS.
    destruct (Z.ltb_spec (Z.of_nat 4) (wrap 8 word)); [done|].
    destruct (Z.ltb_spec (Z.of_nat 2) (wrap 8 (word / 2 ^ 8))); [done|]. simpl.
    unfold wrap in *. pose proof (Z.mod_pos_bound word (2 ^ 8)).
    pose proof (Z.mod_pos_bound (word / 2 ^ 8) (2 ^ 8)). lia.
  - unfold data, slice_to. rewrite (proj2 (Nat.leb_le _ _)) by (rewrite ?Hr, ?Hc; lia). eexists. split; [done|].
    split; [rewrite length_take, ?Hr, ?Hc; lia|apply prefix_take].
  - unfold transfers, slice_to. rewrite (proj2 (Nat.leb_le _ _)) by (rewrite ?Hr, ?Hc; lia). eexists. split; [done|].
    split; [rewrite length_take, ?Hr, ?Hc; lia|apply prefix_take].
Qed.

Definition demo_msg : Message := mkMessage (mkInfo 0 255 255) [1; 2; 3; 4]%Z [XFER_NONE; XFER_NONE] 0.

Lemma hostile_counts_bounded_witness : ∃ ds, data demo_msg = Ok ds ∧ length ds = 4.
Proof.
  destruct (hostile_counts_bounded 255 demo_msg) as (_ & (ds & Hd & Hl & _) & _).
  - unfold message_wf, in_u. repeat split; vm_compute; congruence.
  - exists ds. split; [exact Hd|exact Hl].
Defined.

End Message.

(** ** The endpoint *)
Module Endpoint.
Import Message.

Abbreviation PartyId := Z.

Record EndpointState := mkEndpoint {
  senders : list (PartyId * Message);
  receivers : list PartyId
}.

Inductive SendOutcome := Delivered (receiver : PartyId) (msg : Message) | SQueued.
Inductive RecvOutcome := Received (sender : PartyId) (msg : Message) | RQueued.

Definition new : EndpointState := mkEndpoint [] [].

Definition send (from : PartyId) (msg : Message) (s : EndpointState) : SendOutcome * EndpointState :=
  match receivers s with
  | r :: rs => (Delivered r msg, mkEndpoint (senders s) rs)
  | [] => (SQueued, mkEndpoint (senders s ++ [(from, msg)]) [])
  end.

Definition recv (by_ : PartyId) (s : EndpointState) : RecvOutcome * EndpointState :=
  match senders s with
  | (p, m) :: ss => (Received p m, mkEndpoint ss (receivers s))
  | [] => (RQueued, mkEndpoint [] (receivers s ++ [by_]))
  end.

Definition cancel (party : PartyId) (s : EndpointState) : bool * EndpointState :=
  let ss := filter (λ w, w.1 ≠ party) (senders s) in
  let rs := filter (λ p, p ≠ party) (receivers s) in
  (negb (length (senders s) + length (receivers s) =? length ss + length rs), mkEndpoint ss rs).

Definition is_idle (s : EndpointState) : bool :=
  match senders s, receivers s with [], [] => true | _, _ => false end.

(** *** The abstract rendezvous

    A request is a send of a message or a receive; the matches made are pairs of
    sender, message and receiver. *)
Inductive request := RSend (from : PartyId) (msg : Message) | RRecv (by_ : PartyId).

Fixpoint run (rs : list request) (s : EndpointState) : list (PartyId * Message * PartyId) * EndpointState :=
  match rs with
  | [] => ([], s)
  | RSend from msg :: rs' =>
      let '(o, s1) := send from msg s in
      let '(l, s2) := run rs' s1 in
      (match o with Delivered r m => (from, m, r) :: l | SQueued => l end, s2)
  | RRecv b :: rs' =>
      let '(o, s1) := recv b s in
      let '(l, s2) := run rs' s1 in
      (match o with Received p m => (p, m, b) :: l | RQueued => l end, s2)
  end.

Definition sends (rs : list request) : list (PartyId * Message) :=
  omap (λ r, match r with RSend f m => Some (f, m) | _ => None end) rs.
Definition recvs (rs : list request) : list PartyId :=
  omap (λ r, match r with RRecv b => Some b | _ => None end) rs.

(** "Senders XOR receivers wait." *)
Definition xor_inv (s : EndpointState) : Prop := senders s = [] ∨ receivers s = [].

(** The first send meets the first receive, the second the second, and so on. *)
Definition rendezvous (ss : list (PartyId * Message)) (rs : list PartyId) : list (PartyId * Message * PartyId) :=
  zip_with (λ w r, (w.1, w.2, r)) ss rs.

Lemma run_spec rs s : xor_inv s →
  let '(l, s') := run rs s in
  let S := senders s ++ sends rs in let R := receivers s ++ recvs rs in
  l = rendezvous S R ∧ senders s' = drop (length R) S ∧ receivers s' = drop (length S) R ∧ xor_inv s'.
Proof.
  revert s. induction rs as [|[f m|b] rs IH]; intros s Hx.
  - simpl. rewrite !app_nil_r. unfold rendezvous. destruct Hx as [Hs|Hr].
    + rewrite Hs. simpl. rewrite drop_nil, drop_0. split_and!; try done. by left.
    + rewrite Hr. simpl. rewrite drop_nil. split_and!; try done; [by destruct (senders s)|by right].
  - cbn [run]. unfold send. destruct (receivers s) as [|r rs'] eqn:Hr.
    + specialize (IH (mkEndpoint (senders s ++ [(f, m)]) []) (or_intror eq_refl)).
      destruct (run rs _) as [l s']. simpl in *. by rewrite <- app_assoc in IH.
    + assert (senders s = []) as Hs by (destruct Hx; [done|congruence]).
      specialize (IH (mkEndpoint [] rs') (or_introl eq_refl)). rewrite Hs.
      destruct (run rs _) as [l s']. simpl in *. destruct IH as (-> & ? & ? & ?). done.
  - cbn [run]. unfold recv. destruct (senders s) as [|[p m] ss] eqn:Hs.
    + specialize (IH (mkEndpoint [] (receivers s ++ [b])) (or_introl eq_refl)).
      destruct (run rs _) as [l s']. simpl in *. by rewrite <- app_assoc in IH.
    + assert (receivers s = []) as Hr by (destruct Hx; [congruence|done]). rewrite Hr.
      specialize (IH (mkEndpoint ss []) (or_intror eq_refl)).
      destruct (run rs _) as [l s']. simpl in *. destruct IH as (-> & ? & ? & ?). done.
Qed.

(** C36: From a new endpoint, whatever the interleaving of sends and receives, the
    [i]-th send is matched with the [i]-th receive (FIFO on both sides, no message
    lost, duplicated or delivered to two receivers), exactly the surplus of one
    side is left waiting, and never both sides. *)
Theorem endpoint_rendezvous rs :
  let '(l, s) := run rs new in
  l = rendezvous (sends rs) (recvs rs) ∧
  senders s = drop (length (recvs rs)) (sends rs) ∧
  receivers s = drop (length (sends rs)) (recvs rs) ∧
  (senders s = [] ∨ receivers s = []).
Proof. apply (run_spec rs new). by left. Qed.

(** [cancel] removes every trace of a party and nothing else: no waiter of
    that party is left to be matched, the order of the others is kept, the
    invariant stands, and the answer says whether the party was waiting. *)
Theorem cancel_exact p s : xor_inv s →
  let '(b, s') := cancel p s in
  xor_inv s' ∧
  (∀ w, w ∈ senders s' ↔ w ∈ senders s ∧ w.1 ≠ p) ∧ (∀ r, r ∈ receivers s' ↔ r ∈ receivers s ∧ r ≠ p) ∧
  senders s' `sublist_of` senders s ∧ receivers s' `sublist_of` receivers s ∧
  (b = true ↔ (∃ w, w ∈ senders s ∧ w.1 = p) ∨ p ∈ receivers s).
Proof.
  intros Hx. unfold cancel. simpl.
  assert (∀ {A} (P : A → Prop) `{∀ x, Decision (P x)} (l : list A),
    length (filter P l) < length l ↔ ∃ x, x ∈ l ∧ ¬ P x) as Hlen.
  { intros A P HP l. induction l as [|x l IH]; simpl.
    - split; [lia|]. intros (x & Hx' & _). by apply elem_of_nil in Hx'.
    - rewrite filter_cons. case_decide as Hd; simpl.
      + rewrite <- Nat.succ_lt_mono, IH. split.
        * intros (y & Hy & Hn). exists y. split; [by right|done].
        * intros (y & [->|Hy]%elem_of_cons & Hn); [done|eauto].
      + split; [intros _; exists x; split; [left|done]|].
        intros _. pose proof (filter_length_le P l). lia. }
  split_and!.
  - destruct Hx as [Hs|Hr]; [left|right]; simpl; by rewrite ?Hs, ?Hr.
  - intros w. rewrite list_elem_of_filter. naive_solver.
  - intros w. rewrite list_elem_of_filter. naive_solver.
  - apply sublist_filter.
  - apply sublist_filter.
  - rewrite negb_true_iff, Nat.eqb_neq.
    pose proof (filter_length_le (λ w : PartyId * Message, w.1 ≠ p) (senders s)).
    pose proof (filter_length_le (λ q : PartyId, q ≠ p) (receivers s)).
    pose proof (Hlen _ (λ w : PartyId * Message, w.1 ≠ p) _ (senders s)) as H1.
    pose proof (Hlen _ (λ q : PartyId, q ≠ p) _ (receivers s)) as H2.
    split.
    + intros Hne. destruct (decide (length (filter (λ w : PartyId * Message, w.1 ≠ p) (senders s)) < length (senders s))) as [Hl|Hl].
      * left. apply H1 in Hl as (w & Hw & Hp). exists w. split; [done|]. by apply dec_stable.
      * right. assert (length (filter (λ q, q ≠ p) (receivers s)) < length (receivers s)) as Hr by lia.
        apply H2 in Hr as (q & Hq & Hp). apply dec_stable in Hp. by subst.
    + intros [(w & Hw & Hp)|Hp].
      * assert (∃ x, x ∈ senders s ∧ ¬ (x.1 ≠ p)) as He by (exists w; auto). apply H1 in He. lia.
      * assert (∃ x, x ∈ receivers s ∧ ¬ (x ≠ p)) as He by (exists p; auto). apply H2 in He. lia.
Qed.

Definition demo_ep : EndpointState := mkEndpoint [] [3; 5; 3]%Z.
Lemma cancel_exact_witness : let '(b, s') := cancel 3 demo_ep in xor_inv s' ∧ b = true.
Proof.
  pose proof (cancel_exact 3 demo_ep (or_introl eq_refl)) as H.
  vm_compute in H. vm_compute. split; [apply H|reflexivity].
Defined.

End Endpoint.

(** ** The notification *)
Module Notification.

Abbreviation PartyId := Z.

Record NotificationState := mkNotif {
  pending : bool;
  waiters : list PartyId
}.

Inductive SignalOutcome := Woke (p : PartyId) | Latched.
Inductive WaitOutcome := Ready | Queued.

Definition new : NotificationState := mkNotif false [].

Definition signal (s : NotificationState) : SignalOutcome * NotificationState :=
  match waiters s with
  | p :: ws => (Woke p, mkNotif (pending s) ws)
  | [] => (Latched, mkNotif true [])
  end.

Definition wait (by_ : PartyId) (s : NotificationState) : WaitOutcome * NotificationState :=
  if pending s then (Ready, mkNotif false (waiters s))
  else (Queued, mkNotif (pending s) (waiters s ++ [by_])).

Definition cancel (party : PartyId) (s : NotificationState) : bool * NotificationState :=
  let ws := filter (λ p, p ≠ party) (waiters s) in
  (negb (length (waiters s) =? length ws), mkNotif (pending s) ws).

Inductive event := ESignal | EWait (p : PartyId) | ECancel (p : PartyId).

Definition next (e : event) (s : NotificationState) : NotificationState :=
  match e with
  | ESignal => (signal s).2
  | EWait p => (wait p s).2
  | ECancel p => (cancel p s).2
  end.

(** The parties let through by an event: woken by a signal, or ready at once. *)
Definition passed (e : event) (s : NotificationState) : list PartyId :=
  match e with
  | ESignal => match (signal s).1 with Woke p => [p] | Latched => [] end
  | EWait p => match (wait p s).1 with Ready => [p] | Queued => [] end
  | ECancel _ => []
  end.

Fixpoint run (es : list event) (s : NotificationState) : list PartyId * NotificationState :=
  match es with
  | [] => ([], s)
  | e :: es' => let '(l, s') := run es' (next e s) in (passed e s ++ l, s')
  end.

Definition is_signal (e : event) : bool := match e with ESignal => true | _ => false end.
Definition signals (es : list event) : nat := length (filter (λ e, is_signal e = true) es).

Definition latch_inv (s : NotificationState) : Prop := pending s = true → waiters s = [].

Lemma next_inv e s : latch_inv s → latch_inv (next e s).
Proof.
  unfold latch_inv. intros H. destruct e; simpl.
  - unfold signal. destruct (waiters s) eqn:E; simpl; [done|]. intros Hp. by apply H in Hp.
  - unfold wait. destruct (pending s) eqn:E; simpl; [done|]. congruence.
  - intros Hp. by rewrite H.
Qed.


End Notification.
