(* ===== verification/Executor.v ===== *)
(** * The cooperative executor ([sched/src])

    The run loop, its ready queue and the wakers.  What a future does when it is
    polled is client code: [poll] is a parameter that may depend on and change
    anything ([World]), answer ready or pending, and wake any tasks.  The
    spinlock around the queue only serialises [push] and [pop], which are atomic
    steps here. *)

From S2P Require Import Prelude Rights Cap Budget.

Section executor.
Context {Fut World : Type}.
(** One poll: whether it is ready, the ids it wakes in order, the future left. *)
Context (poll : World → Fut → bool * list Z * Fut * World).

Record Task := mkTask { task_id : Z; future : Fut; budget : Budget }.

Record Executor := mkExecutor {
  tasks : gmap Z Task;
  ready : list Z;
  parked : list Z
}.

Definition executor_new : Executor := mkExecutor ∅ [] [].

(** [TaskId::allocate]: [NEXT.fetch_add(1)] wraps. *)
Definition allocate (next : Z) : Z * Z := (next, wrap 64 (next + 1)).
Definition task_new (next : Z) (f : Fut) (b : Budget) : Task * Z :=
  (mkTask (allocate next).1 f b, (allocate next).2).

Definition push (id : Z) (ex : Executor) : Executor :=
  mkExecutor (tasks ex) (ready ex ++ [id]) (parked ex).
(** [TaskWaker::wake] of the ids a poll wakes. *)
Definition wakes (ids : list Z) (ex : Executor) : Executor := foldl (λ ex id, push id ex) ex ids.

Definition spawn (t : Task) (ex : Executor) : Z * Executor :=
  (task_id t, push (task_id t) (mkExecutor (<[task_id t:=t]> (tasks ex)) (ready ex) (parked ex))).

Definition park (id : Z) (ex : Executor) : Executor :=
  if decide (id ∈ parked ex) then ex else mkExecutor (tasks ex) (ready ex) (parked ex ++ [id]).

(** The body of the [while let] loop after a successful [pop] of [id]; the
    polled id, if any, is reported. *)
Definition run_one (id : Z) (ex : Executor) (w : World) : Executor * World * list Z :=
  match tasks ex !! id with
  | None => (ex, w, [])
  | Some t =>
      if is_depleted (budget t) then (park id ex, w, []) else
      let '(rdy, ws, f', w') := poll w (future t) in
      let ex1 := wakes ws ex in
      if rdy : bool
      then (mkExecutor (delete id (tasks ex1)) (ready ex1) (parked ex1), w', [id])
      else (mkExecutor (<[id:=mkTask (task_id t) f' (charge (budget t) 1)]> (tasks ex1))
              (ready ex1) (parked ex1), w', [id])
  end.

(** [run_until_idle], at most [fuel] iterations, with the log of polls. *)
Fixpoint run_until_idle (fuel : nat) (ex : Executor) (w : World) : option (Executor * World * list Z) :=
  match ready ex with
  | [] => Some (ex, w, [])
  | id :: q =>
      match fuel with
      | O => None
      | S fuel' =>
          let '(ex1, w1, l1) := run_one id (mkExecutor (tasks ex) q (parked ex)) w in
          match run_until_idle fuel' ex1 w1 with
          | Some (ex', w', l) => Some (ex', w', l1 ++ l)
          | None => None
          end
      end
  end.

Definition replenish_task (t : Task) : Task := mkTask (task_id t) (future t) (replenish (budget t)).

Definition replenish_all (ex : Executor) : Executor :=
  let ts := replenish_task <$> tasks ex in
  mkExecutor ts (ready ex ++ filter (λ id, is_Some (ts !! id)) (parked ex)) [].

Definition task_count (ex : Executor) : nat := base.size (tasks ex).
Definition parked_count (ex : Executor) : nat := length (parked ex).

(** Budgets have the width of their fields. *)
Definition ewf (ex : Executor) : Prop := ∀ id t, tasks ex !! id = Some t → Budget_wf (budget t).

(** ** Facts about one iteration *)

Lemma wakes_eq ids ex : wakes ids ex = mkExecutor (tasks ex) (ready ex ++ ids) (parked ex).
Proof.
  unfold wakes. revert ex. induction ids as [|i ids IH]; intros ex; simpl.
  - rewrite app_nil_r. by destruct ex.
  - rewrite IH. unfold push; simpl. by rewrite <- app_assoc.
Qed.

Lemma charge_remaining b : Budget_wf b → is_depleted b = false →
  Budget_wf (charge b 1) ∧ remaining (charge b 1) = (remaining b - 1)%Z ∧
  capacity (charge b 1) = capacity b ∧ period (charge b 1) = period b ∧ (0 < remaining b)%Z.
Proof.
  unfold Budget_wf, is_depleted, remaining, charge, sat_sub, sat_add, in_u. simpl.
  intros (Hc & Hn & Hp) Hd%Z.leb_gt. split_and!; lia || done.
Qed.

(** CPU time left in all live tasks, plus one per task. *)
Definition energy (ex : Executor) : Z := msum (λ t, remaining (budget t) + 1)%Z (tasks ex).

Lemma energy_nonneg ex : (0 <= energy ex)%Z.
Proof. apply msum_nonneg. intros t. pose proof (is_depleted_remaining (budget t)). lia. Qed.

(** What one iteration does to a task: nothing, one charged poll, or completion. *)
Lemma run_one_spec id ex w ex' w' l :
  ewf ex → run_one id ex w = (ex', w', l) →
  ewf ex' ∧
  (l = [] ∧ tasks ex' = tasks ex ∧ ready ex' = ready ex ∧
     (tasks ex !! id = None ∧ parked ex' = parked ex ∨
      ∃ t, tasks ex !! id = Some t ∧ is_depleted (budget t) = true ∧ id ∈ parked ex' ∧
        (∀ i, i ∈ parked ex' ↔ i ∈ parked ex ∨ i = id)) ∨
   l = [id] ∧ parked ex' = parked ex ∧ (energy ex' < energy ex)%Z ∧
     ∃ t, tasks ex !! id = Some t ∧ (0 < remaining (budget t))%Z ∧
       (∀ i, i ≠ id → tasks ex' !! i = tasks ex !! i) ∧
       (tasks ex' !! id = None ∨ ∃ t', tasks ex' !! id = Some t' ∧
          capacity (budget t') = capacity (budget t) ∧
          remaining (budget t') = (remaining (budget t) - 1)%Z)).
Proof.
  intros W. unfold run_one. destruct (tasks ex !! id) as [t|] eqn:Ht.
  2:{ intros [= <- <- <-]. split; [done|]. left. split_and!; try done. by left. }
  destruct (is_depleted (budget t)) eqn:Hd.
  { intros [= <- <- <-]. unfold park. case_decide as Hin.
    - split; [done|]. left. split_and!; try done. right. exists t. split_and!; try done.
      intros i. split; [by left|]. intros [Hx| ->]; done.
    - split; [done|]. left. split_and!; try done. right. exists t. simpl.
      split_and!; try done; [apply elem_of_app; right; by apply list_elem_of_singleton|].
      intros i. rewrite elem_of_app, list_elem_of_singleton. done. }
  destruct (poll w (future t)) as [[[rdy ws] f'] w1]. rewrite wakes_eq. simpl.
  destruct (charge_remaining _ (W _ _ Ht) Hd) as (Hwf & Hrem & Hcap & _ & Hpos).
  destruct rdy; intros [= <- <- <-]; simpl.
  - split. { intros i t' Hi. simpl in Hi. apply lookup_delete_Some in Hi as [_ Hi]. by eapply W. }
    right. split_and!; try done.
    + unfold energy. simpl. rewrite (msum_delete _ _ _ t) by done. lia.
    + exists t. split_and!; try done; [intros i Hi; by rewrite lookup_delete_ne|].
      left. apply lookup_delete_eq.
  - split. { intros i t' Hi. simpl in Hi. apply lookup_insert_Some in Hi as [[_ <-]|[_ Hi]]; [done|by eapply W]. }
    right. split_and!; try done.
    + unfold energy. simpl. rewrite (msum_insert _ _ _ t) by done. simpl. lia.
    + exists t. split_and!; try done; [intros i Hi; by rewrite lookup_insert_ne|].
      right. eexists. split; [apply lookup_insert_eq|done].
Qed.

Lemma run_S fuel ex w : run_until_idle (S fuel) ex w =
  match ready ex with
  | [] => Some (ex, w, [])
  | id :: q =>
      let '(ex1, w1, l1) := run_one id (mkExecutor (tasks ex) q (parked ex)) w in
      match run_until_idle fuel ex1 w1 with
      | Some (ex', w', l) => Some (ex', w', l1 ++ l)
      | None => None
      end
  end.
Proof. done. Qed.

Lemma run_mono fuel ex w r : run_until_idle fuel ex w = Some r → run_until_idle (S fuel) ex w = Some r.
Proof.
  revert ex w r. induction fuel as [|fuel IH]; intros ex w r.
  - rewrite run_S. cbn [run_until_idle]. by destruct (ready ex).
  - rewrite (run_S (S fuel)), (run_S fuel). destruct (ready ex) as [|id q]; [done|].
    destruct (run_one id _ w) as [[ex1 w1] l1]. intros H.
    destruct (run_until_idle fuel ex1 w1) as [[[ex' w'] l]|] eqn:E; [|done].
    by rewrite (IH _ _ _ E).
Qed.

Lemma run_mono_le n m ex w r : n ≤ m → run_until_idle n ex w = Some r → run_until_idle m ex w = Some r.
Proof. induction 1; [done|]. intros. apply run_mono. auto. Qed.

(** How many times [id] occurs in the log. *)
Definition polls (id : Z) (l : list Z) : Z := Z.of_nat (length (filter (λ i, i = id) l)).

Lemma polls_app id l k : polls id (l ++ k) = (polls id l + polls id k)%Z.
Proof. unfold polls. rewrite filter_app, length_app. lia. Qed.
Lemma polls_nonneg id l : (0 <= polls id l)%Z.
Proof. unfold polls. lia. Qed.
Lemma polls_same id : polls id [id] = 1%Z.
Proof. unfold polls. rewrite filter_cons, decide_True by done. done. Qed.
Lemma polls_other id i : i ≠ id → polls id [i] = 0%Z.
Proof. intros. unfold polls. by rewrite filter_cons, decide_False by done. Qed.
Lemma polls_in id l : (0 < polls id l)%Z ↔ id ∈ l.
Proof.
  unfold polls. split.
  - intros H. destruct (filter (λ i, i = id) l) as [|x k] eqn:E; [simpl in H; lia|].
    assert (x ∈ filter (λ i, i = id) l) as Hx by (rewrite E; left).
    apply list_elem_of_filter in Hx as [-> ?]. done.
  - intros H. assert (id ∈ filter (λ i, i = id) l) as Hx by (by apply list_elem_of_filter).
    destruct (filter _ l); [by apply elem_of_nil in Hx|]. simpl. lia.
Qed.

(** What a run leaves. *)
Record idle_result (ex ex' : Executor) (l : list Z) : Prop := {
  ir_wf : ewf ex';
  ir_ready : ready ex' = [];
  (* each task is polled at most as often as it had budget, and charged for it *)
  ir_task id t : tasks ex !! id = Some t →
    (polls id l <= remaining (budget t))%Z ∧
    (tasks ex' !! id = None ∧ (0 < polls id l)%Z ∨ ∃ t', tasks ex' !! id = Some t' ∧
       capacity (budget t') = capacity (budget t) ∧
       remaining (budget t') = (remaining (budget t) - polls id l)%Z);
  ir_dead id : tasks ex !! id = None → tasks ex' !! id = None ∧ polls id l = 0%Z;
  (* parked tasks: the old ones, and tasks out of budget *)
  ir_parked id : id ∈ parked ex → id ∈ parked ex';
  ir_new id : id ∈ parked ex' → id ∈ parked ex ∨
    ∃ t, tasks ex' !! id = Some t ∧ is_depleted (budget t) = true;
  (* no wake is lost *)
  ir_served id : id ∈ ready ex → is_Some (tasks ex !! id) → id ∈ l ∨ id ∈ parked ex';
  ir_energy : (Z.of_nat (length l) <= energy ex - energy ex')%Z
}.

Lemma idle_step id q ex w ex1 w1 l1 ex' l :
  ewf ex → ready ex = id :: q →
  run_one id (mkExecutor (tasks ex) q (parked ex)) w = (ex1, w1, l1) →
  idle_result ex1 ex' l → idle_result ex ex' (l1 ++ l).
Proof.
  intros W Hr Hone R. destruct (run_one_spec id (mkExecutor (tasks ex) q (parked ex)) w ex1 w1 l1 W Hone) as [W1 Hcase].
  simpl in Hcase. destruct Hcase as
    [(-> & Ht & Hrd & Hp)|(-> & Hp & He & t & Ht & Hpos & Hoth & Hid)].
  - simpl. split.
    + apply (ir_wf _ _ _ R).
    + apply (ir_ready _ _ _ R).
    + intros i ti Hi. apply (ir_task _ _ _ R). by rewrite Ht.
    + intros i Hi. apply (ir_dead _ _ _ R). by rewrite Ht.
    + intros i Hi. apply (ir_parked _ _ _ R). destruct Hp as [[_ ->]|(t & _ & _ & _ & Hpk)]; [done|].
      apply Hpk. by left.
    + intros i Hi. destruct (ir_new _ _ _ R _ Hi) as [Hi1|?]; [|by right].
      destruct Hp as [[_ Hpk]|(t & Hti & Hd & _ & Hpk)]; [left; congruence|].
      apply Hpk in Hi1 as [?| ->]; [by left|]. right.
      destruct (ir_task _ _ _ R id t) as [Hle Hres]; [by rewrite Ht|].
      pose proof (polls_nonneg id l). apply is_depleted_remaining in Hd as Hz.
      destruct Hres as [[_ ?]|(t' & Ht' & _ & Hrem)]; [lia|]. exists t'. split; [done|].
      apply is_depleted_remaining. lia.
    + intros i Hi Hs. rewrite Hr in Hi. apply elem_of_cons in Hi as [->|Hi].
      * destruct Hp as [[Hn _]|(t & _ & _ & Hin & _)]; [rewrite Hn in Hs; by destruct Hs|].
        right. by apply (ir_parked _ _ _ R).
      * apply (ir_served _ _ _ R); [by rewrite Hrd|by rewrite Ht].
    + pose proof (ir_energy _ _ _ R) as Hen.
      assert (energy ex1 = energy ex) as Heq by (unfold energy; by rewrite Ht). lia.
  - split.
    + apply (ir_wf _ _ _ R).
    + apply (ir_ready _ _ _ R).
    + intros i ti Hi. rewrite polls_app. pose proof (polls_nonneg i l).
      destruct (decide (i = id)) as [->|Hne].
      * rewrite polls_same. simplify_eq. destruct Hid as [Hn|(t' & Ht' & Hc & Hrem)].
        -- destruct (ir_dead _ _ _ R id Hn) as [-> ->]. split; [lia|]. left. split; [done|lia].
        -- destruct (ir_task _ _ _ R id t' Ht') as [Hle [[Hn ?]|(t2 & Ht2 & Hc2 & Hr2)]].
           ++ split; [lia|]. left. split; [done|lia].
           ++ split; [lia|]. right. exists t2. split_and!; [done|congruence|lia].
      * rewrite polls_other by done. rewrite Z.add_0_l. apply (ir_task _ _ _ R). by rewrite Hoth.
    + intros i Hi. assert (i ≠ id) as Hne by (intros ->; congruence).
      rewrite polls_app, polls_other by done. rewrite Z.add_0_l.
      apply (ir_dead _ _ _ R). by rewrite Hoth.
    + intros i Hi. apply (ir_parked _ _ _ R). congruence.
    + intros i Hi. destruct (ir_new _ _ _ R _ Hi) as [Hi1|?]; [left; congruence|by right].
    + intros i Hi Hs. rewrite Hr in Hi. destruct (decide (i = id)) as [->|Hne].
      * left. apply elem_of_app. left. by apply list_elem_of_singleton.
      * apply elem_of_cons in Hi as [?|Hi]; [done|].
        destruct (ir_served _ _ _ R i) as [?|?]; [|by rewrite Hoth| |by right].
        -- unfold run_one in Hone. simpl in Hone. rewrite Ht in Hone.
           repeat case_match; simplify_eq/=; rewrite wakes_eq; simpl; apply elem_of_app; by left.
        -- left. apply elem_of_app. by right.
    + pose proof (ir_energy _ _ _ R) as Hen. rewrite length_app. simpl.
      assert (energy (mkExecutor (tasks ex) q (parked ex)) = energy ex) as Heq by done. lia.
Qed.

(** The loop ends, whatever the futures do. *)
Lemma run_terminates ex w : ewf ex →
  ∃ n ex' w' l, run_until_idle n ex w = Some (ex', w', l) ∧ idle_result ex ex' l.
Proof.
  remember (Z.to_nat (energy ex)) as e eqn:He. revert ex w He.
  induction (lt_wf e) as [e _ IHe]. intros ex w ->.
  remember (length (ready ex)) as k eqn:Hk. revert ex w IHe Hk.
  induction k as [|k IHk]; intros ex w IHe Hk W.
  { exists 0, ex, w, []. cbn [run_until_idle]. destruct (ready ex) eqn:Hr; [|done].
    split; [done|]. split; try done; try lia.
    - intros id t Ht. split; [apply is_depleted_remaining|]. right. exists t.
      split_and!; try done. unfold polls. simpl. lia.
    - by left.
    - rewrite Hr. intros id Hin. by apply elem_of_nil in Hin.
  }
  destruct (ready ex) as [|id q] eqn:Hr; [done|].
  destruct (run_one id (mkExecutor (tasks ex) q (parked ex)) w) as [[ex1 w1] l1] eqn:Hone.
  destruct (run_one_spec id (mkExecutor (tasks ex) q (parked ex)) w ex1 w1 l1 W Hone) as [W1 Hcase]. simpl in Hcase.
  assert (∃ n ex' w' l, run_until_idle n ex1 w1 = Some (ex', w', l) ∧ idle_result ex1 ex' l)
    as (n & ex' & w' & l & Hrun & R).
  { destruct Hcase as [(_ & Ht & Hrd & _)|(_ & _ & He & _)].
    - assert (energy ex1 = energy ex) as Heq by (unfold energy; by rewrite Ht).
      apply IHk; [by rewrite Heq|rewrite Hrd; simpl in Hk; lia|done].
    - assert (energy (mkExecutor (tasks ex) q (parked ex)) = energy ex) as Heq by done.
      pose proof (energy_nonneg ex1). eapply (IHe (Z.to_nat (energy ex1))); [lia|done|done]. }
  exists (S n), ex', w', (l1 ++ l). rewrite run_S, Hr, Hone, Hrun.
  split; [done|]. by eapply idle_step.
Qed.

(** C35: Whatever the futures do when polled (finish, wake any tasks any number
    of times, share state), [run_until_idle] ends with an empty ready queue;
    every task was polled at most as many times as it had CPU budget left and was
    charged for each pending poll (CAP-SCHED-1: no budget, no run); a task woken
    before the run was polled or is parked; and tasks newly parked are exactly
    out of budget. *)
Theorem run_until_idle_bounded ex w :
  ewf ex →
  ∃ n0 ex' w' l, (∀ n, n0 ≤ n → run_until_idle n ex w = Some (ex', w', l)) ∧
    ready ex' = [] ∧ (Z.of_nat (length l) <= energy ex)%Z ∧
    (∀ id t, tasks ex !! id = Some t →
      (polls id l <= remaining (budget t))%Z ∧
      (tasks ex' !! id = None ∧ (0 < polls id l)%Z ∨ ∃ t', tasks ex' !! id = Some t' ∧
         capacity (budget t') = capacity (budget t) ∧
         remaining (budget t') = (remaining (budget t) - polls id l)%Z)) ∧
    (∀ id, id ∈ ready ex → is_Some (tasks ex !! id) → id ∈ l ∨ id ∈ parked ex') ∧
    (∀ id, id ∈ parked ex' → id ∈ parked ex ∨
      ∃ t, tasks ex' !! id = Some t ∧ is_depleted (budget t) = true).
Proof.
  intros W. destruct (run_terminates ex w W) as (n & ex' & w' & l & Hrun & R).
  exists n, ex', w', l. split; [intros m Hm; by eapply run_mono_le|].
  pose proof (energy_nonneg ex'). pose proof (ir_energy _ _ _ R). split; [apply R|]. split; [lia|].
  split; [apply R|]. split; apply R.
Qed.

(** A replenishment starts a full period: every task's budget is whole
    again, nothing stays parked, and every live task that was parked is ready. *)
Theorem replenish_readmits ex :
  ewf ex →
  let ex' := replenish_all ex in
  ewf ex' ∧ parked ex' = [] ∧
  (∀ id, is_Some (tasks ex' !! id) ↔ is_Some (tasks ex !! id)) ∧
  (∀ id t, tasks ex !! id = Some t → ∃ t', tasks ex' !! id = Some t' ∧ future t' = future t ∧
    remaining (budget t') = capacity (budget t)) ∧
  (∀ id, id ∈ parked ex → is_Some (tasks ex !! id) → id ∈ ready ex') ∧
  ready ex `prefix_of` ready ex'.
Proof.
  intros W ex'. unfold ex', replenish_all. simpl. split_and!; try done.
  - intros id t Ht. simpl in Ht. rewrite lookup_fmap in Ht. apply fmap_Some in Ht as (t0 & Ht0 & ->).
    destruct (W _ _ Ht0) as (? & ? & ?). unfold Budget_wf, replenish, in_u in *. simpl. split_and!; try done; lia.
  - intros id. rewrite lookup_fmap. by rewrite fmap_is_Some.
  - intros id t Ht. exists (replenish_task t). rewrite lookup_fmap, Ht. split_and!; try done.
    destruct (W _ _ Ht) as (Hc & _). unfold remaining, replenish_task, replenish, sat_sub, in_u in *. simpl. lia.
  - intros id Hid Hs. apply elem_of_app. right. apply list_elem_of_filter. split; [|done].
    rewrite lookup_fmap. by apply fmap_is_Some.
  - by eexists.
Qed.
End executor.
Arguments Task : clear implicits.
Arguments Executor : clear implicits.

(** ** [yield_now] and a concrete run

    [YieldNow::poll] of the task [self]: pending once, having woken its task. *)
Definition yield_now_poll (self : Z) (yielded : bool) : bool * list Z * bool :=
  if yielded then (true, [], true) else (false, [self], true).

(** A future that awaits [yield_now] [n] more times and is then done. *)
Definition yielder_poll (_ : unit) (f : Z * nat) : bool * list Z * (Z * nat) * unit :=
  match f.2 with
  | O => (true, [], f, ())
  | S n => let '(rdy, ws, _) := yield_now_poll f.1 false in (rdy, ws, (f.1, n), ())
  end.

Definition demo_ex : Executor (Z * nat) :=
  (spawn (mkTask 2 (2%Z, 5) (mkBudget 3 0 10)) (spawn (mkTask 1 (1%Z, 2) (mkBudget 9 0 10)) executor_new).2).2.

Lemma demo_ex_wf : ewf demo_ex.
Proof.
  intros id t Ht. unfold demo_ex, spawn, push in Ht. cbn [tasks fst snd task_id executor_new] in Ht.
  apply lookup_insert_Some in Ht as [[_ <-]|[_ Ht]];
    [|apply lookup_insert_Some in Ht as [[_ <-]|[_ Ht]]; [|done]];
    unfold Budget_wf, in_u; repeat split; vm_compute; congruence.
Qed.

Lemma run_until_idle_bounded_witness :
  ∃ n0 ex' w' l, (∀ n, n0 ≤ n → run_until_idle yielder_poll n demo_ex () = Some (ex', w', l)) ∧
    ready ex' = [] ∧ (polls 2 l <= 3)%Z.
Proof.
  destruct (run_until_idle_bounded yielder_poll demo_ex () demo_ex_wf)
    as (n0 & ex' & w' & l & Hrun & Hr & _ & Ht & _).
  exists n0, ex', w', l. split; [exact Hrun|]. split; [exact Hr|].
  destruct (Ht 2%Z (mkTask 2 (2%Z, 5) (mkBudget 3 0 10))) as [Hp _]; [vm_compute; reflexivity|exact Hp].
Defined.

Lemma replenish_readmits_witness : parked (replenish_all demo_ex) = [] ∧ ewf (replenish_all demo_ex).
Proof.
  destruct (replenish_readmits demo_ex demo_ex_wf) as (H1 & H2 & _). split; [exact H2|exact H1].
Defined.
