(* ===== verification/Pex.v ===== *)
(** * The executable format ([abi/src/pex.rs], [abi/src/encode.rs])

    The parser of hostile images and the encoder.  Offsets and lengths are
    [usize] values kept as [Z], with every addition and multiplication of the
    source checked at 64 bits. *)

From S2P Require Import Prelude.

Definition PEX_MAGIC : Z := 22562128.
Definition PEX_VERSION : Z := 1.
Definition ARCH_X86_64 : Z := 1.
Definition ARCH_AARCH64 : Z := 2.
Definition HEADER_LEN : Z := 48.
Definition SEGMENT_LEN : Z := 32.
Definition MANIFEST_LEN : Z := 32.
Definition MAX_SEGMENTS : Z := 16.
Definition MAX_MANIFEST : Z := 32.
Definition MAX_SEGMENT_PAGES : Z := 4096.
Definition PERM_R : Z := 1.
Definition PERM_W : Z := 2.
Definition PERM_X : Z := 4.
Definition MANIFEST_SCHED : Z := 1.
Definition MANIFEST_ENDPOINT : Z := 2.
Definition MANIFEST_FRAME : Z := 3.

Inductive PexError :=
| TooShort | BadMagic | BadVersion | ArchMismatch | LenMismatch | TooManyRecords
| TableOutOfBounds | SegmentOutOfBounds | BadMemSize | SegmentTooLarge | BadPermission
| Unaligned | EntryNotExecutable | ReservedNonZero.

Abbreviation R := (res PexError).

Definition blen (b : bytes) : Z := Z.of_nat (length b).

(** [b.get(off..off + n)] and the little-endian reads. *)
Definition get_range (b : bytes) (off : Z) (n : nat) : R bytes :=
  e ← arith 64 (off + Z.of_nat n);
  if (e <=? blen b)%Z then Ok (take n (drop (Z.to_nat off) b)) else Err TooShort.
Definition rd (n : nat) (b : bytes) (off : Z) : R Z := s ← get_range b off n; Ok (from_le s).
Definition rd_u16 := rd 2.
Definition rd_u32 := rd 4.
Definition rd_u64 := rd 8.
(** [*b.get(off).ok_or(TooShort)?] *)
Definition rd_u8 (b : bytes) (off : Z) : R Z := ok_or (b !! Z.to_nat off) TooShort.

Record Segment := mkSegment {
  file_off : Z;
  file_size : Z;
  vaddr : Z;
  mem_size : Z;
  perm : Z
}.

Definition is_exec (s : Segment) : bool := negb (Z.land (perm s) PERM_X =? 0)%Z.
Definition is_write (s : Segment) : bool := negb (Z.land (perm s) PERM_W =? 0)%Z.

Record ManifestEntry := mkManifest {
  m_cap_type : Z;
  dest_slot : Z;
  m_rights : Z;
  param0 : Z;
  param1 : Z
}.

Record Pex := mkPex {
  pbytes : bytes;
  entry : Z;
  seg_off : Z;
  seg_count : Z;
  man_off : Z;
  man_count : Z
}.

Definition table_fits (total off count rec_len : Z) : bool :=
  match checked 64 (count * rec_len) with
  | Some w => match checked 64 (off + w) with
              | Some e => (e <=? total)%Z
              | None => false
              end
  | None => false
  end.

Definition validate_perm (p : Z) : R unit :=
  if negb (Z.land p (255 - Z.lor (Z.lor PERM_R PERM_W) PERM_X) =? 0)%Z
     || (Z.land p PERM_R =? 0)%Z
     || (negb (Z.land p PERM_W =? 0)%Z && negb (Z.land p PERM_X =? 0)%Z)
  then Err BadPermission else Ok ().

Definition segment_raw (p : Pex) (i : Z) : R Segment :=
  w ← arith 64 (i * SEGMENT_LEN);
  base ← arith 64 (seg_off p + w);
  fo ← rd_u32 (pbytes p) base;
  fs ← (o ← arith 64 (base + 4); rd_u32 (pbytes p) o);
  va ← (o ← arith 64 (base + 8); rd_u64 (pbytes p) o);
  ms ← (o ← arith 64 (base + 16); rd_u64 (pbytes p) o);
  pe ← (o ← arith 64 (base + 24); rd_u8 (pbytes p) o);
  Ok (mkSegment fo fs va ms pe).

Definition manifest_raw (p : Pex) (i : Z) : R ManifestEntry :=
  w ← arith 64 (i * MANIFEST_LEN);
  base ← arith 64 (man_off p + w);
  ct ← rd_u8 (pbytes p) base;
  ds ← (o ← arith 64 (base + 2); rd_u16 (pbytes p) o);
  ri ← (o ← arith 64 (base + 4); rd_u32 (pbytes p) o);
  p0 ← (o ← arith 64 (base + 8); rd_u64 (pbytes p) o);
  p1 ← (o ← arith 64 (base + 16); rd_u64 (pbytes p) o);
  Ok (mkManifest ct ds ri p0 p1).

(** The checks of one segment; the answer is whether the entry point lies in it. *)
Definition check_segment (p : Pex) (i : Z) : R bool :=
  s ← segment_raw p i;
  validate_perm (perm s);;
  if negb (Z.land (vaddr s) 4095 =? 0)%Z || negb (Z.land (mem_size s) 4095 =? 0)%Z
  then Err Unaligned else
  if (mem_size s <? file_size s)%Z then Err BadMemSize else
  if (MAX_SEGMENT_PAGES <? Z.shiftr (mem_size s) 12)%Z then Err SegmentTooLarge else
  file_end ← ok_or (checked 64 (file_off s + file_size s)) SegmentOutOfBounds;
  if (blen (pbytes p) <? file_end)%Z then Err SegmentOutOfBounds else
  seg_end ← ok_or (checked 64 (vaddr s + mem_size s)) Unaligned;
  Ok (is_exec s && (vaddr s <=? entry p)%Z && (entry p <? seg_end)%Z).

Fixpoint check_segments (p : Pex) (ix : list nat) (entry_ok : bool) : R bool :=
  match ix with
  | [] => Ok entry_ok
  | i :: ix' =>
      b ← check_segment p (Z.of_nat i);
      check_segments p ix' (if b : bool then true else entry_ok)
  end.

Fixpoint check_manifest (p : Pex) (ix : list nat) : R unit :=
  match ix with
  | [] => Ok ()
  | i :: ix' => manifest_raw p (Z.of_nat i);; check_manifest p ix'
  end.

Definition parse (b : bytes) (arch : Z) : R Pex :=
  if (blen b <? HEADER_LEN)%Z then Err TooShort else
  magic ← rd_u32 b 0;
  if negb (magic =? PEX_MAGIC)%Z then Err BadMagic else
  version ← rd_u16 b 4;
  if negb (version =? PEX_VERSION)%Z then Err BadVersion else
  a ← rd_u16 b 6;
  if negb (a =? arch)%Z then Err ArchMismatch else
  ent ← rd_u64 b 8;
  total_len ← rd_u32 b 16;
  if negb (total_len =? blen b)%Z then Err LenMismatch else
  so ← rd_u32 b 20;
  sc ← rd_u16 b 24;
  mc ← rd_u16 b 26;
  mo ← rd_u32 b 28;
  integ_off ← rd_u32 b 32;
  integ_len ← rd_u32 b 36;
  reserved ← rd_u64 b 40;
  if negb (reserved =? 0)%Z then Err ReservedNonZero else
  if (MAX_SEGMENTS <? sc)%Z || (MAX_MANIFEST <? mc)%Z then Err TooManyRecords else
  if negb (table_fits (blen b) so sc SEGMENT_LEN) || negb (table_fits (blen b) mo mc MANIFEST_LEN)
  then Err TableOutOfBounds else
  (if negb (integ_len =? 0)%Z then
     e ← ok_or (checked 64 (integ_off + integ_len)) TableOutOfBounds;
     if (blen b <? e)%Z then Err TableOutOfBounds else Ok ()
   else Ok ());;
  let p := mkPex b ent so sc mo mc in
  entry_ok ← check_segments p (seq 0 (Z.to_nat sc)) false;
  if negb entry_ok then Err EntryNotExecutable else
  check_manifest p (seq 0 (Z.to_nat mc));;
  Ok p.

(** The accessors: [assert!] and [expect] are panics. *)
Definition expect {A} (r : R A) : R A := match r with Ok a => Ok a | _ => Panic end.

Definition segment (p : Pex) (i : Z) : R Segment :=
  if (i <? seg_count p)%Z then expect (segment_raw p i) else Panic.

Definition segment_data (p : Pex) (i : Z) : R bytes :=
  s ← segment p i;
  e ← arith 64 (file_off s + file_size s);
  if (e <=? blen (pbytes p))%Z
  then Ok (take (Z.to_nat (file_size s)) (drop (Z.to_nat (file_off s)) (pbytes p)))
  else Panic.

Definition manifest (p : Pex) (i : Z) : R ManifestEntry :=
  if (i <? man_count p)%Z then expect (manifest_raw p i) else Panic.

(** ** Reads inside the buffer succeed *)

Lemma rd_in n b off :
  (0 <= off)%Z → (off + Z.of_nat n <= blen b)%Z → (blen b < 2 ^ 64)%Z →
  rd n b off = Ok (from_le (take n (drop (Z.to_nat off) b))).
Proof.
  intros H1 H2 H3. unfold rd, get_range. munfold. rewrite arith_in by (unfold in_u; lia).
  by rewrite (proj2 (Z.leb_le _ _)).
Qed.

Lemma rd_bound n b off v : byte_list b → rd n b off = Ok v → (0 <= v < 256 ^ Z.of_nat n)%Z.
Proof.
  unfold rd, get_range. munfold. intros Hb H. repeat case_match; simplify_eq.
  pose proof (from_le_bound (take n (drop (Z.to_nat off) b))) as Hf.
  assert (byte_list (take n (drop (Z.to_nat off) b))) as Hl by (by apply Forall_take, Forall_drop).
  specialize (Hf Hl). split; [apply Hf|]. eapply Z.lt_le_trans; [apply Hf|].
  apply Z.pow_le_mono_r; [lia|]. rewrite length_take. lia.
Qed.

(** The outcome of reading a record that lies in the buffer: never a panic. *)
Lemma segment_raw_in p i :
  byte_list (pbytes p) → (blen (pbytes p) < 2 ^ 32)%Z → (0 <= seg_off p)%Z → (0 <= i)%Z →
  (seg_off p + (i + 1) * SEGMENT_LEN <= blen (pbytes p))%Z →
  ∃ s, segment_raw p i = Ok s ∧ in_u 32 (file_off s) ∧ in_u 32 (file_size s) ∧
    in_u 64 (vaddr s) ∧ in_u 64 (mem_size s) ∧ in_u 8 (perm s).
Proof.
  unfold SEGMENT_LEN. intros Hb Hl Ho Hi Hend. unfold segment_raw, SEGMENT_LEN, rd_u32, rd_u64, rd_u8. munfold.
  rewrite !arith_in by (unfold in_u; lia).
  assert (∃ x, pbytes p !! Z.to_nat (seg_off p + i * 32 + 24) = Some x) as [x Hx].
  { apply lookup_lt_is_Some_2. unfold blen in *. lia. }
  assert (∀ n o, (o + n <= 32)%nat → ∃ v, rd n (pbytes p) (seg_off p + i * 32 + Z.of_nat o) = Ok v ∧
    (0 <= v < 256 ^ Z.of_nat n)%Z) as Hr.
  { intros n o Hno. eexists. split; [apply rd_in; lia|]. eapply rd_bound; [done|apply rd_in; lia]. }
  destruct (Hr 4 0) as (v0 & H0 & B0); [lia|]. rewrite Z.add_0_r in H0. rewrite H0.
  destruct (Hr 4 4) as (v1 & H1 & B1); [lia|]. change (Z.of_nat 4) with 4%Z in H1. rewrite H1.
  destruct (Hr 8 8) as (v2 & H2 & B2); [lia|]. change (Z.of_nat 8) with 8%Z in H2. rewrite H2.
  destruct (Hr 8 16) as (v3 & H3 & B3); [lia|]. change (Z.of_nat 16) with 16%Z in H3. rewrite H3.
  rewrite Hx. eexists. split; [reflexivity|]. simpl.
  pose proof (Forall_lookup_1 _ _ _ _ Hb Hx) as Bx. unfold in_u. simpl in *. split_and!; lia.
Qed.

Lemma manifest_raw_in p i :
  byte_list (pbytes p) → (blen (pbytes p) < 2 ^ 32)%Z → (0 <= man_off p)%Z → (0 <= i)%Z →
  (man_off p + (i + 1) * MANIFEST_LEN <= blen (pbytes p))%Z →
  ∃ m, manifest_raw p i = Ok m.
Proof.
  unfold MANIFEST_LEN. intros Hb Hl Ho Hi Hend. unfold manifest_raw, MANIFEST_LEN, rd_u16, rd_u32, rd_u64, rd_u8. munfold.
  rewrite !arith_in by (unfold in_u; lia).
  assert (∃ x, pbytes p !! Z.to_nat (man_off p + i * 32) = Some x) as [x Hx].
  { apply lookup_lt_is_Some_2. unfold blen in *. lia. }
  rewrite Hx. rewrite !rd_in by lia. by eexists.
Qed.

(** ** What a successful parse has checked *)

(** A segment fit to be mapped: readable, never writable and executable at once,
    page-aligned, bounded, its bytes inside the image, its end not wrapping. *)
Definition segment_ok (b : bytes) (s : Segment) : Prop :=
  Z.testbit (perm s) 0 = true ∧ ¬ (is_write s = true ∧ is_exec s = true) ∧ (0 <= perm s < 8)%Z ∧
  (vaddr s mod 4096 = 0)%Z ∧ (mem_size s mod 4096 = 0)%Z ∧
  (0 <= file_size s <= mem_size s)%Z ∧ (mem_size s <= 4096 * 4096 + 4095)%Z ∧
  (0 <= file_off s)%Z ∧ (file_off s + file_size s <= blen b)%Z ∧
  (0 <= vaddr s)%Z ∧ (vaddr s + mem_size s < 2 ^ 64)%Z.

Definition in_exec (p : Pex) (s : Segment) : Prop :=
  is_exec s = true ∧ (vaddr s <= entry p < vaddr s + mem_size s)%Z.

Lemma validate_perm_Ok p : in_u 8 p → validate_perm p = Ok () →
  Z.testbit p 0 = true ∧ ¬ (Z.land p PERM_W ≠ 0 ∧ Z.land p PERM_X ≠ 0)%Z ∧ (0 <= p < 8)%Z.
Proof.
  intros Hp H.
  assert (Z.land p 248 = 0%Z) as H248.
  { unfold validate_perm in H. change (255 - _)%Z with 248%Z in H.
    destruct (Z.eqb_spec (Z.land p 248) 0); [done|]. done. }
  assert (p = p mod 2 ^ 3)%Z as Hmod.
  { rewrite <- Z.land_ones by lia. rewrite <- (Z.lor_0_r (Z.land p (Z.ones 3))), <- H248.
    rewrite <- Z.land_lor_distr_r. change (Z.lor (Z.ones 3) 248) with (Z.ones 8).
    rewrite Z.land_ones by lia. symmetry. by apply Z.mod_small. }
  pose proof (Z.mod_pos_bound p (2 ^ 3)) as Hb.
  assert (p = 0 ∨ p = 1 ∨ p = 2 ∨ p = 3 ∨ p = 4 ∨ p = 5 ∨ p = 6 ∨ p = 7)%Z as Hc by lia.
  destruct Hc as [->|[->|[->|[->|[->|[->|[->| ->]]]]]]]; try (vm_compute in H; discriminate);
    (split; [done|]); (split; [|lia]); vm_compute; naive_solver.
Qed.

Lemma check_segment_spec p i s :
  segment_raw p i = Ok s → in_u 32 (file_off s) → in_u 32 (file_size s) →
  in_u 64 (vaddr s) → in_u 64 (mem_size s) → in_u 8 (perm s) →
  match check_segment p i with
  | Ok b => segment_ok (pbytes p) s ∧ (b = true ↔ in_exec p s)
  | Err _ => True
  | Panic => False
  end.
Proof.
  intros Hs H1 H2 H3 H4 H5. unfold check_segment. munfold. rewrite Hs.
  destruct (validate_perm (perm s)) as [[]| |] eqn:Hv; [|done|unfold validate_perm in Hv; by case_match].
  apply validate_perm_Ok in Hv as (Hr & Hwx & Hp8); [|done].
  change 4095%Z with (Z.ones 12). rewrite !Z.land_ones by lia.
  destruct (Z.eqb_spec (vaddr s mod 2 ^ 12) 0) as [Ha|]; [|done].
  destruct (Z.eqb_spec (mem_size s mod 2 ^ 12) 0) as [Hm|]; [|done]. simpl.
  destruct (Z.ltb_spec (mem_size s) (file_size s)); [done|].
  rewrite Z.shiftr_div_pow2 by lia.
  destruct (Z.ltb_spec MAX_SEGMENT_PAGES (mem_size s / 2 ^ 12)) as [|Hpg]; [done|].
  destruct (checked 64 (file_off s + file_size s)) as [fe|] eqn:Hfe; [|done].
  apply checked_Some in Hfe as [_ ->]. destruct (Z.ltb_spec (blen (pbytes p)) (file_off s + file_size s)); [done|].
  destruct (checked 64 (vaddr s + mem_size s)) as [se|] eqn:Hse; [|done].
  apply checked_Some in Hse as [Hse ->]. unfold in_u in *. split.
  - unfold segment_ok. split_and!; try done; try lia.
    + intros [Hw Hx]. apply Hwx. unfold is_write, is_exec in *.
      apply negb_true_iff, Z.eqb_neq in Hw. apply negb_true_iff, Z.eqb_neq in Hx. done.
    + unfold MAX_SEGMENT_PAGES in Hpg. pose proof (Z.mul_succ_div_gt (mem_size s) (2 ^ 12)). lia.
  - unfold in_exec. rewrite !andb_true_iff, Z.leb_le, Z.ltb_lt. naive_solver lia.
Qed.

(** The tables of [p] lie in the buffer. *)
Record tables_in (p : Pex) : Prop := {
  ti_bytes : byte_list (pbytes p);
  ti_len : (blen (pbytes p) < 2 ^ 32)%Z;
  ti_seg : (0 <= seg_off p)%Z ∧ (0 <= seg_count p <= MAX_SEGMENTS)%Z ∧
           (seg_off p + seg_count p * SEGMENT_LEN <= blen (pbytes p))%Z;
  ti_man : (0 <= man_off p)%Z ∧ (0 <= man_count p <= MAX_MANIFEST)%Z ∧
           (man_off p + man_count p * MANIFEST_LEN <= blen (pbytes p))%Z
}.

Lemma segment_in p i : tables_in p → (0 <= i < seg_count p)%Z →
  ∃ s, segment_raw p i = Ok s ∧ in_u 32 (file_off s) ∧ in_u 32 (file_size s) ∧
    in_u 64 (vaddr s) ∧ in_u 64 (mem_size s) ∧ in_u 8 (perm s).
Proof.
  intros [Hb Hl (? & ? & ?) _] Hi. apply segment_raw_in; try done; try lia. unfold SEGMENT_LEN in *. lia.
Qed.

Lemma manifest_in p i : tables_in p → (0 <= i < man_count p)%Z → ∃ m, manifest_raw p i = Ok m.
Proof.
  intros [Hb Hl _ (? & ? & ?)] Hi. apply manifest_raw_in; try done; try lia. unfold MANIFEST_LEN in *. lia.
Qed.

Lemma check_segments_spec p ix ok :
  tables_in p → (∀ i, i ∈ ix → (Z.of_nat i < seg_count p)%Z) →
  match check_segments p ix ok with
  | Ok b => (∀ i, i ∈ ix → ∃ s, segment_raw p (Z.of_nat i) = Ok s ∧ segment_ok (pbytes p) s) ∧
      (b = true ↔ ok = true ∨ ∃ i s, i ∈ ix ∧ segment_raw p (Z.of_nat i) = Ok s ∧ in_exec p s)
  | Err _ => True
  | Panic => False
  end.
Proof.
  intros T. revert ok. induction ix as [|i ix IH]; intros ok Hix; cbn [check_segments].
  { split; [intros i Hi; by apply elem_of_nil in Hi|]. split; [by left|].
    intros [?|(i & _ & Hi & _)]; [done|by apply elem_of_nil in Hi]. }
  destruct (segment_in p (Z.of_nat i) T) as (s & Hs & H1 & H2 & H3 & H4 & H5).
  { split; [lia|]. apply Hix. left. }
  pose proof (check_segment_spec p (Z.of_nat i) s Hs H1 H2 H3 H4 H5) as Hc.
  munfold. destruct (check_segment p (Z.of_nat i)) as [b| |]; [|done..]. destruct Hc as [Hok Hb].
  specialize (IH (if b then true else ok) (λ j Hj, Hix j (list_elem_of_further _ _ _ Hj))).
  destruct (check_segments p ix _) as [b'| |]; [|done..]. destruct IH as [Hall Hb']. split.
  - intros j [->|Hj]%elem_of_cons; [by exists s|by apply Hall].
  - rewrite Hb'. split.
    + intros [Hx|(j & s' & Hj & Hs' & Hin)].
      * destruct b; [|by left]. right. exists i, s. split_and!; [left|done|by apply Hb].
      * right. exists j, s'. split; [by right|done].
    + intros [->|(j & s' & [->|Hj]%elem_of_cons & Hs' & Hin)].
      * left. by destruct b.
      * left. rewrite Hs in Hs'. injection Hs' as <-. apply Hb in Hin. by rewrite Hin.
      * right. by exists j, s'.
Qed.

Lemma check_manifest_spec p ix :
  tables_in p → (∀ i, i ∈ ix → (Z.of_nat i < man_count p)%Z) → check_manifest p ix = Ok ().
Proof.
  intros T. induction ix as [|i ix IH]; intros Hix; [done|]. cbn [check_manifest].
  destruct (manifest_in p (Z.of_nat i) T) as [m Hm]; [split; [lia|apply Hix; left]|].
  munfold. rewrite Hm. apply IH. intros j Hj. apply Hix. by right.
Qed.

Lemma table_fits_spec total off count len : (0 <= off)%Z → (0 <= count * len)%Z →
  table_fits total off count len = true → (off + count * len <= total)%Z.
Proof.
  unfold table_fits. intros H1 H2. destruct (checked 64 (count * len)) as [w|] eqn:Hw; [|done].
  apply checked_Some in Hw as [_ ->]. destruct (checked 64 (off + count * len)) as [e|] eqn:He; [|done].
  apply checked_Some in He as [_ ->]. by rewrite Z.leb_le.
Qed.

(** Everything a successful parse proves about the image. *)
Record valid (p : Pex) (b : bytes) : Prop := {
  va_bytes : pbytes p = b;
  va_tables : tables_in p;
  va_segments i : (0 <= i < seg_count p)%Z → ∃ s, segment_raw p i = Ok s ∧ segment_ok b s;
  va_entry : ∃ i s, (0 <= i < seg_count p)%Z ∧ segment_raw p i = Ok s ∧ in_exec p s
}.

Ltac read_field b :=
  match goal with
  | |- context [rd ?n b ?o] =>
      let v := fresh "v" in let H := fresh "H" v in let B := fresh "B" v in
      destruct (rd n b o) as [v|v|] eqn:H;
      [assert (0 <= v < 256 ^ Z.of_nat n)%Z as B by (by eapply rd_bound)
      |exfalso; rewrite rd_in in H by (simpl; unfold HEADER_LEN in *; lia); discriminate H
      |exfalso; rewrite rd_in in H by (simpl; unfold HEADER_LEN in *; lia); discriminate H];
      simpl in B
  end.

Lemma parse_spec b arch :
  byte_list b → (blen b < 2 ^ 64)%Z →
  match parse b arch with
  | Ok p => valid p b
  | Err _ => True
  | Panic => False
  end.
Proof.
  intros Hb Hl. unfold parse, rd_u16, rd_u32, rd_u64. munfold.
  destruct (Z.ltb_spec (blen b) HEADER_LEN) as [|Hlen]; [done|].
  read_field b. destruct (negb (v =? _)%Z); [done|].
  read_field b. destruct (negb (v0 =? _)%Z); [done|].
  read_field b. destruct (negb (v1 =? _)%Z); [done|].
  read_field b. read_field b. destruct (Z.eqb_spec v3 (blen b)) as [Ht|]; [|done]. simpl.
  read_field b. read_field b. read_field b. read_field b. read_field b. read_field b. read_field b.
  destruct (negb (v10 =? _)%Z); [done|].
  destruct (Z.ltb_spec MAX_SEGMENTS v5); [done|]. destruct (Z.ltb_spec MAX_MANIFEST v6); [done|]. simpl.
  destruct (table_fits (blen b) v4 v5 SEGMENT_LEN) eqn:Hts; [|done].
  destruct (table_fits (blen b) v7 v6 MANIFEST_LEN) eqn:Htm; [|done]. simpl.
  apply table_fits_spec in Hts; [|unfold SEGMENT_LEN in *; lia..].
  apply table_fits_spec in Htm; [|unfold MANIFEST_LEN in *; lia..].
  destruct (if negb (v9 =? 0)%Z then _ else _) as [[]| |] eqn:Hint; [|done|repeat case_match; done].
  set (p := mkPex b v2 v4 v5 v7 v6).
  assert (tables_in p) as T by (split; simpl; [done|lia|lia|lia]).
  pose proof (check_segments_spec p (seq 0 (Z.to_nat v5)) false T) as Hs.
  destruct (check_segments p _ false) as [[]| |]; [|done|done|by apply Hs; intros i Hi%elem_of_seq; simpl; lia].
  destruct Hs as [Hall He]; [intros i Hi%elem_of_seq; simpl; lia|]. simpl.
  rewrite check_manifest_spec; [|done|intros i Hi%elem_of_seq; simpl; lia].
  split; [done|done|..].
  - intros i Hi. simpl in Hi. destruct (Hall (Z.to_nat i)) as (s & Hs & Hok); [apply elem_of_seq; lia|].
    rewrite Z2Nat.id in Hs by lia. by exists s.
  - destruct (proj1 He eq_refl) as [?|(i & s & Hi%elem_of_seq & Hs & Hin)]; [done|].
    exists (Z.of_nat i), s. split; [simpl; lia|done].
Qed.

Lemma valid_segment p b i : valid p b → (0 <= i < seg_count p)%Z →
  ∃ s d, segment p i = Ok s ∧ segment_ok b s ∧ segment_data p i = Ok d ∧ blen d = file_size s.
Proof.
  intros [Hpb [_ Hlen _ _] Hsegs _] Hi. destruct (Hsegs i Hi) as (s & Hs & Hok). exists s.
  unfold segment_data, segment. rewrite (proj2 (Z.ltb_lt _ _)) by apply Hi. rewrite Hs. munfold. simpl.
  destruct Hok as (?&?&?&?&?&?&?&?&Hend&?&?) eqn:E. rewrite Hpb in *.
  rewrite arith_in by (unfold in_u; lia). rewrite (proj2 (Z.leb_le _ _)) by done.
  eexists. split; [done|]. split; [exact Hok|]. split; [done|].
  unfold blen in *. rewrite length_take, length_drop. lia.
Qed.

Lemma valid_manifest p b i : valid p b → (0 <= i < man_count p)%Z → ∃ m, manifest p i = Ok m.
Proof.
  intros V Hi. destruct (manifest_in p i (va_tables _ _ V) Hi) as [m Hm]. exists m. unfold manifest.
  by rewrite (proj2 (Z.ltb_lt _ _)), Hm by apply Hi.
Qed.

(** C28: The parser of hostile images is total: for every byte string and
    architecture [Pex::parse] answers an image or an error, without a panic or an
    overflow; and for an image it accepts, every accessor in range returns without
    a panic, no segment is writable and executable at once, every segment is
    readable, page-aligned, bounded, inside the image and below the top of the
    address space, and the entry point lies in an executable segment. *)
Theorem parse_hostile_safe b arch :
  byte_list b → (blen b < 2 ^ 64)%Z →
  match parse b arch with
  | Ok p =>
      (0 <= seg_count p <= MAX_SEGMENTS)%Z ∧ (0 <= man_count p <= MAX_MANIFEST)%Z ∧
      (∀ i, (0 <= i < seg_count p)%Z → ∃ s d, segment p i = Ok s ∧ segment_ok b s ∧
         segment_data p i = Ok d ∧ blen d = file_size s) ∧
      (∀ i, (0 <= i < man_count p)%Z → ∃ m, manifest p i = Ok m) ∧
      ∃ i s, (0 <= i < seg_count p)%Z ∧ segment p i = Ok s ∧ is_exec s = true ∧
        (vaddr s <= entry p < vaddr s + mem_size s)%Z
  | Err _ => True
  | Panic => False
  end.
Proof.
  intros Hb Hl. pose proof (parse_spec b arch Hb Hl) as V. destruct (parse b arch) as [p| |]; [|done..].
  pose proof V as [_ [_ _ Hseg Hman] _ (i & s & Hi & Hs & Hx & Hin)].
  split_and!; try apply Hseg; try apply Hman.
  - intros j. by apply valid_segment.
  - intros j. by apply (valid_manifest p b).
  - exists i, s. unfold segment. rewrite (proj2 (Z.ltb_lt _ _)) by apply Hi. by rewrite Hs.
Qed.
