(* ===== verification/PexEncode.v ===== *)
(** * The image encoder and its round trip ([abi/src/encode.rs])

    [encode] writes into a caller's buffer.  The state of the monad is the
    sub-slice [out[..total]]; an [Err] is the answer [None].  Offsets are [nat]:
    once [encoded_len] has computed [total] with checked arithmetic, every later
    offset is at most [total] and cannot overflow. *)

From S2P Require Import Prelude Pex.

Record SegmentSpec := mkSegSpec {
  sp_vaddr : Z;
  sp_mem_size : Z;
  sp_perm : Z;
  sp_data : bytes
}.
(** [ManifestSpec] has the fields of [ManifestEntry]. *)
Abbreviation ManifestSpec := ManifestEntry.

Abbreviation EM := (M bytes unit).

Fixpoint add_lens (segs : list SegmentSpec) (len : nat) : option nat :=
  match segs with
  | [] => Some len
  | s :: segs' => match checked_usize (len + length (sp_data s)) with
                  | Some l => add_lens segs' l
                  | None => None
                  end
  end.

Definition encoded_len (segs : list SegmentSpec) (man : list ManifestSpec) : option nat :=
  if (16 <? length segs) || (32 <? length man) then None else
  a ← checked_usize (length segs * 32);
  b ← checked_usize (48 + a);
  c ← checked_usize (length man * 32);
  d ← checked_usize (b + c);
  add_lens segs d.

(** [b[o..o + n].copy_from_slice(..)] and the integer writes. *)
Definition wr_bytes (o : nat) (bs : bytes) : EM unit := λ b,
  if o + length bs <=? length b then (Ok (), list_inserts o bs b) else (Panic, b).
Definition wr_u8 (o : nat) (v : Z) : EM unit := wr_bytes o [v].
Definition wr_u16 (o : nat) (v : Z) : EM unit := wr_bytes o (to_le 2 v).
Definition wr_u32 (o : nat) (v : Z) : EM unit := wr_bytes o (to_le 4 v).
Definition wr_u64 (o : nat) (v : Z) : EM unit := wr_bytes o (to_le 8 v).

(** [u32::try_from(n).ok()?] *)
Definition try_u32 (n : nat) : EM Z := λ b,
  if (Z.of_nat n <? 2 ^ 32)%Z then (Ok (Z.of_nat n), b) else (Err (), b).

Fixpoint enc_segs (i : nat) (segs : list SegmentSpec) (cursor : nat) : EM unit :=
  match segs with
  | [] => mret ()
  | s :: segs' =>
      let rec := 48 + i * 32 in
      fs ← try_u32 (length (sp_data s));
      fo ← try_u32 cursor;
      wr_u32 rec fo;;
      wr_u32 (rec + 4) fs;;
      wr_u64 (rec + 8) (sp_vaddr s);;
      wr_u64 (rec + 16) (sp_mem_size s);;
      wr_u8 (rec + 24) (sp_perm s);;
      wr_bytes cursor (sp_data s);;
      enc_segs (S i) segs' (cursor + length (sp_data s))
  end.

Fixpoint enc_man (off i : nat) (man : list ManifestSpec) : EM unit :=
  match man with
  | [] => mret ()
  | m :: man' =>
      let rec := off + i * 32 in
      wr_u8 rec (m_cap_type m);;
      wr_u16 (rec + 2) (dest_slot m);;
      wr_u32 (rec + 4) (m_rights m);;
      wr_u64 (rec + 8) (param0 m);;
      wr_u64 (rec + 16) (param1 m);;
      enc_man off (S i) man'
  end.

Definition enc_header (arch ent : Z) (total nsegs nman man_off : nat) : EM unit :=
  wr_u32 0 PEX_MAGIC;;
  wr_u16 4 PEX_VERSION;;
  wr_u16 6 arch;;
  wr_u64 8 ent;;
  wr_u32 16 (wrap 32 (Z.of_nat total));;
  so ← try_u32 48;
  wr_u32 20 so;;
  wr_u16 24 (wrap 16 (Z.of_nat nsegs));;
  wr_u16 26 (wrap 16 (Z.of_nat nman));;
  mo ← try_u32 man_off;
  wr_u32 28 mo.

Definition enc_body (arch ent : Z) (segs : list SegmentSpec) (man : list ManifestSpec) (total : nat) : EM unit :=
  let man_off := 48 + length segs * 32 in
  let cursor := man_off + length man * 32 in
  enc_header arch ent total (length segs) (length man) man_off;;
  enc_segs 0 segs cursor;;
  enc_man man_off 0 man.

(** [encode]: the number of bytes written and the buffer afterwards. *)
Definition encode (arch ent : Z) (segs : list SegmentSpec) (man : list ManifestSpec) (out : bytes)
    : res unit nat * bytes :=
  match encoded_len segs man with
  | None => (Err (), out)
  | Some total =>
      if (length out <? total) || negb (Z.of_nat total <? 2 ^ 32)%Z then (Err (), out) else
      let '(r, buf) := enc_body arch ent segs man total (replicate total 0%Z) in
      (match r with Ok _ => Ok total | Err e => Err e | Panic => Panic end, buf ++ drop total out)
  end.

(** ** Bytes at an offset *)

Definition at_ (b : bytes) (o : nat) (bs : bytes) : Prop := ∀ i x, bs !! i = Some x → b !! (o + i) = Some x.

Lemma at_agree b b' o bs :
  (∀ k, o ≤ k < o + length bs → b' !! k = b !! k) → at_ b o bs → at_ b' o bs.
Proof. intros H Ha i x Hi. rewrite H; [by apply Ha|]. apply lookup_lt_Some in Hi. lia. Qed.

Lemma at_slice b o bs : at_ b o bs → take (length bs) (drop o b) = bs.
Proof.
  intros Ha. apply list_eq. intros i. destruct (bs !! i) as [x|] eqn:Hx.
  - rewrite lookup_take_lt by (by eapply lookup_lt_Some). rewrite lookup_drop. by apply Ha.
  - rewrite lookup_take_ge; [done|]. by apply lookup_ge_None_1.
Qed.

Lemma wr_spec b o bs : o + length bs ≤ length b →
  ∃ b', wr_bytes o bs b = (Ok (), b') ∧ length b' = length b ∧ at_ b' o bs ∧
    (∀ k, k < o ∨ o + length bs ≤ k → b' !! k = b !! k).
Proof.
  intros Hle. unfold wr_bytes. rewrite (proj2 (Nat.leb_le _ _)) by done. eexists. split; [done|].
  split; [apply length_inserts|]. split.
  - intros i x Hi. pose proof (lookup_lt_Some _ _ _ Hi).
    rewrite list_lookup_inserts by lia. replace (o + i - o) with i by lia. done.
  - intros k [Hk|Hk]; [by apply list_lookup_inserts_lt|by apply list_lookup_inserts_ge].
Qed.

Lemma at_rd b o n v : at_ b o (to_le n v) → (0 <= v < 256 ^ Z.of_nat n)%Z →
  (Z.of_nat (o + n) <= blen b)%Z → (blen b < 2 ^ 64)%Z → rd n b (Z.of_nat o) = Ok v.
Proof.
  intros Ha Hv Hle Hl. rewrite rd_in by lia. rewrite Nat2Z.id. f_equal.
  pose proof (at_slice _ _ _ Ha) as Hs. rewrite to_le_length in Hs. rewrite Hs. by apply from_to_le.
Qed.

Lemma at_rdZ b off o n v : off = Z.of_nat o → at_ b o (to_le n v) → (0 <= v < 256 ^ Z.of_nat n)%Z →
  (Z.of_nat (o + n) <= blen b)%Z → (blen b < 2 ^ 64)%Z → rd n b off = Ok v.
Proof. intros ->. apply at_rd. Qed.

(** One write after another: run the next [wr_bytes] of the goal. *)
Ltac wr_step :=
  match goal with
  | |- context [wr_bytes ?o ?bs ?b] =>
      let b' := fresh "b" in let L := fresh "L" in let A := fresh "A" in let F := fresh "F" in
      destruct (wr_spec b o bs) as (b' & -> & L & A & F);
      [rewrite ?to_le_length; cbn [length]; lia|rewrite ?to_le_length in F; cbn [length] in F]
  end.

(** Bytes survive the writes that miss them. *)
Ltac survives :=
  repeat match goal with F : ∀ k, _ → _ !! k = _ !! k |- _ => rewrite F by lia; clear F end; done.

(** *** The records *)

Record rec_at (b : bytes) (rec : nat) (s : SegmentSpec) (fo : nat) : Prop := {
  ra_fo : at_ b rec (to_le 4 (Z.of_nat fo));
  ra_fs : at_ b (rec + 4) (to_le 4 (Z.of_nat (length (sp_data s))));
  ra_va : at_ b (rec + 8) (to_le 8 (sp_vaddr s));
  ra_ms : at_ b (rec + 16) (to_le 8 (sp_mem_size s));
  ra_pe : at_ b (rec + 24) [sp_perm s]
}.

Lemma rec_agree b b' rec s fo :
  (∀ k, rec ≤ k < rec + 32 → b' !! k = b !! k) → rec_at b rec s fo → rec_at b' rec s fo.
Proof.
  intros H [H1 H2 H3 H4 H5].
  split; (eapply at_agree; [|eassumption]; intros k Hk; rewrite ?to_le_length in Hk; cbn [length] in Hk;
    apply H; lia).
Qed.

Record man_at (b : bytes) (rec : nat) (m : ManifestSpec) : Prop := {
  ma_ct : at_ b rec [m_cap_type m];
  ma_ds : at_ b (rec + 2) (to_le 2 (dest_slot m));
  ma_ri : at_ b (rec + 4) (to_le 4 (m_rights m));
  ma_p0 : at_ b (rec + 8) (to_le 8 (param0 m));
  ma_p1 : at_ b (rec + 16) (to_le 8 (param1 m))
}.

Lemma man_agree b b' rec m :
  (∀ k, rec ≤ k < rec + 32 → b' !! k = b !! k) → man_at b rec m → man_at b' rec m.
Proof.
  intros H [H1 H2 H3 H4 H5].
  split; (eapply at_agree; [|eassumption]; intros k Hk; rewrite ?to_le_length in Hk; cbn [length] in Hk;
    apply H; lia).
Qed.

(** Total bytes of segment data. *)
Definition data_len (segs : list SegmentSpec) : nat := sum_list ((λ s, length (sp_data s)) <$> segs).

Lemma data_len_cons s segs : data_len (s :: segs) = length (sp_data s) + data_len segs.
Proof. done. Qed.

Lemma enc_segs_spec segs i cursor b :
  48 + (i + length segs) * 32 ≤ cursor → cursor + data_len segs ≤ length b →
  (Z.of_nat (length b) < 2 ^ 32)%Z →
  ∃ b', enc_segs i segs cursor b = (Ok (), b') ∧ length b' = length b ∧
    (∀ k, k < 48 + i * 32 ∨ 48 + (i + length segs) * 32 ≤ k < cursor → b' !! k = b !! k) ∧
    (∀ j s, segs !! j = Some s → ∃ fo, rec_at b' (48 + (i + j) * 32) s fo ∧
       at_ b' fo (sp_data s) ∧ cursor ≤ fo ∧ fo + length (sp_data s) ≤ length b).
Proof.
  revert i cursor b. induction segs as [|s segs IH]; intros i cursor b Hc Hd Hl.
  { exists b. split; [done|]. split; [done|]. split; [done|]. intros j s Hj. done. }
  rewrite data_len_cons in Hd. simpl in Hc.
  cbn [enc_segs]. unfold mbind, M_bind, try_u32, wr_u32, wr_u64, wr_u8.
  rewrite !(proj2 (Z.ltb_lt _ _)) by lia.
  do 6 wr_step.
  assert (rec_at b5 (48 + i * 32) s cursor) as Hrec.
  { split; (eapply at_agree; [|eassumption]; intros k Hk; rewrite ?to_le_length in Hk; cbn [length] in Hk; survives). }
  destruct (IH (S i) (cursor + length (sp_data s)) b5) as (b' & -> & Lb & Fb & Hsegs); [lia..|].
  exists b'. split; [done|]. split; [lia|]. split.
  - intros k Hk. rewrite Fb by (simpl in Hk; lia). simpl in Hk. survives.
  - intros [|j] s' Hj; simpl in Hj.
    + injection Hj as <-. exists cursor. rewrite Nat.add_0_r. split_and!; [| |lia..].
      * eapply rec_agree; [|exact Hrec]. intros k Hk. apply Fb. lia.
      * eapply at_agree; [|eassumption]. intros k Hk. apply Fb. lia.
    + destruct (Hsegs j s' Hj) as (fo & Hr & Ha & Hge & Hle). exists fo.
      replace (48 + (i + S j) * 32) with (48 + (S i + j) * 32) by lia. split_and!; [done|done|lia..].
Qed.

Lemma enc_man_spec man off i b :
  off + (i + length man) * 32 ≤ length b →
  ∃ b', enc_man off i man b = (Ok (), b') ∧ length b' = length b ∧
    (∀ k, k < off + i * 32 ∨ off + (i + length man) * 32 ≤ k → b' !! k = b !! k) ∧
    (∀ j m, man !! j = Some m → man_at b' (off + (i + j) * 32) m).
Proof.
  revert i b. induction man as [|m man IH]; intros i b Hl.
  { exists b. split; [done|]. split; [done|]. split; [done|]. intros j m Hj. done. }
  simpl in Hl. cbn [enc_man]. unfold mbind, M_bind, wr_u16, wr_u32, wr_u64, wr_u8.
  do 5 wr_step.
  assert (man_at b4 (off + i * 32) m) as Hrec.
  { split; (eapply at_agree; [|eassumption]; intros k Hk; rewrite ?to_le_length in Hk; cbn [length] in Hk; survives). }
  destruct (IH (S i) b4) as (b' & -> & Lb & Fb & Hman); [lia|].
  exists b'. split; [done|]. split; [lia|]. split.
  - intros k Hk. simpl in Hk. rewrite Fb by lia. survives.
  - intros [|j] m' Hj; simpl in Hj.
    + injection Hj as <-. rewrite Nat.add_0_r. eapply man_agree; [|exact Hrec]. intros k Hk. apply Fb. lia.
    + replace (off + (i + S j) * 32) with (off + (S i + j) * 32) by lia. by apply Hman.
Qed.

(** *** The header *)

Record hdr_at (b : bytes) (arch ent : Z) (total nsegs nman man_off : nat) : Prop := {
  ha_magic : at_ b 0 (to_le 4 PEX_MAGIC);
  ha_version : at_ b 4 (to_le 2 PEX_VERSION);
  ha_arch : at_ b 6 (to_le 2 arch);
  ha_entry : at_ b 8 (to_le 8 ent);
  ha_total : at_ b 16 (to_le 4 (Z.of_nat total));
  ha_so : at_ b 20 (to_le 4 48);
  ha_nsegs : at_ b 24 (to_le 2 (Z.of_nat nsegs));
  ha_nman : at_ b 26 (to_le 2 (Z.of_nat nman));
  ha_mo : at_ b 28 (to_le 4 (Z.of_nat man_off));
  ha_io : at_ b 32 (to_le 4 0);
  ha_il : at_ b 36 (to_le 4 0);
  ha_res : at_ b 40 (to_le 8 0)
}.

Lemma hdr_agree b b' arch ent total ns nm mo :
  (∀ k, k < 48 → b' !! k = b !! k) → hdr_at b arch ent total ns nm mo → hdr_at b' arch ent total ns nm mo.
Proof.
  intros H [H1 H2 H3 H4 H5 H6 H7 H8 H9 H10 H11 H12].
  split; (eapply at_agree; [|eassumption]; intros k Hk; rewrite ?to_le_length in Hk; apply H; lia).
Qed.

Lemma enc_header_spec arch ent total ns nm mo :
  48 ≤ total → (Z.of_nat total < 2 ^ 32)%Z → mo ≤ total → ns ≤ 16 → nm ≤ 32 →
  ∃ b', enc_header arch ent total ns nm mo (replicate total 0%Z) = (Ok (), b') ∧
    length b' = total ∧ hdr_at b' arch ent total ns nm mo.
Proof.
  intros Ht Hl Hm Hns Hnm. assert (length (replicate total 0%Z) = total) as L0 by apply length_replicate.
  unfold enc_header, mbind, M_bind, try_u32, wr_u16, wr_u32, wr_u64.
  rewrite !(proj2 (Z.ltb_lt _ _)) by lia. rewrite !wrap_small by (unfold in_u; lia).
  do 9 wr_step. exists b7. split; [done|]. split; [lia|].
  assert (∀ n o, o + n ≤ total → at_ (replicate total 0%Z) o (to_le n 0)) as Hz.
  { intros n o Hno i x Hi. pose proof (lookup_lt_Some _ _ _ Hi) as Hin. rewrite to_le_length in Hin.
    rewrite lookup_replicate_2 by lia. f_equal. clear -Hi. revert i Hi.
    induction n as [|n IH]; intros [|i] Hi; simplify_eq/=; [done|]. by eapply IH. }
  split; (eapply at_agree; [|first [eassumption|apply (Hz 4 32); lia|apply (Hz 4 36); lia|apply (Hz 8 40); lia]];
    intros k Hk; rewrite ?to_le_length in Hk; survives).
Qed.

(** ** The round trip *)

Lemma add_lens_spec segs l :
  (Z.of_nat (l + data_len segs) < 2 ^ 64)%Z → add_lens segs l = Some (l + data_len segs).
Proof.
  revert l. induction segs as [|s segs IH]; intros l Hl; simpl.
  - by rewrite Nat.add_0_r.
  - rewrite data_len_cons in *. unfold checked_usize. rewrite (proj2 (Z.ltb_lt _ _)) by lia.
    rewrite IH by lia. f_equal. lia.
Qed.

Definition image_len (segs : list SegmentSpec) (man : list ManifestSpec) : nat :=
  48 + length segs * 32 + length man * 32 + data_len segs.

Lemma encoded_len_spec segs man :
  length segs ≤ 16 → length man ≤ 32 → (Z.of_nat (image_len segs man) < 2 ^ 64)%Z →
  encoded_len segs man = Some (image_len segs man).
Proof.
  unfold image_len. intros Hs Hm Hl. unfold encoded_len.
  rewrite (proj2 (Nat.ltb_ge _ _)), (proj2 (Nat.ltb_ge _ _)) by done. cbn [orb].
  unfold mbind, option_bind, checked_usize. rewrite !(proj2 (Z.ltb_lt _ _)) by lia.
  by rewrite add_lens_spec by lia.
Qed.

(** A segment the loader's format accepts. *)
Definition spec_ok (s : SegmentSpec) : Prop :=
  in_u 8 (sp_perm s) ∧ validate_perm (sp_perm s) = Ok () ∧ (0 <= sp_vaddr s)%Z ∧
  (sp_vaddr s mod 4096 = 0)%Z ∧ (sp_mem_size s mod 4096 = 0)%Z ∧
  (Z.of_nat (length (sp_data s)) <= sp_mem_size s <= 4096 * 4096)%Z ∧
  (sp_vaddr s + sp_mem_size s < 2 ^ 64)%Z.
Definition man_ok (m : ManifestSpec) : Prop :=
  in_u 16 (dest_slot m) ∧ in_u 32 (m_rights m) ∧ in_u 64 (param0 m) ∧ in_u 64 (param1 m).
Definition spec_exec (ent : Z) (s : SegmentSpec) : Prop :=
  Z.land (sp_perm s) PERM_X ≠ 0%Z ∧ (sp_vaddr s <= ent < sp_vaddr s + sp_mem_size s)%Z.

Definition spec_segment (s : SegmentSpec) (fo : nat) : Segment :=
  mkSegment (Z.of_nat fo) (Z.of_nat (length (sp_data s))) (sp_vaddr s) (sp_mem_size s) (sp_perm s).

Lemma rec_segment_raw p i s fo :
  (seg_off p = 48)%Z → (blen (pbytes p) < 2 ^ 32)%Z → rec_at (pbytes p) (48 + i * 32) s fo → spec_ok s →
  fo + length (sp_data s) ≤ length (pbytes p) → 48 + (i + 1) * 32 ≤ length (pbytes p) →
  segment_raw p (Z.of_nat i) = Ok (spec_segment s fo).
Proof.
  intros Hso Hl [H1 H2 H3 H4 H5] (Hp & _ & Hv & _ & _ & Hm & Hend) Hfo Hrec.
  unfold blen in Hl. unfold segment_raw, SEGMENT_LEN, rd_u32, rd_u64, rd_u8. rewrite Hso. munfold.
  rewrite !arith_in by (unfold in_u; lia).
  replace (48 + Z.of_nat i * 32)%Z with (Z.of_nat (48 + i * 32)) by lia.
  rewrite (at_rd _ _ _ _ H1) by (unfold blen; simpl; lia).
  replace (Z.of_nat (48 + i * 32) + 4)%Z with (Z.of_nat (48 + i * 32 + 4)) by lia.
  rewrite (at_rd _ _ _ _ H2) by (unfold blen; simpl; lia).
  replace (Z.of_nat (48 + i * 32) + 8)%Z with (Z.of_nat (48 + i * 32 + 8)) by lia.
  rewrite (at_rd _ _ _ _ H3) by (unfold blen; simpl; lia).
  replace (Z.of_nat (48 + i * 32) + 16)%Z with (Z.of_nat (48 + i * 32 + 16)) by lia.
  rewrite (at_rd _ _ _ _ H4) by (unfold blen; simpl; lia).
  replace (Z.to_nat (Z.of_nat (48 + i * 32) + 24)) with (48 + i * 32 + 24 + 0) by lia.
  by rewrite (H5 0 (sp_perm s) eq_refl).
Qed.

Lemma rec_manifest_raw p mo i m :
  (man_off p = Z.of_nat mo)%Z → (blen (pbytes p) < 2 ^ 32)%Z → man_at (pbytes p) (mo + i * 32) m → man_ok m →
  mo + (i + 1) * 32 ≤ length (pbytes p) → manifest_raw p (Z.of_nat i) = Ok m.
Proof.
  intros Hmo Hl [H1 H2 H3 H4 H5] (Hd & Hr & H0 & H1') Hrec.
  unfold blen in Hl. unfold in_u in *. unfold manifest_raw, MANIFEST_LEN, rd_u16, rd_u32, rd_u64, rd_u8. rewrite Hmo. munfold.
  rewrite !arith_in by (unfold in_u; lia).
  replace (Z.of_nat mo + Z.of_nat i * 32)%Z with (Z.of_nat (mo + i * 32)) by lia.
  replace (Z.to_nat (Z.of_nat (mo + i * 32))) with (mo + i * 32 + 0) by lia.
  rewrite (H1 0 (m_cap_type m) eq_refl).
  replace (Z.of_nat (mo + i * 32) + 2)%Z with (Z.of_nat (mo + i * 32 + 2)) by lia.
  rewrite (at_rd _ _ _ _ H2) by (unfold blen; simpl; lia).
  replace (Z.of_nat (mo + i * 32) + 4)%Z with (Z.of_nat (mo + i * 32 + 4)) by lia.
  rewrite (at_rd _ _ _ _ H3) by (unfold blen; simpl; lia).
  replace (Z.of_nat (mo + i * 32) + 8)%Z with (Z.of_nat (mo + i * 32 + 8)) by lia.
  rewrite (at_rd _ _ _ _ H4) by (unfold blen; simpl; lia).
  replace (Z.of_nat (mo + i * 32) + 16)%Z with (Z.of_nat (mo + i * 32 + 16)) by lia.
  rewrite (at_rd _ _ _ _ H5) by (unfold blen; simpl; lia).
  by destruct m.
Qed.

Lemma check_segment_ok p i s fo :
  segment_raw p i = Ok (spec_segment s fo) → spec_ok s →
  (Z.of_nat fo + Z.of_nat (length (sp_data s)) <= blen (pbytes p))%Z → (blen (pbytes p) < 2 ^ 32)%Z →
  ∃ b, check_segment p i = Ok b ∧ (spec_exec (entry p) s → b = true).
Proof.
  intros Hs (Hp & Hv & Ha & Hva & Hma & Hm & Hend) Hfo Hl. unfold check_segment. munfold. rewrite Hs.
  unfold spec_segment; simpl. rewrite Hv. change 4095%Z with (Z.ones 12). rewrite !Z.land_ones by lia.
  change (2 ^ 12)%Z with 4096%Z. rewrite Hva, Hma. simpl.
  rewrite (proj2 (Z.ltb_ge _ _)) by lia. rewrite Z.shiftr_div_pow2 by lia.
  rewrite (proj2 (Z.ltb_ge MAX_SEGMENT_PAGES _)).
  2:{ unfold MAX_SEGMENT_PAGES. apply Z.div_le_upper_bound; lia. }
  unfold checked. rewrite (proj2 (fits_spec 64 _)) by (unfold in_u; lia).
  rewrite (proj2 (Z.ltb_ge _ _)) by lia. rewrite (proj2 (fits_spec 64 _)) by (unfold in_u; lia).
  eexists. split; [reflexivity|]. intros [Hx Hin]. unfold is_exec. simpl.
  apply Z.eqb_neq in Hx. rewrite Hx. simpl.
  rewrite (proj2 (Z.leb_le _ _)), (proj2 (Z.ltb_lt _ _)) by lia. done.
Qed.

Lemma check_segments_ok p (segs : list SegmentSpec) ix ok :
  (∀ i, i ∈ ix → ∃ s fo, segs !! i = Some s ∧ segment_raw p (Z.of_nat i) = Ok (spec_segment s fo) ∧ spec_ok s ∧
     (Z.of_nat fo + Z.of_nat (length (sp_data s)) <= blen (pbytes p))%Z) →
  (blen (pbytes p) < 2 ^ 32)%Z →
  (ok = true ∨ ∃ i s, i ∈ ix ∧ segs !! i = Some s ∧ spec_exec (entry p) s) →
  check_segments p ix ok = Ok true.
Proof.
  intros H Hl. revert ok. induction ix as [|i ix IH]; intros ok He; cbn [check_segments].
  { destruct He as [->|(i & _ & Hi & _)]; [done|by apply elem_of_nil in Hi]. }
  destruct (H i) as (s & fo & Hi & Hs & Hok & Hfo); [left|].
  destruct (check_segment_ok p _ s fo Hs Hok Hfo Hl) as (b & Hb & Hx). munfold. rewrite Hb.
  apply IH; [intros j Hj; apply H; by right|].
  destruct He as [->|(j & s' & [->|Hj]%elem_of_cons & Hs' & Hex)].
  - left. by destruct b.
  - left. simplify_eq. by rewrite Hx.
  - right. by exists j, s'.
Qed.

(** An image whose header, segments and manifest are in place parses. *)
Lemma parse_encoded arch ent segs man total mo b :
  hdr_at b arch ent total (length segs) (length man) mo →
  in_u 16 arch → in_u 64 ent → length segs ≤ 16 → length man ≤ 32 → Exists (spec_exec ent) segs →
  length b = total → (Z.of_nat total < 2 ^ 32)%Z → mo = 48 + length segs * 32 → mo + length man * 32 ≤ total →
  let p := mkPex b ent 48 (Z.of_nat (length segs)) (Z.of_nat mo) (Z.of_nat (length man)) in
  (∀ i s, segs !! i = Some s → ∃ fo, segment_raw p (Z.of_nat i) = Ok (spec_segment s fo) ∧ spec_ok s ∧
     at_ b fo (sp_data s) ∧ fo + length (sp_data s) ≤ total) →
  (∀ i m, man !! i = Some m → manifest_raw p (Z.of_nat i) = Ok m) →
  parse b arch = Ok p.
Proof.
  intros [H1 H2 H3 H4 H5 H6 H7 H8 H9 H10 H11 H12] Ha He Hns Hnm Hex Lb Hl Emo Hend p Hseg Hman.
  assert (blen b = Z.of_nat total) as Hbl by (unfold blen; lia).
  unfold parse, rd_u16, rd_u32, rd_u64, HEADER_LEN, in_u in *. munfold.
  rewrite (proj2 (Z.ltb_ge _ _)) by lia.
  rewrite (at_rdZ _ 0 0 _ _ eq_refl H1) by (unfold PEX_MAGIC; simpl; lia). rewrite Z.eqb_refl.
  rewrite (at_rdZ _ 4 4 _ _ eq_refl H2) by (unfold PEX_VERSION; simpl; lia). rewrite Z.eqb_refl.
  rewrite (at_rdZ _ 6 6 _ _ eq_refl H3) by (simpl; lia). rewrite Z.eqb_refl.
  rewrite (at_rdZ _ 8 8 _ _ eq_refl H4) by (simpl; lia).
  rewrite (at_rdZ _ 16 16 _ _ eq_refl H5) by (simpl; lia). rewrite <- Hbl, Z.eqb_refl.
  rewrite (at_rdZ _ 20 20 _ _ eq_refl H6), (at_rdZ _ 24 24 _ _ eq_refl H7), (at_rdZ _ 26 26 _ _ eq_refl H8), (at_rdZ _ 28 28 _ _ eq_refl H9) by (simpl; lia).
  rewrite (at_rdZ _ 32 32 _ _ eq_refl H10), (at_rdZ _ 36 36 _ _ eq_refl H11), (at_rdZ _ 40 40 _ _ eq_refl H12) by (simpl; lia). cbn [negb Z.eqb].
  rewrite (proj2 (Z.ltb_ge MAX_SEGMENTS _)), (proj2 (Z.ltb_ge MAX_MANIFEST _))
    by (unfold MAX_SEGMENTS, MAX_MANIFEST; lia). cbn [orb].
  assert (∀ off n, (0 <= off)%Z → (0 <= n)%Z → (off + n * 32 <= blen b)%Z → table_fits (blen b) off n 32 = true) as Hfit.
  { intros off n Ho Hn Hle. unfold table_fits, checked. rewrite !(proj2 (fits_spec 64 _)) by (unfold in_u; lia).
    by apply Z.leb_le. }
  unfold SEGMENT_LEN, MANIFEST_LEN. rewrite !Hfit by lia. cbn [orb negb]. fold p.
  rewrite !Nat2Z.id. rewrite (check_segments_ok p segs).
  - cbn [negb].
    assert (∀ ix, (∀ i, i ∈ ix → i < length man) → check_manifest p ix = Ok ()) as Hcm.
    { induction ix as [|i ix IH]; intros Hix; [done|]. cbn [check_manifest].
      destruct (lookup_lt_is_Some_2 man i) as [m Hm]; [apply Hix; left|].
      munfold. rewrite (Hman i m Hm). apply IH. intros j Hj. apply Hix. by right. }
    rewrite Hcm; [done|]. intros i Hi%elem_of_seq. lia.
  - intros i Hi%elem_of_seq. destruct (lookup_lt_is_Some_2 segs i) as [s Hs]; [lia|].
    destruct (Hseg i s Hs) as (fo & Hr & Hok & _ & Hfo). exists s, fo. split_and!; try done. simpl. lia.
  - simpl. lia.
  - right. apply Exists_exists in Hex as (s & Hs & Hx). apply list_elem_of_lookup in Hs as [i Hi].
    exists i, s. split_and!; try done. apply elem_of_seq. apply lookup_lt_Some in Hi. lia.
Qed.

(** C29: Encoding then parsing gives back what was encoded: for valid segments,
    manifest and entry point, and a buffer large enough, [encode] succeeds with
    the exact length of the image, and the image parses for its architecture to a
    view with the same entry, and whose [i]-th segment, segment bytes and manifest
    entry are the [i]-th ones given. *)
Theorem encode_parse_roundtrip arch ent segs man out :
  in_u 16 arch → in_u 64 ent → length segs ≤ 16 → length man ≤ 32 →
  Forall spec_ok segs → Forall man_ok man → Exists (spec_exec ent) segs →
  (Z.of_nat (image_len segs man) < 2 ^ 32)%Z → image_len segs man ≤ length out →
  ∃ out' p, encode arch ent segs man out = (Ok (image_len segs man), out') ∧
    length out' = length out ∧
    parse (take (image_len segs man) out') arch = Ok p ∧ entry p = ent ∧
    seg_count p = Z.of_nat (length segs) ∧ man_count p = Z.of_nat (length man) ∧
    (∀ i s, segs !! i = Some s → segment_data p (Z.of_nat i) = Ok (sp_data s) ∧
       ∃ fo, segment p (Z.of_nat i) = Ok (spec_segment s fo)) ∧
    (∀ i m, man !! i = Some m → manifest p (Z.of_nat i) = Ok m).
Proof.
  intros Ha He Hns Hnm Hsok Hmok Hex Hlen Hout. set (total := image_len segs man) in *.
  assert (total = 48 + length segs * 32 + length man * 32 + data_len segs) as Etot by done.
  assert (length segs ≠ 0) as Hn0 by (destruct segs; [by inv Hex|simpl; lia]).
  unfold encode. rewrite encoded_len_spec by (done || fold total; lia). fold total.
  rewrite (proj2 (Nat.ltb_ge _ _)), (proj2 (Z.ltb_lt _ _)) by done. cbn [orb negb].
  set (mo := 48 + length segs * 32).
  destruct (enc_header_spec arch ent total (length segs) (length man) mo) as (b1 & Hh & L1 & H1); [lia..|].
  destruct (enc_segs_spec segs 0 (mo + length man * 32) b1) as (b2 & Hs & L2 & F2 & S2); [lia..|].
  destruct (enc_man_spec man mo 0 b2) as (b & Hm & L3 & F3 & M3); [lia|].
  assert (enc_body arch ent segs man total (replicate total 0%Z) = (Ok (), b)) as ->.
  { unfold enc_body, mbind, M_bind. fold mo. by rewrite Hh, Hs, Hm. }
  assert (length b = total) as Lb by lia.
  assert (hdr_at b arch ent total (length segs) (length man) mo) as Hhdr.
  { eapply hdr_agree; [|exact H1]. intros k Hk. rewrite F3 by lia. apply F2. lia. }
  set (p := mkPex b ent 48 (Z.of_nat (length segs)) (Z.of_nat mo) (Z.of_nat (length man))).
  assert (blen b = Z.of_nat total) as Hbl by (unfold blen; lia).
  assert (∀ i s, segs !! i = Some s → ∃ fo, segment_raw p (Z.of_nat i) = Ok (spec_segment s fo) ∧ spec_ok s ∧
    at_ b fo (sp_data s) ∧ fo + length (sp_data s) ≤ total) as Hseg.
  { intros i s Hi. pose proof (lookup_lt_Some _ _ _ Hi). destruct (S2 i s Hi) as (fo & Hr & Hd & Hge & Hfo).
    assert (spec_ok s) as Hok by (by eapply Forall_lookup_1). exists fo.
    split_and!; [|done|eapply at_agree; [|exact Hd]; intros k Hk; apply F3; lia|lia].
    apply rec_segment_raw; simpl; try done; try lia.
    eapply rec_agree; [|exact Hr]. intros k Hk. apply F3. lia. }
  assert (∀ i m, man !! i = Some m → manifest_raw p (Z.of_nat i) = Ok m) as Hman.
  { intros i m Hi. pose proof (lookup_lt_Some _ _ _ Hi). apply (rec_manifest_raw p mo); simpl; try done; try lia.
    - by apply (M3 i m).
    - by eapply Forall_lookup_1. }
  exists (b ++ drop total out), p.
  rewrite length_app, length_drop, Lb, take_app_length' by done.
  split; [done|]. split; [lia|]. split.
  { apply (parse_encoded arch ent segs man total mo); done || lia. }
  split_and!; try done.
  - intros i s Hi. pose proof (lookup_lt_Some _ _ _ Hi). destruct (Hseg i s Hi) as (fo & Hr & _ & Hd & Hfo).
    assert (segment p (Z.of_nat i) = Ok (spec_segment s fo)) as Hs'.
    { unfold segment. simpl. rewrite (proj2 (Z.ltb_lt _ _)) by lia. by rewrite Hr. }
    split; [|by exists fo]. unfold segment_data. rewrite Hs'. munfold. simpl.
    rewrite arith_in by (unfold in_u; lia). rewrite (proj2 (Z.leb_le _ _)) by lia.
    rewrite !Nat2Z.id. by rewrite (at_slice _ _ _ Hd).
  - intros i m Hi. pose proof (lookup_lt_Some _ _ _ Hi). unfold manifest. simpl.
    rewrite (proj2 (Z.ltb_lt _ _)) by lia. by rewrite (Hman i m Hi).
Qed.

(** ** Witnesses: a one-page image *)
Definition demo_segs : list SegmentSpec := [mkSegSpec 8192 4096 5 [144; 235; 254]%Z].
Definition demo_man : list ManifestSpec := [mkManifest 1 0 512 100 1000].
Definition demo_out : bytes := replicate 120 0%Z.

Lemma encode_parse_roundtrip_witness :
  ∃ out' p, encode 1 8193 demo_segs demo_man demo_out = (Ok 115, out') ∧
    parse (take 115 out') 1 = Ok p ∧ segment_data p 0 = Ok [144; 235; 254]%Z.
Proof.
  destruct (encode_parse_roundtrip 1 8193 demo_segs demo_man demo_out)
    as (out' & p & H1 & _ & H2 & _ & _ & _ & H3 & _).
  - unfold in_u. lia.
  - unfold in_u. lia.
  - vm_compute. lia.
  - vm_compute. lia.
  - repeat constructor; vm_compute; congruence.
  - repeat constructor; vm_compute; congruence.
  - constructor. unfold spec_exec. simpl. split; [vm_compute; congruence|lia].
  - vm_compute. reflexivity.
  - vm_compute. lia.
  - exists out', p. split; [exact H1|]. split; [exact H2|].
    exact (proj1 (H3 0 (mkSegSpec 8192 4096 5 [144; 235; 254]%Z) eq_refl)).
Defined.

Definition demo_image : bytes := take 115 (encode 1 8193 demo_segs demo_man demo_out).2.
Lemma parse_hostile_safe_witness :
  ∃ p, parse demo_image 1 = Ok p ∧ ∃ m, manifest p 0 = Ok m.
Proof.
  pose proof (parse_hostile_safe demo_image 1) as H.
  assert (∃ p, parse demo_image 1 = Ok p ∧ man_count p = 1%Z) as (p & Hp & Hc)
    by (eexists; vm_compute; split; reflexivity).
  rewrite Hp in H. exists p. split; [exact Hp|]. apply H.
  - apply byte_list_check. vm_compute. reflexivity.
  - vm_compute. reflexivity.
  - rewrite Hc. lia.
Defined.
