(* ===== verification/Syscall.v ===== *)
(** * The invocation boundary ([abi/src/invoke.rs], [kernel/src/syscall.rs])

    Every system call is an invocation of an operation on a capability of the
    caller's space.  [invoke] is the dispatch; [requires] states, one line per
    operation, which authority it needs, and the theorems show that the
    dispatch grants a call exactly when the caller holds that authority. *)

From S2P Require Import Prelude Rights Cap Budget CSpace CSpaceInv CSpaceOps CSpaceSched CSpaceRevoke CSpaceProps CSpaceStep CSpaceAlias CSpaceReach CSpaceTheorems.

Local Open Scope Z_scope.

(** ** The wire contract *)
Module Abi.
Definition MSG_REGS : nat := 4.
Definition INVOKE : Z := 0.

Definition CAP_IDENTIFY : Z := 1.
Definition FRAME_PROBE : Z := 2.
Definition ENDPOINT_SEND : Z := 3.
Definition DEBUG_EMIT : Z := 16.
Definition PROC_EXIT : Z := 17.
Definition ENDPOINT_CALL : Z := 32.
Definition ENDPOINT_RECV : Z := 33.
Definition ENDPOINT_REPLY : Z := 34.
Definition SHARED_QUERY : Z := 48.
Definition NOTIFY_WAIT : Z := 64.
Definition NOTIFY_SIGNAL : Z := 65.

Record Invocation := mkInvocation {
  cptr : Z;          (* u32 *)
  op : Z;            (* u16 *)
  args : list Z      (* [u64; MSG_REGS] *)
}.

Definition invocation_new (c o : Z) : Invocation := mkInvocation c o (replicate MSG_REGS 0).

Inductive InvokeError :=
| BadCptr
| EmptySlot
| WrongType
| InsufficientRights
| UnknownOp.

(** [e as i32]: the stable wire values *)
Definition invoke_error_i32 (e : InvokeError) : Z :=
  match e with
  | BadCptr => 1
  | EmptySlot => 2
  | WrongType => 3
  | InsufficientRights => 4
  | UnknownOp => 5
  end.

#[export] Instance InvokeError_eq_dec : EqDecision InvokeError.
Proof. solve_decision. Defined.
End Abi.
Import Abi.

Section syscall.
Context {BF : Bitflags}.

(** ** The dispatch *)

(** [.map_err(|e| match e { OutOfBounds => BadCptr, _ => EmptySlot })] *)
Definition cptr_error (e : CapError) : InvokeError :=
  match e with
  | OutOfBounds => BadCptr
  | _ => EmptySlot
  end.
Definition resolve_cptr (cs : CSpace) (c : Z) : res InvokeError RawCap :=
  match resolve cs (Z.to_nat c) with
  | Ok r => Ok r
  | Err e => Err (cptr_error e)
  | Panic => Panic
  end.

(** The two guards that open every operation but [CAP_IDENTIFY]. *)
Definition guard (c : RawCap) (t : CapType) (r : Z) (k : res InvokeError Z) : res InvokeError Z :=
  if negb (is_type (cap_type c) t) then Err WrongType else
  if negb (bf_contains (rights c) r) then Err InsufficientRights else k.

Definition invoke (cs : CSpace) (inv : Invocation) : res InvokeError Z :=
  c ← resolve_cptr cs (cptr inv);
  let o := op inv in
  if o =? CAP_IDENTIFY
  then Ok (Z.lor (wrap 64 (Z.shiftl (cap_type_u8 (cap_type c)) 32)) (rights c))
  else if o =? FRAME_PROBE then guard c Frame READ (Ok (objref c))
  else if o =? ENDPOINT_SEND then guard c Endpoint SEND (Ok (badge c))
  else if (o =? DEBUG_EMIT) || (o =? PROC_EXIT) then guard c Endpoint SEND (index (args inv) 0)
  else if o =? ENDPOINT_CALL then guard c Endpoint SEND (Ok (badge c))
  else if o =? ENDPOINT_RECV then guard c Endpoint RECV (Ok (badge c))
  else if o =? SHARED_QUERY then guard c SharedRo READ (Ok (wrap 64 (Z.shiftl (aux c) 12)))
  else if o =? NOTIFY_WAIT then guard c Notification WAIT (Ok (objref c))
  else if o =? NOTIFY_SIGNAL then guard c Notification SIGNAL (Ok (objref c))
  else Err UnknownOp.

(** ** The authority each operation needs

    [None]: not an operation; [Some None]: any live capability; [Some (Some
    (t, r))]: a capability of type [t] that carries the right [r]. *)
Definition requires (o : Z) : option (option (CapType * Z)) :=
  if o =? CAP_IDENTIFY then Some None
  else if o =? FRAME_PROBE then Some (Some (Frame, READ))
  else if (o =? ENDPOINT_SEND) || (o =? DEBUG_EMIT) || (o =? PROC_EXIT) || (o =? ENDPOINT_CALL)
  then Some (Some (Endpoint, SEND))
  else if o =? ENDPOINT_RECV then Some (Some (Endpoint, RECV))
  else if o =? SHARED_QUERY then Some (Some (SharedRo, READ))
  else if o =? NOTIFY_WAIT then Some (Some (Notification, WAIT))
  else if o =? NOTIFY_SIGNAL then Some (Some (Notification, SIGNAL))
  else None.

Definition authorises (o : Z) (c : RawCap) : Prop :=
  match requires o with
  | None => False
  | Some None => True
  | Some (Some (t, r)) => cap_type c = t ∧ bf_contains (rights c) r = true
  end.

(** The refusal of [o] on a live capability, if any. *)
Definition refusal (o : Z) (c : RawCap) : option InvokeError :=
  match requires o with
  | None => Some UnknownOp
  | Some None => None
  | Some (Some (t, r)) =>
      if negb (is_type (cap_type c) t) then Some WrongType
      else if negb (bf_contains (rights c) r) then Some InsufficientRights else None
  end.

Lemma refusal_none o c : refusal o c = None ↔ authorises o c.
Proof.
  unfold refusal, authorises. destruct (requires o) as [[[t r]|]|]; [|done..].
  destruct (is_type (cap_type c) t) eqn:Ht; simpl.
  - apply is_type_true in Ht. destruct (bf_contains (rights c) r); naive_solver.
  - apply is_type_false in Ht. naive_solver.
Qed.

Lemma requires_guarded o t r : requires o = Some (Some (t, r)) → t ≠ Null ∧ t ≠ Untyped ∧ t ≠ Sched.
Proof. unfold requires. intros H. repeat case_match; by simplify_eq. Qed.

Ltac dispatch o :=
  destruct (o =? CAP_IDENTIFY) eqn:?; [|destruct (o =? FRAME_PROBE) eqn:?;
  [|destruct (o =? ENDPOINT_SEND) eqn:?; [|destruct (o =? DEBUG_EMIT) eqn:?;
  [|destruct (o =? PROC_EXIT) eqn:?; [|destruct (o =? ENDPOINT_CALL) eqn:?;
  [|destruct (o =? ENDPOINT_RECV) eqn:?; [|destruct (o =? SHARED_QUERY) eqn:?;
  [|destruct (o =? NOTIFY_WAIT) eqn:?; [|destruct (o =? NOTIFY_SIGNAL) eqn:?]]]]]]]]].

Lemma invoke_resolved cs inv c :
  length (args inv) = MSG_REGS → resolve cs (Z.to_nat (cptr inv)) = Ok c →
  match refusal (op inv) c with
  | Some e => invoke cs inv = Err e
  | None => ∃ w, invoke cs inv = Ok w
  end.
Proof.
  intros Hl Hr. unfold invoke, resolve_cptr. rewrite Hr. cbn. unfold refusal, requires, guard.
  assert (∃ a, index (E:=InvokeError) (args inv) 0 = Ok a) as [a Ha].
  { destruct (args inv) as [|a l]; [done|]. by exists a. }
  rewrite Ha. dispatch (op inv); cbn [orb]; try (by eauto);
    by destruct (is_type _ _); [destruct (bf_contains _ _)|]; simpl; eauto.
Qed.

Lemma resolve_cptr_spec cs c :
  match resolve_cptr cs c with
  | Ok r => resolve cs (Z.to_nat c) = Ok r
  | Err BadCptr => (length (slots cs) ≤ Z.to_nat c)%nat
  | Err EmptySlot => ∃ e, slots cs !! Z.to_nat c = Some e ∧ is_null (cap e) = true
  | _ => False
  end.
Proof.
  unfold resolve_cptr, resolve, live. case_decide as Hd; [done|].
  destruct (lookup_lt_is_Some_2 (slots cs) (Z.to_nat c)) as [e He]; [lia|].
  unfold slot, index. rewrite He. cbn. destruct (is_null (cap e)) eqn:Hn; cbn; eauto.
Qed.

Lemma invoke_total cs inv : length (args inv) = MSG_REGS → invoke cs inv ≠ Panic.
Proof.
  intros Hl E. pose proof (resolve_cptr_spec cs (cptr inv)) as S.
  destruct (resolve cs (Z.to_nat (cptr inv))) as [c|e|] eqn:Hr.
  - pose proof (invoke_resolved cs inv c Hl Hr) as I. destruct (refusal (op inv) c); [congruence|].
    destruct I as [w I]. congruence.
  - unfold invoke, resolve_cptr in E. by rewrite Hr in E.
  - unfold resolve_cptr in S. by rewrite Hr in S.
Qed.

(** C26: The dispatch is total and enforces the Root Invariant: it answers [Ok]
    exactly when the named slot holds a live capability of the type and with
    the right that [requires] lists for the operation; otherwise it answers
    [BadCptr] (slot outside the space), [EmptySlot] (nothing held there), or on
    a live capability [UnknownOp], [WrongType] or [InsufficientRights], in that
    order. *)
Theorem invoke_exact cs inv :
  length (args inv) = MSG_REGS →
  match invoke cs inv with
  | Ok _ => ∃ c, resolve cs (Z.to_nat (cptr inv)) = Ok c ∧ authorises (op inv) c
  | Err BadCptr => (length (slots cs) ≤ Z.to_nat (cptr inv))%nat
  | Err EmptySlot => ∃ e, slots cs !! Z.to_nat (cptr inv) = Some e ∧ is_null (cap e) = true
  | Err e => ∃ c, resolve cs (Z.to_nat (cptr inv)) = Ok c ∧ refusal (op inv) c = Some e
  | Panic => False
  end.
Proof.
  intros Hl. pose proof (resolve_cptr_spec cs (cptr inv)) as S.
  destruct (resolve cs (Z.to_nat (cptr inv))) as [c|e|] eqn:Hr.
  - pose proof (invoke_resolved cs inv c Hl Hr) as I. destruct (refusal (op inv) c) as [e|] eqn:Hf.
    + rewrite I. destruct e; eauto; unfold refusal in Hf; repeat case_match; congruence.
    + destruct I as [w ->]. exists c. split; [done|]. by apply refusal_none.
  - unfold invoke. unfold resolve_cptr in *. rewrite Hr in S |- *. cbn.
    by destruct (cptr_error e).
  - unfold resolve_cptr in S. by rewrite Hr in S.
Qed.

(** Authority over the boundary only narrows: whatever operation the
    dispatch grants on a capability derived (at any depth) from a capability
    that is not an [Untyped], it also grants on that ancestor. *)
Theorem invoke_monotone cs inv k a ek ea w :
  wf cs → length (args inv) = MSG_REGS → cptr inv = Z.of_nat k → below cs k a →
  slots cs !! k = Some ek → slots cs !! a = Some ea → cap_type (cap ea) ≠ Untyped →
  invoke cs inv = Ok w →
  ∃ w', invoke cs (mkInvocation (Z.of_nat a) (op inv) (args inv)) = Ok w'.
Proof.
  intros W Hl Hc Hb Hk Ha Hu Hi.
  assert (resolve cs k = Ok (cap ek)) as Hrk.
  { apply live_Ok. split; [|by exists ek]. by eapply below_live. }
  assert (resolve cs a = Ok (cap ea)) as Hra.
  { apply live_Ok. split; [|by exists ea]. by eapply below_ancestor_live. }
  destruct (below_rights _ _ _ _ _ W Hb Hk Ha Hu) as (Ht & Hr & _).
  pose proof (invoke_resolved cs inv (cap ek) Hl) as Ik. rewrite Hc, Nat2Z.id in Ik.
  specialize (Ik Hrk). pose proof (refusal_none (op inv) (cap ek)) as Hn.
  destruct (refusal (op inv) (cap ek)); [congruence|]. destruct Hn as [Hn _].
  pose proof (invoke_resolved cs (mkInvocation (Z.of_nat a) (op inv) (args inv)) (cap ea) Hl) as Ia.
  simpl in Ia. rewrite Nat2Z.id in Ia. specialize (Ia Hra).
  pose proof (refusal_none (op inv) (cap ea)) as [_ Hna].
  rewrite Hna in Ia; [done|]. specialize (Hn eq_refl). unfold authorises in *.
  destruct (requires (op inv)) as [[[t r]|]|]; [|done..]. destruct Hn as [Hn1 Hn2].
  split; [congruence|]. by eapply contains_subset.
Qed.

(** Revocation reaches the boundary: after REVOKE of a live slot, every
    invocation of any operation on any slot that was derived from it, at
    whatever depth, answers [EmptySlot]. *)
Theorem revoke_cuts_off cs c r k o a :
  wf cs → live cs c = Ok r → below cs k c →
  ∃ cs', revoke c cs = (Ok (), cs') ∧
    invoke cs' (mkInvocation (Z.of_nat k) o a) = Err EmptySlot.
Proof.
  intros W (Hn & e & He & <-)%live_Ok Hk.
  destruct (revoke_spec cs c e W He Hn) as (cs1 & zs & R & Hr).
  exists (reclaim c cs1). split; [done|].
  assert (k ≠ c) by (intros ->; by apply below_irrefl in Hk).
  apply (rv_below _ _ _ _ R) in Hk. rewrite <- (reclaim_lookup_ne c) in Hk by done.
  unfold invoke, resolve_cptr, resolve, live. simpl. rewrite Nat2Z.id.
  rewrite decide_False by (apply lookup_lt_Some in Hk; lia).
  by rewrite (slot_Some _ _ _ Hk).
Qed.

(** A [Notification] created by RETYPE can be signalled but never waited
    on: the default rights of the type leave out [WAIT], so [NOTIFY_WAIT] on it
    answers [InsufficientRights], and so on all it derives. *)
Theorem retyped_notification_unwaitable cs ut f n dest cs' i a :
  wf cs → in_u 32 f → in_u 32 n → retype ut Notification f n dest cs = (Ok (), cs') →
  (i < Z.to_nat n)%nat → length a = MSG_REGS →
  let at_i o := mkInvocation (Z.of_nat (dest + i)) o a in
  invoke cs' (at_i NOTIFY_WAIT) = Err InsufficientRights ∧
  ∃ w, invoke cs' (at_i NOTIFY_SIGNAL) = Ok w.
Proof.
  intros W Hf Hn H Hi Hl at_i. pose proof (retype_spec cs ut Notification f n dest W Hf Hn) as S.
  rewrite H in S. destruct S as [_ [u R]]. pose proof (rt_slots _ _ _ _ _ _ _ _ R (dest + i)) as Hs.
  rewrite decide_True in Hs by lia.
  assert (∃ c, resolve cs' (dest + i) = Ok c ∧ cap_type c = Notification ∧
    rights c = default_rights Notification) as (c & Hc & Ht & Hr).
  { eexists. split; [apply live_Ok; split; [|eexists; split; [exact Hs|reflexivity]]|]; done. }
  assert (bf_contains (rights c) WAIT = false) as HW.
  { apply not_true_iff_false. rewrite Hr. simpl. rewrite !bf_union_spec, bf_contains_spec. by vm_compute. }
  assert (bf_contains (rights c) SIGNAL = true) as HS.
  { rewrite Hr. simpl. rewrite !bf_union_spec, bf_contains_spec. by vm_compute. }
  assert (∀ o, resolve cs' (Z.to_nat (cptr (at_i o))) = Ok c) as Hres
    by (intros o; simpl; by rewrite Nat2Z.id).
  pose proof (invoke_resolved cs' (at_i NOTIFY_WAIT) c Hl (Hres _)) as I1.
  pose proof (invoke_resolved cs' (at_i NOTIFY_SIGNAL) c Hl (Hres _)) as I2.
  unfold refusal, requires in I1, I2. simpl in I1, I2. rewrite Ht in I1, I2.
  by rewrite HW in I1; rewrite HS in I2.
Qed.
End syscall.

(** ** Witnesses *)

Lemma invoke_exact_witness : ∃ w, invoke demo (invocation_new 4 FRAME_PROBE) = Ok w ∧
  ∃ c, resolve demo 4%nat = Ok c ∧ authorises FRAME_PROBE c.
Proof.
  assert (invoke demo (invocation_new 4 FRAME_PROBE) = Ok 100) as E by (vm_compute; reflexivity).
  exists 100. split; [exact E|].
  pose proof (invoke_exact demo (invocation_new 4 FRAME_PROBE) eq_refl) as H.
  rewrite E in H. exact H.
Defined.

Lemma demo_below_4_2 : below demo 4%nat 2%nat.
Proof. apply tc_once. eexists. split; vm_compute; reflexivity. Qed.

Lemma invoke_monotone_witness :
  ∃ w', invoke demo (mkInvocation 2 FRAME_PROBE (replicate 4 0)) = Ok w'.
Proof.
  apply (invoke_monotone demo (invocation_new 4 FRAME_PROBE) 4%nat 2%nat
    (slots demo !!! 4%nat) (slots demo !!! 2%nat) 100);
    [apply demo_wf|reflexivity|reflexivity|apply demo_below_4_2|vm_compute; reflexivity..
    |vm_compute; congruence|vm_compute; reflexivity].
Defined.

Lemma revoke_cuts_off_witness : ∃ cs', revoke 2%nat demo = (Ok (), cs') ∧
  invoke cs' (mkInvocation 4 CAP_IDENTIFY [1; 2; 3; 4]) = Err EmptySlot.
Proof.
  apply (revoke_cuts_off demo 2%nat (cap (slots demo !!! 2%nat)) 4%nat CAP_IDENTIFY [1; 2; 3; 4]);
    [apply demo_wf|vm_compute; reflexivity|apply demo_below_4_2].
Defined.

Lemma retyped_notification_unwaitable_witness :
  ∃ cs', retype 0%nat Notification 1 1 7%nat demo = (Ok (), cs') ∧
    invoke cs' (mkInvocation 7 NOTIFY_WAIT [0; 0; 0; 0]) = Err InsufficientRights.
Proof.
  eexists. split; [vm_compute; reflexivity|].
  refine (proj1 (retyped_notification_unwaitable demo 0%nat 1 1 7%nat _ 0%nat [0; 0; 0; 0] demo_wf _ _ _ _ _));
    [u_bounds|u_bounds|vm_compute; reflexivity|lia|reflexivity].
Defined.
