(* ===== verification/Arch.v ===== *)
(** * The architecture seam ([kernel/src/arch/mod.rs])

    The types the generic kernel shares with the architecture code. *)

From S2P Require Import Prelude.

(** No value is both writable and executable. *)
Inductive Prot := Ro | Rw | Rx.
#[export] Instance Prot_eq_dec : EqDecision Prot.
Proof. solve_decision. Defined.

(** [Prot::checked] *)
Definition prot_checked (read write exec : bool) : option Prot :=
  match read, write, exec with
  | true, false, false => Some Ro
  | true, true, false => Some Rw
  | true, false, true => Some Rx
  | _, _, _ => None
  end.

Record KernelMap := mkKernelMap {
  hhdm_offset : Z;
  identity_bytes : Z;
  kernel_vbase : Z;
  kernel_vend : Z;
  kernel_phys : Z;
  text : Z * Z;
  rodata : Z * Z;
  data_sect : Z * Z      (* data *)
}.

Record AddressSpace := mkSpace { primary : Z; secondary : Z }.

#[export] Instance AddressSpace_eq_dec : EqDecision AddressSpace.
Proof. solve_decision. Defined.
