(* ===== verification/Loader.v ===== *)
(** * The process loader ([kernel/src/loader/mod.rs])

    [load] turns a hostile image into a process: it parses the image, retypes
    frames for each segment from the loader's [Untyped], copies and maps them,
    and derives the capabilities of the manifest from the loader's own.  The
    mutable arguments and locals of [load] are the fields of [LState]; the
    privileged effects on memory and page tables are recorded in [events] in
    the order they happen. *)

From S2P Require Import Prelude Rights Cap Budget CSpace CSpaceInv CSpaceOps CSpaceSched CSpaceRevoke CSpaceProps CSpaceStep CSpaceAlias CSpaceReach Buddy Pex Arch.

Definition LOADER_SLOTS : nat := 32.
Definition PROCESS_SLOTS : nat := 16.
Definition L_UNTYPED : nat := 0.
Definition L_SCHED : nat := 1.
Definition L_ENDPOINT : nat := 2.
Definition L_SCRATCH : nat := 8.
Definition PROC_VA_BASE : Z := 1073741824.
Definition PROC_VA_END : Z := 2147483648.

Inductive LoadError :=
| LPex (e : PexError)
| UnknownManifestType (t : Z)
| BadRights
| BadSegmentRef
| SegmentVaddrOutOfRange
| DestSlotOutOfRange
| LCap (e : CapError).

Record Loaded := mkLoaded { l_entry : Z; l_budget : Z; l_domain_id : Z }.

Definition perm_to_prot (p : Z) : Prot :=
  if negb (Z.land p PERM_X =? 0)%Z then Rx
  else if negb (Z.land p PERM_W =? 0)%Z then Rw
  else Ro.

Inductive event :=
| EZero (frame frames : Z)                     (* the zeroing hook of [retype] *)
| ECopy (hhdm : Z) (data : bytes)              (* copy_nonoverlapping *)
| ESync (hhdm len : Z)                         (* arch::sync_instruction_cache *)
| EMap (va pa : Z) (p : Prot)                  (* arch::map_page *)
| EMapUser (va pa : Z) (p : Prot) (dom : Z).   (* arch::map_user_page *)

Record LState := mkLState {
  ld : CSpace;                        (* loader: &mut CSpace<LOADER_SLOTS> *)
  pr : CSpace;                        (* proc: &mut CSpace<PROCESS_SLOTS> *)
  scratch : nat;                      (* scratch: &mut Cptr *)
  seg_frames : list (option nat);     (* the locals of [load] *)
  budget : Z;
  events : list event
}.

Abbreviation LM := (M LState LoadError).

(** [?] with [From<CapError>] and [From<PexError>]. *)
Definition map_err {E F A} (f : E → F) (r : res E A) : res F A :=
  match r with
  | Ok a => Ok a
  | Err e => Err (f e)
  | Panic => Panic
  end.
Definition pex_read {A} (r : res PexError A) : LM A := lift (map_err LPex r).
(** What the operation had the loader's zeroing hook do. *)
Definition hook_calls (cs cs' : CSpace) : list event :=
  (λ fn : Z * Z, EZero fn.1 fn.2) <$> drop (length (zlog cs)) (zlog cs').
Definition loader_op {A} (m : CM A) : LM A := λ s,
  let '(r, l) := m (ld s) in
  (map_err LCap r, mkLState l (pr s) (scratch s) (seg_frames s) (budget s) (events s ++ hook_calls (ld s) l)).
Definition emit (e : event) : LM unit := λ s,
  (Ok (), mkLState (ld s) (pr s) (scratch s) (seg_frames s) (budget s) (events s ++ [e])).
(** [let slot = *scratch; *scratch += 1;] *)
Definition next_scratch : LM nat := λ s,
  (Ok (scratch s), mkLState (ld s) (pr s) (scratch s + 1) (seg_frames s) (budget s) (events s)).
(** [seg_frames[i] = Some(slot)] *)
Definition set_seg_frame (i slot : nat) : LM unit := λ s,
  if decide (i < length (seg_frames s))
  then (Ok (), mkLState (ld s) (pr s) (scratch s) (<[i:=Some slot]> (seg_frames s)) (budget s) (events s))
  else (Panic, s).
Definition set_budget (b : Z) : LM unit := λ s,
  (Ok (), mkLState (ld s) (pr s) (scratch s) (seg_frames s) b (events s)).

Section loader.
Context {BF : Bitflags}.

(** [HHDM_OFFSET], set once at boot, and [arch::PEX_ARCH]. *)
Variables HHDM_OFFSET PEX_ARCH : Z.

(** [memory::phys_to_virt] *)
Definition phys_to_virt {E} (pa : Z) : res E Z := arith 64 (pa + HHDM_OFFSET).

Definition grant_op (src dst : nat) (r b : Z) (m : GrantMode) : LM unit := λ s,
  let '(o, (l, p)) := grant src dst r b m (ld s, pr s) in
  (map_err LCap o, mkLState l p (scratch s) (seg_frames s) (budget s) (events s)).

(** ** Segments *)

Definition map_one (s : Segment) (base_pfn : Z) (dom : Z) (user : bool) (k : nat) : LM unit :=
  off ← lift (arith 64 (Z.of_nat k * 4096));
  va ← lift (arith 64 (vaddr s + off));
  pfn ← lift (arith 32 (base_pfn + wrap 32 (Z.of_nat k)));
  let pa := pfn_to_phys pfn in
  let prot := perm_to_prot (perm s) in
  emit (if user : bool then EMapUser va pa prot dom else EMap va pa prot).

Definition load_segment (p : Pex) (dom : Z) (user : bool) (i : nat) : LM unit :=
  s ← pex_read (segment p (Z.of_nat i));
  seg_end ← lift (ok_or (checked 64 (vaddr s + mem_size s)) SegmentVaddrOutOfRange);
  if (vaddr s <? PROC_VA_BASE)%Z || (PROC_VA_END <? seg_end)%Z
  then throw SegmentVaddrOutOfRange else
  pages ← lift (ok_or (checked 32 (Z.shiftr (mem_size s) 12)) (LPex SegmentTooLarge));
  let mapped_bytes := wrap 64 (Z.shiftl pages 12) in
  frame_slot ← next_scratch;
  loader_op (retype L_UNTYPED Frame pages 1 frame_slot);;
  r ← loader_op (reads (λ cs, resolve cs frame_slot));
  let base_pfn := wrap 32 (objref r) in
  hhdm ← lift (phys_to_virt (pfn_to_phys base_pfn));
  data ← pex_read (segment_data p (Z.of_nat i));
  emit (ECopy hhdm data);;
  (if negb (Z.land (perm s) PERM_X =? 0)%Z then emit (ESync hhdm mapped_bytes) else mret ());;
  mfor (seq 0 (Z.to_nat pages)) (map_one s base_pfn dom user);;
  set_seg_frame i frame_slot.

(** ** Manifest *)

Definition load_entry (p : Pex) (i : nat) : LM unit :=
  m ← pex_read (manifest p (Z.of_nat i));
  let dest := Z.to_nat (dest_slot m) in
  if decide (PROCESS_SLOTS ≤ dest) then throw DestSlotOutOfRange else
  r ← lift (ok_or (bf_from_bits ALL (m_rights m)) BadRights);
  if (m_cap_type m =? MANIFEST_SCHED)%Z then
    child ← next_scratch;
    loader_op (split L_SCHED child (wrap 32 (param0 m)));;
    grant_op child dest r 0 GMove;;
    set_budget (wrap 32 (param0 m))
  else if (m_cap_type m =? MANIFEST_ENDPOINT)%Z then
    grant_op L_ENDPOINT dest r (param0 m) GMint
  else if (m_cap_type m =? MANIFEST_FRAME)%Z then
    st ← get;
    src ← lift (ok_or (mjoin (seg_frames st !! Z.to_nat (param0 m))) BadSegmentRef);
    grant_op src dest r 0 GMint
  else throw (UnknownManifestType (m_cap_type m)).

Definition load_parsed (p : Pex) (dom : Z) (user : bool) : LM Loaded :=
  mfor (seq 0 (Z.to_nat (seg_count p))) (load_segment p dom user);;
  mfor (seq 0 (Z.to_nat (man_count p))) (load_entry p);;
  st ← get;
  mret (mkLoaded (entry p) (budget st) dom).

Definition load (image : bytes) (dom : Z) (user : bool) : LM Loaded :=
  p ← pex_read (parse image PEX_ARCH);
  modify (λ s, mkLState (ld s) (pr s) (scratch s) (replicate (Z.to_nat MAX_SEGMENTS) None) 0 (events s));;
  load_parsed p dom user.

Definition is_ok {E A} (r : res E A) : bool := match r with Ok _ => true | _ => false end.
Definition occupied_slots (proc : CSpace) : nat :=
  length (List.filter (λ s, is_ok (resolve proc s)) (seq 0 PROCESS_SLOTS)).

(** The frames [zero_frames] hands to [memory::zero_frame], in order. *)
Definition zero_frames (frame frames : Z) : res CapError (list Z) :=
  (fix go (n : nat) (i : Z) : res CapError (list Z) :=
     match n with
     | O => Ok []
     | S n' => f ← arith 64 (frame + i); l ← go n' (i + 1)%Z; Ok (pfn_to_phys (wrap 32 f) :: l)
     end) (Z.to_nat frames) 0%Z.

(** [authority()], from the answer of [memory::alloc_frames(6)]; the [fatal]
    halts are panics. *)
Definition authority (block : option Z) : res CapError CSpace :=
  match block with
  | None => Panic
  | Some phys =>
      let base := phys_to_pfn phys in
      match (set_root_untyped base 64;; set_root_sched L_SCHED 1000 1000;;
             retype L_UNTYPED Endpoint 1 1 L_ENDPOINT) (cspace_new LOADER_SLOTS) with
      | (Ok _, cs) => Ok cs
      | _ => Panic
      end
  end.
End loader.
