(* ===== verification/LoaderProps.v ===== *)
(** * The loader: invariants of [load]

    Every capability step of [load] is an operation or a grant of the
    capability space, so both spaces stay reachable; the CPU time of the two
    together is conserved; and every recorded effect concerns frames that this
    load zeroed and pages of a validated segment. *)

From S2P Require Import Prelude Rights Cap Budget CSpace CSpaceInv CSpaceOps CSpaceSched CSpaceRevoke CSpaceProps CSpaceStep CSpaceAlias CSpaceReach Buddy Pex Arch Loader.

(** The zeroing hook was called on [n] frames from [f] since the log was [z0]. *)
Definition zeroed (z0 : list (Z * Z)) (s : LState) (f n : Z) : Prop :=
  ∃ zs, zlog (ld s) = z0 ++ zs ∧ (f, n) ∈ zs.

(** The same authority: only the watermark of an [Untyped] and the budget of a
    [Sched] may differ. *)
Definition same_auth (e e' : Cte) : Prop :=
  parent e' = parent e ∧
  (cap e' = cap e ∨
   cap_type (cap e) = Untyped ∧ (∃ w, cap e' = set_watermark (cap e) w) ∨
   cap_type (cap e) = Sched ∧ (∃ n, cap e' = set_size (cap e) n)).

(** Every capability held before is still held. *)
Definition preserves (l l' : CSpace) : Prop := ∀ k e,
  occupied l k e → ∃ e', slots l' !! k = Some e' ∧ same_auth e e'.

Lemma same_auth_fields e e' : same_auth e e' →
  cap_type (cap e') = cap_type (cap e) ∧ rights (cap e') = rights (cap e).
Proof. intros [_ [->|[[? [? ->]]|[? [? ->]]]]]; done. Qed.

Lemma same_auth_eq e e' : same_auth e e' →
  cap_type (cap e) ≠ Untyped → cap_type (cap e) ≠ Sched → e' = e.
Proof.
  intros [Hp [H|[[? _]|[? _]]]] ??; [|done..]. destruct e, e'; simpl in *; by subst.
Qed.

#[export] Instance same_auth_preorder : PreOrder same_auth.
Proof.
  split.
  - intros e. split; [done|by left].
  - intros e1 e2 e3 [Hp1 H1] [Hp2 H2]. split; [congruence|].
    destruct H1 as [E1|[[Ht1 [w1 E1]]|[Ht1 [n1 E1]]]], H2 as [E2|[[Ht2 [w2 E2]]|[Ht2 [n2 E2]]]];
      rewrite E1 in *; simpl in *; rewrite ?E2; eauto 7; congruence.
Qed.

#[export] Instance preserves_preorder : PreOrder preserves.
Proof.
  split.
  - intros l k e [He _]. exists e. split; [done|]. reflexivity.
  - intros l1 l2 l3 H1 H2 k e [He Hn]. destruct (H1 k e) as (e' & He' & Ha); [done|].
    destruct (H2 k e') as (e'' & He'' & Ha'); [|exists e''; split; [done|by etrans]].
    split; [done|]. by rewrite (proj1 (same_auth_fields _ _ Ha)).
Qed.

Section props.
Context {BF : Bitflags}.
Variables HHDM_OFFSET PEX_ARCH : Z.

Definition page_ok (p : Pex) (zr : Z → Z → Prop) (va pa : Z) (prot : Prot) : Prop :=
  ∃ i s k f n, segment p i = Ok s ∧ (0 <= k < n)%Z ∧ (n * 4096 = mem_size s)%Z ∧
    va = (vaddr s + k * 4096)%Z ∧ pa = ((f + k) * 4096)%Z ∧ zr f n ∧
    (PROC_VA_BASE <= va)%Z ∧ (va + 4096 <= PROC_VA_END)%Z ∧ (va mod 4096 = 0)%Z ∧
    prot = perm_to_prot (perm s) ∧
    (prot = Rx → is_write s = false) ∧ (prot = Rw ↔ is_write s = true).

Definition event_ok (p : Pex) (dom : Z) (user : bool) (zr : Z → Z → Prop) (e : event) : Prop :=
  match e with
  | EZero f n => zr f n
  | ECopy h data => ∃ f n, zr f n ∧ h = (f * 4096 + HHDM_OFFSET)%Z ∧ (blen data <= n * 4096)%Z
  | ESync h len => ∃ f n, zr f n ∧ h = (f * 4096 + HHDM_OFFSET)%Z ∧ len = (n * 4096)%Z
  | EMap va pa prot => user = false ∧ page_ok p zr va pa prot
  | EMapUser va pa prot d => user = true ∧ d = dom ∧ page_ok p zr va pa prot
  end.

Record linv (T nx : Z) (s : LState) : Prop := {
  li_ld : reachable (ld s);
  li_pr : reachable (pr s);
  li_time : (cpu_time (ld s) + cpu_time (pr s) = T)%Z;
  li_next : (next_obj (ld s) <= nx)%Z;
  li_mem e : slots (ld s) !! L_UNTYPED = Some e → cap_type (cap e) = Untyped →
    (objref (cap e) + size (cap e) <= 2 ^ 32)%Z;
  li_segs : length (seg_frames s) = Z.to_nat MAX_SEGMENTS;
  li_len : length (slots (pr s)) = PROCESS_SLOTS
}.

(** ** Capability steps *)

Lemma reachable_next cs : reachable cs → in_u 64 (next_obj cs).
Proof. intros [W _]%reachable_inv. apply W. Qed.

Lemma hook_calls_same cs cs' : zlog cs' = zlog cs → hook_calls cs cs' = [].
Proof using Type. intros E. unfold hook_calls. by rewrite E, drop_all. Qed.

Lemma hook_calls_app cs cs' zs : zlog cs' = zlog cs ++ zs → hook_calls cs cs' = (λ fn : Z * Z, EZero fn.1 fn.2) <$> zs.
Proof using Type. intros E. unfold hook_calls. by rewrite E, drop_app_length. Qed.

Lemma retype_step T nx s pages slot :
  linv T nx s → (nx < 2 ^ 64 - 1)%Z → in_u 32 pages →
  match loader_op (retype L_UNTYPED Frame pages 1 slot) s with
  | (Ok _, s') => linv T nx s' ∧ pr s' = pr s ∧ seg_frames s' = seg_frames s ∧
      preserves (ld s) (ld s') ∧
      ∃ r, resolve (ld s') slot = Ok r ∧ events s' = events s ++ [EZero (objref r) pages] ∧ cap_type r = Frame ∧ rights r = default_rights Frame ∧
        size r = pages ∧
        zlog (ld s') = zlog (ld s) ++ [(objref r, pages)] ∧
        (0 <= objref r)%Z ∧ (objref r + pages <= 2 ^ 32)%Z ∧ (0 < pages)%Z
  | (Err _, s') => s' = s
  | (Panic, _) => False
  end.
Proof.
  intros [Hl Hp Ht Hn Hm Hs Hln] Hnx Hpg. pose proof (reachable_next _ Hl) as Hn0.
  pose proof (reachable_inv _ Hl) as [W _]. unfold loader_op, map_err.
  pose proof (retype_spec (ld s) L_UNTYPED Frame pages 1 slot W Hpg) as R.
  destruct (retype L_UNTYPED Frame pages 1 slot (ld s)) as [[[]|e|] l] eqn:Hr.
  - destruct R as [W' [u R]]; [by vm_compute|]. destruct (rt_untyped _ _ _ _ _ _ _ _ R) as [Hu Hty].
    pose proof (rt_slots _ _ _ _ _ _ _ _ R) as Hsl. change (Z.to_nat 1) with 1 in Hsl.
    pose proof (rt_budget _ _ _ _ _ _ _ _ R) as Hb. pose proof (rt_pos _ _ _ _ _ _ _ _ R) as Hpos.
    destruct (wf_caps _ W _ _ Hu) as [(_&Ho&_&Hw&_) _]. specialize (Hm _ Hu Hty). unfold in_u in *.
    split; [split; simpl; try done|].
    + apply (R_op (ld s) (ORetype L_UNTYPED Frame pages 1 slot) (Ok ())); try done; unfold in_u; lia.
    + rewrite <- Ht. f_equal. by eapply retype_time.
    + rewrite (rt_next _ _ _ _ _ _ _ _ R). done.
    + intros e He Hte. rewrite Hsl in He. repeat case_decide; simplify_eq; simpl in *; try done.
    + simpl. split_and!; try done.
      { intros k e [He Hfr]. simpl in *. rewrite Hsl. rewrite decide_False.
        - case_decide as Hku; [subst k|exists e; split; [done|reflexivity]].
          eexists. split; [done|]. simplify_eq. split; [done|]. right. left. simpl. eauto.
        - intros Hk. destruct (rt_free _ _ _ _ _ _ _ _ R 0) as (e' & He' & Hn'); [lia|].
          rewrite Nat.add_0_r in He'. replace k with slot in He by lia. congruence. }
      pose proof (Hsl slot) as Hslot. rewrite decide_True in Hslot by lia.
      eexists. split; [apply live_Ok; split; [|eexists; split; [exact Hslot|reflexivity]]; done|].
      pose proof (rt_zlog _ _ _ _ _ _ _ _ R) as Hz. rewrite (hook_calls_app _ _ _ Hz).
      rewrite Nat.sub_diag. simpl. split_and!; try done; lia.
  - rewrite R by (by vm_compute). rewrite hook_calls_same, app_nil_r by done. by destruct s.
  - apply R. by vm_compute.
Qed.

Lemma split_step T nx s child amount :
  linv T nx s → (nx < 2 ^ 64 - 1)%Z → in_u 32 amount →
  match loader_op (split L_SCHED child amount) s with
  | (Ok _, s') => linv T (nx + 1) s' ∧ pr s' = pr s ∧ events s' = events s ∧ zlog (ld s') = zlog (ld s) ∧
      seg_frames s' = seg_frames s ∧ preserves (ld s) (ld s') ∧ vacant (ld s) child ∧
      ∃ src e, slots (ld s) !! L_SCHED = Some src ∧ cap_type (cap src) = Sched ∧
        slots (ld s') !! child = Some e ∧ cap_type (cap e) = Sched ∧
        size (cap e) = amount ∧ rights (cap e) = rights (cap src)
  | (Err _, s') => s' = s
  | (Panic, _) => False
  end.
Proof.
  intros [Hl Hp Ht Hn Hm Hs Hln] Hnx Ha. pose proof (reachable_next _ Hl) as Hn0. unfold in_u in Hn0.
  pose proof (reachable_inv _ Hl) as [W _].
  pose proof (split_spec (ld s) L_SCHED child amount Ha) as R. unfold loader_op, map_err.
  destruct (split L_SCHED child amount (ld s)) as [[[]|e|] l] eqn:Hr.
  - destruct R as (src & Hok & ->); [unfold in_u; lia|].
    pose proof Hok as [Hsrc Hty _ _ (d & Hd & Hdn) Hne].
    split; [split; simpl; try done|].
    + apply (R_op (ld s) (OSplit L_SCHED child amount) (Ok ())); try done. unfold in_u; lia.
    + rewrite <- Ht. f_equal. by apply split_time.
    + lia.
    + intros e He Hte. rewrite list_lookup_insert_ne in He by done.
      apply list_lookup_insert_Some in He as [(_&<-&_)|[_ He]]; [done|by apply Hm].
    + rewrite hook_calls_same, app_nil_r by done. simpl. split_and!; try done.
      { intros k e [He Hfr]. simpl. destruct (decide (k = L_SCHED)) as [->|].
        - simplify_eq. eexists. split; [apply list_lookup_insert_eq; rewrite length_insert; by eapply lookup_lt_Some|].
          split; [done|]. right. right. simpl. eauto.
        - rewrite !list_lookup_insert_ne by congruence. exists e. split; [done|reflexivity]. }
      { by exists d. }
      exists src, (mkCte (split_child (cap src) (next_obj (ld s)) amount) (Some L_SCHED)).
      split_and!; try done.
      rewrite list_lookup_insert_ne by done. apply list_lookup_insert_eq. by eapply lookup_lt_Some.
  - rewrite R by (unfold in_u; lia). rewrite hook_calls_same, app_nil_r by done. by destruct s.
  - apply R. unfold in_u. lia.
Qed.

(** One grant from the loader to the process. *)
Lemma grant_step T nx s src dst r b m :
  linv T nx s → in_u 32 r → in_u 64 b →
  match grant_op src dst r b m s with
  | (Ok _, s') => linv T nx s' ∧ events s' = events s ∧ zlog (ld s') = zlog (ld s) ∧
      seg_frames s' = seg_frames s ∧
      ∃ e, granted src dst r b m (ld s) (pr s) (ld s') (pr s') e
  | (Err _, s') => s' = s
  | (Panic, _) => False
  end.
Proof.
  intros [Hl Hp Ht Hn Hm Hs Hln] Hr Hb. unfold grant_op.
  pose proof (grant_spec src dst r b m (ld s) (pr s)) as G.
  destruct (grant src dst r b m (ld s, pr s)) as [[[]|e|] [l p]] eqn:Hg; simpl.
  - destruct G as [e G].
    split; [|split_and!; try done; [|by exists e]].
    + split; simpl; try done.
      * exact (R_grant_src _ _ _ _ _ _ _ _ _ _ Hl Hp Hr Hb Hg).
      * exact (R_grant_dst _ _ _ _ _ _ _ _ _ _ Hl Hp Hr Hb Hg).
      * by rewrite (granted_time _ _ _ _ _ _ _ _ _ _ G).
      * rewrite (gr_src' _ _ _ _ _ _ _ _ _ _ G). by destruct m.
      * intros e' He' Hte. rewrite (gr_src' _ _ _ _ _ _ _ _ _ _ G) in He'. destruct m; [|by apply Hm].
        apply list_lookup_insert_Some in He' as [(_&<-&_)|[_ He']]; [done|by apply Hm].
      * rewrite (gr_dst' _ _ _ _ _ _ _ _ _ _ G). simpl. by rewrite length_insert.
    + rewrite (gr_src' _ _ _ _ _ _ _ _ _ _ G). by destruct m.
  - destruct G as [-> ->]. by destruct s.
  - done.
Qed.

(** ** Segments *)

Section segments.
Variables (p : Pex) (b : bytes) (dom : Z) (user : bool) (T nx : Z) (z0 : list (Z * Z)) (ev0 : list event).
Variables (l0 : CSpace) (Φ : CSpace → Prop).
Hypothesis V : valid p b.
Hypothesis Hhhdm : (0 <= HHDM_OFFSET <= 2 ^ 64 - 2 ^ 44)%Z.
Hypothesis Hnx : (nx < 2 ^ 64 - 1)%Z.

(** [seg_frames[j]] names a [Frame] of the size of segment [j]. *)
Definition segs_ok (s : LState) : Prop := ∀ j slot, seg_frames s !! j = Some (Some slot) →
  ∃ e sg, slots (ld s) !! slot = Some e ∧ cap_type (cap e) = Frame ∧
    rights (cap e) = default_rights Frame ∧ segment p (Z.of_nat j) = Ok sg ∧ (size (cap e) * 4096 = mem_size sg)%Z.

(** The loader keeps its authority, the process satisfies [Φ]. *)
Definition kept (s : LState) : Prop := preserves l0 (ld s) ∧ Φ (pr s) ∧ segs_ok s.

Definition logged (s : LState) : Prop :=
  linv T nx s ∧ kept s ∧ (∃ zs, zlog (ld s) = z0 ++ zs) ∧
  ∃ evs, events s = ev0 ++ evs ∧ Forall (event_ok p dom user (zeroed z0 s)) evs.

(** [logged], with the [Frame] in [slot] of [n] frames from [f] zeroed. *)
Definition logged_at (slot : nat) (f n : Z) (s : LState) : Prop :=
  logged s ∧ zeroed z0 s f n ∧
  ∃ e, slots (ld s) !! slot = Some e ∧ cap_type (cap e) = Frame ∧
    rights (cap e) = default_rights Frame ∧ size (cap e) = n.

Lemma page_ok_mono zr zr' va pa prot :
  (∀ f n, zr f n → zr' f n) → page_ok p zr va pa prot → page_ok p zr' va pa prot.
Proof using Type.
  intros H (i & s & k & f & n & ?&?&?&?&?&Hz&Hr). exists i, s, k, f, n.
  do 5 (split; [assumption|]). split; [by apply H|exact Hr].
Qed.

Lemma event_ok_mono zr zr' e :
  (∀ f n, zr f n → zr' f n) → event_ok p dom user zr e → event_ok p dom user zr' e.
Proof using Type.
  intros H. destruct e; simpl.
  - apply H.
  - intros (f & n & ?&?). exists f, n. auto.
  - intros (f & n & ?&?). exists f, n. auto.
  - intros [? ?]. split; [done|]. by eapply page_ok_mono.
  - intros (?&?&?). split_and!; try done. by eapply page_ok_mono.
Qed.

Lemma emit_ok slot f n e :
  (∀ s, zeroed z0 s f n → event_ok p dom user (zeroed z0 s) e) →
  hoare (logged_at slot f n) (emit e) (λ _, logged_at slot f n) logged.
Proof.
  intros He s [[[] [Hsg [Hz (evs & Hev & Hall)]]] [Hzr Hfr]]. simpl. split; [|done]. split; [by split|].
  split; [done|]. split; [done|]. exists (evs ++ [e]). split; [simpl; by rewrite Hev, app_assoc|].
  apply Forall_app. split; [done|]. constructor; [|done]. by apply He.
Qed.

Lemma perm_to_prot_wx s : segment_ok b s →
  (perm_to_prot (perm s) = Rx → is_write s = false) ∧
  (perm_to_prot (perm s) = Rw ↔ is_write s = true).
Proof.
  intros (_ & Hwx & _). unfold perm_to_prot, is_write, is_exec in *.
  destruct (negb (Z.land (perm s) PERM_X =? 0)%Z), (negb (Z.land (perm s) PERM_W =? 0)%Z); naive_solver.
Qed.

Lemma map_one_ok i s slot f pages k :
  segment p i = Ok s → segment_ok b s → (pages * 4096 = mem_size s)%Z →
  (PROC_VA_BASE <= vaddr s)%Z → (vaddr s + mem_size s <= PROC_VA_END)%Z →
  (0 <= f)%Z → (f + pages <= 2 ^ 32)%Z → (Z.of_nat k < pages)%Z →
  hoare (logged_at slot f pages) (map_one s f dom user k) (λ _, logged_at slot f pages) logged.
Proof.
  intros Hs Hok Hpg Hlo Hhi Hf Hfp Hk. unfold map_one, PROC_VA_BASE, PROC_VA_END in *.
  pose proof (perm_to_prot_wx s Hok) as [Hwx1 Hwx2].
  destruct Hok as (_&_&_&Hal&_).
  eapply hoare_lift_Ok; [apply arith_in; unfold in_u; lia|].
  eapply hoare_lift_Ok; [apply arith_in; unfold in_u; lia|].
  rewrite (wrap_small 32) by (unfold in_u; lia).
  eapply hoare_lift_Ok; [apply arith_in; unfold in_u; lia|].
  apply emit_ok. intros s' Hz. rewrite pfn_to_phys_eq by lia.
  assert (page_ok p (zeroed z0 s') (vaddr s + Z.of_nat k * 4096)
            ((f + Z.of_nat k) * 4096) (perm_to_prot (perm s))) as Hp.
  { exists i, s, (Z.of_nat k), f, pages. unfold PROC_VA_BASE, PROC_VA_END.
    split_and!; try done; try lia; try (by apply Hwx2). by rewrite Z_mod_plus_full. }
  destruct user; simpl; done.
Qed.

Lemma segs_ok_kept s s' :
  segs_ok s → preserves (ld s) (ld s') → seg_frames s' = seg_frames s → segs_ok s'.
Proof.
  intros H Hk E j slot Hj. rewrite E in Hj. destruct (H j slot Hj) as (e & sg & He & Hf & ?).
  destruct (Hk slot e) as (e' & He' & Ha); [split; congruence|].
  rewrite (same_auth_eq _ _ Ha) in He' by congruence. by exists e, sg.
Qed.

Lemma shift_pages s : segment_ok b s →
  (Z.shiftr (mem_size s) 12 * 4096 = mem_size s)%Z ∧ (0 <= Z.shiftr (mem_size s) 12 < 2 ^ 32)%Z.
Proof.
  intros (_&_&_&_&Hm&?&?&_). rewrite Z.shiftr_div_pow2 by lia. change (2 ^ 12)%Z with 4096%Z.
  pose proof (Z.div_mod (mem_size s) 4096). lia.
Qed.

(** The retype of a segment's frames and the read of its first frame. *)
Lemma frames_ok {B} slot pages (k : RawCap → LM B) Q :
  in_u 32 pages →
  (∀ r, (0 <= objref r)%Z → (objref r + pages <= 2 ^ 32)%Z → (0 < pages)%Z →
    hoare (logged_at slot (objref r) pages) (k r) Q logged) →
  hoare logged (loader_op (retype L_UNTYPED Frame pages 1 slot);;
    r ← loader_op (reads (λ cs, resolve cs slot)); k r) Q logged.
Proof.
  intros Hpg Hk s (Hl & Hsg & (zs & Hz) & evs & Hev & Hall).
  pose proof (retype_step T nx s pages slot Hl Hnx Hpg) as R. unfold mbind, M_bind.
  destruct (loader_op (retype _ _ _ _ _) s) as [[[]|e|] s1].
  - destruct R as (Hl1 & Hp1 & Hs1 & Hk1 & r & Hr & He1 & Hty & Hri & Hsz & Hz1 & H0 & Hm & Hpos).
    unfold loader_op, reads. rewrite Hr. cbn [map_err fst snd]. rewrite hook_calls_same, app_nil_r by done.
    apply (Hk r); [done..|].
    assert (∀ f n, zeroed z0 s f n → zeroed z0 s1 f n) as Hmono.
    { intros f n (zs' & E & Hin). exists (zs' ++ [(objref r, pages)]). rewrite Hz1, E, app_assoc.
      split; [done|]. apply elem_of_app. by left. }
    assert (zeroed z0 s1 (objref r) pages) as Hzr.
    { exists (zs ++ [(objref r, pages)]). rewrite Hz1, Hz, app_assoc. split; [done|].
      apply elem_of_app. right. by apply list_elem_of_singleton. }
    destruct s1 as [l1 p1 sc1 sf1 b1 ev1]. simpl in *. split.
    + split; [done|]. destruct Hsg as (Hpv & Hpr & Hsg). split.
      { split_and!; simpl; [by etrans|congruence|by eapply segs_ok_kept]. }
      split.
      * destruct Hzr as (zs' & ? & _). by exists zs'.
      * exists (evs ++ [EZero (objref r) pages]). simpl. rewrite He1, Hev, app_assoc. split; [done|].
        apply Forall_app. split; [|by constructor]. eapply Forall_impl; [exact Hall|]. intros e. by apply event_ok_mono.
    + split; [done|]. apply live_Ok in Hr as (_ & e & He & <-). by exists e.
  - subst s1. by split_and!; [..|exists zs|exists evs].
  - done.
Qed.

Lemma load_segment_ok i :
  (Z.of_nat i < seg_count p)%Z →
  hoare logged (load_segment HHDM_OFFSET p dom user i) (λ _, logged) logged.
Proof.
  intros Hi. destruct (valid_segment p b (Z.of_nat i) V) as (s & d & Hs & Hok & Hd & Hlen); [lia|].
  destruct (shift_pages s Hok) as [Hpg Hpb]. unfold load_segment, pex_read. rewrite Hs, Hd.
  eapply hoare_lift_Ok; [reflexivity|].
  pose proof Hok as (_&_&_&_&_&?&?&?&?&?&?).
  eapply hoare_lift_Ok; [unfold checked; rewrite (proj2 (fits_spec _ _)) by (unfold in_u; lia); reflexivity|].
  destruct (Z.ltb_spec (vaddr s) PROC_VA_BASE); [by apply hoare_throw|].
  destruct (Z.ltb_spec PROC_VA_END (vaddr s + mem_size s)); [by apply hoare_throw|]. cbn [orb].
  eapply hoare_lift_Ok; [unfold checked; rewrite (proj2 (fits_spec _ _)) by (unfold in_u; lia); reflexivity|].
  set (pages := Z.shiftr (mem_size s) 12) in *.
  eapply hoare_bind with (R := λ _, logged).
  { intros s' Hl. unfold next_scratch. simpl. destruct Hl as ([] & Hsg & Hz & Hev).
    split; [by split|]. split; [done|]. by split. }
  intros slot. apply frames_ok; [done|]. intros r Hf Hfm Hpos.
  rewrite (wrap_small 32 (objref r)), (wrap_small 64) by
    (unfold in_u; rewrite ?Z.shiftl_mul_pow2 by lia; lia).
  rewrite pfn_to_phys_eq by lia. set (f := objref r) in *.
  eapply hoare_lift_Ok; [apply arith_in; unfold in_u; lia|].
  eapply hoare_lift_Ok; [reflexivity|].
  eapply hoare_bind; [apply (emit_ok slot f pages)|intros []].
  { intros s' Hz. exists f, pages. split_and!; [done..|]. rewrite Hlen, Hpg. lia. }
  eapply hoare_bind with (R := λ _, logged_at slot f pages).
  { destruct (negb _); [|apply hoare_ret; done]. apply emit_ok. intros s' Hz. exists f, pages.
    split_and!; [done..|]. rewrite Z.shiftl_mul_pow2 by lia. done. }
  intros []. eapply hoare_bind.
  { apply (hoare_mfor (λ _, logged_at slot f pages)). intros k Hk.
    apply (map_one_ok (Z.of_nat i)); try done; lia. }
  intros [] s' ((Hl & Hsg & Hz & Hev) & _ & e & He & Hty & Hri & Hsz). unfold set_seg_frame.
  rewrite decide_True; [|rewrite (li_segs _ _ _ Hl); destruct (ti_seg _ (va_tables _ _ V)); lia].
  split; [destruct Hl; split; simpl; try done; by rewrite length_insert|].
  split; [|by split]. destruct Hsg as (? & ? & Hsg). split_and!; try done.
  intros j slot' Hj. simpl in *.
  apply list_lookup_insert_Some in Hj as [(<-&[= <-]&_)|[_ Hj]]; [|by apply Hsg].
  exists e, s. split_and!; try done. by rewrite Hsz.
Qed.
End segments.
End props.
