(* ===== verification/LoaderTheorems.v ===== *)
(** * The promises of the loader *)

From S2P Require Import Prelude Rights Cap Budget CSpace CSpaceInv CSpaceOps CSpaceSched CSpaceRevoke CSpaceProps CSpaceStep CSpaceAlias CSpaceReach Buddy Pex PexEncode Arch Loader LoaderProps.

Section theorems.
Context {BF : Bitflags}.
Variables HHDM_OFFSET PEX_ARCH : Z.

(** ** Counting the occupied slots of a process *)

Lemma filter_flip (f g : nat → bool) (l : list nat) d :
  NoDup l → d ∈ l → f d = false → g d = true → (∀ k, k ≠ d → g k = f k) →
  length (List.filter g l) = S (length (List.filter f l)).
Proof.
  intros ND Hd Hf Hg Hne. induction l as [|x l IH]; [by apply elem_of_nil in Hd|].
  apply NoDup_cons in ND as [Hx ND]. simpl. apply elem_of_cons in Hd as [<-|Hd].
  - rewrite Hf, Hg. simpl. do 2 f_equal. apply List.filter_ext_in. intros k Hk.
    apply Hne. intros ->. by apply Hx, list_elem_of_In.
  - rewrite Hne by (intros ->; done). specialize (IH ND Hd). destruct (f x); simpl; by rewrite IH.
Qed.

Lemma occupied_fill cs d e :
  length (slots cs) = PROCESS_SLOTS → vacant cs d → cap_type (cap e) ≠ Null →
  occupied_slots (upd_slot d e cs) = S (occupied_slots cs).
Proof.
  intros Hl (o & Ho & Hn) He. pose proof (lookup_lt_Some _ _ _ Ho) as Hd.
  unfold occupied_slots. apply (filter_flip _ _ _ d).
  - apply NoDup_seq.
  - apply elem_of_seq. lia.
  - unfold resolve, live. rewrite decide_False by lia. rewrite (slot_Some _ _ _ Ho). simpl.
    apply is_null_true in Hn. by rewrite Hn.
  - unfold resolve, live. rewrite decide_False by (simpl; rewrite length_insert; lia).
    rewrite (slot_Some _ _ e) by (simpl; by apply list_lookup_insert_eq). simpl.
    apply is_null_false in He. by rewrite He.
  - intros k Hk. unfold resolve, live, slot, index. simpl.
    rewrite length_insert, list_lookup_insert_ne by done. done.
Qed.

Lemma manifest_fields p i m :
  byte_list (pbytes p) → manifest p i = Ok m → in_u 64 (param0 m) ∧ (0 <= dest_slot m)%Z.
Proof.
  intros Hb H. unfold manifest, expect in H. destruct (_ <? _)%Z; [|done].
  destruct (manifest_raw p i) as [m'| |] eqn:E; simplify_eq.
  unfold manifest_raw, rd_u16, rd_u32, rd_u64 in E.
  unfold mbind, res_bind in E. repeat case_match; simplify_eq; simpl.
  repeat match goal with
  | HR : rd _ _ _ = Ok _ |- _ => apply (rd_bound _ _ _ _ Hb) in HR
  end. unfold in_u. simpl in *. lia.
Qed.

Lemma from_bits_rights r r' : bf_from_bits ALL r = Some r' → r' = r ∧ in_u 32 r.
Proof.
  rewrite bf_from_bits_spec. case_decide as H; [|done]. intros [= <-]. split; [done|].
  change ALL with (Z.ones 12) in H. rewrite Z.land_ones in H by lia.
  pose proof (Z.mod_pos_bound r (2 ^ 12)). unfold in_u. lia.
Qed.

(** ** One manifest entry *)

Section manifest.
Variables (p : Pex) (b : bytes) (dom : Z) (user : bool) (T : Z) (z0 : list (Z * Z)) (ev0 : list event).
Variables (l0 p0 : CSpace).
Hypothesis V : valid p b.

Abbreviation LG nx Φ := (logged HHDM_OFFSET p dom user T nx z0 ev0 l0 Φ).

(** The capability [e] is what entry [m] asks for, within the authority the
    loader held in [l0]. *)
Definition entry_ok (m : ManifestEntry) (e : Cte) : Prop :=
  cap_type (cap e) ≠ Null ∧ rights (cap e) = m_rights m ∧ parent e = None ∧
  (m_cap_type m = MANIFEST_SCHED ∧ cap_type (cap e) = Sched ∧ size (cap e) = wrap 32 (param0 m) ∧
     (∀ e1, occupied l0 L_SCHED e1 → subset_of (rights (cap e)) (rights (cap e1)) = true) ∨
   m_cap_type m = MANIFEST_ENDPOINT ∧
     (∀ e2, occupied l0 L_ENDPOINT e2 → cap e = with_rights_badge (cap e2) (m_rights m) (param0 m) ∧
        subset_of (m_rights m) (rights (cap e2)) = true) ∨
   m_cap_type m = MANIFEST_FRAME ∧ cap_type (cap e) = Frame ∧
     subset_of (m_rights m) (default_rights Frame) = true ∧
     ∃ sg, segment p (param0 m) = Ok sg ∧ (size (cap e) * 4096 = mem_size sg)%Z).

(** The first [j] entries are in the process, and nothing else is new. *)
Definition granted_upto (j : nat) (pr : CSpace) : Prop :=
  (∀ i, i < j → ∃ m e, manifest p (Z.of_nat i) = Ok m ∧
     slots pr !! Z.to_nat (dest_slot m) = Some e ∧ entry_ok m e) ∧
  (∀ k e, occupied pr k e → slots p0 !! k = Some e ∨
     ∃ i m, i < j ∧ manifest p (Z.of_nat i) = Ok m ∧ Z.to_nat (dest_slot m) = k) ∧
  occupied_slots pr = occupied_slots p0 + j.

Lemma granted_upto_step j pr m e :
  length (slots pr) = PROCESS_SLOTS → granted_upto j pr → manifest p (Z.of_nat j) = Ok m →
  vacant pr (Z.to_nat (dest_slot m)) → entry_ok m e →
  granted_upto (j + 1) (upd_slot (Z.to_nat (dest_slot m)) e pr).
Proof.
  intros Hl (Ha & Hb & Hc) Hm Hv He. pose proof He as (Hn & _).
  pose proof Hv as (o & Ho & Hon). pose proof (lookup_lt_Some _ _ _ Ho) as Hlt. split_and!.
  - intros i Hi. destruct (decide (i = j)) as [->|].
    + exists m, e. split_and!; try done. simpl. by apply list_lookup_insert_eq.
    + destruct (Ha i) as (m' & e' & Hm' & He' & Hok); [lia|]. exists m', e'.
      split_and!; try done. simpl. rewrite list_lookup_insert_ne; [done|].
      intros Heq. rewrite Heq in Ho. destruct Hok as (Hn' & _). congruence.
  - intros k ek [Hk Hkn]. simpl in Hk. apply list_lookup_insert_Some in Hk as [(<-&<-&_)|[Hne Hk]].
    + right. exists j, m. split_and!; try done. lia.
    + destruct (Hb k ek) as [?|(i & m' & ?&?&?)]; [done|by left|right]. exists i, m'. split_and!; try done. lia.
  - rewrite occupied_fill by done. lia.
Qed.

Lemma LG_weaken nx nx' (Φ Φ' : CSpace → Prop) s :
  LG nx Φ s → (nx <= nx')%Z → (∀ pr, Φ pr → Φ' pr) → LG nx' Φ' s.
Proof.
  intros ([] & (Hp & Hf & Hs) & Hz & He) Hle HΦ. split; [split; try done; lia|].
  split; [split_and!; auto|]. by split.
Qed.

(** A step that neither logs an event nor zeroes. *)
Lemma LG_step nx nx' Φ Φ' s s' :
  LG nx Φ s → linv T nx' s' → events s' = events s → zlog (ld s') = zlog (ld s) →
  seg_frames s' = seg_frames s → preserves (ld s) (ld s') → Φ' (pr s') → LG nx' Φ' s'.
Proof.
  intros (_ & (Hp & _ & Hs) & (zs & Hz) & evs & Hev & Hall) Hl E1 E2 E3 Hpv HΦ.
  split; [done|]. split; [split_and!; [by etrans|done|by eapply segs_ok_kept]|].
  split; [exists zs; congruence|]. exists evs. split; [congruence|].
  eapply Forall_impl; [exact Hall|]. intros e He. eapply event_ok_mono; [|exact He].
  intros f n (zs' & ? & ?). exists zs'. by rewrite E2.
Qed.

Section entry.
Variables (j : nat) (m : ManifestEntry) (nx : Z).
Hypothesis Hm : manifest p (Z.of_nat j) = Ok m.
Hypothesis Hnx : (nx < 2 ^ 64 - 1)%Z.

Lemma mint_entry src bd s :
  in_u 32 (m_rights m) → in_u 64 bd → LG nx (granted_upto j) s →
  (∀ e, occupied (ld s) src e → not_mint_grantable (cap_type (cap e)) = false →
     subset_of (m_rights m) (rights (cap e)) = true →
     entry_ok m (mkCte (with_rights_badge (cap e) (m_rights m) bd) None)) →
  match grant_op src (Z.to_nat (dest_slot m)) (m_rights m) bd GMint s with
  | (Ok _, s') => LG nx (granted_upto (j + 1)) s'
  | (Err _, s') => s' = s
  | (Panic, _) => False
  end.
Proof.
  intros Hr Hb HL Hok. pose proof HL as (Hl & (_ & Hup & _) & _).
  pose proof (grant_step T nx s src (Z.to_nat (dest_slot m)) (m_rights m) bd GMint Hl Hr Hb) as G.
  destruct (grant_op _ _ _ _ _ s) as [[[]|e|] s']; [|done..].
  destruct G as (Hl' & E1 & E2 & E3 & e & [Hs Hd _ Hmg _ Hsub _ Hdst Hsrc]).
  apply (LG_step nx nx (granted_upto j) _ s); try done.
  - rewrite Hsrc. reflexivity.
  - rewrite Hdst. apply granted_upto_step; try done; [apply Hl|]. apply Hok; auto.
Qed.

Lemma sched_entry child s :
  in_u 32 (m_rights m) → m_cap_type m = MANIFEST_SCHED → LG nx (granted_upto j) s →
  match (loader_op (split L_SCHED child (wrap 32 (param0 m)));;
         grant_op child (Z.to_nat (dest_slot m)) (m_rights m) 0 GMove;;
         set_budget (wrap 32 (param0 m))) s with
  | (Ok _, s') => LG (nx + 1) (granted_upto (j + 1)) s'
  | (Err _, s') => LG (nx + 1) (λ _, True) s'
  | (Panic, _) => False
  end.
Proof.
  intros Hr Hk HL. pose proof HL as (Hl & (Hpv & Hup & _) & _).
  pose proof (split_step T nx s child (wrap 32 (param0 m)) Hl Hnx) as Sp. unfold mbind, M_bind.
  destruct (loader_op (split _ _ _) s) as [[[]|e|] s1].
  2:{ rewrite Sp by (apply wrap_in; lia). eapply LG_weaken; [exact HL|lia|done]. }
  2:{ apply Sp. apply wrap_in; lia. }
  destruct Sp as (Hl1 & Ep1 & Ee1 & Ez1 & Es1 & Hp1 & Hv & src & e & Hsrc & Hst & He & Het & Hes & Her);
    [apply wrap_in; lia|].
  assert (LG (nx + 1) (granted_upto j) s1) as HL1 by (eapply LG_step; try done; congruence).
  pose proof (grant_step T (nx + 1) s1 child (Z.to_nat (dest_slot m)) (m_rights m) 0 GMove Hl1 Hr) as G.
  destruct (grant_op _ _ _ _ _ s1) as [[[]|e'|] s2].
  2:{ rewrite G by (unfold in_u; lia). eapply LG_weaken; [exact HL1|lia|done]. }
  2:{ apply G. unfold in_u; lia. }
  destruct G as (Hl2 & E1 & E2 & E3 & e' & [[Hs' _] Hd _ _ _ Hsub _ Hdst Hsrc']); [unfold in_u; lia|].
  rewrite He in Hs'. injection Hs' as <-.
  assert (LG (nx + 1) (granted_upto (j + 1)) s2) as HL2.
  { apply (LG_step nx (nx + 1) (granted_upto j) _ s); try done; try congruence.
    - rewrite Hsrc'. intros k ek [Hek Hkn]. destruct (Hp1 k ek) as (ek' & Hek' & Ha); [done|].
      exists ek'. split; [|done]. simpl. rewrite list_lookup_insert_ne; [done|].
      intros ->. destruct Hv as (? & ? & ?). congruence.
    - rewrite Hdst. apply granted_upto_step; try done; [apply Hl1|by rewrite Ep1|].
      split; [simpl; congruence|]. split_and!; try done. left. split_and!; try done.
      intros e1 He1. destruct (Hpv _ _ He1) as (e1' & He1' & Ha). simpl.
      rewrite Hsrc in He1'. injection He1' as <-.
      rewrite <- (proj2 (same_auth_fields _ _ Ha)), <- Her. done. }
  destruct s2, HL2 as ([] & ? & ? & ?). split; [by split|]. by split_and!.
Qed.

Lemma load_entry_ok :
  hoare (LG nx (granted_upto j)) (load_entry p j)
    (λ _, LG (nx + 1) (granted_upto (j + 1))) (LG (nx + 1) (λ _, True)).
Proof.
  pose proof (va_tables _ _ V) as [Hby _ _ _].
  destruct (manifest_fields _ _ _ Hby Hm) as [Hp0 _].
  assert (∀ s Φ, LG nx Φ s → LG (nx + 1) (λ _, True) s) as HX.
  { intros s Φ HL. eapply LG_weaken; [exact HL|lia|done]. }
  unfold load_entry, pex_read. rewrite Hm. eapply hoare_lift_Ok; [reflexivity|].
  case_decide; [by apply hoare_throw; eauto|].
  destruct (bf_from_bits ALL (m_rights m)) as [r|] eqn:Hbits.
  2:{ eapply hoare_bind; [apply hoare_lift; [done|done|by eauto]|]. intros a s Hs. exact Hs. }
  apply from_bits_rights in Hbits as [-> Hr]. eapply hoare_lift_Ok; [reflexivity|].
  destruct (Z.eqb_spec (m_cap_type m) MANIFEST_SCHED) as [Hk|].
  - intros s HL. unfold next_scratch. unfold mbind at 1. unfold M_bind at 1.
    apply sched_entry; [done..|]. destruct HL as ([] & ? & ? & ?). split; [by split|]. by split_and!.
  - destruct (Z.eqb_spec (m_cap_type m) MANIFEST_ENDPOINT) as [Hk|].
    + intros s HL. pose proof HL as (_ & (Hpv & _ & _) & _).
      pose proof (mint_entry L_ENDPOINT (param0 m) s Hr Hp0 HL) as ME.
      assert (∀ P : Prop, ((∀ e, occupied (ld s) L_ENDPOINT e →
        not_mint_grantable (cap_type (cap e)) = false →
        subset_of (m_rights m) (rights (cap e)) = true →
        entry_ok m (mkCte (with_rights_badge (cap e) (m_rights m) (param0 m)) None)) → P) → P) as Hgo.
      { intros P HP. apply HP. intros e [He Hn] Hmg Hsub. split; [done|]. split_and!; try done.
        right. left. split; [done|]. intros e2 He2. destruct (Hpv _ _ He2) as (e2' & He2' & Ha).
        rewrite He in He2'. injection He2' as <-. pose proof (same_auth_fields _ _ Ha) as [Hty _].
        rewrite (same_auth_eq _ _ Ha) in Hsub |- * by (intros E; rewrite Hty, E in Hmg; done). done. }
      apply Hgo in ME. destruct (grant_op _ _ _ _ _ s) as [[[]|e|] s']; [|subst; by eauto|done].
      eapply LG_weaken; [exact ME|lia|done].
    + destruct (Z.eqb_spec (m_cap_type m) MANIFEST_FRAME) as [Hk|]; [|by apply hoare_throw; eauto].
      intros s HL. unfold mbind, M_bind, get, lift.
      destruct (seg_frames s !! Z.to_nat (param0 m)) as [[src|]|] eqn:Hsf; simpl; [|by eauto..].
      assert (in_u 64 0) as H0 by (unfold in_u; lia).
      pose proof (mint_entry src 0 s Hr H0 HL) as ME.
      pose proof HL as (_ & (_ & _ & Hsg) & _). destruct (Hsg _ _ Hsf) as (e & sg & He & Hty & Hri & Hseg & Hsz).
      rewrite Z2Nat.id in Hseg by apply Hp0.
      assert (∀ e', occupied (ld s) src e' → subset_of (m_rights m) (rights (cap e')) = true →
        entry_ok m (mkCte (with_rights_badge (cap e') (m_rights m) 0) None)) as Hen.
      { intros e' [He' Hn] Hsub. rewrite He in He'. injection He' as <-. split; [done|].
        split; [done|]. split; [done|]. right. right. split; [done|]. split; [done|].
        split; [by rewrite <- Hri|by exists sg]. }
      specialize (ME (λ e' He' _, Hen e' He')).
      destruct (grant_op _ _ _ _ _ s) as [[[]|e0|] s']; [|subst; by eauto|done].
      eapply LG_weaken; [exact ME|lia|done].
Qed.
End entry.
End manifest.

(** ** The whole load *)

(** What [load] is given: an image buffer, two spaces built by the capability
    operations, an [Untyped] within the physical memory a [u32] frame number
    can name, and a direct map that holds that memory. *)
Record load_pre (image : bytes) (s : LState) : Prop := {
  lp_image : byte_list image ∧ (blen image < 2 ^ 64)%Z;
  lp_ld : reachable (ld s);
  lp_pr : reachable (pr s);
  lp_len : length (slots (pr s)) = PROCESS_SLOTS;
  lp_next : (next_obj (ld s) + MAX_MANIFEST < 2 ^ 64 - 1)%Z;
  lp_mem e : slots (ld s) !! L_UNTYPED = Some e → cap_type (cap e) = Untyped →
    (objref (cap e) + size (cap e) <= 2 ^ 32)%Z;
  lp_hhdm : (0 <= HHDM_OFFSET <= 2 ^ 64 - 2 ^ 44)%Z
}.

Abbreviation total s := (cpu_time (ld s) + cpu_time (pr s))%Z.

Lemma load_run image dom user s :
  load_pre image s →
  let LG p Φ := logged HHDM_OFFSET p dom user (total s) (next_obj (ld s) + MAX_MANIFEST)
                  (zlog (ld s)) (events s) (ld s) Φ in
  match load HHDM_OFFSET PEX_ARCH image dom user s with
  | (Ok out, s') => ∃ p, parse image PEX_ARCH = Ok p ∧ valid p image ∧
      LG p (granted_upto p (ld s) (pr s) (Z.to_nat (man_count p))) s' ∧
      l_entry out = entry p ∧ l_domain_id out = dom
  | (Err _, s') => s' = s ∨ ∃ p, parse image PEX_ARCH = Ok p ∧ LG p (λ _, True) s'
  | (Panic, _) => False
  end.
Proof.
  intros [[Hb Hl] Hld Hpr Hlen Hnx Hmem Hhh] LG. unfold load, pex_read.
  pose proof (parse_spec image PEX_ARCH Hb Hl) as V. unfold mbind at 1. unfold M_bind at 1. unfold lift at 1.
  destruct (parse image PEX_ARCH) as [p|e|]; simpl; [|by left|done].
  pose proof (va_tables _ _ V) as [_ _ (_ & Hsc & _) (_ & Hmc & _)].
  set (s1 := mkLState (ld s) (pr s) (scratch s) (replicate (Z.to_nat MAX_SEGMENTS) None) 0 (events s)).
  set (Φ := granted_upto p (ld s) (pr s)). set (NX := (next_obj (ld s) + MAX_MANIFEST)%Z) in *.
  set (L nx Ψ := logged HHDM_OFFSET p dom user (total s) nx (zlog (ld s)) (events s) (ld s) Ψ).
  assert (L (next_obj (ld s)) (Φ 0) s1) as H1.
  { split; [split; simpl; done|]. split.
    - split; simpl; [reflexivity|]. split.
      + split; [lia|]. split; [by intros k e [He _]; left|lia].
      + intros j slot Hj. change (seg_frames s1) with (replicate (A:=option nat) (Z.to_nat MAX_SEGMENTS) None) in Hj.
        by apply lookup_replicate in Hj as [? _].
    - split; [exists []; by rewrite app_nil_r|exists []]. split; [by rewrite app_nil_r|done]. }
  assert (hoare (L (next_obj (ld s)) (Φ 0)) (load_parsed HHDM_OFFSET p dom user)
    (λ out s', L NX (Φ (Z.to_nat (man_count p))) s' ∧ l_entry out = entry p ∧ l_domain_id out = dom)
    (L NX (λ _, True))) as Hrun.
  { assert (∀ nx s' Ψ, L nx Ψ s' → (nx <= NX)%Z → L NX (λ _, True) s') as HX.
    { intros nx s' Ψ HL ?. eapply LG_weaken; [exact HL|lia|done]. }
    unfold load_parsed. eapply hoare_bind.
    { apply (hoare_mfor (λ _, L (next_obj (ld s)) (Φ 0))). intros i Hi.
      eapply hoare_weaken; [apply (load_segment_ok HHDM_OFFSET p image dom user (total s) (next_obj (ld s)) (zlog (ld s))
        (events s) (ld s) (Φ 0)); [done|done|unfold MAX_MANIFEST in *; lia|lia]|..].
      - intros s' H; exact H.
      - intros a s' H; exact H.
      - intros s' H. eapply HX; [exact H|unfold NX, MAX_MANIFEST; lia]. }
    intros []. apply hoare_bind with (R := λ _, L (next_obj (ld s) + Z.of_nat (0 + Z.to_nat (man_count p)))%Z
      (Φ (0 + Z.to_nat (man_count p)))).
    { eapply hoare_weaken; [apply (hoare_mfor (λ j, L (next_obj (ld s) + Z.of_nat j)%Z (Φ j))
        (load_entry p) (L NX (λ _, True)) 0 (Z.to_nat (man_count p)))
      |intros s' H; by rewrite Z.add_0_r|intros a s' H; exact H|intros s' H; exact H]. intros i Hi.
      destruct (valid_manifest p image (Z.of_nat i) V) as [m Hm]; [lia|].
      eapply hoare_weaken; [eapply (load_entry_ok p image); [done|exact Hm|]|..].
      - instantiate (1 := (next_obj (ld s) + Z.of_nat i)%Z). lia.
      - intros s' H; exact H.
      - intros a s' H. replace (next_obj (ld s) + Z.of_nat (i + 1))%Z with (next_obj (ld s) + Z.of_nat i + 1)%Z by lia.
        exact H.
      - intros s' H. eapply HX; [exact H|unfold NX; lia]. }
    intros [] s' HL. simpl. split; [|done]. eapply LG_weaken; [exact HL|lia|done]. }
  specialize (Hrun s1 H1). unfold mbind, M_bind. unfold modify.
  match goal with |- context [load_parsed _ _ _ _ ?x] => change x with s1 end.
  destruct (load_parsed HHDM_OFFSET p dom user s1) as [[out|e|] s']; [|right; by exists p|done].
  exists p. split; [done|]. split; [done|]. exact Hrun.
Qed.

(** C15: Loading a hostile image is total and confined: whatever the bytes, [load]
    does not panic; every page it maps lies in the reserved process window, is
    page-aligned, belongs to a validated segment of the image, and is backed by
    a frame this very load zeroed; it is executable or writable never both, and
    writable exactly when the segment is; every copy and every cache
    maintenance stays inside the frames of its segment; with [user_accessible]
    off no user page is mapped.  This holds when the load fails part-way too. *)
Theorem load_confined image dom user s :
  load_pre image s →
  match load HHDM_OFFSET PEX_ARCH image dom user s with
  | (Panic, _) => False
  | (_, s') => ∃ evs, events s' = events s ++ evs ∧
      ∀ ev, ev ∈ evs → ∃ p, parse image PEX_ARCH = Ok p ∧
        event_ok HHDM_OFFSET p dom user (zeroed (zlog (ld s)) s') ev
  end.
Proof.
  intros H. pose proof (load_run image dom user s H) as R. cbn zeta in R.
  destruct (load _ _ _ _ _ _) as [[out|e|] s']; [..|done].
  - destruct R as (p & Hp & _ & (_ & _ & _ & evs & Hev & Hall) & _). exists evs. split; [done|].
    intros ev Hin. exists p. split; [done|]. by eapply Forall_forall in Hall.
  - destruct R as [->|(p & Hp & (_ & _ & _ & evs & Hev & Hall))].
    + exists []. split; [by rewrite app_nil_r|]. intros ev Hin. by apply elem_of_nil in Hin.
    + exists evs. split; [done|]. intros ev Hin. exists p. split; [done|]. by eapply Forall_forall in Hall.
Qed.


(** Loading moves authority and never makes it: after [load], successful or
    not, both spaces are still reachable by the capability operations alone, the
    CPU time of loader and process together is what it was, and every
    capability the loader held it still holds, with the same type, rights and
    object (a [Sched] may have less budget, an [Untyped] a higher watermark). *)
Theorem load_conserves image dom user s :
  load_pre image s →
  match load HHDM_OFFSET PEX_ARCH image dom user s with
  | (Panic, _) => False
  | (_, s') => reachable (ld s') ∧ reachable (pr s') ∧
      (cpu_time (ld s') + cpu_time (pr s') = cpu_time (ld s) + cpu_time (pr s))%Z ∧
      preserves (ld s) (ld s')
  end.
Proof.
  intros H. pose proof (load_run image dom user s H) as R. cbn zeta in R.
  destruct (load _ _ _ _ _ _) as [[out|e|] s']; [..|done].
  - destruct R as (p & _ & _ & ([] & (? & _) & _) & _). done.
  - destruct R as [->|(p & _ & ([] & (? & _) & _))]; [|done].
    destruct H. by split_and!.
Qed.

Lemma authority_ok phys image :
  (0 <= phys)%Z → (phys + 64 * 4096 <= 2 ^ 44)%Z → (0 <= HHDM_OFFSET <= 2 ^ 64 - 2 ^ 44)%Z →
  byte_list image → (blen image < 2 ^ 64)%Z →
  ∃ cs, authority (Some phys) = Ok cs ∧ cpu_time cs = 1000%Z ∧
    (∃ u, occupied cs L_UNTYPED u ∧ cap_type (cap u) = Untyped ∧ objref (cap u) = (phys / 4096)%Z ∧ size (cap u) = 64%Z) ∧
    (∃ e, occupied cs L_ENDPOINT e ∧ cap_type (cap e) = Endpoint ∧
       bf_contains (rights (cap e)) GRANT = true) ∧
    load_pre image (mkLState cs (cspace_new PROCESS_SLOTS) L_SCRATCH [] 0 []).
Proof.
  intros H0 Hm Hh Hb Hl. set (base := (phys / 4096)%Z).
  assert (0 <= base)%Z by (apply Z.div_pos; lia).
  assert (base + 64 <= 2 ^ 32)%Z.
  { unfold base. pose proof (Z.mul_div_le phys 4096). lia. }
  assert (phys_to_pfn phys = base) as Hpfn.
  { unfold phys_to_pfn, PAGE_SHIFT. rewrite Z.shiftr_div_pow2 by lia. change (2 ^ 12)%Z with 4096%Z.
    apply wrap_small. unfold in_u. lia. }
  set (c1 := (run_install (IUntyped base 64) (cspace_new LOADER_SLOTS)).2).
  set (c2 := (run_install (ISched L_SCHED 1000 1000) c1).2).
  assert (reachable c1) as R1.
  { eapply (R_install (cspace_new LOADER_SLOTS) (IUntyped base 64)); [apply R_new|..|apply surjective_pairing].
    - simpl. unfold in_u. lia.
    - exists Cte_EMPTY. done.
    - vm_compute. split; congruence. }
  assert (reachable c2) as R2.
  { eapply (R_install c1 (ISched L_SCHED 1000 1000)); [exact R1|..|apply surjective_pairing].
    - simpl. unfold in_u. lia.
    - exists Cte_EMPTY. done.
    - vm_compute. split; congruence. }
  pose proof (reachable_inv _ R2) as [W2 _].
  set (u := mkCte (mkRawCap Untyped RETYPE base 64 0 0 0) None).
  assert (slots c2 !! L_UNTYPED = Some u) as Hu by (vm_compute; reflexivity).
  assert (slots c2 !! L_ENDPOINT = Some Cte_EMPTY) as Hep by (vm_compute; reflexivity).
  assert (length (slots c2) = 32) as Hlen by (vm_compute; reflexivity).
  destruct (retype_complete c2 L_UNTYPED Endpoint 1 1 L_ENDPOINT u) as [cs Hcs];
    [done|unfold in_u; lia|unfold in_u; lia|exact Hu|done|by apply bf_contains_spec|done|lia|lia
    |simpl; lia|rewrite Hlen; lia|rewrite Hlen; unfold L_ENDPOINT; lia|..].
  { intros i Hi. replace i with 0 by lia. exists Cte_EMPTY. split; [exact Hep|done]. }
  assert (authority (Some phys) = Ok cs) as Ha.
  { unfold authority. rewrite Hpfn.
    change ((set_root_untyped base 64;; set_root_sched L_SCHED 1000 1000;;
      retype L_UNTYPED Endpoint 1 1 L_ENDPOINT) (cspace_new LOADER_SLOTS))
      with (retype L_UNTYPED Endpoint 1 1 L_ENDPOINT c2). by rewrite Hcs. }
  pose proof (retype_spec c2 L_UNTYPED Endpoint 1 1 L_ENDPOINT W2) as S. rewrite Hcs in S.
  destruct S as [W [u' R]]; [by vm_compute..|].
  assert (u' = u) as -> by (destruct (rt_untyped _ _ _ _ _ _ _ _ R) as [E _]; by injection E).
  pose proof (rt_slots _ _ _ _ _ _ _ _ R) as Hs. exists cs. split; [done|]. split_and!.
  - rewrite (retype_time _ _ _ _ _ _ _ _ R). done.
  - eexists. split; [split; [rewrite Hs; reflexivity|done]|done].
  - eexists. split; [split; [rewrite Hs; reflexivity|done]|]. split; [done|].
    simpl. apply bf_contains_spec. rewrite !bf_union_spec. done.
  - split; simpl; try done.
    + apply (R_op c2 (ORetype L_UNTYPED Endpoint 1 1 L_ENDPOINT) (Ok ())); try done; vm_compute; split; congruence.
    + apply R_new.
    + rewrite (rt_next _ _ _ _ _ _ _ _ R). by vm_compute.
    + intros e He Hte. rewrite Hs in He. simpl in He. injection He as <-. simpl. lia.
Qed.

(** The authority the kernel builds from a block of 64 frames is ready for
    loading: [authority] does not halt, its space is reachable, holds an
    [Untyped], a [Sched] of 1000 ticks and an [Endpoint], and satisfies what
    [load] needs, with any image and a new process. *)
Theorem authority_ready phys image :
  (0 <= phys)%Z → (phys + 64 * 4096 <= 2 ^ 44)%Z → (0 <= HHDM_OFFSET <= 2 ^ 64 - 2 ^ 44)%Z →
  byte_list image → (blen image < 2 ^ 64)%Z →
  ∃ cs, authority (Some phys) = Ok cs ∧ cpu_time cs = 1000%Z ∧
    (∃ u, occupied cs L_UNTYPED u ∧ cap_type (cap u) = Untyped ∧ objref (cap u) = (phys / 4096)%Z ∧ size (cap u) = 64%Z) ∧
    (∃ e, occupied cs L_ENDPOINT e ∧ cap_type (cap e) = Endpoint ∧
       bf_contains (rights (cap e)) GRANT = true) ∧
    load_pre image (mkLState cs (cspace_new PROCESS_SLOTS) L_SCRATCH [] 0 []).
Proof. apply authority_ok. Qed.
End theorems.

(** ** Witnesses: a two-segment image with a manifest of three entries *)
Definition hhdm : Z := 18446603336221196288.
Definition ld_segs : list SegmentSpec :=
  [mkSegSpec 1073741824 4096 5 [144; 235; 254]%Z; mkSegSpec 1073745920 8192 3 [1; 2]%Z].
Definition ld_man : list ManifestSpec :=
  [mkManifest 1 0 528 100 1000; mkManifest 2 1 64 7 0; mkManifest 3 2 1 1 0].
Definition ld_enc := encode 1 1073741825 ld_segs ld_man (replicate 300 0%Z).
Definition ld_image : bytes := match ld_enc with (Ok n, out) => take n out | _ => [] end.
Definition ld_cs : CSpace := match authority (Some 1048576%Z) with Ok cs => cs | _ => cspace_new 0 end.
Definition ld_state : LState := mkLState ld_cs (cspace_new PROCESS_SLOTS) L_SCRATCH [] 0 [].

Lemma ld_pre : load_pre hhdm ld_image ld_state.
Proof.
  destruct (authority_ok hhdm 1048576 ld_image) as (cs & Ha & _ & _ & _ & H).
  - lia.
  - lia.
  - unfold hhdm. lia.
  - apply byte_list_check. vm_compute. reflexivity.
  - vm_compute. reflexivity.
  - unfold ld_state, ld_cs. rewrite Ha. exact H.
Qed.

Definition ld_after : LState := (load hhdm 1 ld_image 5 true ld_state).2.
Lemma ld_runs : load hhdm 1 ld_image 5 true ld_state = (Ok (mkLoaded 1073741825 100 5), ld_after).
Proof. vm_compute. reflexivity. Qed.

Lemma load_confined_witness : ∃ evs, events ld_after = [] ++ evs ∧ length evs = 8 ∧
  ∀ ev, ev ∈ evs → ∃ p, parse ld_image 1 = Ok p ∧
    event_ok hhdm p 5 true (zeroed (zlog ld_cs) ld_after) ev.
Proof.
  pose proof (load_confined hhdm 1 ld_image 5 true ld_state ld_pre) as H. rewrite ld_runs in H.
  destruct H as (evs & E & H). exists evs. split; [exact E|]. split; [|exact H].
  change (events ld_state) with (@nil event) in E. rewrite app_nil_l in E. rewrite <- E. vm_compute. reflexivity.
Defined.


Lemma load_conserves_witness : (cpu_time (ld ld_after) + cpu_time (pr ld_after) = 1000)%Z.
Proof.
  pose proof (load_conserves hhdm 1 ld_image 5 true ld_state ld_pre) as H. rewrite ld_runs in H.
  destruct H as (_ & _ & H & _). rewrite H. vm_compute. reflexivity.
Defined.

Lemma authority_ready_witness : ∃ cs, authority (Some 1048576%Z) = Ok cs ∧ cpu_time cs = 1000%Z.
Proof.
  destruct (authority_ready hhdm 1048576 []) as (cs & Ha & Ht & _); [lia|lia|unfold hhdm; lia|constructor|vm_compute; reflexivity|].
  exists cs. split; [exact Ha|exact Ht].
Defined.
