(* ===== verification/LoaderTrace.v ===== *)
(** * The loader: what a load does, exactly

    The effects of a load that succeeds are a function of the image and of one
    frame number, the watermark of the loader's [Untyped]: segment by segment the
    frames are zeroed, filled and mapped, each segment right after the one before
    it.  So two loads never touch the same frame. *)

From S2P Require Import Prelude Rights Cap Budget CSpace CSpaceInv CSpaceOps CSpaceSched CSpaceRevoke CSpaceProps CSpaceStep CSpaceAlias CSpaceReach Buddy Pex Arch Loader LoaderProps LoaderTheorems.

(** The loader's [Untyped]: base, size, and what of it is used. *)
Definition bank (cs : CSpace) (b z w : Z) : Prop :=
  ∃ u, slots cs !! L_UNTYPED = Some u ∧ cap_type (cap u) = Untyped ∧ objref (cap u) = b ∧ size (cap u) = z ∧ watermark (cap u) = w.

(** A step that leaves the [Untyped] and the log of the zeroing hook alone. *)
Definition quiet (cs cs' : CSpace) : Prop := slots cs' !! L_UNTYPED = slots cs !! L_UNTYPED ∧ zlog cs' = zlog cs.

Lemma set_slot_quiet i e cs cs' a : i ≠ L_UNTYPED → set_slot i e cs = (Ok a, cs') → quiet cs cs'.
Proof. intros Hi. unfold set_slot. case_decide; [|done]. intros [= _ <-]. split; [|done]. by apply list_lookup_insert_ne. Qed.

Lemma place_quiet dest c p cs cs' a b z w : bank cs b z w → place dest c p cs = (Ok a, cs') → quiet cs cs'.
Proof.
  intros (u & Hu & Ht & _). unfold place. munfold. case_decide; [done|]. unfold slot, index.
  destruct (slots cs !! dest) as [e|] eqn:He; cbn; [|done]. destruct (is_null (cap e)) eqn:Hn; cbn; [|done].
  apply set_slot_quiet. intros ->. rewrite Hu in He. injection He as <-. apply is_null_true in Hn. congruence.
Qed.

#[export] Instance quiet_preorder : PreOrder quiet.
Proof. split; [done|]. intros a b c [H1 H2] [H3 H4]. split; congruence. Qed.

Lemma quiet_bank cs cs' b z w : quiet cs cs' → bank cs b z w → bank cs' b z w.
Proof. intros [H _] (u & Hu & ?). exists u. by rewrite H. Qed.

Lemma set_cap_quiet i c cs cs' a : i ≠ L_UNTYPED → set_cap i c cs = (Ok a, cs') → quiet cs cs'.
Proof.
  intros Hi. unfold set_cap. munfold. unfold slot, index. destruct (slots cs !! i) as [e|]; [|done]. by apply set_slot_quiet.
Qed.

(** ** The specification *)

(** The segments of an image, with their bytes. *)
Definition seg_at (p : Pex) (i : nat) : option (Segment * bytes) :=
  match segment p (Z.of_nat i), segment_data p (Z.of_nat i) with
  | Ok s, Ok d => Some (s, d)
  | _, _ => None
  end.
Definition seg_list (p : Pex) : list (Segment * bytes) := omap (seg_at p) (seq 0 (Z.to_nat (seg_count p))).

Definition seg_pages (sd : Segment * bytes) : nat := Z.to_nat (mem_size sd.1 / 4096).

(** The effects for one segment at frame [f]. *)
Definition seg_trace (HHDM_OFFSET dom : Z) (user : bool) (f : Z) (sd : Segment * bytes) : list event :=
  EZero f (Z.of_nat (seg_pages sd)) :: ECopy (f * 4096 + HHDM_OFFSET) sd.2 ::
  (if is_exec sd.1 then [ESync (f * 4096 + HHDM_OFFSET) (mem_size sd.1)] else []) ++
  ((λ k, let va := (vaddr sd.1 + Z.of_nat k * 4096)%Z in let pa := ((f + Z.of_nat k) * 4096)%Z in
     if user then EMapUser va pa (perm_to_prot (perm sd.1)) dom else EMap va pa (perm_to_prot (perm sd.1))) <$> seq 0 (seg_pages sd)).

Fixpoint load_trace (HHDM_OFFSET dom : Z) (user : bool) (f : Z) (sds : list (Segment * bytes)) : list event :=
  match sds with
  | [] => []
  | sd :: sds' => seg_trace HHDM_OFFSET dom user f sd ++ load_trace HHDM_OFFSET dom user (f + Z.of_nat (seg_pages sd)) sds'
  end.

(** A segment inside the range reserved for processes. *)
Definition in_window (sd : Segment * bytes) : Prop := (PROC_VA_BASE <= vaddr sd.1)%Z ∧ (vaddr sd.1 + mem_size sd.1 <= PROC_VA_END)%Z.

(** The frames a list of segments takes. *)
Definition total_pages (sds : list (Segment * bytes)) : nat := sum_list_with seg_pages sds.

Lemma load_trace_snoc H dom user f sds sd :
  load_trace H dom user f (sds ++ [sd]) = load_trace H dom user f sds ++ seg_trace H dom user (f + Z.of_nat (total_pages sds)) sd.
Proof.
  revert f. induction sds as [|x sds IH]; intros f; cbn [load_trace app].
  - rewrite Z.add_0_r. apply app_nil_r.
  - rewrite IH, <- app_assoc. do 3 f_equal. unfold total_pages. cbn [sum_list_with]. lia.
Qed.

Lemma total_pages_snoc sds sd : total_pages (sds ++ [sd]) = total_pages sds + seg_pages sd.
Proof. unfold total_pages. rewrite sum_list_with_app. cbn. lia. Qed.

Lemma seg_list_lookup p b i : valid p b → i < Z.to_nat (seg_count p) → ∃ s d, seg_list p !! i = Some (s, d) ∧
  segment p (Z.of_nat i) = Ok s ∧ segment_data p (Z.of_nat i) = Ok d ∧ segment_ok b s ∧ blen d = file_size s.
Proof.
  intros V Hi. assert (∀ j, j ≤ Z.to_nat (seg_count p) → ∃ l, omap (seg_at p) (seq 0 j) = l ∧ length l = j) as Hlen.
  { intros j. induction j as [|j IH]; intros Hj; [by exists []|]. destruct IH as (l & E & L); [lia|].
    destruct (valid_segment p b (Z.of_nat j) V) as (s & d & Hs & _ & Hd & _); [lia|]. exists (l ++ [(s, d)]).
    rewrite seq_S, omap_app, E. cbn [omap list_omap]. unfold seg_at at 1. cbn [Nat.add]. rewrite Hs, Hd. split; [done|]. rewrite length_app. cbn. lia. }
  destruct (valid_segment p b (Z.of_nat i) V) as (s & d & Hs & Hok & Hd & Hl); [lia|]. exists s, d. split; [|done].
  unfold seg_list. replace (Z.to_nat (seg_count p)) with (i + S (Z.to_nat (seg_count p) - i - 1)) by lia.
  rewrite seq_app, omap_app. destruct (Hlen i) as (l & E & L); [lia|]. rewrite E. rewrite lookup_app_r by lia. rewrite L, Nat.sub_diag.
  cbn [seq omap list_omap Nat.add]. unfold seg_at at 1. by rewrite Hs, Hd.
Qed.

Lemma seg_list_length p b : valid p b → length (seg_list p) = Z.to_nat (seg_count p).
Proof.
  intros V. apply Nat.le_antisymm.
  - unfold seg_list. rewrite <- (length_seq (Z.to_nat (seg_count p)) 0) at 2.
    generalize (seq 0 (Z.to_nat (seg_count p))). intros l. induction l as [|x l IH]; [done|]. cbn. destruct (seg_at p x); cbn; lia.
  - destruct (decide (Z.to_nat (seg_count p) = 0)); [lia|]. destruct (seg_list_lookup p b (Z.to_nat (seg_count p) - 1) V) as (s & d & H & _); [lia|].
    apply lookup_lt_Some in H. lia.
Qed.

Section quiet.
Context {BF : Bitflags}.

Lemma split_quiet child amount cs cs' a b z w : bank cs b z w → split L_SCHED child amount cs = (Ok a, cs') → quiet cs cs'.
Proof.
  intros Hb. unfold split. munfold.
  destruct (live cs L_SCHED) as [s|e|]; [|done..]. case_match; [done|]. case_match; [done|].
  destruct (budget_split (from_cap s) amount) as [[par ch]|]; [|done].
  destruct (place child _ _ cs) as [[u|e|] c1] eqn:Hp; [|done..]. pose proof (place_quiet _ _ _ _ _ _ _ _ _ Hb Hp) as Q1.
  unfold slot, index. destruct (slots c1 !! L_SCHED) as [e|]; [|done].
  destruct (set_cap L_SCHED _ c1) as [[u'|e'|] c2] eqn:Hs; [|done..]. apply set_cap_quiet in Hs; [|done].
  unfold bump_next_obj. munfold. repeat (case_match; simplify_eq/=; try done). intros. simplify_eq. by etrans.
Qed.

Lemma grant_quiet src dst r bd m l p l' p' a : (is_move m = true → src ≠ L_UNTYPED) →
  grant src dst r bd m (l, p) = (Ok a, (l', p')) → quiet l l'.
Proof.
  intros Hsrc. unfold grant. munfold. cbn [fst snd].
  destruct (live l src) as [s|e|]; [|done..]. do 4 (case_match; [done|]). case_match; [done|].
  cbn [fst snd]. destruct (place dst (with_rights_badge s r bd) None p) as [[u|e|] p1]; [|done..]. destruct (is_move m) eqn:Hm; cbn [fst snd].
  - destruct (set_slot src Cte_EMPTY l) as [[u'|e|] l1] eqn:Hs; [|done..]. intros [= _ <- <-]. by eapply set_slot_quiet; [apply Hsrc|].
  - by intros [= _ <- <-].
Qed.

Lemma retype_bank cs pages slot cs' a b z w : wf cs → in_u 32 pages → bank cs b z w →
  retype L_UNTYPED Frame pages 1 slot cs = (Ok a, cs') →
  bank cs' b z (w + pages) ∧ zlog cs' = zlog cs ++ [((b + w)%Z, pages)] ∧ (0 < pages)%Z ∧ (w + pages <= z)%Z.
Proof.
  intros W Hp (u & Hu & Ht & <- & <- & <-) R. pose proof (retype_spec cs L_UNTYPED Frame pages 1 slot W Hp) as S. rewrite R in S.
  destruct S as [_ [u' S]]; [by vm_compute|]. destruct (rt_untyped _ _ _ _ _ _ _ _ S) as [Hu' _]. rewrite Hu in Hu'. injection Hu' as <-.
  pose proof (rt_pos _ _ _ _ _ _ _ _ S) as Hpos. pose proof (rt_budget _ _ _ _ _ _ _ _ S) as Hb. split; [|split; [|lia]].
  - pose proof (rt_slots _ _ _ _ _ _ _ _ S L_UNTYPED) as Hs. rewrite decide_False in Hs.
    + rewrite decide_True in Hs by done. eexists. split; [exact Hs|]. cbn [cap set_watermark cap_type objref size watermark]. by rewrite Z.mul_1_r.
    + intros Hin. destruct (rt_free _ _ _ _ _ _ _ _ S 0) as (e & He & Hn); [by vm_compute; lia|]. change (Z.to_nat 1) with 1 in Hin.
      rewrite Nat.add_0_r in He. replace slot with L_UNTYPED in He by lia. congruence.
  - rewrite (rt_zlog _ _ _ _ _ _ _ _ S). change (seq 0 (Z.to_nat 1)) with [0]. cbn [fmap list_fmap]. by rewrite Z.mul_0_l, Z.add_0_r.
Qed.

(** ** Through the whole of [load] *)

Variables HHDM_OFFSET PEX_ARCH : Z.
Variables (p : Pex) (image : bytes) (dom : Z) (user : bool) (b z w0 : Z) (ev0 : list event).
Hypothesis V : valid p image.
Hypothesis Hhhdm : (0 <= HHDM_OFFSET <= 2 ^ 64 - 2 ^ 44)%Z.
Hypothesis Hbank : (0 <= b)%Z ∧ (0 <= w0)%Z ∧ (b + z <= 2 ^ 32)%Z.
Abbreviation taken i := (Z.of_nat (total_pages (take i (seg_list p)))).

(** After the first [i] segments. *)
Definition traced (i : nat) (s : LState) : Prop :=
  0 < scratch s ∧ bank (ld s) b z (w0 + taken i) ∧ (w0 + taken i <= z)%Z ∧ Forall in_window (take i (seg_list p)) ∧
  events s = ev0 ++ load_trace HHDM_OFFSET dom user (b + w0) (take i (seg_list p)).

(** What leaves the loader's space and the log alone. *)
Definition steady {A} (m : LM A) : Prop := ∀ s a s', m s = (Ok a, s') → ld s' = ld s ∧ events s' = events s ∧ scratch s ≤ scratch s'.

Lemma steady_traced {A} i (m : LM A) : steady m → returns (traced i) m (λ _, traced i).
Proof using Type. intros H s a s' (Hs & Hb & Hw & Hin & He) R. destruct (H _ _ _ R) as (E & Ee & Hle). split; [lia|]. by rewrite E, Ee. Qed.

Lemma steady_lift {A} (r : res LoadError A) : steady (lift r).
Proof using Type. intros s a s' R. injection R as _ <-. done. Qed.

(** The retype of the frames of a segment, and the read of its first frame. *)
Lemma retype_traced ev pages slot w : in_u 32 pages →
  returns (λ s, wf (ld s) ∧ 0 < scratch s ∧ bank (ld s) b z w ∧ events s = ev) (loader_op (retype L_UNTYPED Frame pages 1 slot))
    (λ _ s, 0 < scratch s ∧ bank (ld s) b z (w + pages) ∧ (w + pages <= z ∧ 0 < pages)%Z ∧ events s = ev ++ [EZero (b + w) pages] ∧
       ∃ r, resolve (ld s) slot = Ok r ∧ objref r = (b + w)%Z).
Proof using Type.
  clear Hbank. intros Hp s a s' (W & Hs & Hb & He). unfold loader_op, map_err.
  destruct (retype L_UNTYPED Frame pages 1 slot (ld s)) as [[[]|e|] l] eqn:R; [|done..]. intros E. injection E as _ <-.
  destruct (retype_bank _ _ _ _ _ _ _ _ W Hp Hb R) as (Hb' & Hz' & Hpos & Hle). cbn [ld scratch events].
  do 3 (split; [done|]). rewrite (hook_calls_app _ _ _ Hz'), He. split; [done|].
  pose proof (retype_spec (ld s) L_UNTYPED Frame pages 1 slot W Hp) as S. rewrite R in S. destruct S as [_ [u S]]; [by vm_compute|].
  pose proof (rt_slots _ _ _ _ _ _ _ _ S slot) as Hsl. rewrite decide_True in Hsl by (change (Z.to_nat 1) with 1; lia).
  eexists. split; [apply live_Ok; split; [|eexists; split; [exact Hsl|reflexivity]]; done|].
  destruct Hb as (u' & Hu' & _ & <- & _ & <-). destruct (rt_untyped _ _ _ _ _ _ _ _ S) as [Hu _]. rewrite Hu' in Hu. injection Hu as <-.
  rewrite Nat.sub_diag. cbn. lia.
Qed.

(** The state apart from the log, once the frames of a segment are there. *)
Definition settled (w : Z) (s : LState) : Prop := 0 < scratch s ∧ bank (ld s) b z w ∧ (w <= z)%Z.

Lemma emit_settled w ev e : returns (λ s, settled w s ∧ events s = ev) (emit e) (λ _ s, settled w s ∧ events s = ev ++ [e]).
Proof using Type. intros s a s' [H <-] R. injection R as _ <-. done. Qed.

Lemma map_one_settled w ev s f k : (0 <= f)%Z → (f + Z.of_nat k < 2 ^ 32)%Z → (0 <= vaddr s)%Z → (vaddr s + Z.of_nat k * 4096 < 2 ^ 64)%Z →
  returns (λ t, settled w t ∧ events t = ev) (map_one s f dom user k) (λ _ t, settled w t ∧ events t = ev ++
    [let va := (vaddr s + Z.of_nat k * 4096)%Z in let pa := ((f + Z.of_nat k) * 4096)%Z in
     if user then EMapUser va pa (perm_to_prot (perm s)) dom else EMap va pa (perm_to_prot (perm s))]).
Proof using Type.
  clear Hbank. intros Hf Hfk Hv Hvk. unfold map_one. rewrite (arith_in 64) by (unfold in_u; lia).
  eapply returns_bind; [apply returns_lift|]. intros o. apply returns_pure. intros [= <-]. rewrite (arith_in 64) by (unfold in_u; lia).
  eapply returns_bind; [apply returns_lift|]. intros va. apply returns_pure. intros [= <-].
  rewrite (wrap_small 32) by (unfold in_u; lia). rewrite (arith_in 32) by (unfold in_u; lia).
  eapply returns_bind; [apply returns_lift|]. intros pf. apply returns_pure. intros [= <-]. rewrite pfn_to_phys_eq by lia. cbv zeta.
  destruct user; apply emit_settled.
Qed.

Lemma maps_settled w ev s f n : (0 <= f)%Z → (f + Z.of_nat n <= 2 ^ 32)%Z → (0 <= vaddr s)%Z → (vaddr s + Z.of_nat n * 4096 <= 2 ^ 64)%Z →
  returns (λ t, settled w t ∧ events t = ev) (mfor (seq 0 n) (map_one s f dom user)) (λ _ t, settled w t ∧ events t = ev ++
    ((λ k, let va := (vaddr s + Z.of_nat k * 4096)%Z in let pa := ((f + Z.of_nat k) * 4096)%Z in
     if user then EMapUser va pa (perm_to_prot (perm s)) dom else EMap va pa (perm_to_prot (perm s))) <$> seq 0 n)).
Proof using Type.
  clear Hbank. intros Hf Hfn Hv Hvn.
  set (g := λ k, let va := (vaddr s + Z.of_nat k * 4096)%Z in let pa := ((f + Z.of_nat k) * 4096)%Z in
     if user then EMapUser va pa (perm_to_prot (perm s)) dom else EMap va pa (perm_to_prot (perm s))).
  pose proof (returns_mfor_seq (λ k t, settled w t ∧ events t = ev ++ (g <$> seq 0 k)) (map_one s f dom user) 0 n) as H.
  cbn [fmap list_fmap seq] in H. rewrite app_nil_r in H. apply H. intros k Hk. rewrite Nat.add_1_r, seq_S, fmap_app, app_assoc.
  apply map_one_settled; lia.
Qed.

Lemma segment_run i s d w ev : (0 <= w)%Z →
  segment p (Z.of_nat i) = Ok s → segment_data p (Z.of_nat i) = Ok d → segment_ok image s → blen d = file_size s →
  returns (λ s', wf (ld s') ∧ 0 < scratch s' ∧ bank (ld s') b z w ∧ events s' = ev) (load_segment HHDM_OFFSET p dom user i)
    (λ _ s', in_window (s, d) ∧ settled (w + Z.of_nat (seg_pages (s, d))) s' ∧
       events s' = ev ++ seg_trace HHDM_OFFSET dom user (b + w) (s, d)).
Proof using Hhhdm Hbank.
  intros Hw Hs Hd Hok Hlen. destruct (shift_pages image s Hok) as [Hpg Hpb]. pose proof Hok as (_&_&_&_&_&?&?&?&?&?&?).
  unfold load_segment, pex_read. rewrite Hs, Hd. cbn [map_err].
  eapply returns_bind; [apply returns_lift|]. intros s0. apply returns_pure. intros [= <-].
  eapply returns_bind; [apply returns_lift|]. intros e. apply returns_pure. intros He. case_match eqn:Hwin; [by intros ? ? ? ? [=]|].
  assert (in_window (s, d)) as Hwd.
  { destruct (checked 64 (vaddr s + mem_size s)) as [x|] eqn:Hc; [|done]. apply checked_Some in Hc as [_ ->]. injection He as <-.
    apply orb_false_iff in Hwin as [?%Z.ltb_ge ?%Z.ltb_ge]. by split. }
  eapply returns_bind; [apply returns_lift|]. intros pages. apply returns_pure. intros Hp.
  assert (pages = Z.shiftr (mem_size s) 12) as ->.
  { destruct (checked 32 (Z.shiftr (mem_size s) 12)) as [x|] eqn:Hc; [|done]. apply checked_Some in Hc as [? ->]. by injection Hp as <-. }
  set (n := seg_pages (s, d)). assert (Z.shiftr (mem_size s) 12 = Z.of_nat n) as Hn.
  { unfold n, seg_pages. cbn [fst]. rewrite Z.shiftr_div_pow2 by lia. change (2 ^ 12)%Z with 4096%Z. rewrite Z2Nat.id by (apply Z.div_pos; lia). done. }
  rewrite Hn in *. cbv zeta.
  eapply (returns_bind _ _ _ (λ _ s', wf (ld s') ∧ 0 < scratch s' ∧ bank (ld s') b z w ∧ events s' = ev)).
  { intros x y x' (W & Hsc & Hb & Hev) R. injection R as _ <-. cbn. split; [done|]. split; [lia|]. by split. }
  intros slot. cbn beta. eapply returns_bind; [apply (retype_traced ev (Z.of_nat n) slot w); unfold in_u; lia|]. intros u. cbn beta.
  eapply (returns_bind _ _ _ (λ r t, (objref r = (b + w)%Z ∧ (w + Z.of_nat n <= z ∧ 0 < Z.of_nat n)%Z) ∧
    settled (w + Z.of_nat n) t ∧ events t = ev ++ [EZero (b + w) (Z.of_nat n)])).
  { intros x y x' (Hsc & Hb & Hwz & Hev & r & Hr & Ho). unfold loader_op, reads. rewrite Hr. cbn [map_err].
    rewrite hook_calls_same, app_nil_r by done. intros R. injection R as <- <-. split; [done|]. split; [|done]. split; [done|]. split; [done|]. cbn [fst]. lia. }
  intros r. apply returns_pure. intros [-> Hwz]. rewrite (wrap_small 32) by (unfold in_u; lia). rewrite pfn_to_phys_eq by lia.
  unfold phys_to_virt. rewrite (arith_in 64) by (unfold in_u; lia). eapply returns_bind; [apply returns_lift|]. intros h. apply returns_pure. intros [= <-].
  eapply returns_bind; [apply returns_lift|]. intros d0. apply returns_pure. intros [= <-].
  eapply returns_bind; [apply emit_settled|]. intros u1. cbn beta.
  eapply (returns_bind _ _ _ (λ _ t, settled (w + Z.of_nat n) t ∧ events t =
    ev ++ (EZero (b + w) (Z.of_nat n) :: ECopy ((b + w) * 4096 + HHDM_OFFSET) d ::
      (if is_exec s then [ESync ((b + w) * 4096 + HHDM_OFFSET) (mem_size s)] else [])))).
  { unfold is_exec. rewrite (wrap_small 64), Z.shiftl_mul_pow2 by (unfold in_u; rewrite ?Z.shiftl_mul_pow2 by lia; lia).
    change (2 ^ 12)%Z with 4096%Z. rewrite Hpg. destruct (negb (Z.land (perm s) PERM_X =? 0)%Z).
    - intros t a t' [Ht Hev] R. injection R as _ <-. split; [done|]. cbn [events]. rewrite Hev, <- !app_assoc. done.
    - intros t a t' [Ht Hev] R. injection R as _ <-. split; [done|]. rewrite Hev, <- app_assoc. done. }
  intros u2. rewrite Nat2Z.id. eapply returns_bind; [apply maps_settled; lia|]. intros u3 t a t' [Ht Hev]. unfold set_seg_frame.
  case_decide; [|done]. intros R. injection R as _ <-. split; [done|]. split; [done|]. cbn [events]. rewrite Hev, <- app_assoc. done.
Qed.

Lemma load_segment_traced i : i < Z.to_nat (seg_count p) →
  returns (λ s, wf (ld s) ∧ traced i s) (load_segment HHDM_OFFSET p dom user i) (λ _, traced (i + 1)).
Proof using V Hhhdm Hbank.
  intros Hi. destruct (seg_list_lookup p image i V Hi) as (s & d & Hl & Hs & Hd & Hok & Hlen).
  intros x y x' (W & Hsc & Hb & _ & Hwins & Hev) R.
  assert (0 <= w0 + taken i)%Z as Hw by lia.
  destruct (segment_run i s d _ _ Hw Hs Hd Hok Hlen x y x' (conj W (conj Hsc (conj Hb Hev))) R) as (Hwd & (Hsc' & Hb' & Hle) & Hev').
  assert (take (i + 1) (seg_list p) = take i (seg_list p) ++ [(s, d)]) as E by (rewrite Nat.add_1_r; by apply take_S_r).
  unfold traced. rewrite E, total_pages_snoc, load_trace_snoc, Nat2Z.inj_add, Z.add_assoc. do 3 (split; [done|]).
  split; [apply Forall_app; split; [done|by constructor]|]. rewrite Hev', <- app_assoc, Z.add_assoc. done.
Qed.

(** The entries of the manifest only derive, split and hand over. *)
Lemma quiet_traced i s s' : quiet (ld s) (ld s') → events s' = events s → scratch s ≤ scratch s' → traced i s → traced i s'.
Proof using Type.
  clear Hbank. intros Q He Hle (Hs & Hb & Hr & Hi & Hev). split; [lia|]. split; [by eapply quiet_bank|]. split; [done|]. split; [done|]. congruence.
Qed.

Lemma grant_traced i src dst r bd m : (is_move m = true → src ≠ L_UNTYPED) → returns (traced i) (grant_op src dst r bd m) (λ _, traced i).
Proof using Type.
  clear Hbank. intros Hm s a s' Hf. unfold grant_op, map_err.
  destruct (grant src dst r bd m (ld s, pr s)) as [[u|e|] [l' p']] eqn:R; [|done..]. intros E. injection E as _ <-.
  eapply (quiet_traced i s); [|done|done|exact Hf]. by eapply grant_quiet.
Qed.

Lemma load_entry_traced i j : returns (traced i) (load_entry p j) (λ _, traced i).
Proof using Type.
  clear Hbank. unfold load_entry. eapply returns_bind; [apply steady_traced, steady_lift|]. intros m. cbv zeta beta.
  case_decide; [by intros ? ? ? ? [=]|]. eapply returns_bind; [apply steady_traced, steady_lift|]. intros r. cbn beta.
  case_match; [|case_match; [|case_match; [|by intros ? ? ? ? [=]]]].
  - eapply (returns_bind _ _ _ (λ c s, 0 < c ∧ traced i s)).
    { intros s c s' Hf R. injection R as <- <-. split; [by destruct Hf|]. eapply (quiet_traced i s); [|done|cbn; lia|exact Hf]. reflexivity. }
    intros c. eapply (returns_bind _ _ _ (λ _ s, 0 < c ∧ traced i s)).
    { intros s a s' [Hc Hf]. unfold loader_op, map_err. destruct (split L_SCHED c _ (ld s)) as [[u|e|] l] eqn:R; [|done..].
      intros E. injection E as _ <-. split; [done|]. pose proof Hf as (_ & Hb & _). pose proof (split_quiet _ _ _ _ _ _ _ _ Hb R) as Q.
      eapply (quiet_traced i s); [exact Q| |done|exact Hf]. cbn [events]. by rewrite hook_calls_same, app_nil_r by apply Q. }
    intros u. apply returns_pure. intros Hc.
    eapply returns_bind; [apply grant_traced; intros _; unfold L_UNTYPED; lia|]. intros u'. apply steady_traced.
    intros s a s' R. injection R as _ <-. done.
  - apply grant_traced. done.
  - eapply returns_bind; [apply steady_traced|]. { intros s a s' R. injection R as _ <-. done. } intros st. cbn beta.
    eapply returns_bind; [apply steady_traced, steady_lift|]. intros src. by apply grant_traced.
Qed.
End quiet.

Section load.
Context {BF : Bitflags}.
Variables HHDM_OFFSET PEX_ARCH : Z.

(** The whole load: its effects are the specified ones, at the watermark. *)
Lemma load_traced image dom user s out s' b z w : load_pre HHDM_OFFSET image s → bank (ld s) b z w → 0 < scratch s →
  load HHDM_OFFSET PEX_ARCH image dom user s = (Ok out, s') → ∃ p, parse image PEX_ARCH = Ok p ∧ valid p image ∧
    traced HHDM_OFFSET p dom user b z w (events s) (length (seg_list p)) s'.
Proof.
  intros [[Hb Hl] Hld Hpr Hlen Hnx Hmem Hhh] Hbank Hsc R. unfold load, pex_read in R.
  pose proof (parse_spec image PEX_ARCH Hb Hl) as V. unfold mbind at 1, M_bind at 1, lift at 1 in R.
  destruct (parse image PEX_ARCH) as [p|e|]; cbn [map_err] in R; [|done..]. exists p. split; [done|]. split; [done|].
  assert ((0 <= b)%Z ∧ (0 <= w)%Z ∧ (b + z <= 2 ^ 32)%Z ∧ (w <= z)%Z) as (Hb0 & Hw0 & Hbz & Hwz).
  { pose proof Hbank as (u & Hu & Ht & <- & <- & <-). pose proof (reachable_inv _ Hld) as [W _]. specialize (Hmem u Hu Ht).
    destruct (wf_caps _ W _ _ Hu) as [(_&Ho&_&Hw&_) Hx]. specialize (Hx Ht). unfold in_u in *. lia. }
  pose proof (va_tables _ _ V) as [_ _ (_ & Hseg & _) _].
  set (s1 := mkLState (ld s) (pr s) (scratch s) (replicate (Z.to_nat MAX_SEGMENTS) None) 0 (events s)).
  set (L := logged HHDM_OFFSET p dom user (cpu_time (ld s) + cpu_time (pr s)) (next_obj (ld s)) (zlog (ld s)) (events s) (ld s) (λ _, True)).
  set (T := traced HHDM_OFFSET p dom user b z w (events s)).
  assert (L s1 ∧ T 0 s1) as H1.
  { split; [|split; [done|cbn; rewrite Z.add_0_r, app_nil_r; by split_and!]].
    split; [split; simpl; done|]. split.
    - split; simpl; [reflexivity|]. split; [done|].
      intros j slot Hj. change (seg_frames s1) with (replicate (A:=option nat) (Z.to_nat MAX_SEGMENTS) None) in Hj.
      by apply lookup_replicate in Hj as [? _].
    - split; [exists []; by rewrite app_nil_r|exists []]. split; [by rewrite app_nil_r|done]. }
  change ((load_parsed HHDM_OFFSET p dom user) s1 = (Ok out, s')) in R. unfold load_parsed in R. revert R. revert H1.
  generalize s1. intros s2 H2 R. revert R. rewrite (seg_list_length p image V). set (N := Z.to_nat (seg_count p)).
  refine (returns_bind (λ s, L s ∧ T 0 s) _ _ (λ _, T N) (λ _, T N) _ _ s2 out s' H2).
  - intros t a t' Ht Rt. assert (L t' ∧ T (0 + N) t') as [_ ?]; [|done]. revert t a t' Ht Rt.
    apply (returns_mfor_seq (λ i s, L s ∧ T i s)). intros i Hi t a t' [HL HT] Rt. split.
    + apply (hoare_returns L _ (λ _, L) L) in Rt; [exact Rt| |exact HL].
      apply (load_segment_ok HHDM_OFFSET p image dom user (cpu_time (ld s) + cpu_time (pr s)) (next_obj (ld s)) (zlog (ld s))
        (events s) (ld s) (λ _, True)); [done|done|unfold MAX_MANIFEST in *; lia|lia].
    + eapply (load_segment_traced HHDM_OFFSET p image); [done|done|done| |split; [|exact HT]|exact Rt]; [lia|]. apply reachable_inv. apply HL.
  - intros u. eapply returns_bind; [apply (returns_mfor (T N)); intros i _; apply load_entry_traced|]. intros u'.
    eapply (returns_bind _ _ _ (λ _, T N)); [by apply returns_same; intros t a t' Rt; injection Rt as _ <-|].
    intros st. apply returns_same. intros t a t' Rt. by injection Rt as _ <-.
Qed.
End load.
