(* ===== verification/KSched.v ===== *)
(** * The stackful kernel scheduler ([kernel/src/sched/scheduler.rs])

    Every critical section runs with preemption masked on a single CPU, so each
    operation is one atomic step on [Kernel].  A task's register context is not
    modelled; a context switch is the event [ESwitch].  [loaded] is the page
    table the CPU runs on, which only [arch::activate_address_space] changes,
    and [active] is the pair of statics [ACTIVE_PRIMARY]/[ACTIVE_SECONDARY]. *)

From S2P Require Import Prelude Rights Cap Budget Arch.

Definition STACK_ORDER : Z := 2.
Definition STACK_BYTES : Z := 16384.
Definition PAGE : Z := 4096.
Definition GUARDED_STACK_ORDER : Z := 3.
Definition BLOCK_BYTES : Z := 32768.
Definition KERNEL_STACK_FRAMES : Z := 8.

Inductive State := Runnable | Finished | Reaped.

#[export] Instance State_eq_dec : EqDecision State.
Proof. solve_decision. Defined.

Record Task := mkTask {
  stack_phys : option Z;
  tbudget : Budget;
  tstate : State;
  tbody : option nat;      (* the closure to run, by name *)
  proc_id : option nat;
  tdomain : option Z;
  space : AddressSpace
}.

Record Scheduler := mkSched { tasks : list Task; current : nat }.

Inductive kevent :=
| EAlloc (block : Z)                       (* memory::alloc_frames *)
| EGuard (va : Z)                          (* arch::install_guard_page *)
| EActivate (s : AddressSpace)             (* arch::activate_address_space *)
| ESetStack (top : Z)                      (* arch::set_kernel_stack *)
| ESetDomain (d : option Z)                (* arch::set_domain *)
| ESwitch (from to : nat)                  (* arch::context_switch *)
| EUnguard (va pa : Z)                     (* arch::map_page(.., Rw) *)
| EFree (block : Z)                        (* memory::free_frames *)
| EWait.                                   (* arch::wait_for_interrupt *)

Record Kernel := mkKernel {
  sched : option Scheduler;    (* SCHED *)
  active : AddressSpace;
  loaded : AddressSpace;
  klog : list kevent
}.

Abbreviation KM := (M Kernel Empty_set).

Definition emit (e : kevent) : KM unit := λ k,
  (Ok (), mkKernel (sched k) (active k) (loaded k) (klog k ++ [e])).

(** [with_sched]: [fatal] before [bootstrap]. *)
Definition with_sched {A} (f : M Scheduler Empty_set A) : KM A := λ k,
  match sched k with
  | None => (Panic, k)
  | Some s => let '(r, s') := f s in (r, mkKernel (Some s') (active k) (loaded k) (klog k))
  end.

Definition set_state (st : State) (t : Task) : Task :=
  mkTask (stack_phys t) (tbudget t) st (tbody t) (proc_id t) (tdomain t) (space t).
Definition set_tbudget (b : Budget) (t : Task) : Task :=
  mkTask (stack_phys t) b (tstate t) (tbody t) (proc_id t) (tdomain t) (space t).
Definition take_stack (t : Task) : Task :=
  mkTask None (tbudget t) (tstate t) (tbody t) (proc_id t) (tdomain t) (space t).
Definition take_body (t : Task) : Task :=
  mkTask (stack_phys t) (tbudget t) (tstate t) None (proc_id t) (tdomain t) (space t).

(** [s.tasks[i] = f(s.tasks[i])] *)
Definition update_task (i : nat) (f : Task → Task) : M Scheduler Empty_set unit := λ s,
  match tasks s !! i with
  | Some t => (Ok (), mkSched (<[i:=f t]> (tasks s)) (current s))
  | None => (Panic, s)
  end.
Definition task (s : Scheduler) (i : nat) : res Empty_set Task := index (tasks s) i.

Section ksched.
(** [HHDM_OFFSET] and [arch::kernel_space()]. *)
Variables (HHDM_OFFSET : Z) (kernel_space : AddressSpace).

Definition phys_to_virt (pa : Z) : res Empty_set Z := arith 64 (pa + HHDM_OFFSET).

(** ** Choosing a task *)

Definition eligible (t : Task) : bool :=
  bool_decide (tstate t = Runnable) && negb (is_depleted (tbudget t)).

Definition pick_next (s : Scheduler) : res Empty_set (option nat) :=
  let n := length (tasks s) in
  rfind (λ i, t ← task s i; Ok (eligible t))
        ((λ step, (current s + step) mod n) <$> seq 1 n).

Definition runnable_besides (s : Scheduler) (who : nat) : nat :=
  length (List.filter (λ it, negb (it.1 =? who) && eligible it.2) (imap pair (tasks s))).

Definition kernel_stack_top (s : Scheduler) (i : nat) : res Empty_set (option Z) :=
  t ← task s i;
  match stack_phys t with
  | None => Ok None
  | Some block => v ← phys_to_virt block; top ← arith 64 (v + BLOCK_BYTES); Ok (Some top)
  end.

(** ** Switching *)

Definition activate_space (sp : AddressSpace) : KM unit := λ k,
  if negb (primary sp =? primary (active k))%Z || negb (secondary sp =? secondary (active k))%Z
  then (Ok (), mkKernel (sched k) sp sp (klog k ++ [EActivate sp]))
  else (Ok (), k).

Definition set_current (i : nat) : M Scheduler Empty_set unit :=
  modify (λ s, mkSched (tasks s) i).

(** What the switch needs, read from the incoming task under the lock. *)
Definition incoming (from next : nat)
    : M Scheduler Empty_set (nat * nat * option Z * option Z * AddressSpace) :=
  ksp ← reads (λ s, kernel_stack_top s next);
  t ← reads (λ s, task s next);
  reads (λ s, task s from);;
  mret (from, next, ksp, tdomain t, space t).

Definition switch_to (sw : nat * nat * option Z * option Z * AddressSpace) : KM unit :=
  let '(from, to, ksp, dom, sp) := sw in
  activate_space sp;;
  (match ksp with Some top => emit (ESetStack top) | None => mret () end);;
  emit (ESetDomain dom);;
  emit (ESwitch from to).

Definition schedule : KM unit :=
  sw ← with_sched (
    s ← get;
    o ← reads pick_next;
    match o with
    | Some next =>
        if decide (next = current s) then mret None
        else set_current next;; x ← incoming (current s) next; mret (Some x)
    | None => mret None
    end);
  match sw with
  | Some x => switch_to x
  | None => mret ()
  end.

Definition yield_now : KM unit := schedule.
Definition preempt : KM unit := schedule.

(** ** Creation *)

Definition bootstrap : KM unit := modify (λ k,
  mkKernel (Some (mkSched
    [mkTask None (budget_new (2 ^ 32 - 1) (2 ^ 32 - 1)) Runnable None None None kernel_space] 0))
    (active k) (loaded k) (klog k)).

(** [block] is the answer of [memory::alloc_frames(GUARDED_STACK_ORDER)]. *)
Definition spawn_inner (block : option Z) (body : nat) (b : Budget) (pid : option nat)
    (dom : option Z) (sp : AddressSpace) : KM unit :=
  match block with
  | None => panic
  | Some blk =>
      emit (EAlloc blk);;
      v ← lift (phys_to_virt blk);
      lift (arith 64 (v + BLOCK_BYTES));;
      base ← lift (arith 64 (blk + (BLOCK_BYTES - STACK_BYTES)));
      guard ← lift (arith 64 (base - PAGE));
      gv ← lift (phys_to_virt guard);
      emit (EGuard gv);;
      with_sched (modify (λ s,
        mkSched (tasks s ++ [mkTask (Some blk) b Runnable (Some body) pid dom sp]) (current s)))
  end.
Definition spawn (block : option Z) (body : nat) (b : Budget) : KM unit :=
  spawn_inner block body b None None kernel_space.
Definition spawn_proc (block : option Z) (body : nat) (b : Budget) (pid : nat) (dom : Z)
    (sp : AddressSpace) : KM unit :=
  spawn_inner block body b (Some pid) (Some dom) sp.

Definition current_proc_id : KM (option nat) :=
  with_sched (s ← get; t ← reads (λ s', task s' (current s)); mret (proc_id t)).

(** [task_enter] up to the call of the body: it is taken once. *)
Definition task_enter : KM (option nat) :=
  with_sched (
    s ← get;
    t ← reads (λ s', task s' (current s));
    update_task (current s) take_body;;
    mret (tbody t)).

(** ** Retirement *)

(** One turn of the loop of [task_exit]; [true]: switched away for good. *)
Definition exit_turn : KM bool :=
  sw ← with_sched (
    o ← reads pick_next;
    match o with
    | Some next =>
        s ← get;
        set_current next;; x ← incoming (current s) next; mret (Some x)
    | None => mret None
    end);
  match sw with
  | Some x => switch_to x;; mret true
  | None => emit EWait;; mret false
  end.

Definition task_exit : KM bool :=
  with_sched (s ← get; update_task (current s) (set_state Finished));;
  exit_turn.

(** [iter().rposition(p)] *)
Definition rposition {A} (p : A → bool) (l : list A) : option nat :=
  last (fst <$> List.filter (λ it, p it.2) (imap pair l)).

Definition reap_finished (pid : nat) : KM (option AddressSpace) :=
  o ← with_sched (
    s ← get;
    match rposition (λ t, bool_decide (proc_id t = Some pid) && bool_decide (tstate t = Finished))
            (tasks s) with
    | None => mret None
    | Some i =>
        t ← reads (λ s', task s' i);
        update_task i take_stack;;
        update_task i (set_state Reaped);;
        mret (Some (stack_phys t, space t))
    end);
  match o with
  | None => mret None
  | Some (block, sp) =>
      (match block with
       | Some blk =>
           base ← lift (arith 64 (blk + (BLOCK_BYTES - STACK_BYTES)));
           guard ← lift (arith 64 (base - PAGE));
           gv ← lift (phys_to_virt guard);
           emit (EUnguard gv guard);;
           emit (EFree blk)
       | None => mret ()
       end);;
      mret (Some sp)
  end.

(** ** The timer tick *)

Definition on_tick : KM bool :=
  with_sched (
    s ← get;
    update_task (current s) (λ t, set_tbudget (charge (tbudget t) 1) t);;
    s' ← get;
    mret (0 <? runnable_besides s' (current s))).
End ksched.
