(* ===== verification/KSchedProps.v ===== *)
(** * The kernel scheduler: invariant of all its histories *)

From S2P Require Import Prelude Rights Cap Budget Arch KSched.

Section props.
Variables (HHDM_OFFSET : Z) (kernel_space : AddressSpace).
Abbreviation NOSPACE := (mkSpace 0 0).

(** ** [pick_next] *)

Lemma rfind_first {A} (p : A → res Empty_set bool) (q : A → bool) (l : list A) :
  (∀ x, x ∈ l → p x = Ok (q x)) →
  match rfind p l with
  | Ok (Some x) => ∃ j, l !! j = Some x ∧ q x = true ∧ ∀ i y, i < j → l !! i = Some y → q y = false
  | Ok None => ∀ x, x ∈ l → q x = false
  | _ => False
  end.
Proof.
  induction l as [|x l IH]; intros Hp; cbn [rfind].
  { intros x Hx. by apply elem_of_nil in Hx. }
  rewrite Hp by left. unfold mbind, res_bind. destruct (q x) eqn:Hq.
  - exists 0. split_and!; [done..|]. lia.
  - specialize (IH (λ y Hy, Hp y (list_elem_of_further _ _ _ Hy))).
    destruct (rfind p l) as [[y|]|e|]; [..|done|done].
    + destruct IH as (j & Hj & Hqy & Hmin). exists (S j). split_and!; [done..|].
      intros [|i] z Hi Hz; simplify_eq/=; [done|]. eapply Hmin; [|done]. lia.
    + intros y [->|Hy]%elem_of_cons; [done|by apply IH].
Qed.

(** Task [i] exists and may be picked. *)
Definition can_run (s : Scheduler) (i : nat) : Prop :=
  ∃ t, tasks s !! i = Some t ∧ eligible t = true.

Lemma pick_next_spec s :
  current s < length (tasks s) →
  match pick_next s with
  | Ok (Some i) => can_run s i ∧ ∃ step, 1 ≤ step ≤ length (tasks s) ∧
      i = (current s + step) mod length (tasks s) ∧
      ∀ st, 1 ≤ st < step → ¬ can_run s ((current s + st) mod length (tasks s))
  | Ok None => ∀ i, ¬ can_run s i
  | _ => False
  end.
Proof.
  intros Hc. unfold pick_next. set (n := length (tasks s)) in *.
  set (q := λ i, match tasks s !! i with Some t => eligible t | None => false end).
  assert (∀ i, q i = true ↔ can_run s i) as Hq.
  { intros i. unfold q, can_run. destruct (tasks s !! i) as [t|]; naive_solver. }
  pose proof (rfind_first (λ i, t ← task s i; Ok (eligible t)) q
    ((λ step, (current s + step) mod n) <$> seq 1 n)) as H.
  assert (∀ x, x ∈ (λ step, (current s + step) mod n) <$> seq 1 n →
    (t ← task s x; Ok (eligible t)) = Ok (q x)) as Hp.
  { intros x (st & -> & _)%list_elem_of_fmap. unfold task, index, q.
    destruct (lookup_lt_is_Some_2 (tasks s) ((current s + st) mod n)) as [t Ht];
      [apply Nat.mod_upper_bound; lia|]. by rewrite Ht. }
  specialize (H Hp). destruct (rfind _ _) as [[i|]|e|]; [..|done|done].
  - destruct H as (j & Hj & Hqi & Hmin). split; [by apply Hq|]. exists (S j).
    rewrite list_lookup_fmap in Hj. destruct (seq 1 n !! j) as [st|] eqn:Hs; [|done].
    apply lookup_seq in Hs as [-> Hjn]. simplify_eq/=. split_and!; [lia..|done|].
    intros st Hst Hr. apply Hq in Hr.
    specialize (Hmin (st - 1) ((current s + st) mod n)). rewrite Hmin in Hr; [done|lia|].
    rewrite list_lookup_fmap, (proj2 (lookup_seq 1 n (st - 1) st)); [done|lia].
  - intros i Hi. pose proof Hi as (t & Ht & _). apply lookup_lt_Some in Ht. fold n in Ht. apply Hq in Hi.
    rewrite H in Hi; [done|]. apply list_elem_of_fmap.
    exists (if decide (i <= current s) then i + n - current s else i - current s).
    case_decide as Hd; (split; [|apply elem_of_seq; lia]).
    + replace (current s + (i + n - current s)) with (i + 1 * n) by lia.
      rewrite Nat.Div0.mod_add. symmetry. by apply Nat.mod_small.
    + replace (current s + (i - current s)) with i by lia. symmetry. by apply Nat.mod_small.
Qed.

(** ** The invariant *)

(** The stack blocks taken from and returned to the allocator. *)
Definition allocs (l : list kevent) : list Z :=
  omap (λ e, match e with EAlloc b => Some b | _ => None end) l.
Definition frees (l : list kevent) : list Z :=
  omap (λ e, match e with EFree b => Some b | _ => None end) l.

(** A stack block of real memory: its addresses in the direct map exist. *)
Definition block_ok (b : Z) : Prop := (0 <= b)%Z ∧ (b + HHDM_OFFSET + BLOCK_BYTES < 2 ^ 64)%Z.

Record tasks_ok (s : Scheduler) : Prop := {
  to_cur : current s < length (tasks s);
  to_idle : ∃ t, tasks s !! 0 = Some t ∧ tstate t = Runnable ∧ stack_phys t = None ∧
    proc_id t = None ∧ space t = kernel_space;
  to_space i t : tasks s !! i = Some t → space t ≠ NOSPACE;
  to_stack i t : tasks s !! i = Some t → i ≠ 0 → (tstate t = Reaped ↔ stack_phys t = None);
  to_block i t b : tasks s !! i = Some t → stack_phys t = Some b → block_ok b
}.

Record kinv (k : Kernel) (s : Scheduler) : Prop := {
  ki_sched : sched k = Some s;
  ki_tasks : tasks_ok s;
  ki_loaded : ∃ t, tasks s !! current s = Some t ∧ loaded k = space t;
  ki_active : active k = NOSPACE ∨ active k = loaded k;
  ki_stacks : allocs (klog k) ≡ₚ frees (klog k) ++ omap stack_phys (tasks s)
}.

Hypothesis Hhhdm : (0 <= HHDM_OFFSET)%Z.

(** ** Switching *)

Lemma allocs_app l l' : allocs (l ++ l') = allocs l ++ allocs l'.
Proof. apply omap_app. Qed.
Lemma frees_app l l' : frees (l ++ l') = frees l ++ frees l'.
Proof. apply omap_app. Qed.

(** The page table loaded for the next task is that task's, whatever was
    skipped before. *)
Lemma switch_to_ok k from to ksp dom sp :
  active k = NOSPACE ∨ active k = loaded k → sp ≠ NOSPACE →
  ∃ k' evs, switch_to (from, to, ksp, dom, sp) k = (Ok (), k') ∧ sched k' = sched k ∧
    loaded k' = sp ∧ active k' = sp ∧ klog k' = klog k ++ evs ++ [ESwitch from to] ∧
    allocs evs = [] ∧ frees evs = [].
Proof.
  intros Ha Hsp. unfold switch_to, activate_space, mbind, M_bind.
  assert (∀ e f, (negb (primary e =? primary f)%Z || negb (secondary e =? secondary f)%Z) = false → e = f) as Heq.
  { intros [a b] [c d]. simpl. intros [?%negb_false_iff ?%negb_false_iff]%orb_false_iff.
    apply Z.eqb_eq in H, H0. by subst. }
  destruct (negb (primary sp =? primary (active k))%Z || negb (secondary sp =? secondary (active k))%Z) eqn:E.
  - destruct ksp as [top|]; [eexists _, [EActivate sp; ESetStack top; ESetDomain dom]
      |eexists _, [EActivate sp; ESetDomain dom]];
      (split; [reflexivity|]); simpl; rewrite <- ?app_assoc; done.
  - apply Heq in E. subst sp. destruct Ha as [Ha|Ha]; [congruence|].
    destruct ksp as [top|]; [eexists _, [ESetStack top; ESetDomain dom]|eexists _, [ESetDomain dom]];
      (split; [reflexivity|]); simpl; rewrite <- ?app_assoc; done.
Qed.

Lemma incoming_ok s from next t :
  tasks_ok s → tasks s !! next = Some t → from < length (tasks s) →
  ∃ ksp, incoming HHDM_OFFSET from next s = (Ok (from, next, ksp, tdomain t, space t), s).
Proof.
  intros T Ht Hf. destruct (lookup_lt_is_Some_2 _ _ Hf) as [tf Htf].
  unfold incoming, kernel_stack_top, task, mbind, M_bind, reads, res_bind, index, mret, M_ret.
  rewrite Ht, Htf. destruct (stack_phys t) as [b|] eqn:Hb; [|by eexists].
  destruct (to_block _ T _ _ _ Ht Hb). unfold phys_to_virt, BLOCK_BYTES in *.
  rewrite !arith_in by (unfold in_u; lia). by eexists.
Qed.

Lemma tasks_ok_current s i : tasks_ok s → i < length (tasks s) → tasks_ok (mkSched (tasks s) i).
Proof. intros [] Hi. by split. Qed.

(** The switch from [current s] to [next]. *)
Lemma switch_inv k s next t :
  kinv k s → tasks s !! next = Some t →
  ∃ x k', (set_current next;; y ← incoming HHDM_OFFSET (current s) next; mret (Some y)) s =
      (Ok (Some x), mkSched (tasks s) next) ∧
    switch_to x (mkKernel (Some (mkSched (tasks s) next)) (active k) (loaded k) (klog k)) = (Ok (), k') ∧
    kinv k' (mkSched (tasks s) next) ∧ last (klog k') = Some (ESwitch (current s) next).
Proof.
  intros [Hs T Hl Ha Hst] Ht. pose proof (lookup_lt_Some _ _ _ Ht) as Hn.
  destruct (incoming_ok (mkSched (tasks s) next) (current s) next t) as [ksp Hin];
    [by apply tasks_ok_current|done|apply T|].
  set (k0 := mkKernel (Some (mkSched (tasks s) next)) (active k) (loaded k) (klog k)).
  destruct (switch_to_ok k0 (current s) next ksp (tdomain t) (space t)) as (k' & evs & Hk & E1 & E2 & E3 & E4 & E5 & E6);
    [done|by eapply to_space|].
  eexists _, k'. split; [|split; [exact Hk|split]].
  - unfold mbind, M_bind, set_current, modify. by rewrite Hin.
  - split; [done|by apply tasks_ok_current|by exists t|by right; congruence|].
    rewrite E4, !allocs_app, !frees_app, E5, E6. simpl. by rewrite !app_nil_r.
  - rewrite E4. rewrite app_assoc. apply last_snoc.
Qed.

Lemma schedule_spec k s :
  kinv k s →
  ∃ k' s', schedule HHDM_OFFSET k = (Ok (), k') ∧ kinv k' s' ∧ tasks s' = tasks s ∧
    pick_next s ≠ Panic ∧
    (∀ o, pick_next s = Ok o → current s' = default (current s) o) ∧
    (current s' ≠ current s → can_run s' (current s') ∧
       last (klog k') = Some (ESwitch (current s) (current s'))).
Proof.
  intros K. pose proof (pick_next_spec s (to_cur _ (ki_tasks _ _ K))) as P.
  pose proof (ki_sched _ _ K) as Hs. unfold schedule, with_sched, mbind at 1, M_bind at 1. rewrite Hs.
  unfold mbind at 1, M_bind at 1, get. unfold mbind at 1, M_bind at 1, reads at 1.
  destruct (pick_next s) as [[next|]|e|] eqn:Hp; [..|done|done].
  - case_decide as Hd.
    + simpl. exists k, s. destruct k; simpl in *. subst. split_and!; try done. by intros o [= <-].
    + destruct P as [(t & Ht & He) _]. destruct (switch_inv k s next t K Ht) as (x & k' & H1 & H2 & H3 & H4).
      rewrite H1. exists k', (mkSched (tasks s) next). split; [done|]. split_and!; try done.
      * by intros o [= <-].
      * intros _. split; [by exists t|done].
  - simpl. exists k, s. destruct k; simpl in *. subst. split_and!; try done. by intros o [= <-].
Qed.

(** ** Changes of one task *)

Lemma omap_update (l : list Task) i t t' :
  l !! i = Some t → stack_phys t' = stack_phys t →
  omap stack_phys (<[i:=t']> l) = omap stack_phys l.
Proof.
  revert i. induction l as [|x l IH]; intros [|i] Hi E; simplify_eq/=; [by rewrite E|].
  by rewrite (IH _ Hi E).
Qed.

Lemma omap_take (l : list Task) i t t' b :
  l !! i = Some t → stack_phys t = Some b → stack_phys t' = None →
  omap stack_phys l ≡ₚ b :: omap stack_phys (<[i:=t']> l).
Proof.
  revert i. induction l as [|x l IH]; intros [|i] Hi E E'; simplify_eq/=.
  - by rewrite E, E'.
  - destruct (stack_phys x); rewrite (IH _ Hi E E'); [constructor|done].
Qed.

Definition with_tasks (k : Kernel) (s : Scheduler) : Kernel :=
  mkKernel (Some s) (active k) (loaded k) (klog k).

Lemma upd_inv k s i t t' :
  kinv k s → tasks s !! i = Some t → space t' = space t → stack_phys t' = stack_phys t →
  proc_id t' = proc_id t → (i = 0 → tstate t' = tstate t) → (tstate t' = Reaped ↔ tstate t = Reaped) →
  let s' := mkSched (<[i:=t']> (tasks s)) (current s) in kinv (with_tasks k s') s'.
Proof.
  intros [Hs [Hc Hi Hsp Hst Hb] (tc & Htc & Hl) Ha Hal] Ht E1 E2 E3 E4 E5 s'.
  split; simpl; [done| | |done|by rewrite (omap_update _ _ _ _ Ht E2)].
  - split; simpl.
    + by rewrite length_insert.
    + destruct Hi as (t0 & H0 & ?&?&?&?). destruct (decide (i = 0)) as [->|].
      * simplify_eq. exists t'. rewrite list_lookup_insert_eq by (by eapply lookup_lt_Some).
        rewrite E4, E2, E3, E1 by done. done.
      * exists t0. by rewrite list_lookup_insert_ne.
    + intros j tj [(->&<-&_)|[_ Hj]]%list_lookup_insert_Some; [rewrite E1|]; by eapply Hsp.
    + intros j tj [(->&<-&_)|[_ Hj]]%list_lookup_insert_Some Hne; [rewrite E5, E2|]; by eapply Hst.
    + intros j tj b [(->&<-&_)|[_ Hj]]%list_lookup_insert_Some Hbj; [rewrite E2 in Hbj|]; by eapply Hb.
  - destruct (decide (i = current s)) as [->|].
    + exists t'. rewrite list_lookup_insert_eq by done. simplify_eq. by rewrite E1.
    + exists tc. by rewrite list_lookup_insert_ne.
Qed.

(** ** The other operations *)

Lemma bootstrap_inv log : kernel_space ≠ NOSPACE →
  ∃ k s, bootstrap kernel_space (mkKernel None NOSPACE kernel_space log) = (Ok (), k) ∧
    (allocs log ≡ₚ frees log → kinv k s).
Proof.
  intros Hk. eexists _, _. split; [reflexivity|]. intros Hlog.
  split; simpl; [done| |by eexists|by left|by rewrite app_nil_r].
  split; simpl; [lia|by eexists|..].
  - intros [|i] t E; simplify_eq/=; done.
  - intros [|i] t E; simplify_eq/=; done.
  - intros [|i] t b E; simplify_eq/=; done.
Qed.

Lemma spawn_inv k s b body bud pid dom sp :
  kinv k s → block_ok b → sp ≠ NOSPACE →
  ∃ k', spawn_inner HHDM_OFFSET (Some b) body bud pid dom sp k = (Ok (), k') ∧
    kinv k' (mkSched (tasks s ++ [mkTask (Some b) bud Runnable (Some body) pid dom sp]) (current s)).
Proof.
  intros [Hs [Hc Hi Hsp Hst Hb] (tc & Htc & Hl) Ha Hal] Hbk Hne. destruct Hbk as [Hb0 Hb1] eqn:E.
  unfold spawn_inner, phys_to_virt, mbind, M_bind, emit, lift, BLOCK_BYTES, STACK_BYTES, PAGE, with_sched, modify in *.
  rewrite !arith_in by (unfold in_u; lia). simpl. rewrite Hs. eexists. split; [reflexivity|].
  split; simpl; [done| | |done|].
  - split; simpl.
    + rewrite length_app. simpl. lia.
    + destruct Hi as (t0 & H0 & ?). exists t0. split; [by apply lookup_app_l_Some|done].
    + intros j tj [Hj|[_ Hj]]%lookup_app_Some; [by eapply Hsp|].
      apply list_lookup_singleton_Some in Hj as [_ <-]. done.
    + intros j tj [Hj|[_ Hj]]%lookup_app_Some Hj0; [by eapply Hst|].
      apply list_lookup_singleton_Some in Hj as [_ <-]. done.
    + intros j tj b' [Hj|[_ Hj]]%lookup_app_Some Hbj; [by eapply Hb|].
      apply list_lookup_singleton_Some in Hj as [_ <-]. simpl in Hbj. by injection Hbj as <-.
  - exists tc. split; [by apply lookup_app_l_Some|done].
  - rewrite !allocs_app, !frees_app, omap_app. simpl. rewrite !app_nil_r, Hal. by rewrite app_assoc.
Qed.

Lemma tick_inv k s :
  kinv k s →
  ∃ t, tasks s !! current s = Some t ∧
    let s' := mkSched (<[current s:=set_tbudget (charge (tbudget t) 1) t]> (tasks s)) (current s) in
    on_tick k = (Ok (0 <? runnable_besides s' (current s)), with_tasks k s') ∧ kinv (with_tasks k s') s'.
Proof.
  intros K. destruct (ki_loaded _ _ K) as (t & Ht & _). exists t. split; [done|]. split.
  - unfold on_tick, with_sched. rewrite (ki_sched _ _ K).
    unfold mbind, M_bind, get, update_task. by rewrite Ht.
  - by apply (upd_inv k s (current s) t).
Qed.

Lemma enter_inv k s :
  kinv k s →
  ∃ t k' s', tasks s !! current s = Some t ∧ task_enter k = (Ok (tbody t), k') ∧ kinv k' s' ∧
    current s' = current s ∧ tasks s' = <[current s:=take_body t]> (tasks s).
Proof.
  intros K. destruct (ki_loaded _ _ K) as (t & Ht & _). eexists t, _, _. split; [done|].
  split; [|split; [by apply (upd_inv k s (current s) t (take_body t) K)|done]].
  unfold task_enter, with_sched. rewrite (ki_sched _ _ K).
  unfold mbind, M_bind, get, reads, task, index, update_task. by rewrite Ht.
Qed.

(** ** Retirement *)

Lemma exit_turn_spec k s :
  kinv k s →
  ∃ r k' s', exit_turn HHDM_OFFSET k = (Ok r, k') ∧ kinv k' s' ∧ tasks s' = tasks s ∧
    (if r : bool then can_run s (current s') ∧ last (klog k') = Some (ESwitch (current s) (current s'))
     else (∀ i, ¬ can_run s i) ∧ current s' = current s).
Proof.
  intros K. pose proof (pick_next_spec s (to_cur _ (ki_tasks _ _ K))) as P.
  pose proof (ki_sched _ _ K) as Hs. unfold exit_turn, with_sched, mbind at 1, M_bind at 1. rewrite Hs.
  unfold mbind at 1, M_bind at 1, reads at 1.
  destruct (pick_next s) as [[next|]|e|] eqn:Hp; [..|done|done].
  - destruct P as [(t & Ht & He) _]. destruct (switch_inv k s next t K Ht) as (x & k' & H1 & H2 & H3 & H4).
    unfold get, mbind at 1, M_bind at 1. rewrite H1.
    unfold mbind at 1, M_bind at 1. rewrite H2. exists true, k', (mkSched (tasks s) next).
    split_and!; try done. by exists t.
  - eexists false, _, s. split; [reflexivity|]. split_and!; try done.
    destruct K. split; simpl; try done. by rewrite !allocs_app, !frees_app, !app_nil_r.
Qed.

Lemma exit_spec k s t :
  kinv k s → current s ≠ 0 → tasks s !! current s = Some t → tstate t = Runnable →
  ∃ r k' s', task_exit HHDM_OFFSET k = (Ok r, k') ∧ kinv k' s' ∧
    tasks s' = <[current s:=set_state Finished t]> (tasks s) ∧
    (if r : bool then current s' ≠ current s ∧ can_run s' (current s')
     else current s' = current s ∧ ∀ i, ¬ can_run s' i).
Proof.
  intros K Hc Ht Hr. pose proof (upd_inv k s (current s) t (set_state Finished t) K Ht) as K1.
  simpl in K1. set (s1 := mkSched (<[current s:=set_state Finished t]> (tasks s)) (current s)) in *.
  destruct (exit_turn_spec (with_tasks k s1) s1) as (r & k' & s' & He & K' & Et & Hout).
  { apply K1; try done. simpl. by rewrite Hr. }
  exists r, k', s'. split_and!; try done.
  - unfold task_exit, mbind at 1, M_bind at 1, with_sched at 1. rewrite (ki_sched _ _ K).
    unfold mbind, M_bind, get, update_task. rewrite Ht. exact He.
  - destruct r; [destruct Hout as [(t' & Ht' & Hel) _]|destruct Hout as [Hno Hcc]].
    + split; [|exists t'; by rewrite Et].
      intros E. rewrite E in Ht'. simpl in Ht'.
      rewrite list_lookup_insert_eq in Ht' by (by eapply lookup_lt_Some). by injection Ht' as <-.
    + split; [exact Hcc|]. intros i (t' & Ht' & Hel). apply (Hno i). exists t'. by rewrite <- Et.
Qed.

Lemma rposition_spec {A} (q : A → bool) (l : list A) :
  match rposition q l with
  | Some i => ∃ x, l !! i = Some x ∧ q x = true ∧ ∀ j y, i < j → l !! j = Some y → q y = false
  | None => ∀ j y, l !! j = Some y → q y = false
  end.
Proof.
  unfold rposition. induction l as [|x l IH] using rev_ind; [done|].
  rewrite imap_app, List.filter_app, fmap_app, last_app. simpl. rewrite Nat.add_0_r.
  destruct (q x) eqn:Hq; simpl.
  - exists x. rewrite list_lookup_middle by done. split_and!; try done.
    intros j y Hj Hy. apply lookup_lt_Some in Hy. rewrite length_app in Hy. simpl in Hy. lia.
  - assert (∀ j y, (l ++ [x]) !! j = Some y → l !! j = Some y ∨ y = x) as Hlast.
    { intros j y [?|[_ ?]]%lookup_app_Some; [by left|]. right.
      by apply list_lookup_singleton_Some in H as [_ ->]. }
    destruct (last _) as [i|].
    + destruct IH as (y & Hy & Hqy & Hmax). exists y. split; [by apply lookup_app_l_Some|]. split; [done|].
      intros j z Hj [Hz| ->]%Hlast; [by eapply Hmax|done].
    + intros j z [Hz| ->]%Hlast; [by eapply IH|done].
Qed.

Definition is_victim (pid : nat) (t : Task) : bool :=
  bool_decide (proc_id t = Some pid) && bool_decide (tstate t = Finished).

Lemma reap_spec k s pid :
  kinv k s →
  match rposition (is_victim pid) (tasks s) with
  | None => reap_finished HHDM_OFFSET pid k = (Ok None, with_tasks k s)
  | Some i => ∃ t b k', tasks s !! i = Some t ∧ i ≠ 0 ∧ stack_phys t = Some b ∧
      reap_finished HHDM_OFFSET pid k = (Ok (Some (space t)), k') ∧
      kinv k' (mkSched (<[i:=set_state Reaped (take_stack t)]> (tasks s)) (current s)) ∧
      frees (klog k') = frees (klog k) ++ [b]
  end.
Proof.
  intros K. pose proof K as [Hs [Hc Hi Hsp Hst Hb] (tc & Htc & Hl) Ha Hal].
  pose proof (rposition_spec (is_victim pid) (tasks s)) as P.
  assert (reap_finished HHDM_OFFSET pid k = reap_finished HHDM_OFFSET pid (with_tasks k s)) as Hk.
  { destruct k; simpl in *. by subst. }
  destruct (rposition (is_victim pid) (tasks s)) as [i|] eqn:Hr.
  2:{ rewrite Hk. unfold reap_finished, mbind at 1, M_bind at 1, with_sched at 1. simpl.
      unfold mbind at 1, M_bind at 1, get. fold (is_victim pid). rewrite Hr. done. }
  destruct P as (t & Ht & [Hpid%bool_decide_eq_true Hfin%bool_decide_eq_true]%andb_true_iff & _).
  assert (i ≠ 0) as Hi0 by (intros ->; destruct Hi as (? & ? & ? & ? & ? & ?); congruence).
  destruct (stack_phys t) as [b|] eqn:Hbk.
  2:{ apply (Hst i t Ht Hi0) in Hbk. congruence. }
  destruct (Hb _ _ _ Ht Hbk) as [Hb0 Hb1].
  exists t, b. eexists. split_and!; try done.
  - unfold reap_finished, mbind at 1, M_bind at 1, with_sched at 1. rewrite Hs.
    unfold mbind at 1, M_bind at 1, get. fold (is_victim pid). rewrite Hr.
    unfold mbind, M_bind, reads, task, index, update_task. rewrite Ht. simpl.
    rewrite list_lookup_insert_eq by (by eapply lookup_lt_Some). rewrite list_insert_insert_eq, Hbk. simpl.
    unfold lift, phys_to_virt, BLOCK_BYTES, STACK_BYTES, PAGE in *.
    rewrite !arith_in by (unfold in_u; lia). reflexivity.
  - split; simpl; [done| | |done|].
    + split; simpl.
      * by rewrite length_insert.
      * destruct Hi as (t0 & ? & ?). exists t0. by rewrite list_lookup_insert_ne.
      * intros j tj [(->&<-&_)|[_ Hj]]%list_lookup_insert_Some; simpl; by eapply Hsp.
      * intros j tj [(->&<-&_)|[_ Hj]]%list_lookup_insert_Some Hne; [done|by eapply Hst].
      * intros j tj b' [(->&<-&_)|[_ Hj]]%list_lookup_insert_Some Hbj; [done|by eapply Hb].
    + destruct (decide (i = current s)) as [->|].
      * eexists. rewrite list_lookup_insert_eq by done. split; [done|]. simpl. congruence.
      * exists tc. by rewrite list_lookup_insert_ne.
    + rewrite !allocs_app, !frees_app. simpl. rewrite !app_nil_r, Hal.
      rewrite (omap_take _ _ _ (set_state Reaped (take_stack t)) _ Ht Hbk) by done.
      rewrite <- app_assoc. done.
  - simpl. rewrite !frees_app. simpl. by rewrite app_nil_r.
Qed.

(** ** Histories *)

Inductive kop :=
| KSpawn (b : Z) (body : nat) (bud : Budget) (pid : option nat) (dom : option Z) (sp : AddressSpace)
| KYield
| KTick
| KEnter
| KExit
| KRetry
| KReap (pid : nat).

Definition run_kop (o : kop) : KM unit :=
  match o with
  | KSpawn b body bud pid dom sp => spawn_inner HHDM_OFFSET (Some b) body bud pid dom sp
  | KYield => schedule HHDM_OFFSET
  | KTick => p ← on_tick; if p : bool then preempt HHDM_OFFSET else mret ()
  | KEnter => task_enter;; mret ()
  | KExit => task_exit HHDM_OFFSET;; mret ()
  | KRetry => exit_turn HHDM_OFFSET;; mret ()
  | KReap pid => reap_finished HHDM_OFFSET pid;; mret ()
  end.

(** When each call can happen: the boot task does not exit, and a task that
    has exited only waits for interrupts and retries. *)
Definition kguard (s : Scheduler) (o : kop) : Prop :=
  let runs := ∃ t, tasks s !! current s = Some t ∧ tstate t = Runnable in
  match o with
  | KSpawn b _ _ _ _ sp => runs ∧ block_ok b ∧ sp ≠ NOSPACE
  | KYield | KEnter | KReap _ => runs
  | KExit => runs ∧ current s ≠ 0
  | KRetry => ¬ runs
  | KTick => True
  end.

Inductive kreach : Kernel → Prop :=
| K_boot k : kernel_space ≠ NOSPACE →
    bootstrap kernel_space (mkKernel None NOSPACE kernel_space []) = (Ok (), k) → kreach k
| K_step k s o r k' : kreach k → sched k = Some s → kguard s o → run_kop o k = (r, k') → kreach k'.

(** Every guarded call returns and keeps the invariant; if it changed the
    running task, the new one may run. *)
Lemma run_kop_spec k s o :
  kinv k s → kguard s o →
  ∃ k' s', run_kop o k = (Ok (), k') ∧ kinv k' s' ∧
    (current s' ≠ current s → can_run s' (current s')).
Proof.
  intros K G. destruct o; cbn [run_kop kguard] in G |- *.
  - destruct G as (_ & Hb & Hsp). destruct (spawn_inv k s b body bud pid dom sp K Hb Hsp) as (k' & -> & K').
    eexists k', _. split; [done|]. split; [exact K'|done].
  - destruct (schedule_spec k s K) as (k' & s' & -> & K' & _ & _ & _ & Hr). exists k', s'.
    split_and!; try done. intros Hne. by apply Hr.
  - destruct (tick_inv k s K) as (t & Ht & Hrun & K1). unfold mbind, M_bind. rewrite Hrun.
    set (s1 := mkSched _ (current s)) in *. destruct (0 <? _).
    + destruct (schedule_spec _ s1 K1) as (k' & s' & Hp & K' & _ & _ & _ & Hr). unfold preempt. rewrite Hp.
      exists k', s'. split_and!; try done. intros Hne. by apply Hr.
    + exists (with_tasks k s1), s1. done.
  - destruct (enter_inv k s K) as (t & k' & s' & _ & Hrun & K' & Hc & _).
    unfold mbind, M_bind. rewrite Hrun. exists k', s'. split_and!; try done.
  - destruct G as [(t & Ht & Hr) Hc]. destruct (exit_spec k s t K Hc Ht Hr) as (r & k' & s' & Hrun & K' & _ & Ho).
    unfold mbind, M_bind. rewrite Hrun. exists k', s'. split_and!; try done. destruct r; destruct Ho; done.
  - destruct (exit_turn_spec k s K) as (r & k' & s' & Hrun & K' & Et & Ho).
    unfold mbind, M_bind. rewrite Hrun. exists k', s'. split_and!; try done. intros Hne.
    destruct r; [|by destruct Ho]. destruct Ho as [(t & ? & ?) _]. exists t. by rewrite Et.
  - pose proof (reap_spec k s pid K) as R. unfold mbind, M_bind.
    destruct (rposition (is_victim pid) (tasks s)) as [i|].
    + destruct R as (t & b & k' & _ & _ & _ & -> & K' & _). eexists k', _. split; [done|]. by split.
    + rewrite R. exists (with_tasks k s), s. split; [done|]. split; [|done].
      destruct K. split; try done.
Qed.

Lemma kreach_inv k : kreach k → ∃ s, kinv k s.
Proof.
  induction 1 as [k Hk Hb|k s o r k' _ [s0 K] Hs G Hrun].
  - destruct (bootstrap_inv [] Hk) as (k' & s & E & H). rewrite E in Hb. injection Hb as <-. exists s. by apply H.
  - assert (s0 = s) as -> by (pose proof (ki_sched _ _ K); congruence).
    destruct (run_kop_spec k s o K G) as (k1 & s1 & E & K1 & _). rewrite E in Hrun.
    injection Hrun as _ <-. by exists s1.
Qed.
End props.
