(* ===== verification/KSchedTheorems.v ===== *)
(** * The promises of the kernel scheduler *)

From S2P Require Import Prelude Rights Cap Budget Arch KSched KSchedProps.

Section theorems.
Variables (HHDM_OFFSET : Z) (kernel_space : AddressSpace).
Hypothesis Hhhdm : (0 <= HHDM_OFFSET)%Z.

Abbreviation kreach := (kreach HHDM_OFFSET kernel_space).
Abbreviation kinv := (kinv HHDM_OFFSET kernel_space).

Lemma kreach_kinv k s : kreach k → sched k = Some s → kinv k s.
Proof.
  intros [s0 K]%kreach_inv Hs; [|done]. pose proof (ki_sched _ _ _ _ K). congruence.
Qed.

(** C27: In every history of the scheduler (boot, spawns, yields, timer ticks,
    exits, reaps) the CPU runs the current task on that task's own page table;
    the boot task stays runnable; every stack block taken from the allocator is
    either returned exactly once or held by exactly one task, and exactly the
    reaped tasks hold none.  Every call returns, and whenever it changes the
    running task the new one is runnable with budget left, so a finished, reaped
    or depleted task is never given the CPU. *)
Theorem scheduler_invariant k s o :
  kreach k → sched k = Some s → kguard HHDM_OFFSET s o →
  (∃ t, tasks s !! current s = Some t ∧ loaded k = space t) ∧
  (∃ t, tasks s !! 0 = Some t ∧ tstate t = Runnable) ∧
  allocs (klog k) ≡ₚ frees (klog k) ++ omap stack_phys (tasks s) ∧
  (∀ i t, tasks s !! i = Some t → i ≠ 0 → (tstate t = Reaped ↔ stack_phys t = None)) ∧
  ∃ k' s', run_kop HHDM_OFFSET o k = (Ok (), k') ∧ sched k' = Some s' ∧ kreach k' ∧
    (current s' ≠ current s → ∃ t, tasks s' !! current s' = Some t ∧
       tstate t = Runnable ∧ is_depleted (tbudget t) = false ∧ loaded k' = space t).
Proof.
  intros R Hs G. pose proof (kreach_kinv _ _ R Hs) as K. pose proof K as [_ [Hc Hi _ Hst _] Hl _ Hal].
  split; [done|]. split; [destruct Hi as (t & ? & ? & _); by exists t|]. split; [done|]. split; [done|].
  destruct (run_kop_spec _ _ Hhhdm k s o K G) as (k' & s' & Hrun & K' & Hr). exists k', s'.
  split; [done|]. split; [apply K'|]. split; [by eapply K_step|].
  intros Hne. destruct (Hr Hne) as (t & Ht & He). exists t.
  apply andb_true_iff in He as [?%bool_decide_eq_true ?%negb_true_iff]. split_and!; try done.
  destruct (ki_loaded _ _ _ _ K') as (t' & Ht' & ->). congruence.
Qed.

(** ** Fairness *)

Lemma round_distance s i : current s < length (tasks s) → i < length (tasks s) →
  ∃ d, d < length (tasks s) ∧ i = (current s + d) mod length (tasks s) ∧ (i ≠ current s → 0 < d).
Proof.
  intros Hc Hi. set (n := length (tasks s)) in *.
  exists (if decide (i < current s) then i + n - current s else i - current s).
  case_decide; split_and!; try lia.
  - replace (current s + (i + n - current s)) with (i + 1 * n) by lia.
    rewrite Nat.Div0.mod_add. symmetry. by apply Nat.mod_small.
  - replace (current s + (i - current s)) with i by lia. symmetry. by apply Nat.mod_small.
Qed.

(** The picked task is at most as far ahead as any task that may run. *)
Lemma pick_before s i d :
  current s < length (tasks s) → can_run s i → 0 < d < length (tasks s) →
  i = (current s + d) mod length (tasks s) →
  ∃ step, 1 ≤ step ≤ d ∧ pick_next s = Ok (Some ((current s + step) mod length (tasks s))) ∧
    can_run s ((current s + step) mod length (tasks s)).
Proof.
  intros Hc Hi Hd E. pose proof (pick_next_spec s Hc) as P.
  destruct (pick_next s) as [[next|]|e|]; [| |done|done].
  - destruct P as (Hn & step & Hst & -> & Hmin). exists step. split; [|done]. split; [lia|].
    destruct (decide (step ≤ d)); [done|]. exfalso. apply (Hmin d); [lia|]. by rewrite <- E.
  - exfalso. by apply (P i).
Qed.

Lemma step_distinct c step n : c < n → 0 < step < n → (c + step) mod n ≠ c.
Proof.
  intros Hc Hs E. destruct (decide (c + step < n)).
  - rewrite Nat.mod_small in E by done. lia.
  - replace (c + step) with (c + step - n + 1 * n) in E by lia.
    rewrite Nat.Div0.mod_add, Nat.mod_small in E by lia. lia.
Qed.

(** C34: The scheduler is fair: a task that may run is given the CPU after at
    most as many yields as there are tasks. *)
Theorem schedule_fair k s i :
  kreach k → sched k = Some s → can_run s i →
  ∃ n s', n ≤ length (tasks s) ∧
    sched (Nat.iter n (λ k, (schedule HHDM_OFFSET k).2) k) = Some s' ∧ current s' = i.
Proof.
  intros R Hs Hi. pose proof (kreach_kinv _ _ R Hs) as K. clear R Hs.
  assert (i < length (tasks s)) as Hlt by (destruct Hi as (t & Ht & _); by eapply lookup_lt_Some).
  destruct (round_distance s i) as (d & Hd & E & _); [apply K|done|].
  assert (∀ m k s, m < length (tasks s) → kinv k s → can_run s i →
    i = (current s + m) mod length (tasks s) →
    ∃ n s', n ≤ m ∧ sched (Nat.iter n (λ k, (schedule HHDM_OFFSET k).2) k) = Some s' ∧ current s' = i) as H.
  2:{ destruct (H d k s) as (n & s' & ? & ? & ?); try done. exists n, s'. split; [lia|done]. }
  clear k s K Hi Hlt d Hd E. intros m. induction (lt_wf m) as [m _ IH]. intros k s Hm K Hi E.
  pose proof (to_cur _ _ _ (ki_tasks _ _ _ _ K)) as Hc.
  destruct (decide (m = 0)) as [->|Hm0].
  { exists 0, s. split; [done|]. split; [apply K|]. rewrite Nat.add_0_r, Nat.mod_small in E by done. done. }
  destruct (pick_before s i m Hc Hi) as (step & Hst & Hp & _); [lia|done|].
  destruct (schedule_spec _ _ Hhhdm k s K) as (k' & s' & Hrun & K' & Et & _ & Hcur & _).
  specialize (Hcur _ Hp). simpl in Hcur.
  destruct (IH (m - step)) with (k := k') (s := s') as (n & s'' & Hn & Hs'' & Hc'').
  - lia.
  - rewrite Et. lia.
  - done.
  - destruct Hi as (t & ? & ?). exists t. by rewrite Et.
  - rewrite Et, Hcur, Nat.Div0.add_mod_idemp_l. rewrite E at 1. f_equal. lia.
  - exists (S n), s''. split; [lia|]. split; [|done]. rewrite Nat.iter_succ_r, Hrun. done.
Qed.

(** ** The timer *)

Lemma runnable_besides_pos s who :
  0 < runnable_besides s who ↔ ∃ i, i ≠ who ∧ can_run s i.
Proof.
  unfold runnable_besides. split.
  - intros H. destruct (List.filter _ _) as [|[i t] l] eqn:E; [simpl in H; lia|].
    assert (In (i, t) (List.filter (λ it, negb (it.1 =? who) && eligible it.2) (imap pair (tasks s)))) as Hin
      by (rewrite E; by left).
    apply List.filter_In in Hin as [Hin [Hne%negb_true_iff%Nat.eqb_neq He]%andb_true_iff].
    apply list_elem_of_In, elem_of_lookup_imap in Hin as (j & t' & [= -> ->] & Hj).
    exists j. split; [done|]. by exists t'.
  - intros (i & Hne & t & Ht & He).
    assert (In (i, t) (List.filter (λ it, negb (it.1 =? who) && eligible it.2) (imap pair (tasks s)))) as Hin.
    { apply List.filter_In. split.
      - apply list_elem_of_In, elem_of_lookup_imap. by exists i, t.
      - simpl. by rewrite (proj2 (Nat.eqb_neq _ _) Hne). }
    destruct (List.filter _ _); [done|simpl; lia].
Qed.

(** A tick charges the running task, and only it, one unit of its budget;
    it asks for preemption exactly when another task may run, and then [preempt]
    does hand the CPU to another task that may run: a task that never yields
    cannot keep the CPU past a tick. *)
Theorem tick_preempts k s :
  kreach k → sched k = Some s →
  ∃ t b k1 s1, tasks s !! current s = Some t ∧ on_tick k = (Ok b, k1) ∧ sched k1 = Some s1 ∧
    tasks s1 = <[current s:=set_tbudget (charge (tbudget t) 1) t]> (tasks s) ∧
    (b = true ↔ ∃ i, i ≠ current s ∧ can_run s1 i) ∧
    (b = true → ∃ k2 s2, preempt HHDM_OFFSET k1 = (Ok (), k2) ∧ sched k2 = Some s2 ∧
       current s2 ≠ current s ∧ can_run s2 (current s2)).
Proof.
  intros R Hs. pose proof (kreach_kinv _ _ R Hs) as K.
  destruct (tick_inv _ _ k s K) as (t & Ht & Hrun & K1).
  set (s1 := mkSched (<[current s:=set_tbudget (charge (tbudget t) 1) t]> (tasks s)) (current s)) in *.
  assert ((0 <? runnable_besides s1 (current s)) = true ↔ ∃ i, i ≠ current s ∧ can_run s1 i) as Hb
    by (rewrite Nat.ltb_lt; apply runnable_besides_pos).
  eexists t, _, _, s1. split; [done|]. split; [exact Hrun|]. split; [done|]. split; [done|].
  split; [exact Hb|]. intros (i & Hne & Hi)%Hb.
  pose proof (to_cur _ _ _ (ki_tasks _ _ _ _ K1)) as Hc.
  assert (i < length (tasks s1)) as Hlt by (destruct Hi as (t' & Ht' & _); by eapply lookup_lt_Some).
  destruct (round_distance s1 i Hc Hlt) as (d & Hd & E & Hd0). specialize (Hd0 Hne).
  destruct (pick_before s1 i d Hc Hi) as (step & Hst & Hp & Hcan); [lia|done|].
  destruct (schedule_spec _ _ Hhhdm _ s1 K1) as (k2 & s2 & Hrun2 & K2 & Et & _ & Hcur & _).
  specialize (Hcur _ Hp). simpl in Hcur. exists k2, s2. split; [exact Hrun2|]. split; [apply K2|].
  rewrite Hcur. split; [apply step_distinct; [exact Hc|split; [lia|eapply Nat.le_lt_trans; [apply Hst|exact Hd]]]|].
  destruct Hcan as (t' & ? & ?). exists t'. by rewrite Et.
Qed.

(** ** Two corners of the scheduler *)

(** [pick_next] answers the current task itself when no other may run. *)
Lemma pick_next_self s :
  current s < length (tasks s) → can_run s (current s) →
  (∀ i, can_run s i → i = current s) → pick_next s = Ok (Some (current s)).
Proof.
  intros Hc Hr Hu. pose proof (pick_next_spec s Hc) as P.
  destruct (pick_next s) as [[next|]|e|]; [|by destruct (P (current s))|done|done].
  destruct P as [Hn _]. by rewrite (Hu _ Hn).
Qed.

Definition idle_after (m : nat) : Scheduler := mkSched
  [mkTask None (mkBudget (2 ^ 32 - 1) (Z.min (2 ^ 32 - 1) (Z.of_nat m)) (2 ^ 32 - 1))
     Runnable None None None kernel_space] 0.

(** Nothing replenishes the boot task's budget: once [u32::MAX] ticks have been
    charged to it, it is depleted, and [pick_next] finds no task at all. *)
Lemma idle_depletes m k :
  bootstrap kernel_space (mkKernel None (mkSpace 0 0) kernel_space []) = (Ok (), k) →
  (2 ^ 32 - 1 <= Z.of_nat m)%Z →
  sched (Nat.iter m (λ k, (on_tick k).2) k) = Some (idle_after m) ∧ pick_next (idle_after m) = Ok None.
Proof.
  intros Hb Hm. injection Hb as <-. split.
  - clear Hm. induction m as [|m IH]; [done|]. rewrite Nat.iter_succ.
    unfold on_tick at 1, with_sched. rewrite IH. simpl. unfold idle_after, set_tbudget, charge, sat_add. simpl.
    do 5 f_equal. lia.
  - unfold idle_after. rewrite Z.min_l by lia. vm_compute. reflexivity.
Qed.
End theorems.

(** ** Witnesses: the boot task and two processes *)
Definition ks_hhdm : Z := 18446603336221196288.
Definition ks_space : AddressSpace := mkSpace 4096 8192.
Definition ks0 : Kernel := (bootstrap ks_space (mkKernel None (mkSpace 0 0) ks_space [])).2.
Definition ks_spawn (b : Z) (pid : nat) : kop :=
  KSpawn b pid (budget_new 10 10) (Some pid) (Some 1%Z) (mkSpace (Z.of_nat pid + 12288) 0).
Definition ks1 : Kernel := (run_kop ks_hhdm (ks_spawn 1048576 0) ks0).2.
Definition ks2 : Kernel := (run_kop ks_hhdm (ks_spawn 2097152 1) ks1).2.
Definition ks_sched (k : Kernel) : Scheduler := default (mkSched [] 0) (sched k).

Lemma ks_runs k : kreach ks_hhdm ks_space k → sched k = Some (ks_sched k) →
  tstate <$> tasks (ks_sched k) !! current (ks_sched k) = Some Runnable →
  ∀ b pid, (0 <= b <= 2 ^ 40)%Z → kreach ks_hhdm ks_space (run_kop ks_hhdm (ks_spawn b pid) k).2.
Proof.
  intros R Hs Ht b pid Hb. eapply K_step; [exact R|exact Hs| |apply surjective_pairing].
  destruct (tasks (ks_sched k) !! current (ks_sched k)) as [t|] eqn:E; [|done]. injection Ht as Ht.
  split; [by exists t|]. split; [|intros [=]; lia]. unfold block_ok, ks_hhdm, BLOCK_BYTES. lia.
Qed.

Lemma ks2_reach : kreach ks_hhdm ks_space ks2.
Proof.
  apply ks_runs; [apply ks_runs; [apply K_boot; done|..]|..]; try (vm_compute; reflexivity); lia.
Qed.

Lemma scheduler_invariant_witness :
  ∃ k' s', run_kop ks_hhdm KYield ks2 = (Ok (), k') ∧ sched k' = Some s' ∧ kreach ks_hhdm ks_space k'.
Proof.
  destruct (scheduler_invariant ks_hhdm ks_space ltac:(unfold ks_hhdm; lia) ks2 (ks_sched ks2) KYield)
    as (_ & _ & _ & _ & k' & s' & H1 & H2 & H3 & _).
  - exact ks2_reach.
  - vm_compute. reflexivity.
  - eexists. split; vm_compute; reflexivity.
  - exists k', s'. split; [exact H1|]. split; [exact H2|exact H3].
Defined.

Lemma ks2_can_run : can_run (ks_sched ks2) 2.
Proof. eexists. split; vm_compute; reflexivity. Qed.

Lemma schedule_fair_witness : ∃ n s', n ≤ 3 ∧
  sched (Nat.iter n (λ k, (schedule ks_hhdm k).2) ks2) = Some s' ∧ current s' = 2.
Proof.
  apply (schedule_fair ks_hhdm ks_space ltac:(unfold ks_hhdm; lia) ks2 (ks_sched ks2) 2);
    [exact ks2_reach|vm_compute; reflexivity|exact ks2_can_run].
Defined.

Lemma tick_preempts_witness : ∃ b k1, on_tick ks2 = (Ok b, k1) ∧ b = true.
Proof.
  destruct (tick_preempts ks_hhdm ks_space ltac:(unfold ks_hhdm; lia) ks2 (ks_sched ks2))
    as (t & b & k1 & s1 & _ & H & Hs1 & _ & Hb & _);
    [exact ks2_reach|vm_compute; reflexivity|].
  exists b, k1. split; [exact H|]. apply Hb. exists 2. split; [vm_compute; congruence|].
  vm_compute in H. injection H as <- <-. simpl in Hs1. injection Hs1 as <-.
  eexists. split; vm_compute; reflexivity.
Defined.
