(* ===== verification/Userland.v ===== *)
(** * User processes and their system calls ([kernel/src/user/mod.rs])

    A system call runs on the kernel stack of its process; a call that blocks
    is a loop that tests a shared cell under its lock and yields.  Each test is
    one atomic step here ([call_turn], [recv_turn], [wait_turn]): [Blocked] is a
    turn that found nothing and yielded.  [Retired] is the divergence of
    [retire]: the process never runs again. *)

From S2P Require Import Prelude Rights Cap Budget CSpace CSpaceInv CSpaceOps CSpaceSched CSpaceRevoke CSpaceProps CSpaceStep CSpaceAlias CSpaceReach CSpaceTheorems Syscall.
Import Abi.

Definition MAX_PROCS : nat := 4.
Definition REPLY_SLOT : nat := 3.
Definition EP_SLOT : nat := 1.
Definition EP_BADGE : Z := 177.
Definition AUTH_SLOTS : nat := 4.
Definition PROC_SLOTS : nat := 16.
(** [u64::MAX], the killed sentinel *)
Definition KILLED : Z := 2 ^ 64 - 1.

Record Rdv := mkRdv { caller : option nat; msg : Z; reply : option Z }.
Record Notify := mkNotify { signaled : bool; waiter : option nat }.

(** The statics of the module, and what was printed for [DEBUG_EMIT]. *)
Record User := mkUser {
  PROC_CSPACES : list (option CSpace);
  PROC_DONE : list bool;
  PROC_EXITS : list Z;
  EP_RDV : Rdv;
  NOTIFY : Notify;
  console : list Z
}.

Definition user_new : User :=
  mkUser (replicate MAX_PROCS None) (replicate MAX_PROCS false) (replicate MAX_PROCS 0%Z)
    (mkRdv None 0 None) (mkNotify false None) [].

Abbreviation UM := (M User Empty_set).

Inductive outcome := Returned (v : Z) | Retired | Blocked.

Definition set_rdv (r : Rdv) : UM unit := modify (λ u,
  mkUser (PROC_CSPACES u) (PROC_DONE u) (PROC_EXITS u) r (NOTIFY u) (console u)).
Definition set_notify (n : Notify) : UM unit := modify (λ u,
  mkUser (PROC_CSPACES u) (PROC_DONE u) (PROC_EXITS u) (EP_RDV u) n (console u)).
Definition print (v : Z) : UM unit := modify (λ u,
  mkUser (PROC_CSPACES u) (PROC_DONE u) (PROC_EXITS u) (EP_RDV u) (NOTIFY u) (console u ++ [v])).

(** [f] on process [id]'s CSpace under its lock; [fatal] if there is none. *)
Definition with_cspace {A} (id : nat) (f : CM A) : UM (res CapError A) := λ u,
  match PROC_CSPACES u !! id with
  | Some (Some cs) =>
      let '(r, cs') := f cs in
      match r with
      | Panic => (Panic, u)
      | _ => (Ok r, mkUser (<[id:=Some cs']> (PROC_CSPACES u)) (PROC_DONE u) (PROC_EXITS u)
                      (EP_RDV u) (NOTIFY u) (console u))
      end
  | _ => (Panic, u)
  end.

Definition retire (id : nat) (code : Z) : UM outcome := λ u,
  if decide (id < length (PROC_EXITS u)) then
    if decide (id < length (PROC_DONE u)) then
      (Ok Retired, mkUser (PROC_CSPACES u) (<[id:=true]> (PROC_DONE u)) (<[id:=code]> (PROC_EXITS u))
                     (EP_RDV u) (NOTIFY u) (console u))
    else (Panic, u)
  else (Panic, u).

Section user.
Context {BF : Bitflags}.

(** [crate::syscall::invoke] against the caller's CSpace. *)
Definition invoke_as (id : nat) (inv : Invocation) : UM (res InvokeError Z) := λ u,
  match PROC_CSPACES u !! id with
  | Some (Some cs) =>
      match invoke cs inv with
      | Panic => (Panic, u)
      | r => (Ok r, u)
      end
  | _ => (Panic, u)
  end.

(** [ipc_check], which does not return when the process is refused. *)
Definition ipc_check (id : nat) (inv : Invocation) (k : UM outcome) : UM outcome :=
  r ← invoke_as id inv;
  match r with
  | Err _ => retire id KILLED
  | _ => k
  end.

(** ** CALL, RECV, REPLY *)

Definition call_turn : UM outcome :=
  u ← get;
  match reply (EP_RDV u) with
  | Some v => set_rdv (mkRdv None (msg (EP_RDV u)) None);; mret (Returned v)
  | None => mret Blocked
  end.
Definition ipc_call (id : nat) (inv : Invocation) : UM outcome :=
  ipc_check id inv (
    w ← lift (index (args inv) 0);
    set_rdv (mkRdv (Some id) w None);;
    call_turn).

Definition recv_turn (id : nat) : UM outcome :=
  u ← get;
  match caller (EP_RDV u) with
  | None => mret Blocked
  | Some c =>
      set_rdv (mkRdv None (msg (EP_RDV u)) (reply (EP_RDV u)));;
      m ← with_cspace id (mint_reply REPLY_SLOT (Z.of_nat c) 0);
      match m with
      | Err _ => retire id KILLED
      | _ => mret (Returned (msg (EP_RDV u)))
      end
  end.
Definition ipc_recv (id : nat) (inv : Invocation) : UM outcome := ipc_check id inv (recv_turn id).

Definition ipc_reply (id : nat) (inv : Invocation) : UM outcome :=
  r ← with_cspace id (consume_reply (Z.to_nat (cptr inv)));
  match r with
  | Err _ => retire id KILLED
  | _ =>
      w ← lift (index (args inv) 0);
      u ← get;
      set_rdv (mkRdv (caller (EP_RDV u)) (msg (EP_RDV u)) (Some w));;
      mret (Returned 0%Z)
  end.

(** ** Notifications *)

Definition wait_turn : UM outcome :=
  u ← get;
  if signaled (NOTIFY u) then set_notify (mkNotify false None);; mret (Returned 0%Z)
  else mret Blocked.
Definition notify_wait (id : nat) (inv : Invocation) : UM outcome :=
  ipc_check id inv (
    u ← get;
    set_notify (mkNotify (signaled (NOTIFY u)) (Some id));;
    wait_turn).
Definition notify_signal : UM unit :=
  u ← get; set_notify (mkNotify true (waiter (NOTIFY u))).
Definition notify_signal_op (id : nat) (inv : Invocation) : UM outcome :=
  ipc_check id inv (notify_signal;; mret (Returned 0%Z)).
Definition notify_has_waiter (u : User) : bool :=
  match waiter (NOTIFY u) with Some _ => true | None => false end.

(** ** The trap entry points *)

(** [id] is the answer of [scheduler::current_proc_id()]. *)
Definition syscall (pid : option nat) (inv : Invocation) : UM outcome :=
  match pid with
  | None => panic
  | Some id =>
      if (op inv =? ENDPOINT_CALL)%Z then ipc_call id inv
      else if (op inv =? ENDPOINT_RECV)%Z then ipc_recv id inv
      else if (op inv =? ENDPOINT_REPLY)%Z then ipc_reply id inv
      else if (op inv =? NOTIFY_WAIT)%Z then notify_wait id inv
      else if (op inv =? NOTIFY_SIGNAL)%Z then notify_signal_op id inv
      else
        r ← invoke_as id inv;
        match r with
        | Ok v =>
            if (op inv =? DEBUG_EMIT)%Z then print v;; mret (Returned 0%Z)
            else if (op inv =? PROC_EXIT)%Z then retire id v
            else mret (Returned v)
        | _ => retire id KILLED
        end
  end.

Definition fault (pid : option nat) : UM outcome :=
  match pid with
  | None => panic
  | Some id => retire id KILLED
  end.

(** [setup_blob_cspace], from the answer of [memory::alloc_frames(0)] as a frame
    number; the [fatal] halts are panics. *)
Definition setup_blob_cspace (id : nat) (frame : option Z) : UM unit := λ u,
  match frame with
  | None => (Panic, u)
  | Some base =>
      match (set_root_untyped base 1;; retype 0 Endpoint 1 1 1) (cspace_new AUTH_SLOTS) with
      | (Ok _, auth) =>
          match grant 1 EP_SLOT SEND EP_BADGE GMint (auth, cspace_new PROC_SLOTS) with
          | (Ok _, (_, cs)) =>
              if decide (id < length (PROC_CSPACES u)) then
                (Ok (), mkUser (<[id:=Some cs]> (PROC_CSPACES u)) (PROC_DONE u) (PROC_EXITS u)
                          (EP_RDV u) (NOTIFY u) (console u))
              else (Panic, u)
          | _ => (Panic, u)
          end
      | _ => (Panic, u)
      end
  end.
End user.
