(* ===== verification/UserTheorems.v ===== *)
(** * The promises of the system-call layer *)

From S2P Require Import Prelude Rights Cap Budget CSpace CSpaceInv CSpaceOps CSpaceSched CSpaceRevoke CSpaceProps CSpaceStep CSpaceAlias CSpaceReach CSpaceTheorems Syscall Userland.
Import Abi.

Section theorems.
Context {BF : Bitflags}.

(** The statics are well-formed: one entry per process, every CSpace is. *)
Record user_ok (u : User) : Prop := {
  uo_len : length (PROC_CSPACES u) = MAX_PROCS ∧ length (PROC_DONE u) = MAX_PROCS ∧
    length (PROC_EXITS u) = MAX_PROCS;
  uo_wf id cs : PROC_CSPACES u !! id = Some (Some cs) → wf cs;
  uo_caller c : caller (EP_RDV u) = Some c → c < MAX_PROCS
}.

(** [u'] differs from [u], as far as other processes can tell, only in the two
    shared cells: their CSpaces, exit flags and exit codes are untouched. *)
Definition others (id : nat) (u u' : User) : Prop := ∀ j, j ≠ id →
  PROC_CSPACES u' !! j = PROC_CSPACES u !! j ∧ PROC_DONE u' !! j = PROC_DONE u !! j ∧
  PROC_EXITS u' !! j = PROC_EXITS u !! j.

#[export] Instance others_preorder id : PreOrder (others id).
Proof.
  split; [done|]. intros u v w H1 H2 j Hj. destruct (H1 j Hj) as (?&?&?), (H2 j Hj) as (?&?&?).
  split_and!; congruence.
Qed.

(** A step on behalf of process [id], from [u0]. *)
Definition held (id : nat) (u0 u : User) : Prop :=
  user_ok u ∧ (∃ cs, PROC_CSPACES u !! id = Some (Some cs)) ∧ id < MAX_PROCS ∧ others id u0 u.

Abbreviation stepped id u0 m := (hoare (held id u0) m (λ _, held id u0) (λ _, False)).

Lemma held_rdv id u0 r : (∀ c, caller r = Some c → c < MAX_PROCS) →
  stepped id u0 (set_rdv r).
Proof. intros Hr u ([] & Hc & Hi & Ho). split; [by split|]. by split_and!. Qed.

Lemma held_notify id u0 n : stepped id u0 (set_notify n).
Proof. intros u ([] & Hc & Hi & Ho). split; [by split|]. by split_and!. Qed.

Lemma held_retire id u0 code : stepped id u0 (retire id code).
Proof.
  intros u ([(L1 & L2 & L3) Hw Hcl] & Hc & Hi & Ho). unfold retire. rewrite !decide_True by lia.
  split; [split; simpl; rewrite ?length_insert; done|]. split_and!; try done.
  etrans; [exact Ho|]. intros j Hj. simpl. by rewrite !list_lookup_insert_ne.
Qed.

Lemma held_with {A} id u0 (f : CM A) : (∀ cs, wf cs → good cs (f cs)) →
  stepped id u0 (with_cspace id f).
Proof.
  intros Hf u ([(L1 & L2 & L3) Hw Hcl] & [cs Hcs] & Hi & Ho). unfold with_cspace. rewrite Hcs.
  specialize (Hf cs (Hw _ _ Hcs)). unfold good in Hf. destruct (f cs) as [[a|e|] cs']; [| |done].
  all: (split; [|split_and!]); simpl; try done;
    [split; simpl; [by rewrite length_insert|
       intros j c [(_&[= <-]&_)|[_ Hj]]%list_lookup_insert_Some; [subst; by eauto|by eapply Hw]|done]
    |eexists; apply list_lookup_insert_eq; lia
    |etrans; [exact Ho|]; intros j Hj; simpl; by rewrite list_lookup_insert_ne].
Qed.

Lemma held_invoke id u0 inv (k : res InvokeError Z → UM outcome) :
  length (args inv) = MSG_REGS → (∀ r, stepped id u0 (k r)) →
  stepped id u0 (invoke_as id inv ≫= k).
Proof.
  intros Hl Hk u H. pose proof H as (_ & [cs Hcs] & _). unfold mbind, M_bind, invoke_as. rewrite Hcs.
  pose proof (invoke_total cs inv Hl) as Hp. destruct (invoke cs inv) as [v|e|]; [by apply Hk..|done].
Qed.

Lemma held_check id u0 inv k :
  length (args inv) = MSG_REGS → stepped id u0 k → stepped id u0 (ipc_check id inv k).
Proof. intros Hl Hk. apply held_invoke; [done|]. intros [v|e|]; [done|apply held_retire|done]. Qed.

Lemma held_arg {A} id u0 inv (k : Z → UM A) :
  length (args inv) = MSG_REGS → (∀ w, stepped id u0 (k w)) →
  stepped id u0 (lift (index (args inv) 0) ≫= k).
Proof.
  intros Hl Hk. destruct (args inv) as [|w l]; [done|]. eapply hoare_lift_Ok; [reflexivity|apply Hk].
Qed.

Lemma held_get {A} id u0 (k : User → UM A) :
  (∀ u, user_ok u → stepped id u0 (k u)) → stepped id u0 (get ≫= k).
Proof. intros Hk u H. apply Hk; [apply H|exact H]. Qed.

Lemma held_ret {A} id u0 (a : A) : stepped id u0 (mret a : UM A).
Proof. by apply hoare_ret. Qed.

Create HintDb held.
#[local] Hint Resolve held_ret held_retire held_notify : held.

(** ** The turns of the blocking calls *)

Lemma held_call_turn id u0 : stepped id u0 call_turn.
Proof.
  apply held_get. intros u Hu. destruct (reply (EP_RDV u)); [|auto with held].
  eapply hoare_bind; [by apply held_rdv|]. intros []. auto with held.
Qed.

Lemma held_recv_turn id u0 : stepped id u0 (recv_turn id).
Proof.
  apply held_get. intros u [_ _ Hcl]. destruct (caller (EP_RDV u)) as [c|] eqn:Hc; [|auto with held].
  eapply hoare_bind; [by apply held_rdv|]. intros []. eapply hoare_bind.
  - apply held_with. intros cs W. specialize (Hcl _ eq_refl). unfold MAX_PROCS in Hcl.
    apply mint_reply_good; [done|unfold in_u; lia..].
  - intros [v|e|]; auto with held.
Qed.

Lemma held_wait_turn id u0 : stepped id u0 wait_turn.
Proof.
  apply held_get. intros u _. destruct (signaled (NOTIFY u)); [|auto with held].
  eapply hoare_bind; [apply held_notify|]. intros []. auto with held.
Qed.

Lemma held_signal id u0 : stepped id u0 notify_signal.
Proof. apply held_get. intros u _. apply held_notify. Qed.

Lemma held_reply id u0 inv :
  length (args inv) = MSG_REGS → stepped id u0 (ipc_reply id inv).
Proof.
  intros Hl. eapply hoare_bind; [apply held_with; intros cs W; by apply consume_reply_good|].
  intros [v|e|]; [|auto with held|].
  all: apply held_arg; [done|]; intros w; apply held_get; intros u [_ _ Hcl].
  all: eapply hoare_bind; [by apply held_rdv|]; intros []; auto with held.
Qed.

Lemma held_syscall id u0 inv :
  length (args inv) = MSG_REGS → id < MAX_PROCS → stepped id u0 (syscall (Some id) inv).
Proof.
  intros Hl Hi. unfold syscall.
  destruct (_ =? _)%Z; [apply held_check; [done|]; apply held_arg; [done|]; intros w;
    eapply hoare_bind; [apply held_rdv; by intros c [= <-]|]; intros []; apply held_call_turn|].
  destruct (_ =? _)%Z; [apply held_check; [done|]; apply held_recv_turn|].
  destruct (_ =? _)%Z; [by apply held_reply|].
  destruct (_ =? _)%Z; [apply held_check; [done|]; apply held_get; intros u _;
    eapply hoare_bind; [apply held_notify|]; intros []; apply held_wait_turn|].
  destruct (_ =? _)%Z; [apply held_check; [done|]; eapply hoare_bind;
    [apply held_signal|]; intros []; auto with held|].
  apply held_invoke; [done|]. intros [v|e|]; [|auto with held..].
  destruct (_ =? _)%Z; [|destruct (_ =? _)%Z; auto with held].
  apply hoare_bind with (R := λ _, held id u0); [|intros []; auto with held].
  intros u ([] & ? & ? & ?). split; [by split|]. by split_and!.
Qed.

(** The kernel-side steps of process [id]: a system call, a turn of a blocked
    one, a fault. *)
Inductive turn := TSyscall (inv : Invocation) | TCall | TRecv | TWait | TFault.
Definition take_turn (id : nat) (t : turn) : UM outcome :=
  match t with
  | TSyscall inv => syscall (Some id) inv
  | TCall => call_turn
  | TRecv => recv_turn id
  | TWait => wait_turn
  | TFault => fault (Some id)
  end.

(** C24: Whatever a process does (any system call with any operation, capability
    pointer and arguments, a blocked call resumed, a fault) the kernel does not
    panic, every CSpace stays well-formed, and no other process's CSpace, exit
    flag or exit code changes. *)
Theorem turn_contained u id cs t :
  user_ok u → PROC_CSPACES u !! id = Some (Some cs) →
  match t with TSyscall inv => length (args inv) = MSG_REGS | _ => True end →
  match take_turn id t u with
  | (Ok _, u') => user_ok u' ∧ others id u u' ∧ ∃ cs', PROC_CSPACES u' !! id = Some (Some cs')
  | _ => False
  end.
Proof.
  intros Hu Hcs Hl.
  assert (id < MAX_PROCS) as Hi by (apply lookup_lt_Some in Hcs; destruct Hu as [(<- & _) _ _]; done).
  assert (stepped id u (take_turn id t)) as H.
  { destruct t; simpl; [by apply held_syscall|apply held_call_turn|apply held_recv_turn|
      apply held_wait_turn|apply held_retire]. }
  specialize (H u). destruct (take_turn id t u) as [[o|e|] u'];
    [|by destruct H; split_and!; eauto..].
  destruct H as (? & ? & ? & ?); [by split_and!; eauto|]. by split_and!.
Qed.

(** There is no ambient authority at the trap: a system call whose capability
    check fails, whatever the operation, retires the calling process with the
    killed code and changes nothing else, neither the rendezvous nor the
    notification nor the console nor any CSpace. *)
Theorem refused_is_killed u id cs inv e :
  user_ok u → PROC_CSPACES u !! id = Some (Some cs) → op inv ≠ ENDPOINT_REPLY →
  invoke cs inv = Err e →
  syscall (Some id) inv u = (Ok Retired,
    mkUser (PROC_CSPACES u) (<[id:=true]> (PROC_DONE u)) (<[id:=KILLED]> (PROC_EXITS u))
      (EP_RDV u) (NOTIFY u) (console u)).
Proof.
  intros [(L1 & L2 & L3) _ _] Hcs Hop He. pose proof (lookup_lt_Some _ _ _ Hcs) as Hi.
  assert (retire id KILLED u = (Ok Retired,
    mkUser (PROC_CSPACES u) (<[id:=true]> (PROC_DONE u)) (<[id:=KILLED]> (PROC_EXITS u))
      (EP_RDV u) (NOTIFY u) (console u))) as Hr by (unfold retire; by rewrite !decide_True by lia).
  assert (∀ k, ipc_check id inv k u = retire id KILLED u) as Hk.
  { intros k. unfold ipc_check, mbind, M_bind, invoke_as. by rewrite Hcs, He. }
  unfold syscall. rewrite (proj2 (Z.eqb_neq _ _) Hop).
  destruct (_ =? _)%Z; [unfold ipc_call; by rewrite Hk|].
  destruct (_ =? _)%Z; [unfold ipc_recv; by rewrite Hk|].
  destruct (_ =? _)%Z; [unfold notify_wait; by rewrite Hk|].
  destruct (_ =? _)%Z; [unfold notify_signal_op; by rewrite Hk|].
  unfold mbind, M_bind, invoke_as. by rewrite Hcs, He.
Qed.

(** ** The call protocol *)

Lemma check_passes id cs inv k u v :
  PROC_CSPACES u !! id = Some (Some cs) → invoke cs inv = Ok v → ipc_check id inv k u = k u.
Proof. intros Hcs Hi. unfold ipc_check, mbind, M_bind, invoke_as. by rewrite Hcs, Hi. Qed.

Lemma call_blocked u : reply (EP_RDV u) = None → call_turn u = (Ok Blocked, u).
Proof. intros H. unfold call_turn, mbind, M_bind, get. by rewrite H. Qed.

(** The call protocol between a client and a server: the client's CALL
    blocks; the server's RECV returns the client's word and leaves one [Reply]
    naming the client in the server's space; until the server replies every turn
    of the client stays blocked and changes nothing; REPLY hands its word to the
    client, whose next turn returns it; the rendezvous is then quiet and the
    server's slots are what they were, and a second REPLY on the consumed
    capability kills the server. *)
Theorem call_reply_roundtrip u c s ccs scs cp sp w v l l' l'' vc vs m :
  user_ok u → c ≠ s → EP_RDV u = mkRdv None m None →
  PROC_CSPACES u !! c = Some (Some ccs) → PROC_CSPACES u !! s = Some (Some scs) →
  invoke ccs (mkInvocation cp ENDPOINT_CALL (w :: l)) = Ok vc →
  invoke scs (mkInvocation sp ENDPOINT_RECV l') = Ok vs → vacant scs REPLY_SLOT →
  let rep := syscall (Some s) (mkInvocation (Z.of_nat REPLY_SLOT) ENDPOINT_REPLY (v :: l'')) in
  ∃ u1 u2 u3 u4 cs2 cs3,
    syscall (Some c) (mkInvocation cp ENDPOINT_CALL (w :: l)) u = (Ok Blocked, u1) ∧
    call_turn u1 = (Ok Blocked, u1) ∧
    syscall (Some s) (mkInvocation sp ENDPOINT_RECV l') u1 = (Ok (Returned w), u2) ∧
    call_turn u2 = (Ok Blocked, u2) ∧
    PROC_CSPACES u2 !! s = Some (Some cs2) ∧
    (∃ r, resolve cs2 REPLY_SLOT = Ok r ∧ cap_type r = Reply ∧ objref r = Z.of_nat c) ∧
    rep u2 = (Ok (Returned 0%Z), u3) ∧
    call_turn u3 = (Ok (Returned v), u4) ∧ EP_RDV u4 = mkRdv None w None ∧
    PROC_CSPACES u4 !! s = Some (Some cs3) ∧ slots cs3 = slots scs ∧
    ∃ u5, rep u4 = (Ok Retired, u5) ∧ PROC_EXITS u5 !! s = Some KILLED.
Proof.
  intros [(L1 & L2 & L3) Hw Hcl] Hne Hq Hc Hs Hic His Hv rep.
  pose proof (lookup_lt_Some _ _ _ Hc) as Hcl'. pose proof (lookup_lt_Some _ _ _ Hs) as Hsl.
  set (u1 := mkUser (PROC_CSPACES u) (PROC_DONE u) (PROC_EXITS u) (mkRdv (Some c) w None) (NOTIFY u) (console u)).
  assert (in_u 64 (Z.of_nat c)) as Hcu by (unfold in_u, MAX_PROCS in *; lia).
  pose proof (mint_reply_good scs REPLY_SLOT (Z.of_nat c) 0 (Hw _ _ Hs) Hcu ltac:(unfold in_u; lia)) as G.
  destruct (mint_reply_run scs REPLY_SLOT (Z.of_nat c) 0 Hv) as (cs2 & Hmint & Hres).
  rewrite Hmint in G.
  destruct (reply_consumed scs REPLY_SLOT (Z.of_nat c) 0 cs2 (Hw _ _ Hs) Hcu ltac:(unfold in_u; lia) Hmint)
    as (cs3 & Hcons & Hsl3 & _ & Hagain).
  set (st cs r := mkUser (<[s:=Some cs]> (PROC_CSPACES u)) (PROC_DONE u) (PROC_EXITS u) r (NOTIFY u) (console u)).
  assert (∀ cs r, PROC_CSPACES (st cs r) !! s = Some (Some cs)) as Hst
    by (intros; simpl; by apply list_lookup_insert_eq).
  assert (∀ cs cs' r v' (f : CM v') a, f cs = (a, cs') → a ≠ Panic →
    with_cspace s f (st cs r) = (Ok a, st cs' r)) as Hwith.
  { intros cs cs' r V f a Hf Ha. unfold with_cspace. rewrite Hst, Hf. unfold st at 1. simpl.
    rewrite list_insert_insert_eq. by destruct a. }
  exists u1, (st cs2 (mkRdv None w None)), (st cs3 (mkRdv None w (Some v))), (st cs3 (mkRdv None w None)), cs2, cs3.
  split_and!; try done; try (by apply Hst).
  - change (ipc_call c (mkInvocation cp ENDPOINT_CALL (w :: l)) u = (Ok Blocked, u1)).
    unfold ipc_call. by rewrite (check_passes _ _ _ _ _ _ Hc Hic).
  - change (ipc_recv s (mkInvocation sp ENDPOINT_RECV l') u1 = (Ok (Returned w), st cs2 (mkRdv None w None))).
    unfold ipc_recv. rewrite (check_passes s scs _ _ u1 vs Hs His).
    unfold recv_turn, mbind, M_bind, get, set_rdv, modify, with_cspace. simpl. by rewrite Hs, Hmint.
  - change (ipc_reply s (mkInvocation (Z.of_nat REPLY_SLOT) ENDPOINT_REPLY (v :: l'')) (st cs2 (mkRdv None w None))
      = (Ok (Returned 0%Z), st cs3 (mkRdv None w (Some v)))).
    unfold ipc_reply, mbind at 1, M_bind at 1. rewrite (Hwith _ cs3 _ _ _ (Ok (Z.of_nat c))) by done. done.
  - change (∃ u5, ipc_reply s (mkInvocation (Z.of_nat REPLY_SLOT) ENDPOINT_REPLY (v :: l'')) (st cs3 (mkRdv None w None))
      = (Ok Retired, u5) ∧ PROC_EXITS u5 !! s = Some KILLED).
    unfold ipc_reply, mbind at 1, M_bind at 1.
    rewrite (Hwith _ cs3 _ _ _ (Err CSpace.EmptySlot)) by done. unfold retire. simpl.
    rewrite !decide_True by lia. eexists. split; [reflexivity|]. simpl. apply list_lookup_insert_eq. lia.
Qed.
End theorems.

(** ** Witnesses: two clients and a server on one endpoint *)
Definition ep_auth : CSpace :=
  (run_op (ORetype 0 Endpoint 1 1 1) (run_install (IUntyped 100 1) (cspace_new 4)).2).2.
Definition client_cs : CSpace := (grant 1 2 SEND 7 GMint (ep_auth, cspace_new 16)).2.2.
Definition server_cs : CSpace := (grant 1 2 RECV 9 GMint (ep_auth, cspace_new 16)).2.2.
Definition demo_user : User :=
  mkUser [Some client_cs; Some client_cs; Some server_cs; None] (replicate 4 false) (replicate 4 0%Z)
    (mkRdv None 0 None) (mkNotify false None) [].

Lemma ep_auth_reach : reachable ep_auth.
Proof.
  eapply (R_op (run_install (IUntyped 100 1) (cspace_new 4)).2 (ORetype 0 Endpoint 1 1 1));
    [|split; u_bounds|u_bounds|apply surjective_pairing].
  eapply (R_install (cspace_new 4) (IUntyped 100 1));
    [apply R_new|split_and!; [u_bounds|u_bounds|vm_compute; congruence]
    |eexists; split; vm_compute; reflexivity|u_bounds|apply surjective_pairing].
Qed.

Lemma granted_reach r b :
  in_u 32 r → in_u 64 b → reachable (grant 1 2 r b GMint (ep_auth, cspace_new 16)).2.2.
Proof.
  intros Hr Hb. destruct (grant 1 2 r b GMint (ep_auth, cspace_new 16)) as [o [s' d']] eqn:E.
  exact (R_grant_dst _ _ _ _ _ _ _ _ _ _ ep_auth_reach (R_new 16) Hr Hb E).
Qed.

Lemma demo_user_ok : user_ok demo_user.
Proof.
  assert (wf client_cs) as Wc by (apply reachable_inv, granted_reach; u_bounds).
  assert (wf server_cs) as Ws by (apply reachable_inv, granted_reach; u_bounds).
  split; [done| |done]. intros [|[|[|[|id]]]] cs [= <-]; done.
Qed.

Lemma turn_contained_witness : ∃ o u', take_turn 0 (TSyscall (mkInvocation 2 ENDPOINT_CALL [5; 0; 0; 0]%Z)) demo_user = (Ok o, u')
  ∧ others 0 demo_user u'.
Proof.
  pose proof (turn_contained demo_user 0 client_cs (TSyscall (mkInvocation 2 ENDPOINT_CALL [5; 0; 0; 0]%Z))
    demo_user_ok eq_refl eq_refl) as H.
  destruct (take_turn _ _ _) as [[o|e|] u']; [|destruct H|destruct H].
  exists o, u'. split; [reflexivity|]. exact (proj1 (proj2 H)).
Defined.

Lemma refused_is_killed_witness : ∃ u', syscall (Some 0) (invocation_new 2 ENDPOINT_RECV) demo_user = (Ok Retired, u').
Proof.
  eexists. apply (refused_is_killed demo_user 0 client_cs (invocation_new 2 ENDPOINT_RECV) InsufficientRights);
    [apply demo_user_ok|reflexivity|vm_compute; congruence|vm_compute; reflexivity].
Defined.

Lemma call_reply_roundtrip_witness : ∃ u1 u2 u3 u4,
  syscall (Some 0) (mkInvocation 2 ENDPOINT_CALL [5; 0; 0; 0]%Z) demo_user = (Ok Blocked, u1) ∧
  syscall (Some 2) (mkInvocation 2 ENDPOINT_RECV [0; 0; 0; 0]%Z) u1 = (Ok (Returned 5%Z), u2) ∧
  syscall (Some 2) (mkInvocation 3 ENDPOINT_REPLY [6; 0; 0; 0]%Z) u2 = (Ok (Returned 0%Z), u3) ∧
  call_turn u3 = (Ok (Returned 6%Z), u4).
Proof.
  destruct (call_reply_roundtrip demo_user 0 2 client_cs server_cs 2 2 5 6 [0; 0; 0]%Z [0; 0; 0; 0]%Z [0; 0; 0]%Z 7 9 0)
    as (u1 & u2 & u3 & u4 & cs2 & cs3 & H1 & _ & H2 & _ & _ & _ & H3 & H4 & _);
    [apply demo_user_ok|congruence|reflexivity|reflexivity|reflexivity|vm_compute; reflexivity
    |vm_compute; reflexivity|eexists; split; vm_compute; reflexivity|].
  exists u1, u2, u3, u4. split; [exact H1|]. split; [exact H2|]. split; [exact H3|exact H4].
Defined.

(** With a second client the single slot misdelivers: client 0 calls, the server
    receives and holds a [Reply] that names client 0, client 1 calls, and the
    server's reply is returned to client 1 if it polls first, while client 0
    stays blocked. *)
Lemma reply_misdelivered :
  let u1 := (syscall (Some 0) (mkInvocation 2 ENDPOINT_CALL [5; 0; 0; 0]%Z) demo_user).2 in
  let u2 := (syscall (Some 2) (mkInvocation 2 ENDPOINT_RECV [0; 0; 0; 0]%Z) u1).2 in
  let u3 := (syscall (Some 1) (mkInvocation 2 ENDPOINT_CALL [8; 0; 0; 0]%Z) u2).2 in
  let u4 := (syscall (Some 2) (mkInvocation 3 ENDPOINT_REPLY [6; 0; 0; 0]%Z) u3).2 in
  (∃ cs r, PROC_CSPACES u3 !! 2 = Some (Some cs) ∧ resolve cs REPLY_SLOT = Ok r ∧ objref r = 0%Z) ∧
  (take_turn 1 TCall u4).1 = Ok (Returned 6%Z) ∧
  (take_turn 0 TCall (take_turn 1 TCall u4).2).1 = Ok Blocked.
Proof. split_and!; [eexists _, _; split_and!|..]; vm_compute; reflexivity. Qed.
