(* ===== verification/Handoff.v ===== *)
(** * The boot handoff ([kernel/src/boot/handoff.rs], [kernel/src/boot/mod.rs])

    The boot loader leaves a [WardenBootInfo] in memory and passes its address.
    The structures are [#[repr(C)]]: [ctype] describes a layout, [size_of],
    [align_of] and [offset_of] compute it by the rules of C, and a field is read
    at its computed offset.  The memory behind the pointer is a function from
    addresses to bytes, of which nothing is assumed.  What [kprintln!] prints is
    the state of [validate_and_dump], line by line; [arch::halt] is an [Err]. *)

From stdpp Require Import strings.
From S2P Require Import Prelude.

(** ** Layouts *)

Inductive ctype :=
| U8
| U32
| U64
| U8s (n : nat)                              (* [u8; n] *)
| Struct (fields : list (string * ctype)).

Definition round_up (n a : nat) : nat := (n + a - 1) / a * a.

Fixpoint align_of (t : ctype) : nat :=
  match t with
  | U8 | U8s _ => 1
  | U32 => 4
  | U64 => 8
  | Struct fs => foldr (λ f a, Nat.max (align_of f.2) a) 1 fs
  end.

Fixpoint size_of (t : ctype) : nat :=
  match t with
  | U8 => 1
  | U32 => 4
  | U64 => 8
  | U8s n => n
  | Struct fs => round_up (foldl (λ off f, round_up off (align_of f.2) + size_of f.2) 0 fs) (align_of t)
  end.

Fixpoint offset_from (off : nat) (fs : list (string * ctype)) (name : string) : option nat :=
  match fs with
  | [] => None
  | (n, t) :: fs' =>
      let here := round_up off (align_of t) in
      if String.eqb n name then Some here else offset_from (here + size_of t) fs' name
  end.

Definition offset_of (t : ctype) (name : string) : nat :=
  match t with
  | Struct fs => default 0 (offset_from 0 fs name)
  | _ => 0
  end.

(** ** The structures *)

Definition WARDEN_MAGIC : Z := 0x57415244454E0001.
Definition WARDEN_ABI_VERSION : Z := 1.

Record PhysStr := mkStr { ptr : Z; len : Z }.
Definition PhysStr_t : ctype := Struct [("ptr", U64); ("len", U64)]%string.
Definition PhysStr_EMPTY : PhysStr := mkStr 0 0.

Record OptRange := mkOptRange { or_present : Z; or_pad : bytes; or_base : Z; or_len : Z }.
Definition OptRange_t : ctype := Struct [("present", U8); ("_pad", U8s 7); ("base", U64); ("len", U64)]%string.
Definition OptRange_NONE : OptRange := mkOptRange 0 (replicate 7 0%Z) 0 0.

(** [MemoryKind] is a transparent [u32]: every value is defined. *)
Definition USABLE : Z := 0.
Definition RESERVED : Z := 1.
Definition ACPI_RECLAIMABLE : Z := 2.
Definition ACPI_NVS : Z := 3.
Definition MMIO : Z := 4.
Definition BOOTLOADER_RECLAIMABLE : Z := 5.
Definition KERNEL_AND_MODULES : Z := 6.
Definition FRAMEBUFFER : Z := 7.
Definition BAD_MEMORY : Z := 8.

Record MemRegion := mkRegion {
  rbase : Z;    (* u64 *)
  rpages : Z;   (* u64 *)
  rkind : Z;    (* u32 *)
  rpad : Z      (* u32 *)
}.
Definition MemRegion_t : ctype := Struct [("base", U64); ("pages", U64); ("kind", U32); ("_pad", U32)]%string.

Record MemMap := mkMap { mm_regions : Z; mm_count : Z }.
Definition MemMap_t : ctype := Struct [("regions", U64); ("count", U64)]%string.

Record BootModule := mkModule { mod_name : PhysStr; mod_base : Z; mod_pages : Z }.   (* Module *)
Definition Module_t : ctype := Struct [("name", PhysStr_t); ("base", U64); ("pages", U64)]%string.

Record ModuleList := mkModules { ml_modules : Z; ml_count : Z }.
Definition ModuleList_t : ctype := Struct [("modules", U64); ("count", U64)]%string.

(** [PixelFormat] is a transparent [u32] too. *)
Definition BGRX8 : Z := 0.
Definition RGBX8 : Z := 1.
Definition PIXEL_OTHER : Z := 0xFFFFFFFF.

Record OptFb := mkFb {
  fb_present : Z;  (* u8 *)
  fb_pad : bytes;
  fb_base : Z;
  fb_pitch : Z;
  fb_width : Z;    (* u32 *)
  fb_height : Z;   (* u32 *)
  fb_bpp : Z;      (* u32 *)
  fb_format : Z    (* u32 *)
}.
Definition OptFb_t : ctype := Struct [("present", U8); ("_pad", U8s 7); ("base", U64); ("pitch", U64);
  ("width", U32); ("height", U32); ("bpp", U32); ("format", U32)]%string.
Definition OptFb_NONE : OptFb := mkFb 0 (replicate 7 0%Z) 0 0 0 0 0 PIXEL_OTHER.

Record WardenBootInfo := mkBootInfo {
  magic : Z;
  abi_version : Z;   (* u32 *)
  bi_pad : Z;        (* u32 *)
  memmap : MemMap;
  framebuffer : OptFb;
  modules : ModuleList;
  hhdm : Z;          (* hhdm_offset *)
  rsdp : Z;
  tpm_event_log : OptRange;
  cmdline : PhysStr
}.
Definition WardenBootInfo_t : ctype := Struct [("magic", U64); ("abi_version", U32); ("_pad", U32); ("memmap", MemMap_t);
  ("framebuffer", OptFb_t); ("modules", ModuleList_t); ("hhdm_offset", U64); ("rsdp", U64);
  ("tpm_event_log", OptRange_t); ("cmdline", PhysStr_t)]%string.

Definition is_valid (bi : WardenBootInfo) : bool :=
  (magic bi =? WARDEN_MAGIC)%Z && (abi_version bi =? WARDEN_ABI_VERSION)%Z.

(** The constants [NONE] and [EMPTY] of the lists. *)
Definition MemMap_EMPTY : MemMap := mkMap 0 0.
Definition ModuleList_EMPTY : ModuleList := mkModules 0 0.

(** The compile-time assertions at the end of [handoff.rs]: sizes, alignments
    and field offsets. *)
Definition sizes : list (ctype * nat) :=
  [(PhysStr_t, 16); (OptRange_t, 24); (MemRegion_t, 24); (MemMap_t, 16); (Module_t, 32); (ModuleList_t, 16);
   (OptFb_t, 40); (WardenBootInfo_t, 144)].
Definition alignments : list (ctype * nat) := [(WardenBootInfo_t, 8); (OptFb_t, 8); (MemRegion_t, 8)].
Definition offsets : list (ctype * string * nat) :=
  [(WardenBootInfo_t, "magic", 0); (WardenBootInfo_t, "abi_version", 8); (WardenBootInfo_t, "_pad", 12);
   (WardenBootInfo_t, "memmap", 16); (WardenBootInfo_t, "framebuffer", 32); (WardenBootInfo_t, "modules", 72);
   (WardenBootInfo_t, "hhdm_offset", 88); (WardenBootInfo_t, "rsdp", 96); (WardenBootInfo_t, "tpm_event_log", 104);
   (WardenBootInfo_t, "cmdline", 128);
   (MemMap_t, "regions", 0); (MemMap_t, "count", 8); (MemRegion_t, "base", 0); (MemRegion_t, "pages", 8);
   (MemRegion_t, "kind", 16); (PhysStr_t, "ptr", 0); (PhysStr_t, "len", 8); (OptRange_t, "base", 8);
   (OptRange_t, "len", 16); (OptFb_t, "base", 8); (OptFb_t, "pitch", 16); (OptFb_t, "width", 24);
   (OptFb_t, "height", 28); (OptFb_t, "bpp", 32); (OptFb_t, "format", 36); (Module_t, "base", 16);
   (Module_t, "pages", 24); (OptRange_t, "present", 0); (OptRange_t, "_pad", 1); (OptFb_t, "present", 0);
   (OptFb_t, "_pad", 1); (ModuleList_t, "modules", 0); (ModuleList_t, "count", 8); (Module_t, "name", 0);
   (MemRegion_t, "_pad", 20)]%string.
Definition tripwire : bool :=
  forallb (λ x, size_of x.1 =? x.2) sizes && forallb (λ x, align_of x.1 =? x.2) alignments &&
  forallb (λ x, offset_of x.1.1 x.1.2 =? x.2) offsets.

(** ** Validation and the dump *)

(** The two caps of [boot/mod.rs]. *)
Definition BOOT_MAX_REGIONS : Z := 1024.
Definition MAX_DUMP_ROWS : Z := 32.
Definition BOOT_PAGE_SIZE : Z := 4096.

Inductive Line :=
| LNull
| LMisaligned
| LMagic (magic abi : Z)
| LBadHandoff (want_magic want_abi : Z)
| LContractOk
| LHhdm (hhdm rsdp : Z)
| LFramebuffer (width height bpp pitch base : Z)
| LNoFramebuffer
| LRegions (count : Z)
| LEmptyMap
| LTruncating (count cap : Z)
| LMisalignedArray
| LRow (i base pages : Z) (kind : string)
| LMore (n : Z)
| LUsable (pages mib : Z).

Inductive Halt := NullPointer | MisalignedPointer | BadHandoff | MisalignedArray.

Abbreviation DM := (M (list Line) Halt).
Definition kprintln (l : Line) : DM unit := modify (λ out, out ++ [l]).

Definition kind_name (k : Z) : string :=
  if (k =? 0)%Z then "USABLE" else if (k =? 1)%Z then "RESERVED" else if (k =? 2)%Z then "ACPI_RECLAIM"
  else if (k =? 3)%Z then "ACPI_NVS" else if (k =? 4)%Z then "MMIO" else if (k =? 5)%Z then "BOOT_RECLAIM"
  else if (k =? 6)%Z then "KERNEL+MODULES" else if (k =? 7)%Z then "FRAMEBUFFER" else if (k =? 8)%Z then "BAD_MEMORY"
  else "UNKNOWN".

Section memory.
Variable byte_at : Z → Z.

(** Little-endian loads. *)
Definition load_bytes (n : nat) (a : Z) : bytes := (λ i, byte_at (a + Z.of_nat i)) <$> seq 0 n.
Definition load (n : nat) (a : Z) : Z := from_le (load_bytes n a).
Definition field (t : ctype) (name : string) (a : Z) : Z := (a + Z.of_nat (offset_of t name))%Z.

Definition read_str (a : Z) : PhysStr := mkStr (load 8 (field PhysStr_t "ptr" a)) (load 8 (field PhysStr_t "len" a)).
Definition read_range (a : Z) : OptRange :=
  mkOptRange (load 1 (field OptRange_t "present" a)) (load_bytes 7 (field OptRange_t "_pad" a))
    (load 8 (field OptRange_t "base" a)) (load 8 (field OptRange_t "len" a)).
Definition read_region (a : Z) : MemRegion :=
  mkRegion (load 8 (field MemRegion_t "base" a)) (load 8 (field MemRegion_t "pages" a))
    (load 4 (field MemRegion_t "kind" a)) (load 4 (field MemRegion_t "_pad" a)).
Definition read_map (a : Z) : MemMap := mkMap (load 8 (field MemMap_t "regions" a)) (load 8 (field MemMap_t "count" a)).
Definition read_modules (a : Z) : ModuleList :=
  mkModules (load 8 (field ModuleList_t "modules" a)) (load 8 (field ModuleList_t "count" a)).
Definition read_fb (a : Z) : OptFb :=
  mkFb (load 1 (field OptFb_t "present" a)) (load_bytes 7 (field OptFb_t "_pad" a))
    (load 8 (field OptFb_t "base" a)) (load 8 (field OptFb_t "pitch" a)) (load 4 (field OptFb_t "width" a))
    (load 4 (field OptFb_t "height" a)) (load 4 (field OptFb_t "bpp" a)) (load 4 (field OptFb_t "format" a)).

(** The dereference of the boot pointer. *)
Definition read_bootinfo (a : Z) : WardenBootInfo :=
  mkBootInfo (load 8 (field WardenBootInfo_t "magic" a)) (load 4 (field WardenBootInfo_t "abi_version" a))
    (load 4 (field WardenBootInfo_t "_pad" a)) (read_map (field WardenBootInfo_t "memmap" a))
    (read_fb (field WardenBootInfo_t "framebuffer" a)) (read_modules (field WardenBootInfo_t "modules" a))
    (load 8 (field WardenBootInfo_t "hhdm_offset" a)) (load 8 (field WardenBootInfo_t "rsdp" a))
    (read_range (field WardenBootInfo_t "tpm_event_log" a)) (read_str (field WardenBootInfo_t "cmdline" a)).

(** [&*base_virt.add(i)] *)
Definition region_at (base_virt : Z) (i : nat) : MemRegion :=
  read_region (base_virt + Z.of_nat (i * size_of MemRegion_t)).

Definition dump_framebuffer (bi : WardenBootInfo) : DM unit :=
  let fb := framebuffer bi in
  if negb (fb_present fb =? 0)%Z then
    kprintln (LFramebuffer (fb_width fb) (fb_height fb) (fb_bpp fb) (fb_pitch fb) (fb_base fb))
  else kprintln LNoFramebuffer.

(** The loop over the regions; [n] turns are left. *)
Fixpoint dump_rows (base_virt walk : Z) (n i : nat) (usable_pages : Z) : DM Z :=
  match n with
  | O => mret usable_pages
  | S n' =>
      let r := region_at base_virt i in
      let usable_pages := if (rkind r =? USABLE)%Z then sat_add 64 usable_pages (rpages r) else usable_pages in
      (if (Z.of_nat i <? MAX_DUMP_ROWS)%Z then
         kprintln (LRow (Z.of_nat i) (rbase r) (rpages r) (kind_name (rkind r)))
       else if (Z.of_nat i =? MAX_DUMP_ROWS)%Z then
         more ← lift (arith 64 (walk - MAX_DUMP_ROWS));
         kprintln (LMore more)
       else mret ());;
      dump_rows base_virt walk n' (i + 1) usable_pages
  end.

Definition dump_memmap (bi : WardenBootInfo) : DM unit :=
  let count := mm_count (memmap bi) in
  kprintln (LRegions count);;
  if (mm_regions (memmap bi) =? 0)%Z || (count =? 0)%Z then kprintln LEmptyMap else
  walk ← (if (BOOT_MAX_REGIONS <? count)%Z then
            kprintln (LTruncating count BOOT_MAX_REGIONS);; mret BOOT_MAX_REGIONS
          else mret count);
  let base_virt := wrap 64 (mm_regions (memmap bi) + hhdm bi) in
  if negb (Z.land base_virt (Z.of_nat (align_of MemRegion_t) - 1) =? 0)%Z then
    kprintln LMisalignedArray;; throw MisalignedArray
  else
    usable_pages ← dump_rows base_virt walk (Z.to_nat walk) 0 0;
    let nbytes := Z.min (2 ^ 64 - 1) (usable_pages * BOOT_PAGE_SIZE) in
    kprintln (LUsable usable_pages (nbytes / (1024 * 1024))).

Definition validate_and_dump (bootinfo : Z) : DM WardenBootInfo :=
  if (bootinfo =? 0)%Z then kprintln LNull;; throw NullPointer else
  if negb (Z.land bootinfo (Z.of_nat (align_of WardenBootInfo_t) - 1) =? 0)%Z then
    kprintln LMisaligned;; throw MisalignedPointer else
  let bi := read_bootinfo bootinfo in
  kprintln (LMagic (magic bi) (abi_version bi));;
  if negb (is_valid bi) then
    kprintln (LBadHandoff WARDEN_MAGIC WARDEN_ABI_VERSION);; throw BadHandoff else
  kprintln LContractOk;;
  kprintln (LHhdm (hhdm bi) (rsdp bi));;
  dump_framebuffer bi;;
  dump_memmap bi;;
  mret bi.
End memory.
