(* ===== verification/HandoffProps.v ===== *)
(** * The boot handoff: round trips and the walk over the regions

    [image] writes the frozen layout out byte by byte, without the computed
    offsets.  [Coder] pairs the image of a structure with the reader of the
    kernel; its law says that reading a memory that holds the image gives the
    structure back.  The instances are composed as the structures are. *)

From stdpp Require Import strings.
From S2P Require Import Prelude Handoff.

(** The bytes [l] are in memory at [a]. *)
Definition holds (byte_at : Z → Z) (a : Z) (l : bytes) : Prop :=
  ∀ i x, l !! i = Some x → byte_at (a + Z.of_nat i)%Z = x.

Lemma holds_app byte_at a l k :
  holds byte_at a (l ++ k) ↔ holds byte_at a l ∧ holds byte_at (a + Z.of_nat (length l))%Z k.
Proof.
  split.
  - intros H. split; intros i x Hi.
    + apply H. by apply lookup_app_l_Some.
    + rewrite <- (H (length l + i) x); [f_equal; lia|]. rewrite lookup_app_r by lia. by replace (length l + i - length l) with i by lia.
  - intros [H1 H2] i x [Hi|[Hl Hi]]%lookup_app_Some; [by apply H1|]. rewrite <- (H2 _ _ Hi). f_equal. lia.
Qed.

Lemma load_bytes_holds byte_at a l n : holds byte_at a l → length l = n → load_bytes byte_at n a = l.
Proof.
  intros H <-. apply list_eq. intros i. unfold load_bytes. rewrite list_lookup_fmap.
  destruct (decide (i < length l)) as [Hi|Hi].
  - rewrite lookup_seq_lt by done. destruct (lookup_lt_is_Some_2 l i Hi) as [x Hx]. rewrite Hx. cbn. f_equal. by apply H.
  - rewrite lookup_seq_ge, lookup_ge_None_2 by lia. done.
Qed.

Lemma load_holds byte_at a n v : holds byte_at a (to_le n v) → (0 <= v < 256 ^ Z.of_nat n)%Z → load byte_at n a = v.
Proof.
  intros H Hv. unfold load. rewrite (load_bytes_holds byte_at a (to_le n v)); [by apply from_to_le|done|apply to_le_length].
Qed.

Lemma load_bound byte_at n a : (∀ x, 0 <= byte_at x < 256)%Z → (0 <= load byte_at n a < 256 ^ Z.of_nat n)%Z.
Proof.
  intros H. unfold load. assert (length (load_bytes byte_at n a) = n) as E by (unfold load_bytes; by rewrite length_fmap, length_seq).
  rewrite <- E at 3. apply from_le_bound. apply Forall_forall. intros x (i & -> & _)%list_elem_of_fmap. apply H.
Qed.

(** ** Coders *)

Class Coder (A : Type) (t : ctype) := {
  image : A → bytes;
  reader : (Z → Z) → Z → A;
  wf : A → Prop;
  image_size x : wf x → length (image x) = size_of t;
  image_read byte_at a x : wf x → holds byte_at a (image x) → reader byte_at a = x
}.
#[local] Hint Mode Coder ! - : typeclass_instances.

(** Cut a memory that holds a concatenation into the parts at their offsets. *)
Ltac cut_image H :=
  repeat rewrite holds_app in H; repeat rewrite length_app in H; repeat rewrite to_le_length in H;
  destruct_and? H.

(** A field of the image is where the computed layout says. *)
Lemma holds_at byte_at a b l : holds byte_at a l → a = b → holds byte_at b l.
Proof. by intros H <-. Qed.

Ltac read_field :=
  lazymatch goal with
  | |- load _ _ (field ?t ?n ?a) = _ => apply load_holds; [eapply holds_at; [eassumption|unfold field; vm_compute offset_of; lia]|assumption]
  | |- load_bytes _ _ (field ?t ?n ?a) = _ => apply load_bytes_holds; [eapply holds_at; [eassumption|unfold field; vm_compute offset_of; lia]|assumption]
  end.

Definition str_ok (x : PhysStr) : Prop := in_u 64 (ptr x) ∧ in_u 64 (len x).
#[export, refine] Instance str_coder : Coder PhysStr PhysStr_t := {|
  image x := to_le 8 (ptr x) ++ to_le 8 (len x);
  reader := read_str;
  wf := str_ok
|}.
Proof.
  - intros x _. by rewrite length_app, !to_le_length.
  - intros byte_at a [p l] [H1 H2] H. cut_image H. unfold read_str. f_equal; read_field.
Defined.

Definition opt_range_ok (x : OptRange) : Prop :=
  in_u 8 (or_present x) ∧ length (or_pad x) = 7 ∧ in_u 64 (or_base x) ∧ in_u 64 (or_len x).
#[export, refine] Instance range_coder : Coder OptRange OptRange_t := {|
  image x := to_le 1 (or_present x) ++ or_pad x ++ to_le 8 (or_base x) ++ to_le 8 (or_len x);
  reader := read_range;
  wf := opt_range_ok
|}.
Proof.
  - intros x (_ & H & _). by rewrite !length_app, !to_le_length, H.
  - intros byte_at a [p q b l] (H1 & H2 & H3 & H4) H. cbn [or_present or_pad or_base or_len] in *. cut_image H.
    unfold read_range. f_equal; read_field.
Defined.

Definition region_wf (x : MemRegion) : Prop := in_u 64 (rbase x) ∧ in_u 64 (rpages x) ∧ in_u 32 (rkind x) ∧ in_u 32 (rpad x).
#[export, refine] Instance region_coder : Coder MemRegion MemRegion_t := {|
  image x := to_le 8 (rbase x) ++ to_le 8 (rpages x) ++ to_le 4 (rkind x) ++ to_le 4 (rpad x);
  reader := read_region;
  wf := region_wf
|}.
Proof.
  - intros x _. by rewrite !length_app, !to_le_length.
  - intros byte_at a [b p k q] (H1 & H2 & H3 & H4) H. cbn [rbase rpages rkind rpad] in *. cut_image H.
    unfold read_region. f_equal; read_field.
Defined.

Definition map_wf (x : MemMap) : Prop := in_u 64 (mm_regions x) ∧ in_u 64 (mm_count x).
#[export, refine] Instance map_coder : Coder MemMap MemMap_t := {|
  image x := to_le 8 (mm_regions x) ++ to_le 8 (mm_count x);
  reader := read_map;
  wf := map_wf
|}.
Proof.
  - intros x _. by rewrite length_app, !to_le_length.
  - intros byte_at a [p l] [H1 H2] H. cbn [mm_regions mm_count] in *. cut_image H. unfold read_map. f_equal; read_field.
Defined.

Definition modules_wf (x : ModuleList) : Prop := in_u 64 (ml_modules x) ∧ in_u 64 (ml_count x).
#[export, refine] Instance modules_coder : Coder ModuleList ModuleList_t := {|
  image x := to_le 8 (ml_modules x) ++ to_le 8 (ml_count x);
  reader := read_modules;
  wf := modules_wf
|}.
Proof.
  - intros x _. by rewrite length_app, !to_le_length.
  - intros byte_at a [p l] [H1 H2] H. cbn [ml_modules ml_count] in *. cut_image H. unfold read_modules. f_equal; read_field.
Defined.

Definition fb_ok (x : OptFb) : Prop :=
  in_u 8 (fb_present x) ∧ length (fb_pad x) = 7 ∧ in_u 64 (fb_base x) ∧ in_u 64 (fb_pitch x) ∧
  in_u 32 (fb_width x) ∧ in_u 32 (fb_height x) ∧ in_u 32 (fb_bpp x) ∧ in_u 32 (fb_format x).
#[export, refine] Instance fb_coder : Coder OptFb OptFb_t := {|
  image x := to_le 1 (fb_present x) ++ fb_pad x ++ to_le 8 (fb_base x) ++ to_le 8 (fb_pitch x) ++
    to_le 4 (fb_width x) ++ to_le 4 (fb_height x) ++ to_le 4 (fb_bpp x) ++ to_le 4 (fb_format x);
  reader := read_fb;
  wf := fb_ok
|}.
Proof.
  - intros x (_ & H & _). by rewrite !length_app, !to_le_length, H.
  - intros byte_at a [p q b pi w h bp f] (H1 & H2 & H3 & H4 & H5 & H6 & H7 & H8) H.
    cbn [fb_present fb_pad fb_base fb_pitch fb_width fb_height fb_bpp fb_format] in *. cut_image H.
    unfold read_fb. f_equal; read_field.
Defined.

Definition info_ok (x : WardenBootInfo) : Prop :=
  in_u 64 (magic x) ∧ in_u 32 (abi_version x) ∧ in_u 32 (bi_pad x) ∧ wf (memmap x) ∧ wf (framebuffer x) ∧
  wf (modules x) ∧ in_u 64 (hhdm x) ∧ in_u 64 (rsdp x) ∧ wf (tpm_event_log x) ∧ wf (cmdline x).
#[export, refine] Instance info_coder : Coder WardenBootInfo WardenBootInfo_t := {|
  image x := to_le 8 (magic x) ++ to_le 4 (abi_version x) ++ to_le 4 (bi_pad x) ++ image (memmap x) ++
    image (framebuffer x) ++ image (modules x) ++ to_le 8 (hhdm x) ++ to_le 8 (rsdp x) ++
    image (tpm_event_log x) ++ image (cmdline x);
  reader := read_bootinfo;
  wf := info_ok
|}.
Proof.
  - intros x (_ & _ & _ & H1 & H2 & H3 & _ & _ & H4 & H5).
    by rewrite !length_app, !to_le_length, !image_size.
  - intros byte_at a [m v p mm fb ml h r t c] (H1 & H2 & H3 & H4 & H5 & H6 & H7 & H8 & H9 & H10) H.
    cbn [magic abi_version bi_pad memmap framebuffer modules hhdm rsdp tpm_event_log cmdline] in *.
    repeat rewrite holds_app in H. rewrite !to_le_length, !image_size in H by done.
    change (size_of MemMap_t) with 16 in H. change (size_of OptFb_t) with 40 in H.
    change (size_of ModuleList_t) with 16 in H. change (size_of OptRange_t) with 24 in H. destruct_and? H.
    unfold read_bootinfo. f_equal; try read_field.
    all: [> apply (image_read (Coder := map_coder)) | apply (image_read (Coder := fb_coder))
          | apply (image_read (Coder := modules_coder)) | apply (image_read (Coder := range_coder))
          | apply (image_read (Coder := str_coder))]; try done.
    all: eapply holds_at; [eassumption|unfold field; vm_compute offset_of; lia].
Defined.

(** ** The walk *)

Section walk.
Variable byte_at : Z → Z.
Hypothesis is_bytes : ∀ a, (0 <= byte_at a < 256)%Z.

(** The first [n] regions of the array at [a]. *)
Definition regions (a : Z) (n : nat) : list MemRegion := region_at byte_at a <$> seq 0 n.

Lemma region_at_wf a i : region_wf (region_at byte_at a i).
Proof using is_bytes.
  pose proof (load_bound byte_at 8) as L8. pose proof (load_bound byte_at 4) as L4. unfold region_at, read_region, region_wf, in_u.
  cbn [rbase rpages rkind rpad]. change (2 ^ 64)%Z with (256 ^ Z.of_nat 8)%Z. change (2 ^ 32)%Z with (256 ^ Z.of_nat 4)%Z. auto.
Qed.

Lemma regions_wf a n : Forall region_wf (regions a n).
Proof using is_bytes. apply Forall_forall. intros r (i & -> & _)%list_elem_of_fmap. apply region_at_wf. Qed.

(** The pages of the usable regions. *)
Definition usable_sum (rs : list MemRegion) : Z := sumZ (λ r, if (rkind r =? USABLE)%Z then rpages r else 0%Z) rs.

(** What is printed of [n] regions. *)
Definition row (a : Z) (i : nat) : Line :=
  let r := region_at byte_at a i in LRow (Z.of_nat i) (rbase r) (rpages r) (kind_name (rkind r)).
Definition rows (a : Z) (n : nat) : list Line :=
  (row a <$> seq 0 (n `min` 32)) ++ (if decide (32 < n) then [LMore (Z.of_nat n - 32)] else []).

Definition line_of (a walk : Z) (i : nat) : list Line :=
  if (Z.of_nat i <? MAX_DUMP_ROWS)%Z then [row a i]
  else if (Z.of_nat i =? MAX_DUMP_ROWS)%Z then [LMore (walk - MAX_DUMP_ROWS)] else [].

Lemma dump_rows_run a walk n i u out : (0 <= u < 2 ^ 64)%Z → walk = Z.of_nat (i + n) → (walk < 2 ^ 64)%Z →
  dump_rows byte_at a walk n i u out =
    (Ok (Z.min (2 ^ 64 - 1) (u + usable_sum (region_at byte_at a <$> seq i n))), out ++ concat (line_of a walk <$> seq i n)).
Proof using is_bytes.
  intros Hu Hw Hlt. revert i u out Hu Hw. induction n as [|n IH]; intros i u out Hu Hw.
  { cbn [dump_rows seq fmap list_fmap concat]. rewrite app_nil_r. unfold usable_sum. cbn [sumZ]. munfold. rewrite Z.add_0_r, Z.min_r by lia. done. }
  cbn [dump_rows seq fmap list_fmap concat]. set (r := region_at byte_at a i).
  destruct (region_at_wf a i) as (_ & [Hr _] & _). fold r in Hr. unfold usable_sum. cbn [sumZ].
  set (u' := if (rkind r =? USABLE)%Z then _ else _).
  assert (u' = Z.min (2 ^ 64 - 1) (u + (if (rkind r =? USABLE)%Z then rpages r else 0%Z))) as Eu.
  { unfold u'. destruct (rkind r =? USABLE)%Z; unfold sat_add; lia. }
  assert (0 <= u' < 2 ^ 64)%Z as Hu' by (rewrite Eu; destruct (rkind r =? USABLE)%Z; lia).
  assert (∀ l, (0 <= usable_sum (region_at byte_at a <$> l))%Z) as Hpos.
  { intros l. apply sumZ_nonneg. intros x (j & -> & _)%list_elem_of_fmap. destruct (region_at_wf a j) as (_ & [? _] & _).
    cbn beta. destruct (rkind (region_at byte_at a j) =? USABLE)%Z; lia. }
  specialize (Hpos (seq (S i) n)). fold (usable_sum (region_at byte_at a <$> seq (S i) n)).
  assert (∀ out', dump_rows byte_at a walk n (i + 1) u' out' = (Ok (Z.min (2 ^ 64 - 1) (u +
    ((if (rkind r =? USABLE)%Z then rpages r else 0%Z) + usable_sum (region_at byte_at a <$> seq (S i) n)))),
    out' ++ concat (line_of a walk <$> seq (S i) n))) as Hrest.
  { intros out'. rewrite IH by (done || lia). replace (i + 1) with (S i) by lia. do 2 f_equal.
    rewrite Eu. destruct (rkind r =? USABLE)%Z; lia. }
  unfold line_of at 1. fold r. unfold row. fold r. rewrite app_assoc. unfold kprintln. munfold.
  destruct (Z.ltb_spec (Z.of_nat i) MAX_DUMP_ROWS); [apply Hrest|].
  destruct (Z.eqb_spec (Z.of_nat i) MAX_DUMP_ROWS) as [Ei|_].
  - rewrite arith_in by (unfold in_u; lia). apply Hrest.
  - rewrite app_nil_r. apply Hrest.
Qed.

(** Nothing is printed of the regions after the first 33. *)
Lemma lines_rows a n : concat (line_of a (Z.of_nat n) <$> seq 0 n) = rows a n.
Proof using Type.
  unfold rows. replace n with (n `min` 32 + (n - 32)) at 2 by lia. rewrite seq_app, fmap_app, concat_app. f_equal.
  - assert (∀ l, (∀ i, i ∈ l → i < 32) → concat (line_of a (Z.of_nat n) <$> l) = row a <$> l) as Hl.
    { induction l as [|i l IH]; intros H; [done|]. cbn. rewrite IH by (intros; apply H; by right).
      unfold line_of. destruct (Z.ltb_spec (Z.of_nat i) MAX_DUMP_ROWS) as [|Hge]; [done|].
      assert (i < 32) by (apply H; left). unfold MAX_DUMP_ROWS in Hge. lia. }
    apply Hl. intros i Hi%elem_of_seq. lia.
  - assert (∀ l, (∀ i, i ∈ l → 32 < i) → concat (line_of a (Z.of_nat n) <$> l) = []) as Hl.
    { induction l as [|i l IH]; intros H; [done|]. cbn. rewrite IH by (intros; apply H; by right). assert (32 < i) by (apply H; left).
      unfold line_of, MAX_DUMP_ROWS. destruct (Z.ltb_spec (Z.of_nat i) 32), (Z.eqb_spec (Z.of_nat i) 32); (done || lia). }
    case_decide as Hn; [|by replace (n - 32) with 0 by lia].
    replace (n - 32) with (S (n - 33)) by lia. replace (n `min` 32) with 32 by lia. cbn [seq fmap list_fmap concat Nat.add].
    rewrite Hl; [done|]. intros i Hi%elem_of_seq. lia.
Qed.
End walk.

(** ** Validation *)

(** Why the handoff at [p] is refused. *)
Definition refusal (byte_at : Z → Z) (p : Z) : option Halt :=
  let bi := read_bootinfo byte_at p in
  if decide (p = 0)%Z then Some NullPointer
  else if decide (p mod 8 ≠ 0)%Z then Some MisalignedPointer
  else if decide (magic bi ≠ WARDEN_MAGIC ∨ abi_version bi ≠ WARDEN_ABI_VERSION) then Some BadHandoff
  else if decide (mm_regions (memmap bi) ≠ 0 ∧ mm_count (memmap bi) ≠ 0 ∧ (mm_regions (memmap bi) + hhdm bi) mod 8 ≠ 0)%Z
  then Some MisalignedArray
  else None.

(** How many regions are walked, and where. *)
Definition walked (bi : WardenBootInfo) : nat := Z.to_nat (Z.min (mm_count (memmap bi)) 1024).
Definition array_at (bi : WardenBootInfo) : Z := wrap 64 (mm_regions (memmap bi) + hhdm bi).

(** What is printed of the map. *)
Definition map_report (byte_at : Z → Z) (bi : WardenBootInfo) : list Line :=
  let count := mm_count (memmap bi) in
  let total := Z.min (2 ^ 64 - 1) (usable_sum (regions byte_at (array_at bi) (walked bi))) in
  if decide (mm_regions (memmap bi) = 0 ∨ count = 0)%Z then [LRegions count; LEmptyMap]
  else LRegions count :: (if decide (1024 < count)%Z then [LTruncating count 1024] else []) ++
    rows byte_at (array_at bi) (walked bi) ++ [LUsable total (Z.min (2 ^ 64 - 1) (total * 4096) / 2 ^ 20)].

Lemma one_zero (a b c : Z) : ¬ (a ≠ 0 ∧ b ≠ 0 ∧ c ≠ 0)%Z → (a = 0 ∨ b = 0 ∨ c = 0)%Z.
Proof. lia. Qed.

Lemma land_7 x : Z.land x 7 = (x mod 8)%Z.
Proof. change 7%Z with (Z.ones 3). by rewrite Z.land_ones by lia. Qed.

Lemma wrap_mod_8 x : (wrap 64 x mod 8 = x mod 8)%Z.
Proof. unfold wrap. apply Z.mod_mod_divide. by exists (2 ^ 61)%Z. Qed.

Section validate.
Variable byte_at : Z → Z.
Hypothesis is_bytes : ∀ a, (0 <= byte_at a < 256)%Z.

Lemma info_bounds p : let bi := read_bootinfo byte_at p in
  in_u 64 (mm_regions (memmap bi)) ∧ in_u 64 (mm_count (memmap bi)) ∧ in_u 64 (hhdm bi).
Proof using is_bytes.
  pose proof (load_bound byte_at 8) as L8. unfold in_u. change (2 ^ 64)%Z with (256 ^ Z.of_nat 8)%Z.
  unfold read_bootinfo, read_map. cbn [memmap mm_regions mm_count hhdm]. auto.
Qed.

Lemma dump_memmap_run bi out : in_u 64 (mm_count (memmap bi)) →
  (mm_regions (memmap bi) = 0 ∨ mm_count (memmap bi) = 0 ∨ (mm_regions (memmap bi) + hhdm bi) mod 8 = 0)%Z →
  dump_memmap byte_at bi out = (Ok (), out ++ map_report byte_at bi).
Proof using is_bytes.
  intros Hc Hal. unfold dump_memmap, map_report, kprintln. cbv zeta. set (count := mm_count (memmap bi)) in *.
  rewrite (bind_run _ _ _ () (out ++ [LRegions count])) by done.
  destruct (Z.eqb_spec (mm_regions (memmap bi)) 0) as [E|N1]; cbn [orb].
  { rewrite decide_True by (by left). unfold modify. by rewrite <- app_assoc. }
  destruct (Z.eqb_spec count 0) as [E|N2].
  { rewrite decide_True by (by right). unfold modify. by rewrite <- app_assoc. }
  rewrite decide_False by (by intros [?|?]). set (tr := if decide (1024 < count)%Z then [LTruncating count 1024] else []).
  assert (Z.of_nat (walked bi) = Z.min count 1024) as Hw by (unfold walked, in_u in *; fold count; lia).
  rewrite (bind_run _ _ _ (Z.min count 1024) ((out ++ [LRegions count]) ++ tr)); last first.
  { unfold tr, BOOT_MAX_REGIONS. munfold. destruct (Z.ltb_spec 1024 count).
    - rewrite decide_True by done. by rewrite Z.min_r by lia.
    - rewrite decide_False by lia. by rewrite app_nil_r, Z.min_l by lia. }
  fold (array_at bi). change (Z.of_nat (align_of MemRegion_t) - 1)%Z with 7%Z. rewrite land_7. unfold array_at at 1. rewrite wrap_mod_8.
  destruct Hal as [?|[?|Hal]]; [done|done|]. rewrite Hal. cbn [Z.eqb negb].
  rewrite (bind_run _ _ _ _ _ (dump_rows_run byte_at is_bytes (array_at bi) (Z.min count 1024) (Z.to_nat (Z.min count 1024)) 0 0 _
    ltac:(lia) ltac:(unfold in_u in Hc; lia) ltac:(lia))).
  unfold modify. rewrite Z.add_0_l, <- Hw, Nat2Z.id, lines_rows. fold (regions byte_at (array_at bi) (walked bi)).
  rewrite <- !app_assoc. reflexivity.
Qed.

(** What is printed of the rest of an acceptable handoff. *)
Definition fb_line (fb : OptFb) : Line :=
  if decide (fb_present fb = 0)%Z then LNoFramebuffer
  else LFramebuffer (fb_width fb) (fb_height fb) (fb_bpp fb) (fb_pitch fb) (fb_base fb).
Definition header (bi : WardenBootInfo) : list Line :=
  [LMagic (magic bi) (abi_version bi); LContractOk; LHhdm (hhdm bi) (rsdp bi); fb_line (framebuffer bi)].

(** The checks in order, up to the region array. *)
Lemma validate_eq p out : let bi := read_bootinfo byte_at p in
  validate_and_dump byte_at p out =
    if decide (p = 0)%Z then (Err NullPointer, out ++ [LNull])
    else if decide (p mod 8 ≠ 0)%Z then (Err MisalignedPointer, out ++ [LMisaligned])
    else if decide (magic bi ≠ WARDEN_MAGIC ∨ abi_version bi ≠ WARDEN_ABI_VERSION)
    then (Err BadHandoff, out ++ [LMagic (magic bi) (abi_version bi); LBadHandoff WARDEN_MAGIC WARDEN_ABI_VERSION])
    else (dump_memmap byte_at bi;; mret bi) (out ++ header bi).
Proof using Type.
  clear is_bytes. intros bi. unfold validate_and_dump. cbv zeta. fold bi. change (Z.of_nat (align_of WardenBootInfo_t) - 1)%Z with 7%Z.
  rewrite land_7. unfold is_valid.
  destruct (Z.eqb_spec p 0) as [->|N0]; [by rewrite decide_True|]. rewrite decide_False by done.
  destruct (Z.eqb_spec (p mod 8) 0) as [E1|N1]; [|by rewrite decide_True]. rewrite (decide_False (P := (p mod 8 ≠ 0)%Z)) by tauto. cbn [negb].
  rewrite (bind_run _ _ _ () (out ++ [LMagic (magic bi) (abi_version bi)])) by done.
  destruct (Z.eqb_spec (magic bi) WARDEN_MAGIC) as [E2|N2]; cbn [andb negb]; last first.
  { rewrite decide_True by (by left). unfold kprintln. munfold. by rewrite <- app_assoc. }
  destruct (Z.eqb_spec (abi_version bi) WARDEN_ABI_VERSION) as [E3|N3]; cbn [negb]; last first.
  { rewrite decide_True by (by right). unfold kprintln. munfold. by rewrite <- app_assoc. }
  rewrite (decide_False (P := _ ∨ _)) by tauto. unfold header, fb_line, dump_framebuffer, kprintln. munfold.
  rewrite <- !app_assoc. cbn [app].
  destruct (Z.eqb_spec (fb_present (framebuffer bi)) 0); [rewrite decide_True by done|rewrite decide_False by done];
    cbn [negb]; rewrite <- app_assoc; reflexivity.
Qed.

Lemma dump_memmap_misaligned bi out : (mm_regions (memmap bi) ≠ 0)%Z → (mm_count (memmap bi) ≠ 0)%Z →
  ((mm_regions (memmap bi) + hhdm bi) mod 8 ≠ 0)%Z → (dump_memmap byte_at bi out).1 = Err MisalignedArray.
Proof using Type.
  clear is_bytes. intros H1 H2 H3. unfold dump_memmap, kprintln. munfold. rewrite (proj2 (Z.eqb_neq _ _) H1), (proj2 (Z.eqb_neq _ _) H2).
  cbn [orb]. change (Z.of_nat (align_of MemRegion_t) - 1)%Z with 7%Z. rewrite land_7, wrap_mod_8, (proj2 (Z.eqb_neq _ _) H3).
  by destruct (BOOT_MAX_REGIONS <? mm_count (memmap bi))%Z.
Qed.

(** The verdict. *)
Lemma validate_verdict p out : (validate_and_dump byte_at p out).1 =
  match refusal byte_at p with
  | Some h => Err h
  | None => Ok (read_bootinfo byte_at p)
  end.
Proof using is_bytes.
  rewrite validate_eq. unfold refusal. cbv zeta. set (bi := read_bootinfo byte_at p). destruct (info_bounds p) as (_ & Hc & _). fold bi in Hc.
  case_decide; [done|]. case_decide; [done|]. case_decide; [done|]. case_decide as Hd.
  - destruct Hd as (D1 & D2 & D3). pose proof (dump_memmap_misaligned bi (out ++ header bi) D1 D2 D3) as E.
    unfold mbind, M_bind. destruct (dump_memmap byte_at bi (out ++ header bi)) as [[?|e|] o]; cbn in E; try done. by injection E as ->.
  - erewrite bind_run; [reflexivity|]. apply dump_memmap_run; [done|].
    by apply one_zero.
Qed.
End validate.
