(* ===== verification/MemInit.v ===== *)
(** * The bootstrap of physical memory ([kernel/src/memory/mod.rs])

    [init] turns the hostile memory map of the boot loader into the frame
    allocator.  Every [fatal] of the source is an [Err] (the boot halts,
    closed); [Panic] is reserved for arithmetic and indexing.  The array of
    regions behind the boot pointer is an argument. *)

From stdpp Require Import sorting.
From S2P Require Import Prelude Handoff Buddy BuddyInv BuddyProps.

Definition MAX_REGIONS : nat := 1024.
Definition MAX_USABLE : nat := 512.
Definition IDENTITY_BYTES : Z := Z.shiftl 4 30.

Inductive InitError :=
| EmptyMap
| TooManyUsable
| NoUsableRam
| Overlapping
| NoRoomForDescriptors.

Record FrameAllocator := mkFA { buddy : Buddy.Buddy; base_pfn : Z }.

Abbreviation I := (res InitError).

(** ** Reading the map *)

(** [arr] is the array at [memmap.regions] seen through the direct map; the
    alignment of [MemRegion] is 8. *)
Definition region_slice (hhdm : Z) (m : MemMap) (arr : list MemRegion) : I (list MemRegion) :=
  let count := Z.to_nat (Z.min (mm_count m) (Z.of_nat MAX_REGIONS)) in
  if (mm_regions m =? 0)%Z || (count =? 0) then Ok [] else
  virt ← arith 64 (mm_regions m + hhdm);
  if negb (virt mod 8 =? 0)%Z then Ok [] else Ok (take count arr).

Definition usable_frames (r : MemRegion) : option (Z * Z) :=
  if negb (rbase r mod PAGE_SIZE =? 0)%Z then None else
  let start := Z.shiftr (rbase r) PAGE_SHIFT in
  match checked 64 (start + rpages r) with
  | None => None
  | Some fin => if (fin <=? start)%Z then None else Some (start, fin)
  end.

Definition hhdm_max : Z := Z.shiftr IDENTITY_BYTES PAGE_SHIFT.

(** The loop that fills [ranges]. *)
Fixpoint collect (regions : list MemRegion) (ranges : list (Z * Z)) : I (list (Z * Z)) :=
  match regions with
  | [] => Ok ranges
  | r :: rest =>
      if negb (rkind r =? USABLE)%Z then collect rest ranges else
      match usable_frames r with
      | None => collect rest ranges
      | Some (start, fin) =>
          let fin := Z.min fin hhdm_max in
          if (fin <=? start)%Z then collect rest ranges else
          if MAX_USABLE <=? length ranges then Err TooManyUsable else
          collect rest (ranges ++ [(wrap 32 start, wrap 32 fin)])
      end
  end.

(** [ranges.sort_unstable_by_key(|&(start, _)| start)]: ranges with the same key
    overlap and are refused next, so their order does not matter. *)
Definition by_start (a b : Z * Z) : Prop := (a.1 <= b.1)%Z.
#[export] Instance by_start_dec : RelDecision by_start.
Proof. intros a b. unfold by_start. apply _. Defined.
#[export] Instance by_start_total : Total by_start.
Proof. intros a b. unfold by_start. lia. Qed.
#[export] Instance by_start_trans : Transitive by_start.
Proof. intros a b c. unfold by_start. lia. Qed.
Definition sort_ranges (l : list (Z * Z)) : list (Z * Z) := merge_sort by_start l.

(** [ranges.windows(2)] with [pair[1].0 < pair[0].1] *)
Fixpoint overlapping (l : list (Z * Z)) : bool :=
  match l with
  | a :: ((b :: _) as l') => (b.1 <? a.2)%Z || overlapping l'
  | _ => false
  end.

(** ** Building the allocator *)

(** [size_of::<FrameDesc>()]: two [u32], a [u8] and a [bool], aligned to 4. *)
Definition DESC_SIZE : Z := 12.
(** The descriptor whose bytes are all zero. *)
Definition zero_desc : Buddy.FrameDesc := Buddy.mkDesc (Some 0) (Some 0) 0 false.
Definition sat_mul (w a b : Z) : Z := Z.min (2 ^ w - 1) (a * b).
Definition div_ceil (a b : Z) : Z := (a + b - 1) / b.

(** [ranges.iter().find(|&&(s, e)| e - s >= desc_frames)] *)
Definition find_host (desc_frames : Z) (ranges : list (Z * Z)) : I (option (Z * Z)) :=
  rfind (λ se, n ← arith 32 (se.2 - se.1); Ok (desc_frames <=? n)%Z) ranges.

(** One turn of the release loop. *)
Definition release (base desc_start desc_frames : Z) (se : Z * Z) : Buddy.BM unit :=
  let '(start, fin) := se in
  if (start =? desc_start)%Z then
    after ← lift (arith 32 (start + desc_frames));
    if (after <? fin)%Z then
      a ← lift (arith 32 (after - base));
      n ← lift (arith 32 (fin - after));
      Buddy.add_frames (Z.to_nat a) (Z.to_nat n)
    else mret ()
  else
    a ← lift (arith 32 (start - base));
    n ← lift (arith 32 (fin - start));
    Buddy.add_frames (Z.to_nat a) (Z.to_nat n).

Definition init_ranges (hhdm : Z) (ranges : list (Z * Z)) : I (FrameAllocator * (Z * Z)) :=
  if length ranges =? 0 then Err NoUsableRam else
  let ranges := sort_ranges ranges in
  if overlapping ranges then Err Overlapping else
  lo ← index ranges 0;
  hi ← index ranges (length ranges - 1);
  let base := lo.1 in
  span ← arith 32 (hi.2 - base);
  let desc_bytes := sat_mul 64 span DESC_SIZE in
  let desc_frames := wrap 32 (div_ceil desc_bytes PAGE_SIZE) in
  host ← find_host desc_frames ranges;
  desc_start ← ok_or (fst <$> host) NoRoomForDescriptors;
  let desc_phys := pfn_to_phys desc_start in
  arith 64 (desc_phys + hhdm);;
  let b := Buddy.new (replicate (Z.to_nat span) zero_desc) in
  match mfor ranges (release base desc_start desc_frames) b with
  | (Ok _, b') => Ok (mkFA b' base, (desc_phys, desc_bytes))
  | _ => Panic
  end.

(** [init], up to the installation of the allocator; the answer is the allocator
    and the descriptor region that was zeroed. *)
Definition init (hhdm : Z) (m : MemMap) (arr : list MemRegion) : I (FrameAllocator * (Z * Z)) :=
  regions ← region_slice hhdm m arr;
  if length regions =? 0 then Err EmptyMap else
  ranges ← collect regions [];
  init_ranges hhdm ranges.

(** ** The allocator once installed ([FRAMES]) *)

Abbreviation FM := (M (option FrameAllocator) Empty_set).

Definition on_buddy {A} (m : Buddy.BM A) : M FrameAllocator Empty_set A := λ fa,
  let '(r, b) := m (buddy fa) in (r, mkFA b (base_pfn fa)).

Definition fa_alloc (order : nat) : M FrameAllocator Empty_set (option Z) :=
  o ← on_buddy (Buddy.alloc order);
  match o with
  | None => mret None
  | Some rel =>
      fa ← get;
      pfn ← lift (arith 32 (base_pfn fa + Z.of_nat rel));
      mret (Some (pfn_to_phys pfn))
  end.
Definition fa_free (pa : Z) : M FrameAllocator Empty_set unit :=
  fa ← get;
  rel ← lift (arith 32 (phys_to_pfn pa - base_pfn fa));
  on_buddy (Buddy.free_block (Z.to_nat rel)).

Definition alloc_frames (order : nat) : FM (option Z) := λ st,
  match st with
  | None => (Ok None, None)
  | Some fa => let '(r, fa') := fa_alloc order fa in (r, Some fa')
  end.
Definition free_frames (pa : Z) : FM unit := λ st,
  match st with
  | None => (Ok (), None)
  | Some fa => let '(r, fa') := fa_free pa fa in (r, Some fa')
  end.
Definition free_frame_count (st : option FrameAllocator) : Z :=
  match st with
  | None => 0
  | Some fa => Z.of_nat (Buddy.free_frames (buddy fa))
  end.
