(* ===== verification/MemInitProps.v ===== *)
(** * The bootstrap of physical memory: proofs *)

From Stdlib Require Import Sorting.Sorted.
From stdpp Require Import sorting.
From S2P Require Import Prelude Handoff Buddy BuddyInv BuddyProps MemInit.
Import Buddy (nframes).

Definition in_range (F : Z) (se : Z * Z) : Prop := (se.1 <= F < se.2)%Z.
Definition range_ok (se : Z * Z) : Prop := (0 <= se.1)%Z ∧ (se.1 < se.2)%Z ∧ (se.2 <= 2 ^ 20)%Z.

(** Frame [F] is RAM the map calls usable, inside the direct map's window. *)
Definition usable_frame (regions : list MemRegion) (F : Z) : Prop :=
  ∃ r, r ∈ regions ∧ rkind r = USABLE ∧ (rbase r mod 4096 = 0)%Z ∧
    (rbase r / 4096 + rpages r < 2 ^ 64)%Z ∧
    (rbase r / 4096 <= F < rbase r / 4096 + rpages r)%Z ∧ (F < 2 ^ 20)%Z.

Definition region_ok (r : MemRegion) : Prop := in_u 64 (rbase r) ∧ in_u 64 (rpages r).

(** ** Collecting the ranges *)

Lemma usable_frames_spec r : region_ok r →
  match usable_frames r with
  | Some (s, e) => s = (rbase r / 4096)%Z ∧ e = (s + rpages r)%Z ∧ (0 <= s < e)%Z ∧
      (rbase r mod 4096 = 0)%Z ∧ (e < 2 ^ 64)%Z
  | None => ∀ F, ¬ (rbase r mod 4096 = 0 ∧ rbase r / 4096 + rpages r < 2 ^ 64 ∧
      rbase r / 4096 <= F < rbase r / 4096 + rpages r)%Z
  end.
Proof.
  intros [Hb Hp]. unfold usable_frames, PAGE_SIZE, PAGE_SHIFT, in_u in *. rewrite Z.shiftr_div_pow2 by lia.
  change (2 ^ 12)%Z with 4096%Z. destruct (Z.eqb_spec (rbase r mod 4096) 0) as [Hm|Hm]; simpl; [|naive_solver].
  pose proof (Z.div_pos (rbase r) 4096).
  destruct (checked 64 _) as [fin|] eqn:Hc.
  - apply checked_Some in Hc as [Hc ->]. unfold in_u in Hc. destruct (Z.leb_spec (rbase r / 4096 + rpages r) (rbase r / 4096)).
    + intros F. lia.
    + split_and!; lia.
  - intros F (_ & Hlt & _). unfold checked in Hc. rewrite (proj2 (fits_spec _ _)) in Hc; [done|].
    unfold in_u. lia.
Qed.

Lemma hhdm_max_eq : hhdm_max = (2 ^ 20)%Z.
Proof. reflexivity. Qed.

(** What one region of the map contributes. *)
Definition usable_range (r : MemRegion) : option (Z * Z) :=
  let s := (rbase r / 4096)%Z in
  let e := Z.min (s + rpages r) (2 ^ 20) in
  if decide (rkind r = USABLE ∧ (rbase r mod 4096 = 0)%Z ∧ (s + rpages r < 2 ^ 64)%Z ∧ (s < e)%Z)
  then Some (s, e) else None.

Lemma usable_range_ok r : region_ok r → from_option range_ok True (usable_range r).
Proof.
  intros [Hb _]. unfold usable_range. case_decide as Hd; [|done]. simpl. unfold range_ok, in_u in *. simpl.
  pose proof (Z.div_pos (rbase r) 4096). lia.
Qed.

Lemma usable_range_frames regions F :
  (∃ se, se ∈ omap usable_range regions ∧ in_range F se) ↔ usable_frame regions F.
Proof.
  setoid_rewrite list_elem_of_omap. unfold usable_range, in_range, usable_frame. split.
  - intros (se & (r & Hr & Hse) & HF). exists r. case_decide as Hd; simplify_eq/=. split_and!; try apply Hd; try done; lia.
  - intros (r & Hr & Hk & Hm & Hlt & HF & Hmax).
    exists (rbase r / 4096, Z.min (rbase r / 4096 + rpages r) (2 ^ 20))%Z. split; [|simpl; lia].
    exists r. split; [done|]. rewrite decide_True; [done|]. split_and!; try done; lia.
Qed.

Lemma collect_spec regions acc :
  Forall region_ok regions →
  collect regions acc =
    (if decide (length (omap usable_range regions) = 0 ∨
         length acc + length (omap usable_range regions) ≤ MAX_USABLE)
     then Ok (acc ++ omap usable_range regions) else Err TooManyUsable).
Proof.
  revert acc. induction regions as [|r regions IH]; intros acc Hr; cbn [collect omap list_omap].
  { rewrite decide_True by (by left). by rewrite app_nil_r. }
  apply Forall_cons in Hr as [Hr Hrs]. specialize (λ acc, IH acc Hrs).
  assert (usable_range r = None →
    collect regions acc =
      (if decide (length (omap usable_range (r :: regions)) = 0 ∨
          length acc + length (omap usable_range (r :: regions)) ≤ MAX_USABLE)
       then Ok (acc ++ omap usable_range (r :: regions)) else Err TooManyUsable)) as Hskip.
  { intros E. cbn [omap list_omap]. rewrite E. apply IH. }
  change (list_omap _ _ usable_range (r :: regions)) with (omap usable_range (r :: regions)) in Hskip.
  unfold usable_range in Hskip at 1. pose proof (usable_frames_spec r Hr) as Hu.
  destruct (Z.eqb_spec (rkind r) USABLE) as [Hk|Hk]; cbn [negb];
    [|apply Hskip; rewrite decide_False; naive_solver].
  destruct (usable_frames r) as [[s e]|]; last first.
  { apply Hskip. rewrite decide_False; [done|]. intros (_ & Hm & Hlt & Hse). apply (Hu (rbase r / 4096)%Z). lia. }
  destruct Hu as (Hs & He & Hse & Hm & Hlt). rewrite hhdm_max_eq. subst s e.
  destruct (Z.leb_spec (Z.min (rbase r / 4096 + rpages r) (2 ^ 20)) (rbase r / 4096)) as [Hle|Hgt].
  { apply Hskip. rewrite decide_False; [done|]. lia. }
  rewrite !wrap_small by (unfold in_u; lia).
  replace (usable_range r) with (Some (rbase r / 4096, Z.min (rbase r / 4096 + rpages r) (2 ^ 20)))%Z
    by (unfold usable_range; rewrite decide_True; [done|lia]).
  cbn [length]. destruct (Nat.leb_spec MAX_USABLE (length acc)) as [Hmax|Hmax].
  { rewrite decide_False; [done|]. lia. }
  rewrite IH, length_app. cbn [length]. rewrite <- app_assoc. cbn [app].
  repeat case_decide; try done; lia.
Qed.

(** ** Ranges accepted by the overlap check are apart *)

Definition before (a b : Z * Z) : Prop := (a.2 <= b.1)%Z.

Lemma overlapping_sorted l :
  Forall range_ok l → overlapping l = false → StronglySorted before l.
Proof.
  induction l as [|a l IH]; intros Hok Hov; [constructor|].
  apply Forall_cons in Hok as [Ha Hok]. destruct l as [|b l]; [by repeat constructor|].
  cbn [overlapping] in Hov. apply orb_false_iff in Hov as [Hab%Z.ltb_ge Hov].
  specialize (IH Hok Hov). constructor; [done|]. constructor; [done|].
  apply Forall_cons in Hok as [(_ & Hb & _) _]. inversion IH as [|? ? _ Hall]; subst.
  eapply Forall_impl; [exact Hall|]. unfold before. intros x Hx. lia.
Qed.

Lemma sorted_lookup l i j a b :
  StronglySorted before l → l !! i = Some a → l !! j = Some b → i < j → before a b.
Proof.
  revert i j. induction l as [|x l IH]; intros [|i] [|j] Hs Hi Hj Hij; simplify_eq/=; try lia;
    inversion Hs as [|? ? Hs' Hall]; subst.
  - rewrite Forall_lookup in Hall. by eapply Hall.
  - eapply (IH i j); try done. lia.
Qed.

Lemma sorted_same l a b :
  Forall range_ok l → StronglySorted before l → a ∈ l → b ∈ l → a.1 = b.1 → a = b.
Proof.
  intros Hok Hs [i Hi]%list_elem_of_lookup [j Hj]%list_elem_of_lookup E.
  pose proof (Forall_lookup_1 _ _ _ _ Hok Hi) as (_ & Ha & _).
  pose proof (Forall_lookup_1 _ _ _ _ Hok Hj) as (_ & Hb & _).
  destruct (decide (i = j)) as [->|]; [congruence|]. exfalso.
  destruct (decide (i < j)).
  - pose proof (sorted_lookup _ _ _ _ _ Hs Hi Hj). unfold before in *. lia.
  - pose proof (sorted_lookup _ _ _ _ _ Hs Hj Hi). unfold before in *. lia.
Qed.

Lemma sorted_apart l a b F :
  Forall range_ok l → StronglySorted before l → a ∈ l → b ∈ l → in_range F a → in_range F b → a = b.
Proof.
  intros Hok Hs [i Hi]%list_elem_of_lookup [j Hj]%list_elem_of_lookup Ha Hb. unfold in_range in *.
  destruct (decide (i = j)) as [->|]; [congruence|]. exfalso.
  destruct (decide (i < j)).
  - pose proof (sorted_lookup _ _ _ _ _ Hs Hi Hj). unfold before in *. lia.
  - pose proof (sorted_lookup _ _ _ _ _ Hs Hj Hi). unfold before in *. lia.
Qed.

(** ** Releasing the ranges *)

Definition in_desc (ds df F : Z) : Prop := (ds <= F < ds + df)%Z.

Lemma release_spec b base ds df se :
  binv b [] → (0 <= base <= se.1)%Z → range_ok se → (se.2 - base <= Z.of_nat (nframes b))%Z → (0 <= df)%Z →
  (∀ f, in_range (base + Z.of_nat f) se → ¬ covered b f) →
  (se.1 = ds → (ds + df <= se.2)%Z) → (se.1 ≠ ds → ∀ F, in_range F se → ¬ in_desc ds df F) →
  ∃ b', release base ds df se b = (Ok (), b') ∧ binv b' [] ∧ nframes b' = nframes b ∧
    ∀ f, covered b' f ↔ covered b f ∨ (in_range (base + Z.of_nat f) se ∧ ¬ in_desc ds df (base + Z.of_nat f)).
Proof.
  intros HI Hb (Hr0 & Hr1 & Hr2) Hn Hdf Hun Heq Hne. destruct se as [s e]. unfold in_range, in_desc in *. simpl in *.
  pose proof (λ a n, add_frames_spec b [] a n HI) as Hadd.
  unfold release. destruct (Z.eqb_spec s ds) as [E|E].
  - specialize (Heq E). unfold mbind, M_bind, lift. rewrite arith_in by (unfold in_u; lia).
    destruct (Z.ltb_spec (s + df) e) as [Hlt|Hge].
    + rewrite arith_in by (unfold in_u; lia). rewrite arith_in by (unfold in_u; lia).
      destruct (Hadd (Z.to_nat (s + df - base)) (Z.to_nat (e - (s + df)))) as (b' & Hr & HI' & Hn' & Hc);
        [lia|intros f Hf; apply Hun; lia|intros p o H; by apply elem_of_nil in H|].
      exists b'. split_and!; try done. intros f. rewrite Hc. split; intros [?|?]; [by left|right; lia|by left|right; lia].
    + exists b. split_and!; try done. intros f. split; [by left|]. intros [?|?]; [done|lia].
  - specialize (Hne E). unfold mbind, M_bind, lift. rewrite !arith_in by (unfold in_u; lia).
    destruct (Hadd (Z.to_nat (s - base)) (Z.to_nat (e - s))) as (b' & Hr & HI' & Hn' & Hc);
      [lia|intros f Hf; apply Hun; lia|intros p o H; by apply elem_of_nil in H|].
    exists b'. split_and!; try done. intros f. rewrite Hc. split; intros [H|H]; [by left|right|by left|right; lia].
    split; [lia|]. apply Hne. lia.
Qed.

Lemma release_loop L base ds df hs :
  Forall range_ok L → StronglySorted before L → (0 <= base)%Z → (0 <= df)%Z →
  hs ∈ L → hs.1 = ds → (ds + df <= hs.2)%Z →
  ∀ todo past b, L = past ++ todo → binv b [] →
  Forall (λ se, (base <= se.1)%Z ∧ (se.2 - base <= Z.of_nat (nframes b))%Z) L →
  (∀ f, covered b f ↔ ∃ se, se ∈ past ∧ in_range (base + Z.of_nat f) se ∧ ¬ in_desc ds df (base + Z.of_nat f)) →
  ∃ b', mfor todo (release base ds df) b = (Ok (), b') ∧ binv b' [] ∧ nframes b' = nframes b ∧
    ∀ f, covered b' f ↔ ∃ se, se ∈ L ∧ in_range (base + Z.of_nat f) se ∧ ¬ in_desc ds df (base + Z.of_nat f).
Proof.
  intros Hok Hs Hb Hdf Hh Hds Hfit todo. induction todo as [|se todo IH]; intros past b HL HI Hall Hc.
  { rewrite app_nil_r in HL. subst L. by exists b. }
  assert (se ∈ L) as Hse by (rewrite HL; apply elem_of_app; right; left).
  pose proof (proj1 (Forall_forall _ _) Hok _ Hse) as Hseok.
  destruct (proj1 (Forall_forall _ _) Hall _ Hse) as [Hb1 Hb2].
  destruct (release_spec b base ds df se) as (b1 & Hr & HI1 & Hn1 & Hc1); try done.
  - intros f Hf Hcov. apply Hc in Hcov as (se' & Hin & Hf' & _).
    assert (se' = se) as -> by (eapply sorted_apart; try done; rewrite HL; apply elem_of_app; by left).
    pose proof Hs as Hs2. rewrite HL in Hs2. apply list_elem_of_lookup in Hin as [i Hi].
    assert (before se se) as Hbf; [|unfold before, range_ok in *; lia].
    apply (sorted_lookup _ i (length past) se se Hs2); [by apply lookup_app_l_Some|by rewrite list_lookup_middle|].
    by apply lookup_lt_Some in Hi.
  - intros E. assert (se = hs) as -> by (eapply sorted_same; try done; congruence). lia.
  - intros E F HF HD. apply E. assert (se = hs) as ->; [|done].
    eapply sorted_apart; try done. unfold in_range, in_desc in *. lia.
  - cbn [mfor]. unfold mbind, M_bind. rewrite Hr. rewrite <- Hn1. apply (IH (past ++ [se])).
    + by rewrite HL, <- app_assoc.
    + done.
    + by rewrite Hn1.
    + intros f. rewrite Hc1, Hc. setoid_rewrite elem_of_app. setoid_rewrite list_elem_of_singleton. naive_solver.
Qed.

(** ** The whole construction *)

(** [fa] manages exactly the frames of [U] that the descriptor array, [db] bytes
    at [dp], does not occupy; the array lies in [U]. *)
Record built (U : Z → Prop) (fa : FrameAllocator) (dp db : Z) : Prop := {
  bt_inv : binv (buddy fa) [];
  bt_span : (0 <= base_pfn fa)%Z ∧ (base_pfn fa + Z.of_nat (nframes (buddy fa)) <= 2 ^ 20)%Z;
  bt_size : db = (12 * Z.of_nat (nframes (buddy fa)))%Z ∧ (dp mod 4096 = 0)%Z;
  bt_exact F : U F ↔
    in_desc (dp / 4096) (div_ceil db 4096) F ∨
    ∃ f, F = (base_pfn fa + Z.of_nat f)%Z ∧ covered (buddy fa) f;
  bt_apart f : covered (buddy fa) f →
    ¬ in_desc (dp / 4096) (div_ceil db 4096) (base_pfn fa + Z.of_nat f)
}.

(** Why the boot halts. *)
Definition halts_for (R : list (Z * Z)) (e : InitError) : Prop :=
  match e with
  | EmptyMap | TooManyUsable => False
  | NoUsableRam => R = []
  | Overlapping => ∃ i j a b F, i ≠ j ∧ R !! i = Some a ∧ R !! j = Some b ∧ in_range F a ∧ in_range F b
  | NoRoomForDescriptors => ∃ lo hi, lo ∈ R ∧ hi ∈ R ∧
      (∀ se, se ∈ R → lo.1 <= se.1 ∧ se.2 <= hi.2 ∧ (se.2 - se.1) * 4096 < 12 * (hi.2 - lo.1))%Z
  end.

Lemma sort_perm R : sort_ranges R ≡ₚ R.
Proof. apply merge_sort_Permutation. Qed.

Lemma overlapping_true L :
  StronglySorted by_start L → Forall range_ok L → overlapping L = true →
  ∃ i a b, L !! i = Some a ∧ L !! S i = Some b ∧ in_range b.1 a ∧ in_range b.1 b.
Proof.
  induction L as [|a L IH]; intros Hs Hok Hov; [done|]. destruct L as [|b L]; [done|].
  inversion Hs as [|? ? Hs' Hall]; subst. apply Forall_cons in Hok as [Ha Hok].
  cbn [overlapping] in Hov. apply orb_true_iff in Hov as [Hlt%Z.ltb_lt|Hov].
  - exists 0, a, b. split; [done|]. split; [done|]. apply Forall_cons in Hok as [Hb _]. apply Forall_cons in Hall as [Hab _].
    unfold in_range, range_ok, by_start in *. lia.
  - destruct (IH Hs' Hok Hov) as (i & x & y & Hx & Hy & H). by exists (S i), x, y.
Qed.

Lemma overlapping_halts R :
  Forall range_ok R → overlapping (sort_ranges R) = true → halts_for R Overlapping.
Proof.
  intros Hok Hov. destruct (overlapping_true (sort_ranges R)) as (i & a & b & Ha & Hb & Ha' & Hb'); try done.
  { apply Sorted_StronglySorted; [apply _|]. apply Sorted_merge_sort, _. }
  { by rewrite sort_perm. }
  destruct (proj1 (Permutation_inj _ _) (sort_perm R)) as (_ & f & Hf & Hp).
  assert (∀ k, R !! f k = sort_ranges R !! k) as Hk by (intros k; by rewrite Hp).
  exists (f i), (f (S i)), a, b, b.1. rewrite !Hk. split_and!; try done. intros E%Hf. lia.
Qed.

Lemma find_host_spec df L :
  Forall range_ok L →
  (find_host df L = Ok None ∧ ∀ se, se ∈ L → (se.2 - se.1 < df)%Z) ∨
  ∃ se, find_host df L = Ok (Some se) ∧ se ∈ L ∧ (df <= se.2 - se.1)%Z.
Proof.
  induction L as [|a L IH]; intros Hok; unfold find_host in *; cbn [rfind].
  { left. split; [done|]. intros se H. by apply elem_of_nil in H. }
  apply Forall_cons in Hok as [(? & ? & ?) Hok]. rewrite arith_in by (unfold in_u; lia).
  munfold. destruct (Z.leb_spec df (a.2 - a.1)) as [Hle|Hgt]; [right; exists a; split_and!; [done|left|done]|].
  destruct (IH Hok) as [[-> Hall]|(se & -> & Hin & Hfit)].
  - left. split; [done|]. intros se [->|Hin]%elem_of_cons; [done|by apply Hall].
  - right. exists se. split_and!; [done|by right|done].
Qed.

Lemma hull L lo hi se :
  Forall range_ok L → StronglySorted before L →
  L !! 0 = Some lo → L !! (length L - 1) = Some hi → se ∈ L → (lo.1 <= se.1 ∧ se.2 <= hi.2)%Z.
Proof.
  intros Hok Hs Hlo Hhi [i Hi]%list_elem_of_lookup.
  pose proof (Forall_lookup_1 _ _ _ _ Hok Hi) as (_ & Hr & _).
  pose proof (Forall_lookup_1 _ _ _ _ Hok Hlo) as (_ & Hl & _).
  pose proof (Forall_lookup_1 _ _ _ _ Hok Hhi) as (_ & Hh & _).
  pose proof (lookup_lt_Some _ _ _ Hi). unfold before in *. split.
  - destruct (decide (i = 0)) as [->|]; [simplify_eq; lia|].
    pose proof (sorted_lookup _ 0 i _ _ Hs Hlo Hi ltac:(lia)) as Hb. unfold before in Hb. lia.
  - destruct (decide (i = length L - 1)) as [->|]; [simplify_eq; lia|].
    pose proof (sorted_lookup _ i (length L - 1) _ _ Hs Hi Hhi ltac:(lia)) as Hb. unfold before in Hb. lia.
Qed.

Lemma div_ceil_bounds x : (0 <= x)%Z → (x <= div_ceil x 4096 * 4096 < x + 4096)%Z.
Proof.
  intros Hx. unfold div_ceil. pose proof (Z.div_mod (x + 4096 - 1) 4096 ltac:(lia)).
  pose proof (Z.mod_pos_bound (x + 4096 - 1) 4096 ltac:(lia)). lia.
Qed.

(** Disjoint ranges with room for the descriptors give an allocator. *)
Lemma release_built L lo hi hs span :
  Forall range_ok L → StronglySorted before L →
  L !! 0 = Some lo → L !! (length L - 1) = Some hi → span = (hi.2 - lo.1)%Z →
  hs ∈ L → (div_ceil (12 * span) 4096 <= hs.2 - hs.1)%Z →
  ∃ b, mfor L (release lo.1 hs.1 (div_ceil (12 * span) 4096)) (Buddy.new (replicate (Z.to_nat span) zero_desc)) = (Ok (), b) ∧
    built (λ F, ∃ se, se ∈ L ∧ in_range F se) (mkFA b lo.1) (hs.1 * 4096) (12 * span).
Proof.
  intros Hok Hs Hlo Hhi Hspan Hh Hfit. set (df := div_ceil _ _) in *.
  pose proof (λ se, hull L lo hi se Hok Hs Hlo Hhi) as Hhull.
  pose proof (proj1 (Forall_forall _ _) Hok) as Hok'.
  pose proof (Hok' _ (list_elem_of_lookup_2 _ _ _ Hlo)) as (Hlo0 & Hlo1 & _).
  pose proof (Hok' _ (list_elem_of_lookup_2 _ _ _ Hhi)) as (_ & _ & Hhi2).
  destruct (Hhull _ (list_elem_of_lookup_2 _ _ _ Hhi)) as [Hlh _].
  pose proof (Hok' _ (list_elem_of_lookup_2 _ _ _ Hhi)) as (_ & Hhi1 & _).
  pose proof (div_ceil_bounds (12 * span) ltac:(lia)) as Hdf. fold df in Hdf.
  set (ds := replicate (Z.to_nat span) zero_desc).
  assert (length ds = Z.to_nat span) as Hlen by apply length_replicate.
  destruct (new_binv ds) as [HI Hunc]; [rewrite Hlen; lia|].
  assert (nframes (Buddy.new ds) = Z.to_nat span) as Hn.
  { unfold Buddy.new. simpl nframes. rewrite Hlen, wrap_small by (unfold in_u; lia). lia. }
  destruct (release_loop L lo.1 hs.1 df hs Hok Hs Hlo0 ltac:(lia) Hh eq_refl ltac:(lia) L [] (Buddy.new ds))
    as (b & Hr & HI' & Hn' & Hc); [done|done| | |].
  - apply Forall_forall. intros se Hse. specialize (Hhull se Hse). rewrite Hn. lia.
  - intros f. split; [by intros H%Hunc|]. intros (se & H & _). by apply elem_of_nil in H.
  - exists b. split; [done|]. assert (hs.1 * 4096 / 4096 = hs.1)%Z as Hdiv by (apply Z.div_mul; lia).
    split; simpl; rewrite ?Hdiv; fold df.
    + done.
    + rewrite Hn', Hn. lia.
    + rewrite Hn', Hn, Z.mod_mul by lia. split; [lia|done].
    + intros F. split.
      * intros (se & Hse & HF). destruct (decide (hs.1 <= F < hs.1 + df)%Z) as [Hd|Hd]; [by left|right].
        specialize (Hhull se Hse). unfold in_range in HF. exists (Z.to_nat (F - lo.1)). split; [lia|].
        apply Hc. exists se. replace (lo.1 + Z.of_nat (Z.to_nat (F - lo.1)))%Z with F by lia. done.
      * intros [Hd|(f & -> & (se & Hse & HF & _)%Hc)]; [|by exists se].
        exists hs. split; [done|]. unfold in_range, in_desc in *. lia.
    + intros f (se & _ & _ & Hd)%Hc. exact Hd.
Qed.

Lemma built_ext (U V : Z → Prop) fa dp db : (∀ F, V F ↔ U F) → built U fa dp db → built V fa dp db.
Proof. intros HP [H1 H2 H3 H4 H5]. split; try done. intros F. by rewrite HP, <- H4. Qed.

Lemma init_ranges_spec hhdm R :
  (0 <= hhdm <= 2 ^ 64 - 2 ^ 32)%Z → Forall range_ok R →
  match init_ranges hhdm R with
  | Ok (fa, (dp, db)) => built (λ F, ∃ se, se ∈ R ∧ in_range F se) fa dp db
  | Err e => halts_for R e
  | Panic => False
  end.
Proof.
  intros Hh Hok. unfold init_ranges.
  destruct (Nat.eqb_spec (length R) 0) as [E|Hne]; [by apply nil_length_inv|].
  pose proof (sort_perm R) as HP. assert (Forall range_ok (sort_ranges R)) as HokL by (by rewrite HP).
  destruct (overlapping (sort_ranges R)) eqn:Hov; [by apply overlapping_halts|].
  pose proof (overlapping_sorted _ HokL Hov) as Hs. set (L := sort_ranges R) in *.
  assert (length L ≠ 0) as HneL by (by rewrite (Permutation_length HP)).
  destruct (lookup_lt_is_Some_2 L 0) as [lo Hlo]; [lia|].
  destruct (lookup_lt_is_Some_2 L (length L - 1)) as [hi Hhi]; [lia|].
  pose proof (λ se, hull L lo hi se HokL Hs Hlo Hhi) as Hhull.
  pose proof (proj1 (Forall_forall _ _) HokL) as Hok'.
  destruct (Hok' _ (list_elem_of_lookup_2 _ _ _ Hlo)) as (Hlo0 & Hlo1 & _).
  destruct (Hok' _ (list_elem_of_lookup_2 _ _ _ Hhi)) as (_ & _ & Hhi2).
  destruct (Hhull _ (list_elem_of_lookup_2 _ _ _ Hlo)) as [_ Hlh].
  munfold. rewrite Hlo, Hhi. cbn iota beta. rewrite arith_in by (unfold in_u; lia).
  set (span := (hi.2 - lo.1)%Z) in *.
  assert (sat_mul 64 span DESC_SIZE = (12 * span)%Z) as -> by (unfold sat_mul, DESC_SIZE; lia).
  pose proof (div_ceil_bounds (12 * span) ltac:(lia)) as Hdf. change PAGE_SIZE with 4096%Z.
  rewrite wrap_small by (unfold in_u; lia).
  destruct (find_host_spec (div_ceil (12 * span) 4096) L HokL) as [[-> Hnone]|(hs & -> & Hin & Hfit)]; simpl.
  - exists lo, hi. rewrite <- HP. split_and!; [by eapply list_elem_of_lookup_2..|].
    intros se Hse. rewrite <- HP in Hse. specialize (Hnone se Hse). specialize (Hhull se Hse). lia.
  - destruct (Hok' _ Hin) as (? & ? & ?). rewrite pfn_to_phys_eq by lia.
    rewrite arith_in by (unfold in_u; lia).
    destruct (release_built L lo hi hs span) as (b & -> & Hbuilt); try done. eapply built_ext; [|done].
    intros F. simpl. by setoid_rewrite <- HP.
Qed.

(** ** The whole of [init] *)

(** The regions of the map that are read. *)
Definition seen (m : MemMap) (arr : list MemRegion) : list MemRegion :=
  take (Z.to_nat (Z.min (mm_count m) (Z.of_nat MAX_REGIONS))) arr.

(** Why the boot halts, for the whole of [init]. *)
Definition refused_for (hhdm : Z) (m : MemMap) (arr : list MemRegion) (e : InitError) : Prop :=
  match e with
  | EmptyMap => mm_regions m = 0%Z ∨ ((mm_regions m + hhdm) mod 8 ≠ 0)%Z ∨ seen m arr = []
  | TooManyUsable => MAX_USABLE < length (omap usable_range (seen m arr))
  | _ => halts_for (omap usable_range (seen m arr)) e
  end.

(** Whatever memory map the boot loader hands over, [init] does not panic: it
    builds an allocator for exactly the usable frames, or it halts for the reason
    it names. *)
Lemma init_sound hhdm m arr :
  (0 <= hhdm <= 2 ^ 64 - 2 ^ 32)%Z → (0 <= mm_regions m)%Z →
  (mm_regions m ≠ 0 → mm_count m ≠ 0 → mm_regions m + hhdm < 2 ^ 64)%Z →
  Forall region_ok arr →
  match init hhdm m arr with
  | Ok (fa, (dp, db)) => built (usable_frame (seen m arr)) fa dp db
  | Err e => refused_for hhdm m arr e
  | Panic => False
  end.
Proof.
  intros Hh Hm0 Hm Hok.
  assert (Forall region_ok (seen m arr)) as Hs by (by apply Forall_take).
  unfold init, region_slice. fold (seen m arr). munfold.
  destruct (Z.eqb_spec (mm_regions m) 0) as [E|N0]; [by left|]. cbn [orb].
  destruct (Nat.eqb_spec (Z.to_nat (Z.min (mm_count m) (Z.of_nat MAX_REGIONS))) 0) as [E|N1].
  { right; right. unfold seen. by rewrite E. }
  rewrite arith_in by (unfold in_u; split; [lia|apply Hm; [done|lia]]).
  destruct (Z.eqb_spec ((mm_regions m + hhdm) mod 8) 0) as [_|E]; [|by right; left]. cbn [negb].
  destruct (Nat.eqb_spec (length (seen m arr)) 0) as [E|_]; [right; right; by apply nil_length_inv|].
  rewrite collect_spec by done. case_decide as Hd; [|simpl in *; lia].
  cbn [app]. set (R := omap usable_range (seen m arr)) in *.
  assert (Forall range_ok R) as HR.
  { apply Forall_forall. intros se (r & Hr & Hse)%list_elem_of_omap.
    pose proof (usable_range_ok r (proj1 (Forall_forall _ _) Hs _ Hr)) as H. by rewrite Hse in H. }
  pose proof (init_ranges_spec hhdm R Hh HR) as Hi.
  destruct (init_ranges hhdm R) as [[fa [dp db]]|e|]; [|by destruct e|done].
  eapply built_ext; [|done]. intros F. symmetry. apply usable_range_frames.
Qed.
