(* ===== verification/Frames.v ===== *)
(** * Single frames: what the page tables rely on

    The page tables of the kernel take single frames from the allocator of
    [kernel/src/memory/mod.rs] and give them back.  [FrameSource] is the contract
    they are verified against: the source knows which frames are [held], never
    hands one of them out, takes any of them back unless it belongs to a larger
    block that is [fs_kept], fails only when it has none left, and counts the free
    frames exactly.  The installed allocator
    discharges it ([frame_allocator_source]), on the buddy allocator's promises. *)

From stdpp Require Import sets.
From S2P Require Import Prelude Buddy BuddyInv BuddyProps MemInit.

(** The address of a frame: frame numbers are [u32]. *)
Definition frame_ok (pa : Z) : Prop := (0 <= pa < 2 ^ 44)%Z ∧ (pa mod 4096 = 0)%Z.

Class FrameSource (F : Type) := {
  fs_alloc : M F Empty_set (option Z);
  fs_free : Z → M F Empty_set unit;
  fs_count : F → Z;
  fs_kept : gset Z;
  held : F → gset Z → Prop;
  fs_kept_held s H : held s H → fs_kept ⊆ H;
  fs_held_ok s H pa : held s H → pa ∈ H → frame_ok pa;
  fs_alloc_spec s H : held s H →
    match fs_alloc s with
    | (Ok (Some pa), s') => (pa ∉ H) ∧ held s' ({[pa]} ∪ H) ∧ (fs_count s = fs_count s' + 1)%Z
    | (Ok None, s') => s' = s ∧ fs_count s = 0%Z
    | _ => False
    end;
  fs_count_nonneg s : (0 <= fs_count s)%Z;
  fs_free_spec s H pa : held s H → pa ∈ H → pa ∉ fs_kept →
    ∃ s', fs_free pa s = (Ok (), s') ∧ held s' (H ∖ {[pa]}) ∧ (fs_count s' = fs_count s + 1)%Z
}.

(** The frames of [H] that can go back one by one. *)
Abbreviation loose H := (H ∖ fs_kept).

(** ** The installed allocator *)

(** The frames of a block of [2 ^ o] frames from frame number [p] on. *)
Definition block_frames (p : Z) (o : nat) : list Z := (λ k, ((p + Z.of_nat k) * 4096)%Z) <$> seq 0 (2 ^ o).
Definition blocks_frames (base : Z) (K : list (nat * nat)) : gset Z :=
  list_to_set (K ≫= λ po, block_frames (base + Z.of_nat po.1) po.2).

Lemma blocks_frames_spec base K pa : pa ∈ blocks_frames base K ↔
  ∃ p o k, (p, o) ∈ K ∧ k < 2 ^ o ∧ pa = ((base + Z.of_nat (p + k)) * 4096)%Z.
Proof.
  unfold blocks_frames, block_frames. rewrite elem_of_list_to_set, list_elem_of_bind. split.
  - intros ([p o] & (k & -> & Hk%elem_of_seq)%list_elem_of_fmap & Hp). exists p, o, k. cbn [fst snd] in *. split; [done|]. lia.
  - intros (p & o & k & Hp & Hk & ->). exists (p, o). split; [|done]. apply list_elem_of_fmap. exists k. cbn [fst]. split; [lia|].
    apply elem_of_seq. cbn [snd]. lia.
Qed.

(** [H] are frames handed out one by one and not returned since, and the blocks
    of [K] (frame numbers from [base]), which have been handed out and stay out. *)
Definition fa_held (base : Z) (K : list (nat * nat)) (st : option FrameAllocator) (H : gset Z) : Prop :=
  match st with
  | None => H = ∅ ∧ K = []
  | Some fa =>
      (0 <= base_pfn fa)%Z ∧ (base_pfn fa + Z.of_nat (Buddy.nframes (buddy fa)) < 2 ^ 32)%Z ∧
      (K ≠ [] → base_pfn fa = base) ∧ blocks_frames base K ⊆ H ∧
      ∃ A, binv (buddy fa) A ∧ (∀ x, x ∈ K → x ∈ A) ∧
        ∀ pa, pa ∈ H → pa ∈ blocks_frames base K ∨ ∃ f, pa = ((base_pfn fa + Z.of_nat f) * 4096)%Z ∧ (f, 0) ∈ A ∧ (f, 0) ∉ K
  end.

Lemma held_frame_bound b A f : binv b A → (f, 0) ∈ A → f < Buddy.nframes b.
Proof. intros I Hf. destruct (bi_alloc _ _ I _ _ Hf) as [(_ & _ & H) _]. simpl in H. lia. Qed.

Lemma no_blocks b A : binv b A → (∀ p o, blk b p o → o < 0) → Buddy.free_frames b = 0.
Proof.
  intros I Hb. apply Nat2Z.inj. rewrite (bi_count _ _ I). unfold total_free.
  rewrite (sumZ_ext _ _ (replicate (length (Buddy.desc b)) zero_desc)); [rewrite sumZ_replicate; cbn; lia|].
  intros i. destruct (Buddy.desc b !! i) as [d|] eqn:Hd; cbn [fmap option_fmap option_map].
  - rewrite lookup_replicate_2 by (by eapply lookup_lt_Some). cbn. f_equal. unfold desc_frames.
    destruct (Buddy.free d) eqn:Hf; [|done]. exfalso. assert (Buddy.order d < 0); [|lia]. apply (Hb i). by exists d.
  - rewrite lookup_ge_None_2; [done|]. rewrite length_replicate. by apply lookup_ge_None_1.
Qed.

Lemma free_frame_count_nonneg st : (0 <= free_frame_count st)%Z.
Proof. destruct st; cbn; lia. Qed.

Lemma phys_pfn n : (0 <= n < 2 ^ 32)%Z → phys_to_pfn (n * 4096) = n.
Proof.
  intros Hn. unfold phys_to_pfn, PAGE_SHIFT. rewrite Z.shiftr_div_pow2 by lia. change (2 ^ 12)%Z with 4096%Z.
  rewrite Z.div_mul by lia. by apply wrap_small.
Qed.

Section fenced.
Variables (base : Z) (K : list (nat * nat)).
Abbreviation X := (blocks_frames base K).

Lemma blocks_bound fa A pa : (K ≠ [] → base_pfn fa = base) → binv (buddy fa) A → (∀ x, x ∈ K → x ∈ A) → pa ∈ X →
  ∃ p o k, (p, o) ∈ A ∧ (p, o) ∈ K ∧ k < 2 ^ o ∧ p + k < Buddy.nframes (buddy fa) ∧ pa = ((base_pfn fa + Z.of_nat (p + k)) * 4096)%Z.
Proof.
  intros Hb I HK (p & o & k & Hp & Hk & ->)%blocks_frames_spec. exists p, o, k. specialize (HK _ Hp).
  destruct (bi_alloc _ _ I p o HK) as [(_ & _ & H) _]. rewrite Hb by (intros E; rewrite E in Hp; by apply elem_of_nil in Hp).
  split_and!; try done. lia.
Qed.

(** A frame of its own is in no other block. *)
Lemma single_apart b A f p o k : binv b A → (f, 0) ∈ A → (p, o) ∈ A → (p, o) ≠ (f, 0) → k < 2 ^ o → f ≠ p + k.
Proof.
  intros I Hf Hp Hne Hk ->. apply list_elem_of_lookup in Hf as [i Hi]. apply list_elem_of_lookup in Hp as [j Hj].
  assert (i ≠ j) as Hij by (intros ->; congruence).
  pose proof (bi_pairs _ _ I i j _ _ _ _ Hi Hj Hij) as Hap. unfold apart in Hap. change (2 ^ 0) with 1 in Hap. lia.
Qed.

Lemma fa_held_ok st H pa : fa_held base K st H → pa ∈ H → frame_ok pa.
Proof.
  destruct st as [fa|]; [|intros [-> _]; set_solver]. intros (Hb & Hn & Hbase & HX & A & I & HK & HH) Hpa.
  assert (∃ f, pa = ((base_pfn fa + Z.of_nat f) * 4096)%Z ∧ f < Buddy.nframes (buddy fa)) as (f & -> & Hf).
  { destruct (HH pa Hpa) as [Hx|(f & -> & Hf & _)]; [|exists f; split; [done|by eapply held_frame_bound]].
    destruct (blocks_bound fa A pa Hbase I HK Hx) as (p & o & k & _ & _ & _ & ? & ->). by exists (p + k). }
  split; [lia|]. by apply Z.mod_mul.
Qed.

Lemma fa_kept_held st H : fa_held base K st H → X ⊆ H.
Proof.
  destruct st as [fa|]; [by intros (_ & _ & _ & ? & _)|]. intros [-> E]. unfold blocks_frames. by rewrite E.
Qed.

Lemma fa_alloc_held st H : fa_held base K st H →
  match alloc_frames 0 st with
  | (Ok (Some pa), s') => (pa ∉ H) ∧ fa_held base K s' ({[pa]} ∪ H) ∧ (free_frame_count st = free_frame_count s' + 1)%Z
  | (Ok None, s') => s' = st ∧ free_frame_count st = 0%Z
  | _ => False
  end.
Proof.
  destruct st as [fa|]; [|done]. intros (Hb & Hn & Hbase & HX & A & I & HK & HH).
  pose proof (alloc_spec (buddy fa) A 0 I) as Ha.
  unfold alloc_frames, fa_alloc, on_buddy. munfold.
  destruct (Buddy.alloc 0 (buddy fa)) as [[[p|]|e|] b']; [| |done..]; last first.
  { destruct Ha as [-> Hb']. split; [by destruct fa|]. cbn [free_frame_count]. by rewrite (no_blocks _ _ I Hb'). }
  destruct Ha as (I' & Hn' & _ & _ & Hff). cbn [base_pfn].
  assert (p < Buddy.nframes b') as Hp by (eapply held_frame_bound; [done|left]).
  assert (∀ x, x ∈ A → x ≠ (p, 0)) as Hnew.
  { intros x Hx ->. apply list_elem_of_lookup in Hx as [i Hi].
    pose proof (bi_pairs _ _ I' 0 (S i) p 0 p 0 eq_refl Hi ltac:(done)) as Hap. unfold apart in Hap. simpl in Hap. lia. }
  rewrite arith_in by (unfold in_u; lia). rewrite pfn_to_phys_eq by lia. split; [|split; [|simpl; simpl in Hff; lia]].
  - intros Hin. destruct (HH _ Hin) as [Hx|(f & E & Hf & _)].
    + destruct (blocks_bound fa A _ Hbase I HK Hx) as (q & o & k & Hq & _ & Hk & _ & E).
      apply (single_apart b' _ p q o k I'); [left|by right|by apply Hnew|done|lia].
    + assert (f = p) as -> by lia. by apply (Hnew (p, 0)).
  - simpl. split; [done|]. split; [rewrite Hn'; done|]. split; [done|]. split; [set_solver|]. exists ((p, 0) :: A). split; [done|].
    split; [intros x Hx; right; by apply HK|]. intros pa [->%elem_of_singleton|Hin]%elem_of_union.
    + right. exists p. split; [done|]. split; [left|]. intros Hk. by apply (Hnew (p, 0)); [apply HK|].
    + destruct (HH _ Hin) as [|(f & -> & Hf & Hk)]; [by left|right]. exists f. split; [done|]. split; [by right|done].
Qed.

Lemma fa_free_held st H pa : fa_held base K st H → pa ∈ H → pa ∉ X →
  ∃ s', free_frames pa st = (Ok (), s') ∧ fa_held base K s' (H ∖ {[pa]}) ∧ (free_frame_count s' = free_frame_count st + 1)%Z.
Proof.
  destruct st as [fa|]; [|intros [-> _]; set_solver]. intros (Hb & Hn & Hbase & HX & A & I & HK & HH) Hpa Hnx.
  destruct (HH pa Hpa) as [?|(f & -> & Hf & Hfk)]; [done|]. pose proof (held_frame_bound _ _ _ I Hf).
  apply list_elem_of_lookup in Hf as [i Hi].
  destruct (free_spec (buddy fa) A i f 0 I Hi) as (b' & Hr & I' & Hn' & _ & Hff).
  unfold free_frames, fa_free, on_buddy. munfold. rewrite phys_pfn by lia. rewrite arith_in by (unfold in_u; lia).
  replace (Z.to_nat (base_pfn fa + Z.of_nat f - base_pfn fa)) with f by lia. rewrite Hr.
  eexists. split; [done|]. split; [|simpl in *; lia]. simpl. split; [done|]. split; [by rewrite Hn'|]. split; [done|]. split; [set_solver|].
  exists (delete i A). split; [done|].
  assert (∀ x, x ∈ A → x ≠ (f, 0) → x ∈ delete i A) as Hdel.
  { intros x Hx Hne. apply list_elem_of_lookup in Hx as [j Hj]. assert (j ≠ i) as Hji by (intros ->; congruence).
    apply list_elem_of_lookup. destruct (decide (j < i)).
    - exists j. by rewrite list_lookup_delete_lt by lia.
    - exists (j - 1). rewrite list_lookup_delete_ge by lia. by replace (S (j - 1)) with j by lia. }
  split; [intros x Hx; apply Hdel; [by apply HK|by intros ->]|].
  intros pa [Hin Hne]%elem_of_difference. destruct (HH _ Hin) as [|(g & -> & Hg & Hgk)]; [by left|right]. exists g. split; [done|]. split; [|done].
  apply Hdel; [done|]. intros [= ->]. set_solver.
Qed.

(** The allocator with the blocks of [K] out. *)
#[refine] Definition fenced : FrameSource (option FrameAllocator) := {|
  fs_alloc := alloc_frames 0; fs_free := free_frames; fs_count := free_frame_count; fs_kept := X; held := fa_held base K
|}.
Proof. exact fa_kept_held. exact fa_held_ok. exact fa_alloc_held. exact free_frame_count_nonneg. exact fa_free_held. Defined.
End fenced.

#[export] Instance frame_allocator_source : FrameSource (option FrameAllocator) := fenced 0 [].

(** The same source, in which [held] also says how many frames there are. *)
#[refine] Definition counted {F} (FS : FrameSource F) (N : Z) : FrameSource F := {|
  fs_alloc := fs_alloc; fs_free := fs_free; fs_count := fs_count; fs_kept := fs_kept;
  held s H := held s H ∧ (fs_count s + Z.of_nat (size H) = N)%Z
|}.
Proof.
  - intros s H [Hh _]. by apply (fs_kept_held s).
  - intros s H pa [Hh _]. by apply (fs_held_ok s H).
  - intros s H [Hh Hc]. pose proof (fs_alloc_spec s H Hh) as Ha. destruct (fs_alloc s) as [[[pa|]|e|] s']; try done.
    destruct Ha as (Hn & Hh' & Hc'). split_and!; try done. rewrite size_union by set_solver. rewrite size_singleton. lia.
  - exact fs_count_nonneg.
  - intros s H pa [Hh Hc] Hpa Hk. destruct (fs_free_spec s H pa Hh Hpa Hk) as (s' & Hr & Hh' & Hc'). exists s'. split_and!; try done.
    rewrite size_difference by set_solver. rewrite size_singleton.
    assert (size H ≠ 0) by (intros E; apply size_empty_inv in E; set_solver). lia.
Defined.
