(* ===== verification/Paging.v ===== *)
(** * Page tables of x86-64 ([kernel/src/arch/x86_64/paging.rs])

    Physical memory is a map from the frames that hold tables to their 512
    entries; an access outside of it is stuck ([Panic]), so a theorem that an
    operation answers says that it only touches tables.  CR3 and the static
    [KERNEL_PML4] are fields; [invlpg] is logged.  [a & !b] is [Z.ldiff a b]. *)

From S2P Require Import Prelude Arch Buddy MemInit Frames.

Definition PRESENT : Z := Z.shiftl 1 0.
Definition WRITABLE : Z := Z.shiftl 1 1.
Definition USER : Z := Z.shiftl 1 2.
Definition HUGE : Z := Z.shiftl 1 7.
Definition NX : Z := Z.shiftl 1 63.
Definition ADDR_MASK : Z := 0x000ffffffffff000.
Definition PAGE : Z := 4096.
Definition GIB : Z := Z.shiftl 1 30.
Definition PKEY_SHIFT : Z := 59.

(** [e & b != 0] *)
Definition has (e b : Z) : bool := negb (Z.land e b =? 0)%Z.

Definition idx (vaddr : Z) (level : Z) : nat :=
  Z.to_nat (Z.land (Z.shiftr vaddr (12 + 9 * level)) 511).

Definition leaf_bits (prot : Prot) : Z :=
  match prot with
  | Rx => PRESENT
  | Ro => Z.lor PRESENT NX
  | Rw => Z.lor (Z.lor PRESENT WRITABLE) NX
  end.

(** [super::pku::pkey_bits] *)
Definition pkey_bits (pkey : Z) : Z := Z.shiftl (Z.land pkey 15) PKEY_SHIFT.

Definition section_prot (km : KernelMap) (v : Z) : Prot :=
  if ((text km).1 <=? v)%Z && (v <? (text km).2)%Z then Rx
  else if ((data_sect km).1 <=? v)%Z && (v <? (data_sect km).2)%Z then Rw
  else Ro.

Record Mach (F : Type) := mkMach {
  mem : gmap Z (list Z);
  fr : F;
  cr3 : Z;
  KERNEL_PML4 : Z;
  flushed : list Z
}.
Arguments mkMach {F} _ _ _ _ _.
Arguments mem {F} _.
Arguments fr {F} _.
Arguments cr3 {F} _.
Arguments KERNEL_PML4 {F} _.
Arguments flushed {F} _.

(** What frame [pa] holds, where [ram] is what was there before anyone wrote. *)
Definition contents {F} (ram : Z → list Z) (s : Mach F) (pa : Z) : list Z := default (ram pa) (mem s !! pa).

(** A frame as bytes, and back. *)
Definition frame_bytes (T : list Z) : bytes := concat (to_le 8 <$> T).
Fixpoint frame_words (n : nat) (b : bytes) : list Z :=
  match n with
  | O => []
  | S n' => from_le (take 8 b) :: frame_words n' (drop 8 b)
  end.

Section x86_64.
Context {F : Type} {FS : FrameSource F}.
Variable HHDM_OFFSET : Z.
Abbreviation PM := (M (Mach F) Empty_set).

Definition phys_to_virt {E} (pa : Z) : res E Z := arith 64 (pa + HHDM_OFFSET).

Definition on_frames {A} (m : M F Empty_set A) : PM A := λ s,
  let '(r, f) := m (fr s) in (r, mkMach (mem s) f (cr3 s) (KERNEL_PML4 s) (flushed s)).
Definition set_mem (m : gmap Z (list Z)) : PM unit := modify (λ s,
  mkMach m (fr s) (cr3 s) (KERNEL_PML4 s) (flushed s)).

(** ** Entries *)

Definition write_entry (table : Z) (i : nat) (value : Z) : PM unit :=
  lift (phys_to_virt table);;
  s ← get;
  match mem s !! table with
  | None => panic
  | Some T => if decide (i < length T) then set_mem (<[table:=<[i:=value]> T]> (mem s)) else panic
  end.

Definition read_entry (table : Z) (i : nat) : PM Z :=
  lift (phys_to_virt table);;
  s ← get;
  match mem s !! table with
  | None => panic
  | Some T => lift (index T i)
  end.

(** [memory::alloc_zeroed_frame] *)
Definition alloc_zeroed_frame : PM (option Z) :=
  o ← on_frames fs_alloc;
  match o with
  | None => mret None
  | Some pa =>
      lift (phys_to_virt pa);;
      s ← get;
      set_mem (<[pa:=replicate 512 0%Z]> (mem s));;
      mret (Some pa)
  end.

Definition alloc_table : PM Z :=
  o ← alloc_zeroed_frame;
  match o with
  | None => panic
  | Some pa => mret pa
  end.

Definition free_table (pa : Z) : PM unit := on_frames (fs_free pa).

(** The closure [clone_table]. *)
Definition clone_table (orig : Z) : PM Z :=
  new ← alloc_table;
  mfor (seq 0 512) (λ i, e ← read_entry orig i; write_entry new i e);;
  mret new.

(** ** The kernel's own tables *)

Definition map_low_gib (pdpt : Z) (g : nat) : PM unit :=
  pd ← alloc_table;
  write_entry pdpt g (Z.lor (Z.lor pd PRESENT) WRITABLE);;
  mfor (seq 0 512) (λ j,
    let pa := Z.lor (wrap 64 (Z.shiftl (Z.of_nat g) 30)) (wrap 64 (Z.shiftl (Z.of_nat j) 21)) in
    write_entry pd j (Z.lor (Z.lor (Z.lor (Z.lor pa PRESENT) WRITABLE) HUGE) NX)).

Definition map_low (pml4 : Z) (pml4_index : nat) (bytes : Z) : PM unit :=
  pdpt ← alloc_table;
  write_entry pml4 pml4_index (Z.lor (Z.lor pdpt PRESENT) WRITABLE);;
  mfor (seq 0 (Z.to_nat (div_ceil bytes GIB))) (map_low_gib pdpt).

(** The [while] loop of [map_kernel]. *)
Fixpoint map_kernel_loop (fuel : nat) (km : KernelMap) (pt v : Z) : PM unit :=
  if (v <? kernel_vend km)%Z then
    match fuel with
    | O => panic
    | S fuel' =>
        off ← lift (arith 64 (v - kernel_vbase km));
        pa ← lift (arith 64 (kernel_phys km + off));
        write_entry pt (idx v 0) (Z.lor pa (leaf_bits (section_prot km v)));;
        v' ← lift (arith 64 (v + PAGE));
        map_kernel_loop fuel' km pt v'
    end
  else mret ().

Definition map_kernel (pml4 : Z) (km : KernelMap) : PM unit :=
  pdpt ← alloc_table;
  write_entry pml4 (idx (kernel_vbase km) 3) (Z.lor (Z.lor pdpt PRESENT) WRITABLE);;
  pd ← alloc_table;
  write_entry pdpt (idx (kernel_vbase km) 2) (Z.lor (Z.lor pd PRESENT) WRITABLE);;
  pt ← alloc_table;
  write_entry pd (idx (kernel_vbase km) 1) (Z.lor (Z.lor pt PRESENT) WRITABLE);;
  map_kernel_loop (Z.to_nat (div_ceil (kernel_vend km - kernel_vbase km) PAGE)) km pt (kernel_vbase km).

Definition build_address_space (km : KernelMap) : PM AddressSpace :=
  pml4 ← alloc_table;
  map_low pml4 0 (identity_bytes km);;
  map_low pml4 (idx (hhdm_offset km) 3) (identity_bytes km);;
  map_kernel pml4 km;;
  modify (λ s, mkMach (mem s) (fr s) (cr3 s) pml4 (flushed s));;
  mret (mkSpace pml4 0).

Definition kernel_space (s : Mach F) : AddressSpace := mkSpace (KERNEL_PML4 s) 0.

Definition activate_address_space (sp : AddressSpace) : PM unit := modify (λ s,
  mkMach (mem s) (fr s) (primary sp) (KERNEL_PML4 s) (flushed s)).

(** ** A process's own tables *)

(** One turn of the loop that privatises the split leaves. *)
Definition privatise (new_pd : Z) (i : nat) : PM unit :=
  e ← read_entry new_pd i;
  if has e PRESENT && negb (has e HUGE) then
    priv_pt ← clone_table (Z.land e ADDR_MASK);
    write_entry new_pd i (Z.lor priv_pt (Z.ldiff e ADDR_MASK))
  else mret ().

Definition new_process_space : PM AddressSpace :=
  s ← get;
  let kbase := KERNEL_PML4 s in
  new_pml4 ← clone_table kbase;
  e0 ← read_entry kbase 0;
  new_pdpt ← clone_table (Z.land e0 ADDR_MASK);
  write_entry new_pml4 0 (Z.lor new_pdpt (Z.ldiff e0 ADDR_MASK));;
  e1 ← read_entry (Z.land e0 ADDR_MASK) 1;
  new_pd ← clone_table (Z.land e1 ADDR_MASK);
  write_entry new_pdpt 1 (Z.lor new_pd (Z.ldiff e1 ADDR_MASK));;
  mfor (seq 0 512) (privatise new_pd);;
  mret (mkSpace new_pml4 0).

(** The two loops of [reap_process_space]; each answers how many frames it freed. *)
Fixpoint reap_leaves (pd : Z) (vas : list Z) (freed : Z) : PM Z :=
  match vas with
  | [] => mret freed
  | va :: vas' =>
      e2 ← read_entry pd (idx va 1);
      if has e2 PRESENT && negb (has e2 HUGE) then
        leaf ← read_entry (Z.land e2 ADDR_MASK) (idx va 0);
        if has leaf PRESENT then
          free_table (Z.land leaf ADDR_MASK);;
          n ← lift (arith 32 (freed + 1));
          reap_leaves pd vas' n
        else reap_leaves pd vas' freed
      else reap_leaves pd vas' freed
  end.

Fixpoint reap_pts (pd : Z) (js : list nat) (freed : Z) : PM Z :=
  match js with
  | [] => mret freed
  | i :: js' =>
      e ← read_entry pd i;
      if has e PRESENT && negb (has e HUGE) then
        free_table (Z.land e ADDR_MASK);;
        n ← lift (arith 32 (freed + 1));
        reap_pts pd js' n
      else reap_pts pd js' freed
  end.

Definition reap_process_space (sp : AddressSpace) (owned_leaf_vas : list Z) : PM Z :=
  let pml4 := primary sp in
  e0 ← read_entry pml4 0;
  let pdpt := Z.land e0 ADDR_MASK in
  e1 ← read_entry pdpt 1;
  let pd := Z.land e1 ADDR_MASK in
  freed ← reap_leaves pd owned_leaf_vas 0;
  freed ← reap_pts pd (seq 0 512) freed;
  free_table pd;;
  free_table pdpt;;
  free_table pml4;;
  lift (arith 32 (freed + 3)).

(** ** Walking the active tables *)

Definition current_pml4 : PM Z := s ← get; mret (Z.land (cr3 s) ADDR_MASK).

Definition walk (vaddr : Z) : PM (option (Z * Z)) :=
  root ← current_pml4;
  e4 ← read_entry root (idx vaddr 3);
  if negb (has e4 PRESENT) then mret None else
  e3 ← read_entry (Z.land e4 ADDR_MASK) (idx vaddr 2);
  if negb (has e3 PRESENT) then mret None else
  if has e3 HUGE then mret (Some (e3, 0x3fffffff)%Z) else
  e2 ← read_entry (Z.land e3 ADDR_MASK) (idx vaddr 1);
  if negb (has e2 PRESENT) then mret None else
  if has e2 HUGE then mret (Some (e2, 0x1fffff)%Z) else
  e1 ← read_entry (Z.land e2 ADDR_MASK) (idx vaddr 0);
  if negb (has e1 PRESENT) then mret None else
  mret (Some (e1, 0xfff)%Z).

Definition translate (vaddr : Z) : PM (option Z) :=
  o ← walk vaddr;
  match o with
  | None => mret None
  | Some (leaf, mask) =>
      pa ← lift (arith 64 (Z.ldiff (Z.land leaf ADDR_MASK) mask + Z.land vaddr mask));
      mret (Some pa)
  end.

Definition page_prot (vaddr : Z) : PM (option (bool * bool)) :=
  o ← walk vaddr;
  mret ((λ lm : Z * Z, (has lm.1 WRITABLE, negb (has lm.1 NX))) <$> o).

(** ** Editing the active tables *)

Definition invlpg (vaddr : Z) : PM unit := modify (λ s,
  mkMach (mem s) (fr s) (cr3 s) (KERNEL_PML4 s) (flushed s ++ [vaddr])).

(** The split of the 2 MiB page [e2] into a fresh table. *)
Definition split_huge (e2 : Z) : PM Z :=
  let base := Z.ldiff (Z.land e2 ADDR_MASK) 0x1fffff in
  let flags := Z.ldiff (Z.ldiff e2 ADDR_MASK) HUGE in
  new_pt ← alloc_table;
  mfor (seq 0 512) (λ j,
    off ← lift (arith 64 (Z.of_nat j * PAGE));
    pa ← lift (arith 64 (base + off));
    write_entry new_pt j (Z.lor pa flags));;
  mret new_pt.

Definition assert (b : bool) : PM unit := if b then mret () else panic.

Definition ensure_pt (v : Z) : PM Z :=
  root ← current_pml4;
  e4 ← read_entry root (idx v 3);
  assert (has e4 PRESENT);;
  e3 ← read_entry (Z.land e4 ADDR_MASK) (idx v 2);
  assert (has e3 PRESENT && negb (has e3 HUGE));;
  let pd := Z.land e3 ADDR_MASK in
  e2 ← read_entry pd (idx v 1);
  assert (has e2 PRESENT);;
  if has e2 HUGE then
    new_pt ← split_huge e2;
    write_entry pd (idx v 1) (Z.lor (Z.lor new_pt PRESENT) WRITABLE);;
    mret new_pt
  else mret (Z.land e2 ADDR_MASK).

Definition install_guard_page (vaddr : Z) : PM unit :=
  let v := Z.ldiff vaddr 0xfff in
  pt ← ensure_pt v;
  write_entry pt (idx v 0) 0;;
  invlpg v.

Definition map_page (vaddr phys : Z) (prot : Prot) : PM unit :=
  let v := Z.ldiff vaddr 0xfff in
  pt ← ensure_pt v;
  write_entry pt (idx v 0) (Z.lor (Z.land phys ADDR_MASK) (leaf_bits prot));;
  invlpg v.

(** [if e & USER == 0 { write_entry(table, i, e | USER) }] *)
Definition set_user (table : Z) (i : nat) (e : Z) : PM unit :=
  if has e USER then mret () else write_entry table i (Z.lor e USER).

Definition ensure_pt_user (v : Z) : PM Z :=
  pml4 ← current_pml4;
  e4 ← read_entry pml4 (idx v 3);
  assert (has e4 PRESENT);;
  set_user pml4 (idx v 3) e4;;
  let pdpt := Z.land e4 ADDR_MASK in
  e3 ← read_entry pdpt (idx v 2);
  assert (has e3 PRESENT && negb (has e3 HUGE));;
  set_user pdpt (idx v 2) e3;;
  let pd := Z.land e3 ADDR_MASK in
  e2 ← read_entry pd (idx v 1);
  assert (has e2 PRESENT);;
  if has e2 HUGE then
    new_pt ← split_huge e2;
    write_entry pd (idx v 1) (Z.lor (Z.lor (Z.lor new_pt PRESENT) WRITABLE) USER);;
    mret new_pt
  else
    set_user pd (idx v 1) e2;;
    mret (Z.land e2 ADDR_MASK).

Definition map_user_page (vaddr phys : Z) (prot : Prot) (domain : Z) : PM unit :=
  let v := Z.ldiff vaddr 0xfff in
  pt ← ensure_pt_user v;
  write_entry pt (idx v 0)
    (Z.lor (Z.lor (Z.lor (Z.land phys ADDR_MASK) (leaf_bits prot)) USER) (pkey_bits domain));;
  invlpg v.

(** ** A table that leaves one page out *)

Definition build_domain_excluding (victim_vaddr : Z) : PM Z :=
  let v := Z.ldiff victim_vaddr 0xfff in
  orig_pml4 ← current_pml4;
  new_pml4 ← clone_table orig_pml4;
  e4 ← read_entry orig_pml4 (idx v 3);
  assert (has e4 PRESENT);;
  new_pdpt ← clone_table (Z.land e4 ADDR_MASK);
  write_entry new_pml4 (idx v 3) (Z.lor new_pdpt (Z.ldiff e4 ADDR_MASK));;
  e3 ← read_entry (Z.land e4 ADDR_MASK) (idx v 2);
  assert (has e3 PRESENT && negb (has e3 HUGE));;
  new_pd ← clone_table (Z.land e3 ADDR_MASK);
  write_entry new_pdpt (idx v 2) (Z.lor new_pd (Z.ldiff e3 ADDR_MASK));;
  e2 ← read_entry (Z.land e3 ADDR_MASK) (idx v 1);
  assert (has e2 PRESENT);;
  new_pt ← (if has e2 HUGE then split_huge e2 else clone_table (Z.land e2 ADDR_MASK));
  write_entry new_pd (idx v 1) (Z.lor (Z.lor new_pt PRESENT) WRITABLE);;
  write_entry new_pt (idx v 0) 0;;
  mret new_pml4.
End x86_64.
