(* ===== verification/PagingInv.v ===== *)
(** * Page tables as trees

    [node] follows a path of indices from a root; [entry] is the entry a path
    leads to.  A [space] is a root from which no table is reached by two paths,
    so that a write changes what it is meant to and nothing else. *)

From S2P Require Import Prelude Arch Buddy MemInit Frames Paging.

(** ** Bits of an entry *)

Lemma has_lor a b c : has (Z.lor a b) c = has a c || has b c.
Proof.
  unfold has. rewrite Z.land_lor_distr_l.
  destruct (Z.eqb_spec (Z.land a c) 0) as [->|Ha]; simpl; [done|].
  destruct (Z.eqb_spec (Z.lor (Z.land a c) (Z.land b c)) 0) as [[E _]%Z.lor_eq_0_iff|]; done.
Qed.

Lemma addr_mask_eq : ADDR_MASK = Z.shiftl (Z.ones 40) 12.
Proof. reflexivity. Qed.

(** An aligned address below [2^52] survives the mask. *)
Lemma land_addr pa : (0 <= pa < 2 ^ 52)%Z → (pa mod 4096 = 0)%Z → Z.land pa ADDR_MASK = pa.
Proof.
  intros Hpa Hal. rewrite addr_mask_eq.
  assert (pa = Z.shiftl (pa / 4096) 12) as E by (rewrite Z.shiftl_mul_pow2 by lia; pose proof (Z.div_mod pa 4096 ltac:(lia)); lia).
  assert (0 <= pa / 4096 < 2 ^ 40)%Z.
  { split; [apply Z.div_pos; lia|]. apply Z.div_lt_upper_bound; lia. }
  rewrite E at 1. rewrite <- Z.shiftl_land, Z.land_ones, Z.mod_small, <- E by lia. done.
Qed.

Lemma land_frame t : frame_ok t → Z.land t ADDR_MASK = t.
Proof. intros [H1 H2]. apply land_addr; lia. Qed.

(** Flags outside the address field. *)
Lemma has_addr pa b : Z.land pa ADDR_MASK = pa → Z.land ADDR_MASK b = 0%Z → has pa b = false.
Proof. intros E H. unfold has. rewrite <- E, <- Z.land_assoc, H, Z.land_0_r. done. Qed.

Lemma has_flags e m b : Z.land (Z.lnot m) b = b → has (Z.ldiff e m) b = has e b.
Proof. intros H. unfold has. by rewrite Z.ldiff_land, <- Z.land_assoc, H. Qed.

Lemma land_flags e : Z.land (Z.ldiff e ADDR_MASK) ADDR_MASK = 0%Z.
Proof. rewrite Z.ldiff_land, <- Z.land_assoc. change (Z.land (Z.lnot ADDR_MASK) ADDR_MASK) with 0%Z. apply Z.land_0_r. Qed.

Lemma addr_lor pa f : Z.land pa ADDR_MASK = pa → Z.land f ADDR_MASK = 0%Z → Z.land (Z.lor pa f) ADDR_MASK = pa.
Proof. intros H1 H2. by rewrite Z.land_lor_distr_l, H1, H2, Z.lor_0_r. Qed.

Lemma land_bound e : (0 <= Z.land e ADDR_MASK < 2 ^ 52)%Z ∧ (Z.land e ADDR_MASK mod 4096 = 0)%Z.
Proof.
  set (a := Z.land e ADDR_MASK).
  assert (a = ((a / 4096) mod 2 ^ 40) * 4096)%Z as E.
  { rewrite <- (Z.land_ones _ 40), <- (Z.shiftr_div_pow2 _ 12), <- (Z.shiftl_mul_pow2 _ 12) by lia.
    apply Z.bits_inj'. intros n Hn. rewrite Z.shiftl_spec by done. unfold a.
    destruct (decide (n < 12)%Z).
    - rewrite Z.land_spec, addr_mask_eq, Z.shiftl_spec, (Z.testbit_neg_r _ (n - 12)) by lia.
      by rewrite andb_false_r, Z.testbit_neg_r by lia.
    - rewrite !Z.land_spec, Z.shiftr_spec, Z.land_spec, addr_mask_eq by lia.
      replace (n - 12 + 12)%Z with n by lia. rewrite Z.shiftl_spec by lia.
      by rewrite <- andb_assoc, andb_diag. }
  pose proof (Z.mod_pos_bound (a / 4096) (2 ^ 40) ltac:(lia)). split; [lia|]. rewrite E. apply Z.mod_mul. lia.
Qed.

(** Where an intermediate entry leads. *)
Definition down (e : Z) : option Z :=
  if has e PRESENT && negb (has e HUGE) then Some (Z.land e ADDR_MASK) else None.

Ltac bits := rewrite ?has_lor, ?has_flags by reflexivity.

Lemma down_link t f : frame_ok t → has f PRESENT = true → has f HUGE = false → Z.land f ADDR_MASK = 0%Z →
  down (Z.lor t f) = Some t.
Proof.
  intros Ht Hp Hh Hf. unfold down. bits. rewrite !(has_addr t) by (by (try apply land_frame)).
  rewrite Hp, Hh. simpl. by rewrite addr_lor by (by (try apply land_frame)).
Qed.

Lemma down_user e : down (Z.lor e USER) = down e.
Proof.
  unfold down. bits. change (has USER PRESENT) with false. change (has USER HUGE) with false.
  rewrite !orb_false_r. case_match; [|done]. f_equal. rewrite Z.land_lor_distr_l. apply Z.lor_0_r.
Qed.

(** A copy of the entry [e] that leads to [t]. *)
Lemma down_copy e t : frame_ok t → is_Some (down e) → down (Z.lor t (Z.ldiff e ADDR_MASK)) = Some t.
Proof.
  unfold down at 1. intros Ht [x Hx]. case_match eqn:Hc; [|done]. apply andb_true_iff in Hc as [Hp Hh].
  apply down_link; [done| | |apply land_flags]; bits; [done|]. by destruct (has e HUGE).
Qed.

(** ** Paths *)

Abbreviation memory := (gmap Z (list Z)).

Definition ent (m : memory) (t : Z) (i : nat) : option Z := m !! t ≫= λ T, T !! i.

Fixpoint node (m : memory) (t : Z) (p : list nat) : option Z :=
  match p with
  | [] => Some t
  | i :: p' => t' ← ent m t i ≫= down; node m t' p'
  end.
Definition entry (m : memory) (root : Z) (p : list nat) (i : nat) : option Z :=
  node m root p ≫= λ t, ent m t i.

Lemma node_app m t p q : node m t (p ++ q) = node m t p ≫= λ t', node m t' q.
Proof. revert t. induction p as [|i p IH]; intros t; simpl; [done|]. by destruct (ent m t i ≫= down); simpl. Qed.

Lemma node_snoc m t p i : node m t (p ++ [i]) = entry m t p i ≫= down.
Proof.
  rewrite node_app. unfold entry. destruct (node m t p) as [t'|]; simpl; [|done].
  by destruct (ent m t' i ≫= down).
Qed.

Lemma node_prefix m t p q x : node m t (p ++ q) = Some x → is_Some (node m t p).
Proof. rewrite node_app. destruct (node m t p); naive_solver. Qed.

Lemma ent_insert_ne m t T t' i : t' ≠ t → ent (<[t:=T]> m) t' i = ent m t' i.
Proof. intros H. unfold ent. by rewrite lookup_insert_ne. Qed.

Lemma ent_insert m t T i : ent (<[t:=T]> m) t i = T !! i.
Proof. unfold ent. by rewrite lookup_insert_eq. Qed.

(** A table that no prefix of the path visits does not matter. *)
Lemma node_frame m t T root q :
  (∀ r x, r ++ [x] `prefix_of` q → node m root r ≠ Some t) → node (<[t:=T]> m) root q = node m root q.
Proof.
  induction q as [|x q IH] using rev_ind; intros H; [done|].
  rewrite !node_snoc. unfold entry. rewrite IH.
  - destruct (node m root q) as [t'|] eqn:Hq; simpl; [|done]. rewrite ent_insert_ne; [done|].
    intros ->. by apply (H q x).
  - intros r y Hr. apply (H r y). by apply prefix_app_r.
Qed.

(** ** Spaces *)

(** Every table of the memory is a frame of 512 entries. *)
Definition tabs (m : memory) : Prop := ∀ t T, m !! t = Some T → frame_ok t ∧ length T = 512.

Record is_space (m : memory) (H : gset Z) (root : Z) : Prop := {
  sp_held p t : length p ≤ 3 → node m root p = Some t → t ∈ H ∧ is_Some (m !! t);
  sp_tree p q t : length p ≤ 3 → length q ≤ 3 → node m root p = Some t → node m root q = Some t → p = q;
  sp_top i e : ent m root i = Some e → has e HUGE = false
}.

Lemma is_space_mono m H H' root : H ⊆ H' → is_space m H root → is_space m H' root.
Proof.
  intros Hs [S1 S2 S3]. split; [|done..]. intros p t Hp Ht. destruct (S1 p t Hp Ht). split; [set_solver|done].
Qed.

(** A memory that keeps the tables of the space keeps its paths. *)
Definition keeps (m m' : memory) (root : Z) : Prop :=
  ∀ p t, length p ≤ 3 → node m root p = Some t → m' !! t = m !! t.

Lemma keeps_node m m' root q : keeps m m' root → length q ≤ 4 → node m' root q = node m root q.
Proof.
  intros K. induction q as [|x q IH] using rev_ind; intros Hl; [done|]. rewrite length_app in Hl. simpl in Hl.
  rewrite !node_snoc. unfold entry. rewrite IH by lia. destruct (node m root q) as [t|] eqn:Hq; simpl; [|done].
  unfold ent. by rewrite (K q t) by (try done; lia).
Qed.

Lemma keeps_entry m m' root q i : keeps m m' root → length q ≤ 3 → entry m' root q i = entry m root q i.
Proof.
  intros K Hl. unfold entry. rewrite (keeps_node m m') by (try done; lia).
  destruct (node m root q) as [t|] eqn:Hq; simpl; [|done]. unfold ent. by rewrite (K q t).
Qed.

Lemma keeps_trans m1 m2 m3 root : keeps m1 m2 root → keeps m2 m3 root → keeps m1 m3 root.
Proof.
  intros K1 K2 p t Hp Ht. rewrite <- (K1 p t) by done. apply (K2 p t); [done|].
  by rewrite (keeps_node m1 m2) by (try done; lia).
Qed.

Lemma keeps_space m m' H root : keeps m m' root → is_space m H root → is_space m' H root.
Proof.
  intros K [S1 S2 S3]. split.
  - intros p t Hp. rewrite (keeps_node m m') by (try done; lia). intros Ht. rewrite (K p t) by done. by eapply S1.
  - intros p q t Hp Hq. rewrite !(keeps_node m m') by (try done; lia). by apply S2.
  - intros i e. unfold ent. rewrite (K [] root) by (simpl; try done; lia). apply S3.
Qed.

Lemma keeps_insert m t T root :
  (∀ p, length p ≤ 3 → node m root p ≠ Some t) → keeps m (<[t:=T]> m) root.
Proof. intros H p t' Hp Ht. rewrite lookup_insert_ne; [done|]. intros ->. by apply (H p). Qed.

Lemma keeps_fresh m H t T root : is_space m H root → t ∉ H → keeps m (<[t:=T]> m) root.
Proof. intros S Ht. apply keeps_insert. intros p Hp Hn. by apply (sp_held _ _ _ S) in Hn as [? _]. Qed.

(** ** Writing one entry of a space *)

Section write.
Context (m : memory) (H : gset Z) (root t : Z) (T : list Z) (p : list nat) (i : nat) (x : Z).
Hypothesis (SP : is_space m H root) (Lp : length p ≤ 3) (Np : node m root p = Some t).
Hypothesis (HT : m !! t = Some T) (Hi : i < length T).
Let m' : memory := <[t:=<[i:=x]> T]> m.

Lemma ent_write q j t' : length q ≤ 3 → node m root q = Some t' →
  ent m' t' j = if decide (q = p ∧ j = i) then Some x else ent m t' j.
Proof using SP Lp Np HT Hi.
  intros Lq Nq. unfold m'. destruct (decide (t' = t)) as [->|Hne].
  - assert (q = p) as -> by (by eapply (sp_tree _ _ _ SP)).
    rewrite ent_insert. case_decide as Hd.
    + destruct Hd as [_ ->]. by apply list_lookup_insert_eq.
    + rewrite list_lookup_insert_ne by naive_solver. unfold ent. by rewrite HT.
  - rewrite ent_insert_ne by done. rewrite decide_False; [done|]. intros [-> _]. congruence.
Qed.

(** Paths that do not go through the written entry. *)
Lemma node_write q : length q ≤ 4 → ¬ (p ++ [i]) `prefix_of` q → node m' root q = node m root q.
Proof using SP Lp Np HT Hi.
  induction q as [|y q IH] using rev_ind; intros Lq Hq; [done|]. rewrite length_app in Lq. simpl in Lq.
  rewrite !node_snoc. unfold entry. rewrite IH; [|lia|intros Hp; by apply Hq, prefix_app_r].
  destruct (node m root q) as [t'|] eqn:Nq; simpl; [|done].
  rewrite (ent_write q y t') by (done || lia). rewrite decide_False; [done|]. intros [-> ->]. by apply Hq.
Qed.

Lemma entry_write q j : length q ≤ 3 → ¬ (p ++ [i]) `prefix_of` q →
  entry m' root q j = if decide (q = p ∧ j = i) then Some x else entry m root q j.
Proof using SP Lp Np HT Hi.
  intros Lq Hq. unfold entry. rewrite node_write by (done || lia).
  destruct (node m root q) as [t'|] eqn:Nq; simpl; [by apply ent_write|].
  rewrite decide_False; [done|]. intros [-> _]. congruence.
Qed.

(** An entry that leads where it led. *)
Lemma node_write_same q : ent m t i ≫= down = down x → length q ≤ 4 → node m' root q = node m root q.
Proof using SP Lp Np HT Hi.
  intros Hd. induction q as [|y q IH] using rev_ind; intros Lq; [done|]. rewrite length_app in Lq. simpl in Lq.
  rewrite !node_snoc. unfold entry. rewrite IH by lia. destruct (node m root q) as [t'|] eqn:Nq; simpl; [|done].
  rewrite (ent_write q y t') by (done || lia). case_decide as Hc; [|done]. destruct Hc as [-> ->].
  simplify_eq. by rewrite Hd.
Qed.

Lemma entry_write_same q j : ent m t i ≫= down = down x → length q ≤ 3 →
  entry m' root q j = if decide (q = p ∧ j = i) then Some x else entry m root q j.
Proof using SP Lp Np HT Hi.
  intros Hd Lq. unfold entry. rewrite node_write_same by (done || lia).
  destruct (node m root q) as [t'|] eqn:Nq; simpl; [by apply ent_write|].
  rewrite decide_False; [done|]. intros [-> _]. congruence.
Qed.

Lemma tabs_write : tabs m → tabs m'.
Proof using HT.
  intros Ht t' T' Hl. unfold m' in Hl. destruct (decide (t' = t)) as [->|].
  - rewrite lookup_insert_eq in Hl. simplify_eq. rewrite length_insert. by apply Ht.
  - rewrite lookup_insert_ne in Hl by done. by apply Ht.
Qed.

Lemma dom_write t' : is_Some (m' !! t') ↔ is_Some (m !! t').
Proof using HT.
  unfold m'. destruct (decide (t' = t)) as [->|]; [rewrite lookup_insert_eq, HT|rewrite lookup_insert_ne by done]; done.
Qed.

Lemma space_write_same : (p = [] → has x HUGE = false) →
  (length p = 3 ∨ ent m t i ≫= down = down x) → is_space m' H root.
Proof using SP Lp Np HT Hi.
  intros Hx Hor.
  assert (∀ q, length q ≤ 3 → node m' root q = node m root q) as Hn.
  { intros q Lq. destruct Hor as [L3|Hd]; [|apply node_write_same; [done|lia]].
    apply node_write; [lia|]. intros [r Hr]. apply (f_equal length) in Hr. rewrite !length_app in Hr. simpl in Hr. lia. }
  split.
  - intros q t' Lq. rewrite Hn by done. intros Nq. rewrite dom_write. by eapply (sp_held _ _ _ SP).
  - intros q r t' Lq Lr. rewrite !Hn by done. by eapply (sp_tree _ _ _ SP).
  - intros j e. rewrite (ent_write [] j root) by (simpl; done || lia). case_decide as Hd; [|apply (sp_top _ _ _ SP)].
    intros [= <-]. apply Hx. by destruct Hd.
Qed.

(** Linking a table that is not in the space, in place of a leaf of level 1. *)
Lemma node_write_link n : length p = 2 → down x = Some n →
  ∀ q, length q ≤ 3 → node m' root q = if decide (q = p ++ [i]) then Some n else node m root q.
Proof using SP Lp Np HT Hi.
  intros L2 Hx q Lq. case_decide as Hd.
  - subst q. rewrite node_snoc. rewrite entry_write; [rewrite decide_True by done; done|lia|].
    intros [r Hr]. apply (f_equal length) in Hr. rewrite !length_app in Hr. simpl in Hr. lia.
  - apply node_write; [lia|]. intros [r Hr]. apply Hd. subst q. rewrite !length_app in Lq. simpl in Lq.
    destruct r; [by rewrite app_nil_r|simpl in Lq; lia].
Qed.

Lemma space_write_link n : length p = 2 → down x = Some n →
  n ∈ H → is_Some (m !! n) → (∀ q, length q ≤ 3 → node m root q ≠ Some n) → is_space m' H root.
Proof using SP Lp Np HT Hi.
  intros L2 Hx Hn Hs Hfresh. pose proof (node_write_link n L2 Hx) as Hnode. split.
  - intros q t' Lq. rewrite Hnode, dom_write by done. case_decide; [naive_solver|]. by eapply (sp_held _ _ _ SP).
  - intros q r t' Lq Lr. rewrite !Hnode by done. repeat case_decide; intros N1 N2; simplify_eq; try done.
    + by apply Hfresh in N2.
    + by apply Hfresh in N1.
    + by eapply (sp_tree _ _ _ SP).
  - intros j e. rewrite (ent_write [] j root) by (simpl; done || lia). rewrite decide_False; [apply (sp_top _ _ _ SP)|].
    intros [E _]. by rewrite <- E in L2.
Qed.
End write.

(** ** The walk on paths *)

Lemma idx_lt v l : idx v l < 512.
Proof.
  unfold idx. change 511%Z with (Z.ones 9). rewrite Z.land_ones by lia.
  pose proof (Z.mod_pos_bound (Z.shiftr v (12 + 9 * l)) (2 ^ 9) ltac:(lia)). lia.
Qed.

Lemma idx_eq v l : (0 <= l)%Z → Z.of_nat (idx v l) = ((v / 2 ^ (12 + 9 * l)) mod 512)%Z.
Proof.
  intros Hl. unfold idx. change 511%Z with (Z.ones 9). rewrite Z.land_ones, Z.shiftr_div_pow2 by lia.
  pose proof (Z.mod_pos_bound (v / 2 ^ (12 + 9 * l)) (2 ^ 9) ltac:(lia)). by rewrite Z2Nat.id by lia.
Qed.

(** The leaf that maps [v], with the mask of its page. *)
Definition leaf_of (m : memory) (root v : Z) : option (Z * Z) :=
  match entry m root [idx v 3; idx v 2; idx v 1] (idx v 0) with
  | Some e1 => if has e1 PRESENT then Some (e1, 0xfff)%Z else None
  | None =>
      match entry m root [idx v 3; idx v 2] (idx v 1) with
      | Some e2 => if has e2 PRESENT then Some (e2, 0x1fffff)%Z else None
      | None =>
          match entry m root [idx v 3] (idx v 2) with
          | Some e3 => if has e3 PRESENT then Some (e3, 0x3fffffff)%Z else None
          | None => None
          end
      end
  end.

(** The physical address, and whether the leaf is writable, executable, user. *)
Definition meaning (v : Z) (lm : Z * Z) : Z * (bool * bool) * bool :=
  ((Z.ldiff (Z.land lm.1 ADDR_MASK) lm.2 + Z.land v lm.2)%Z, (has lm.1 WRITABLE, negb (has lm.1 NX)), has lm.1 USER).
Definition maps (m : memory) (root v : Z) : option (Z * (bool * bool) * bool) :=
  meaning v <$> leaf_of m root v.

Lemma keeps_maps m m' root v : keeps m m' root → maps m' root v = maps m root v.
Proof. intros K. unfold maps, leaf_of. rewrite !(keeps_entry m m') by (done || (simpl; lia)). done. Qed.

Section exec.
Context {F : Type} {FS : FrameSource F}.
Variable HHDM_OFFSET : Z.
Hypothesis HHDM_room : (0 <= HHDM_OFFSET <= 2 ^ 64 - 2 ^ 44)%Z.
Implicit Types s : Mach F.

(** [s] with another memory and another state of the frame source. *)
Definition upd (s : Mach F) (m : memory) (f : F) : Mach F :=
  mkMach m f (cr3 s) (KERNEL_PML4 s) (flushed s).

(** [n] more frames can be allocated. *)
Fixpoint supply (n : nat) (f : F) : Prop :=
  match n with
  | O => True
  | S n' => match fs_alloc f with
            | (Ok (Some _), f') => supply n' f'
            | _ => False
            end
  end.

Record okay (s : Mach F) (H : gset Z) (n : nat) : Prop := {
  ok_held : held (fr s) H;
  ok_supply : supply n (fr s);
  ok_tabs : tabs (mem s)
}.

Lemma supply_le n k f : k ≤ n → supply n f → supply k f.
Proof using Type.
  clear HHDM_room. revert k f. induction n as [|n IH]; intros [|k] f Hk Hs; simpl in *; try done; try lia.
  destruct (fs_alloc f) as [[[pa|]|e|] f']; try done. apply IH; [lia|done].
Qed.

(** The counter says how many frames can be allocated. *)
Lemma supply_count n f H : held f H → (Z.of_nat n <= fs_count f)%Z → supply n f.
Proof using Type.
  clear HHDM_room. revert f H. induction n as [|n IH]; intros f H Hh Hn; [done|]. cbn [supply].
  pose proof (fs_alloc_spec f H Hh) as Ha. destruct (fs_alloc f) as [[[pa|]|e|] f']; try done.
  - destruct Ha as (_ & Hh' & Hc). apply (IH f' ({[pa]} ∪ H) Hh'). lia.
  - destruct Ha as [_ Hc]. lia.
Qed.

Lemma okay_count s H n : held (fr s) H → tabs (mem s) → (Z.of_nat n <= fs_count (fr s))%Z → okay s H n.
Proof using Type. clear HHDM_room. intros Hh Ht Hn. split; [done|by eapply supply_count|done]. Qed.

Lemma phys_ok {E} t : frame_ok t → phys_to_virt HHDM_OFFSET (E:=E) t = Ok (t + HHDM_OFFSET)%Z.
Proof using HHDM_room. intros [H1 H2]. apply arith_in. unfold in_u. lia. Qed.

Lemma read_eq s t i e : tabs (mem s) → ent (mem s) t i = Some e → read_entry HHDM_OFFSET t i s = (Ok e, s).
Proof using HHDM_room.
  intros Ht He. unfold ent in He. destruct (mem s !! t) as [T|] eqn:HT; [|done]. simpl in He.
  unfold read_entry. munfold. rewrite phys_ok by (by apply Ht in HT as [? _]). rewrite HT, He. done.
Qed.

Lemma write_eq s t T i x : tabs (mem s) → mem s !! t = Some T → i < 512 →
  write_entry HHDM_OFFSET t i x s = (Ok (), upd s (<[t:=<[i:=x]> T]> (mem s)) (fr s)).
Proof using HHDM_room.
  intros Ht HT Hi. destruct (Ht t T HT) as [Hf Hl].
  unfold write_entry, set_mem. munfold. rewrite phys_ok by done. rewrite HT, decide_True by lia. done.
Qed.

Lemma tabs_insert m t T : tabs m → frame_ok t → length T = 512 → tabs (<[t:=T]> m).
Proof using Type.
  intros Ht Hf Hl t' T' Hx. destruct (decide (t' = t)) as [->|].
  - rewrite lookup_insert_eq in Hx. simplify_eq. by split.
  - rewrite lookup_insert_ne in Hx by done. by apply Ht.
Qed.

Lemma alloc_table_eq s H n : okay s H (S n) →
  ∃ t f, alloc_table HHDM_OFFSET s = (Ok t, upd s (<[t:=replicate 512 0%Z]> (mem s)) f) ∧
    (t ∉ H) ∧ frame_ok t ∧ okay (upd s (<[t:=replicate 512 0%Z]> (mem s)) f) ({[t]} ∪ H) n.
Proof using HHDM_room.
  intros [Hh Hs Ht]. pose proof (fs_alloc_spec _ _ Hh) as Ha. simpl in Hs.
  unfold alloc_table, alloc_zeroed_frame, on_frames, set_mem. munfold.
  destruct (fs_alloc (fr s)) as [[[t|]|e|] f]; try done. destruct Ha as (Hn & Hh' & _).
  assert (frame_ok t) as Hf by (eapply fs_held_ok; [done|set_solver]).
  rewrite phys_ok by done. exists t, f. split_and!; try done. split; [done|done|]. simpl. by apply tabs_insert.
Qed.

(** Filling a table. *)
Lemma fill_eq s t T (body : nat → M (Mach F) Empty_set unit) (g : nat → Z) n k :
  mem s !! t = Some T → length T = 512 → n + k = 512 →
  (∀ i T', n ≤ i < 512 → length T' = 512 →
     body i (upd s (<[t:=T']> (mem s)) (fr s)) = (Ok (), upd s (<[t:=<[i:=g i]> T']> (mem s)) (fr s))) →
  mfor (seq n k) body s =
    (Ok (), upd s (<[t:=take n T ++ (g <$> seq n k)]> (mem s)) (fr s)).
Proof using Type.
  intros HT HL Hnk Hb.
  assert (∀ k n T', length T' = 512 → n + k = 512 → (∀ i T', n ≤ i < 512 → length T' = 512 →
     body i (upd s (<[t:=T']> (mem s)) (fr s)) = (Ok (), upd s (<[t:=<[i:=g i]> T']> (mem s)) (fr s))) →
     mfor (seq n k) body (upd s (<[t:=T']> (mem s)) (fr s)) =
       (Ok (), upd s (<[t:=take n T' ++ (g <$> seq n k)]> (mem s)) (fr s))) as Hgen.
  { clear. induction k as [|k IH]; intros n T' HL Hnk Hb; cbn [seq mfor].
    - simpl. rewrite app_nil_r, take_ge by lia. done.
    - unfold mbind, M_bind. rewrite Hb by lia. rewrite IH; [|by rewrite length_insert|lia|intros; apply Hb; [lia|done]].
      assert (take (S n) (<[n:=g n]> T') ++ (g <$> seq (S n) k) = take n T' ++ (g <$> n :: seq (S n) k)) as ->; [|done].
      rewrite (take_S_r _ _ (g n)) by (apply list_lookup_insert_eq; lia).
      rewrite take_insert_ge by lia. by rewrite <- app_assoc. }
  replace (mfor (seq n k) body s) with (mfor (seq n k) body (upd s (<[t:=T]> (mem s)) (fr s))); [by apply Hgen|].
  rewrite insert_id by done. by destruct s.
Qed.

Lemma fill_all s t T (body : nat → M (Mach F) Empty_set unit) (g : nat → Z) :
  mem s !! t = Some T → length T = 512 →
  (∀ i T', i < 512 → length T' = 512 →
     body i (upd s (<[t:=T']> (mem s)) (fr s)) = (Ok (), upd s (<[t:=<[i:=g i]> T']> (mem s)) (fr s))) →
  mfor (seq 0 512) body s = (Ok (), upd s (<[t:=g <$> seq 0 512]> (mem s)) (fr s)).
Proof using Type. intros HT HL Hb. apply (fill_eq s t T body g 0 512); auto with lia. Qed.

Lemma list_of_lookup (T : list Z) n : length T = n → (λ i, T !!! i) <$> seq 0 n = T.
Proof using Type.
  intros HL. apply list_eq. intros i. rewrite list_lookup_fmap. destruct (decide (i < n)).
  - rewrite lookup_seq_lt by done. simpl. symmetry. apply list_lookup_lookup_total_lt. lia.
  - rewrite lookup_seq_ge, lookup_ge_None_2 by lia. done.
Qed.

Lemma lookup_fill (g : nat → Z) i : i < 512 → (g <$> seq 0 512) !! i = Some (g i).
Proof using Type. intros Hi. by rewrite list_lookup_fmap, lookup_seq_lt. Qed.

Lemma clone_table_eq s H n o T : okay s H (S n) → o ∈ H → mem s !! o = Some T →
  ∃ t f, clone_table HHDM_OFFSET o s = (Ok t, upd s (<[t:=T]> (mem s)) f) ∧
    (t ∉ H) ∧ frame_ok t ∧ okay (upd s (<[t:=T]> (mem s)) f) ({[t]} ∪ H) n.
Proof using HHDM_room.
  intros Hok Ho HT. destruct (ok_tabs _ _ _ Hok o T HT) as [Hfo HLT].
  destruct (alloc_table_eq _ _ _ Hok) as (t & f & Ha & Hn & Hf & Hok'). set (s1 := upd _ _ _) in *.
  assert (o ≠ t) as Hne by set_solver.
  exists t, f. unfold clone_table, mbind at 1, M_bind at 1. rewrite Ha.
  unfold mbind at 1, M_bind at 1.
  rewrite (fill_all s1 t (replicate 512 0%Z) _ (λ i, T !!! i)).
  - rewrite list_of_lookup by done. simpl. split; [unfold upd; simpl; by rewrite insert_insert_eq|].
    split_and!; try done. destruct Hok' as [O1 O2 O3]. split; [done|done|].
    apply tabs_insert; try done. apply (ok_tabs _ _ _ Hok).
  - simpl. by rewrite lookup_insert_eq.
  - done.
  - intros i T' Hi HL'. unfold mbind, M_bind. simpl mem.
    assert (tabs (<[t:=T']> (mem s1))) as Ht1 by (apply tabs_insert; try done; apply (ok_tabs _ _ _ Hok')).
    rewrite (read_eq _ _ _ (T !!! i)); [|done|].
    + rewrite (write_eq _ t T'); [|done|simpl; by rewrite lookup_insert_eq|done].
      simpl. by rewrite !insert_insert_eq.
    + simpl. rewrite !ent_insert_ne by done. unfold ent. rewrite HT. simpl. apply list_lookup_lookup_total_lt. lia.
Qed.

(** The leaf for the [j]-th page of the huge page [e2]. *)
Definition split_entry (e2 : Z) (j : nat) : Z :=
  Z.lor (Z.ldiff (Z.land e2 ADDR_MASK) 0x1fffff + Z.of_nat j * 4096) (Z.ldiff (Z.ldiff e2 ADDR_MASK) HUGE).
Definition splits (e2 : Z) : list Z := split_entry e2 <$> seq 0 512.

Lemma huge_base e2 : let b := Z.ldiff (Z.land e2 ADDR_MASK) 0x1fffff in
  (0 <= b)%Z ∧ (b <= 2 ^ 52 - 2 ^ 21)%Z ∧ (b mod 2 ^ 21 = 0)%Z.
Proof using Type.
  clear. intros b. destruct (land_bound e2) as [Hb _]. set (a := Z.land e2 ADDR_MASK) in *.
  assert (b = (a / 2 ^ 21) * 2 ^ 21)%Z as ->.
  { unfold b. change 0x1fffff%Z with (Z.ones 21). rewrite Z.ldiff_ones_r, Z.shiftl_mul_pow2, Z.shiftr_div_pow2 by lia. done. }
  assert (0 <= a / 2 ^ 21 < 2 ^ 31)%Z by (split; [apply Z.div_pos; lia|apply Z.div_lt_upper_bound; lia]).
  split_and!; [lia|lia|]. apply Z.mod_mul. lia.
Qed.

Lemma split_huge_eq s H n e2 : okay s H (S n) →
  ∃ t f, split_huge HHDM_OFFSET e2 s = (Ok t, upd s (<[t:=splits e2]> (mem s)) f) ∧
    (t ∉ H) ∧ frame_ok t ∧ okay (upd s (<[t:=splits e2]> (mem s)) f) ({[t]} ∪ H) n.
Proof using HHDM_room.
  intros Hok. destruct (alloc_table_eq _ _ _ Hok) as (t & f & Ha & Hn & Hf & Hok'). set (s1 := upd _ _ _) in *.
  exists t, f. unfold split_huge, mbind at 1, M_bind at 1. rewrite Ha. unfold mbind at 1, M_bind at 1.
  rewrite (fill_all s1 t (replicate 512 0%Z) _ (split_entry e2)).
  - fold (splits e2). simpl. split; [unfold upd; simpl; by rewrite insert_insert_eq|].
    split_and!; try done. destruct Hok' as [O1 O2 O3]. split; [done|done|].
    apply tabs_insert; try done. apply (ok_tabs _ _ _ Hok).
  - simpl. by rewrite lookup_insert_eq.
  - done.
  - intros i T' Hi HL'. destruct (huge_base e2) as (B1 & B2 & _). unfold PAGE. munfold.
    rewrite arith_in by (unfold in_u; lia). rewrite arith_in by (unfold in_u; lia).
    rewrite (write_eq _ t T'); [|simpl; apply tabs_insert; try done; apply (ok_tabs _ _ _ Hok')|simpl; by rewrite lookup_insert_eq|done].
    simpl. by rewrite !insert_insert_eq.
Qed.

Lemma node_ent m H root p t i : tabs m → is_space m H root → length p ≤ 3 → node m root p = Some t → i < 512 →
  ∃ e, ent m t i = Some e ∧ entry m root p i = Some e.
Proof using Type.
  intros Ht S Lp Np Hi. destruct (sp_held _ _ _ S p t Lp Np) as [_ [T HT]]. destruct (Ht t T HT) as [_ HL].
  destruct (lookup_lt_is_Some_2 T i) as [e He]; [lia|]. exists e. unfold entry. rewrite Np. simpl. unfold ent.
  by rewrite HT.
Qed.

Lemma root_ok m H root : tabs m → is_space m H root → Z.land root ADDR_MASK = root.
Proof using Type.
  intros Ht S. destruct (sp_held _ _ _ S [] root) as [_ [T HT]]; [simpl; lia|done|].
  apply land_frame. by apply Ht in HT as [? _].
Qed.

Lemma down_eq e : down e = if has e PRESENT then if has e HUGE then None else Some (Z.land e ADDR_MASK) else None.
Proof using Type. unfold down. by destruct (has e PRESENT), (has e HUGE). Qed.

Lemma node_next m root p t i e : node m root p = Some t → ent m t i = Some e → node m root (p ++ [i]) = down e.
Proof using Type. intros Np E. rewrite node_snoc. unfold entry. rewrite Np. simpl. by rewrite E. Qed.

Lemma node_stuck m root p q : node m root p = None → node m root (p ++ q) = None.
Proof using Type. intros Np. by rewrite node_app, Np. Qed.

(** The code of the walk computes [leaf_of]. *)
Lemma walk_eq s H v : tabs (mem s) → is_space (mem s) H (cr3 s) →
  walk HHDM_OFFSET v s = (Ok (leaf_of (mem s) (cr3 s) v), s).
Proof using HHDM_room.
  intros Ht S. unfold walk, current_pml4. munfold. rewrite (root_ok _ _ _ Ht S).
  set (m := mem s) in *. set (r := cr3 s) in *.
  assert (∀ p t l, length p ≤ 3 → node m r p = Some t →
    ∃ e, ent m t (idx v l) = Some e ∧ read_entry HHDM_OFFSET t (idx v l) s = (Ok e, s) ∧
      node m r (p ++ [idx v l]) = down e) as Hstep.
  { intros p t l Lp Np. destruct (node_ent m H r p t (idx v l) Ht S Lp Np (idx_lt v l)) as (e & E & _).
    exists e. split_and!; [done|by apply read_eq|by eapply node_next]. }
  destruct (Hstep [] r 3%Z ltac:(simpl; lia) eq_refl) as (e4 & E4 & -> & N3).
  pose proof (sp_top _ _ _ S _ _ E4) as H4. rewrite down_eq, H4 in N3. cbn [app] in N3.
  unfold leaf_of, entry.
  destruct (has e4 PRESENT); cbn [negb]; last first.
  { rewrite (node_stuck _ _ _ [idx v 2; idx v 1] N3 : node m r [_; _; _] = None), (node_stuck _ _ _ [idx v 2] N3 : node m r [_; _] = None), N3. done. }
  destruct (Hstep [idx v 3] _ 2%Z ltac:(simpl; lia) N3) as (e3 & E3 & -> & N2). rewrite down_eq in N2. cbn [app] in N2.
  destruct (has e3 PRESENT) eqn:P3; cbn [negb]; last first.
  { rewrite (node_stuck _ _ _ [idx v 1] N2 : node m r [_; _; _] = None), N2, N3. simpl. by rewrite E3, P3. }
  destruct (has e3 HUGE) eqn:H3; cbn [negb].
  { rewrite (node_stuck _ _ _ [idx v 1] N2 : node m r [_; _; _] = None), N2, N3. simpl. by rewrite E3, P3. }
  destruct (Hstep [idx v 3; idx v 2] _ 1%Z ltac:(simpl; lia) N2) as (e2 & E2 & -> & N1). rewrite down_eq in N1. cbn [app] in N1.
  destruct (has e2 PRESENT) eqn:P2; cbn [negb]; [|rewrite N1, N2; simpl; by rewrite E2, P2].
  destruct (has e2 HUGE) eqn:H2; cbn [negb]; [rewrite N1, N2; simpl; by rewrite E2, P2|].
  destruct (Hstep [idx v 3; idx v 2; idx v 1] _ 0%Z ltac:(simpl; lia) N1) as (e1 & E1 & -> & _). rewrite N1. simpl. rewrite E1.
  by destruct (has e1 PRESENT).
Qed.
End exec.
