(* ===== verification/PagingOps.v ===== *)
(** * Editing a space: what each edit does to the mapping *)

From S2P Require Import Prelude Arch Buddy MemInit Frames Paging PagingInv.

(** The page of [v]: the table that holds its last entry, and the index there. *)
Definition page (v : Z) : list nat * nat := ([idx v 3; idx v 2; idx v 1], idx v 0).

#[local] Opaque idx.

Section mapping.
Context (m : memory) (H : gset Z) (root : Z).
Hypothesis (TB : tabs m) (SP : is_space m H root).

Lemma entry_Some p t i : length p ≤ 3 → node m root p = Some t → i < 512 → is_Some (entry m root p i).
Proof using TB SP.
  intros Lp Np Hi. destruct (node_ent m H root p t i TB SP Lp Np Hi) as (e & _ & He). by exists e.
Qed.

(** An intermediate entry changes no mapping where only it changes. *)
Lemma maps_inner_ext m' p i x v : length p ≤ 2 → is_Some (node m root (p ++ [i])) →
  (∀ q j, length q ≤ 3 → entry m' root q j = if decide (q = p ∧ j = i) then Some x else entry m root q j) →
  maps m' root v = maps m root v.
Proof using TB SP.
  intros Lp [c Hc] EW. unfold maps. f_equal. unfold leaf_of.
  assert (∀ q k, node m root (q ++ [k]) = None → ¬ (q = p ∧ k = i)) as Hne by (intros q k N [-> ->]; congruence).
  rewrite !(EW [idx v 3; idx v 2; idx v 1]) by (simpl; lia).
  rewrite decide_False by (intros [<- _]; simpl in Lp; lia).
  destruct (entry m root [idx v 3; idx v 2; idx v 1] (idx v 0)) eqn:E1; [done|].
  assert (node m root ([idx v 3; idx v 2] ++ [idx v 1]) = None) as N1.
  { destruct (node m root ([idx v 3; idx v 2] ++ [idx v 1])) as [t1|] eqn:N; [|done].
    destruct (entry_Some [idx v 3; idx v 2; idx v 1] t1 (idx v 0)) as [? ?]; [simpl; lia|done|apply idx_lt|congruence]. }
  rewrite !(EW [idx v 3; idx v 2]) by (simpl; lia). rewrite decide_False by (by apply Hne).
  destruct (entry m root [idx v 3; idx v 2] (idx v 1)) eqn:E2; [done|].
  assert (node m root ([idx v 3] ++ [idx v 2]) = None) as N2.
  { destruct (node m root ([idx v 3] ++ [idx v 2])) as [t1|] eqn:N; [|done].
    destruct (entry_Some [idx v 3; idx v 2] t1 (idx v 1)) as [? ?]; [simpl; lia|done|apply idx_lt|congruence]. }
  rewrite !(EW [idx v 3]) by (simpl; lia). by rewrite decide_False by (by apply Hne).
Qed.

(** Changing the flags of an intermediate entry changes no mapping. *)
Lemma maps_inner p t T i e x v : length p ≤ 2 → node m root p = Some t → m !! t = Some T →
  i < length T → ent m t i = Some e → is_Some (down e) → down x = down e →
  maps (<[t:=<[i:=x]> T]> m) root v = maps m root v.
Proof using TB SP.
  intros Lp Np HT Hi He Hc Hx. apply (maps_inner_ext _ p i x v Lp).
  - rewrite node_snoc. unfold entry. rewrite Np. simpl. by rewrite He.
  - intros q j Lq. apply (entry_write_same m H root t T p i x SP ltac:(lia) Np HT Hi); [|done]. rewrite He. simpl. congruence.
Qed.

(** Writing a last-level entry changes the page it maps and no other. *)
Lemma maps_leaf v t T x v' : node m root (page v).1 = Some t → m !! t = Some T → length T = 512 →
  maps (<[t:=<[(page v).2:=x]> T]> m) root v' =
    if decide (page v' = page v)
    then if has x PRESENT then Some (meaning v' (x, 0xfff)%Z) else None
    else maps m root v'.
Proof using TB SP.
  intros Np HT HL. change (page v).1 with [idx v 3; idx v 2; idx v 1] in Np.
  change (page v).2 with (idx v 0). pose proof (idx_lt v 0) as Hi.
  assert (∀ q, length q ≤ 3 → ¬ ([idx v 3; idx v 2; idx v 1] ++ [idx v 0]) `prefix_of` q) as Hpre.
  { intros q Lq [r Hr]. apply (f_equal length) in Hr. rewrite !length_app in Hr. simpl in Hr. lia. }
  pose proof (λ q j, entry_write m H root t T [idx v 3; idx v 2; idx v 1] (idx v 0) x SP ltac:(simpl; lia) Np HT ltac:(lia) q j) as EW.
  assert (∀ q j, length q ≤ 3 → entry (<[t:=<[idx v 0:=x]> T]> m) root q j =
    if decide (q = [idx v 3; idx v 2; idx v 1] ∧ j = idx v 0) then Some x else entry m root q j) as EW'.
  { intros q j Lq. apply EW; [done|by apply Hpre]. }
  unfold maps, leaf_of. rewrite !EW' by (cbn [length]; lia).
  rewrite (decide_False (P := [idx v' 3; idx v' 2] = _ ∧ _)) by (by intros [? _]).
  rewrite (decide_False (P := [idx v' 3] = _ ∧ _)) by (by intros [? _]).
  destruct (decide (page v' = page v)) as [E|E].
  - unfold page in E. injection E as E3 E2 E1 E0. rewrite E3, E2, E1, E0, !decide_True by done.
    by destruct (has x PRESENT).
  - rewrite decide_False; [done|]. intros [E1 E0]. apply E. unfold page. by rewrite E1, E0.
Qed.
End mapping.

(** ** The split of a huge page *)

Lemma split_present e2 j : has e2 PRESENT = true → has (split_entry e2 j) PRESENT = true.
Proof. intros H. unfold split_entry. bits. by rewrite H, orb_true_r. Qed.

Lemma split_addr e2 j : j < 512 → let pa := (Z.ldiff (Z.land e2 ADDR_MASK) 0x1fffff + Z.of_nat j * 4096)%Z in
  Z.land pa ADDR_MASK = pa ∧ (pa mod 4096 = 0)%Z.
Proof.
  intros Hj pa. destruct (huge_base e2) as (B1 & B2 & B3). set (b := Z.ldiff _ _) in *.
  assert (pa mod 4096 = 0)%Z as Ha.
  { unfold pa. rewrite Z.mod_add by lia.
    assert (b = 512 * (b / 2 ^ 21) * 4096)%Z as -> by (pose proof (Z.div_mod b (2 ^ 21) ltac:(lia)); lia).
    apply Z.mod_mul. lia. }
  split; [|done]. apply land_addr; [lia|done].
Qed.

(** Each page keeps its address and its rights. *)
Lemma split_meaning e2 v : meaning v (split_entry e2 (idx v 0), 0xfff)%Z = meaning v (e2, 0x1fffff)%Z.
Proof.
  unfold meaning. simpl fst. simpl snd. destruct (split_addr e2 (idx v 0) (idx_lt v 0)) as [Hm Ha].
  unfold split_entry. set (b := Z.ldiff (Z.land e2 ADDR_MASK) 0x1fffff) in *.
  set (pa := (b + Z.of_nat (idx v 0) * 4096)%Z) in *.
  assert (Z.land (Z.ldiff (Z.ldiff e2 ADDR_MASK) HUGE) ADDR_MASK = 0%Z) as Hf.
  { rewrite !Z.ldiff_land, <- !Z.land_assoc. rewrite (Z.land_comm (Z.lnot HUGE)), (Z.land_assoc (Z.lnot ADDR_MASK)).
    change (Z.land (Z.lnot ADDR_MASK) ADDR_MASK) with 0%Z. by rewrite Z.land_0_l, Z.land_0_r. }
  bits. rewrite !(has_addr pa) by done. simpl. rewrite addr_lor by done. do 2 f_equal.
  change 0xfff%Z with (Z.ones 12). change 0x1fffff%Z with (Z.ones 21). rewrite !Z.land_ones by lia.
  rewrite Z.ldiff_ones_r, Z.shiftl_mul_pow2, Z.shiftr_div_pow2 by lia.
  change (2 ^ 12)%Z with 4096%Z. assert (pa / 4096 * 4096 = pa)%Z as -> by (pose proof (Z.div_mod pa 4096 ltac:(lia)); lia).
  unfold pa. rewrite idx_eq by lia. change (2 ^ (12 + 9 * 0))%Z with 4096%Z.
  change (2 ^ 21)%Z with (4096 * 512)%Z. rewrite (Z.rem_mul_r v 4096 512) by lia. lia.
Qed.

Lemma maps_split m H root v pd T e2 n x :
  tabs m → is_space m H root → node m root [idx v 3; idx v 2] = Some pd → m !! pd = Some T →
  T !! idx v 1 = Some e2 → has e2 PRESENT = true → has e2 HUGE = true →
  n ∉ H → frame_ok n → down x = Some n →
  let m' := <[pd:=<[idx v 1:=x]> T]> (<[n:=splits e2]> m) in
  is_space m' ({[n]} ∪ H) root ∧ node m' root (page v).1 = Some n ∧
  (∀ q j, length q ≤ 2 → entry m' root q j =
     if decide (q = [idx v 3; idx v 2] ∧ j = idx v 1) then Some x else entry m root q j) ∧
  (∀ q t, length q ≤ 3 → node m' root q = Some t → node m root q = Some t ∨ t = n) ∧
  ∀ v', maps m' root v' = maps m root v'.
Proof.
  intros TB SP Np HT He2 P2 H2 Hn Fn Hx m'. set (m1 := <[n:=splits e2]> m).
  pose proof (keeps_fresh m H n (splits e2) root SP Hn : keeps m m1 root) as K.
  assert (is_space m1 ({[n]} ∪ H) root) as SP1 by (eapply is_space_mono; [|by eapply keeps_space]; set_solver).
  assert (tabs m1) as TB1 by (apply tabs_insert; [done|done|unfold splits; by rewrite length_fmap, length_seq]).
  assert (pd ≠ n) as Hne.
  { intros ->. apply (sp_held _ _ _ SP) in Np as [? _]; [done|simpl; lia]. }
  assert (m1 !! pd = Some T) as HT1 by (unfold m1; by rewrite lookup_insert_ne).
  assert (node m1 root [idx v 3; idx v 2] = Some pd) as Np1 by (by rewrite (keeps_node m m1) by (done || (simpl; lia))).
  pose proof (lookup_lt_Some _ _ _ He2) as Hi.
  assert (ent m1 pd (idx v 1) = Some e2) as E2 by (unfold ent; by rewrite HT1).
  assert (down e2 = None) as D2 by (unfold down; by rewrite P2, H2).
  pose proof (entry_write m1 ({[n]} ∪ H) root pd T [idx v 3; idx v 2] (idx v 1) x SP1 ltac:(simpl; lia) Np1 HT1 Hi) as EW.
  assert (node m' root (page v).1 = Some n) as Nn.
  { change (page v).1 with ([idx v 3; idx v 2] ++ [idx v 1]). rewrite node_snoc. unfold m'. fold m1.
    rewrite EW; [by rewrite decide_True|simpl; lia|]. intros [r Hr]. apply (f_equal length) in Hr. simpl in Hr. lia. }
  assert (is_space m' ({[n]} ∪ H) root) as SP'.
  { apply (space_write_link m1 ({[n]} ∪ H) root pd T [idx v 3; idx v 2] (idx v 1) x SP1 ltac:(simpl; lia) Np1 HT1 Hi n); try done.
    - set_solver.
    - unfold m1. by rewrite lookup_insert_eq.
    - intros q Lq. rewrite (keeps_node m m1) by (done || lia). intros Nq. by apply (sp_held _ _ _ SP) in Nq as [? _]. }
  split_and!; try done.
  { intros q j Lq. rewrite <- (keeps_entry m m1) by (done || lia). apply EW; [lia|].
    intros [r Hr]. apply (f_equal length) in Hr. rewrite length_app in Hr. simpl in Hr. lia. }
  { intros q t Lq. unfold m'. fold m1.
    rewrite (node_write_link m1 ({[n]} ∪ H) root pd T [idx v 3; idx v 2] (idx v 1) x SP1 ltac:(simpl; lia) Np1 HT1 Hi n) by done.
    case_decide; [intros [= <-]; by right|]. rewrite (keeps_node m m1) by (done || lia). by left. }
  intros v'. rewrite <- (keeps_maps m m1 root v' K).
  destruct (decide ([idx v' 3; idx v' 2; idx v' 1] = (page v).1)) as [E|E].
  - assert (maps m' root v' = Some (meaning v' (split_entry e2 (idx v' 0), 0xfff)%Z)) as ->.
    { unfold maps, leaf_of, entry. rewrite E, Nn. simpl. unfold m'. rewrite ent_insert_ne by done.
      rewrite ent_insert. unfold splits. rewrite lookup_fill by apply idx_lt. by rewrite split_present. }
    rewrite split_meaning. injection E as E3 E4 E5. unfold maps, leaf_of.
    assert (entry m1 root [idx v' 3; idx v' 2; idx v' 1] (idx v' 0) = None) as ->.
    { rewrite E3, E4, E5. unfold entry. change [idx v 3; idx v 2; idx v 1] with ([idx v 3; idx v 2] ++ [idx v 1]).
      rewrite node_snoc. unfold entry. rewrite Np1. simpl. rewrite E2. simpl. by rewrite D2. }
    rewrite E3, E4, E5. unfold entry. rewrite Np1. simpl. by rewrite E2, P2.
  - unfold maps, leaf_of, m'. fold m1. rewrite !EW; cbn [length]; try lia.
    + rewrite (decide_False (P := [idx v' 3; idx v' 2; idx v' 1] = _ ∧ _)) by (by intros [? _]).
      rewrite (decide_False (P := [idx v' 3; idx v' 2] = _ ∧ _)) by (intros [? ?]; apply E; simpl; congruence).
      by rewrite (decide_False (P := [idx v' 3] = _ ∧ _)) by (by intros [? _]).
    + intros [r Hr]. apply (f_equal length) in Hr. simpl in Hr. lia.
    + intros [r Hr]. apply (f_equal length) in Hr. simpl in Hr. lia.
    + intros [r Hr]. apply E. rewrite Hr. simpl. destruct r; [done|]. apply (f_equal length) in Hr. simpl in Hr. lia.
Qed.

(** ** The operations *)

Lemma down_Some e t : down e = Some t ↔ has e PRESENT = true ∧ has e HUGE = false ∧ t = Z.land e ADDR_MASK.
Proof. rewrite down_eq. destruct (has e PRESENT), (has e HUGE); naive_solver. Qed.

(** [v] is covered by a 2 MiB page or a last-level table. *)
Definition covered (m : memory) (root v : Z) (pd : Z) : Prop :=
  node m root [idx v 3; idx v 2] = Some pd ∧
  ∃ e2, ent m pd (idx v 1) = Some e2 ∧ has e2 PRESENT = true.

(** The first two steps of a walk to a covered address. *)
Lemma covered_path m root v pd : covered m root v pd → ∃ e4 pdpt e3,
  ent m root (idx v 3) = Some e4 ∧ down e4 = Some pdpt ∧ node m root [idx v 3] = Some pdpt ∧
  ent m pdpt (idx v 2) = Some e3 ∧ down e3 = Some pd.
Proof.
  intros [N _]. change [idx v 3; idx v 2] with ([idx v 3] ++ [idx v 2]) in N.
  rewrite node_snoc in N. unfold entry in N. destruct (node m root [idx v 3]) as [pdpt|] eqn:N3; [|done].
  simpl in N. destruct (ent m pdpt (idx v 2)) as [e3|] eqn:E3; [|done]. simpl in N.
  change [idx v 3] with ([] ++ [idx v 3]) in N3. rewrite node_snoc in N3. unfold entry in N3. simpl in N3.
  destruct (ent m root (idx v 3)) as [e4|] eqn:E4; [|done]. simpl in N3. by exists e4, pdpt, e3.
Qed.

(** From [m] to [m'] the intermediate entries of [root] keep where they lead and
    whether they are present, but that a directory entry may be split. *)
Definition gentle (m m' : memory) (root : Z) : Prop :=
  ∀ q j, length q ≤ 2 → entry m' root q j = entry m root q j ∨
    ∃ e x, entry m root q j = Some e ∧ entry m' root q j = Some x ∧
      (down x = down e ∧ has x PRESENT = has e PRESENT ∨ length q = 2 ∧ has x PRESENT = true ∧ down e = None).

Lemma gentle_refl m root : gentle m m root.
Proof. by left. Qed.

Lemma gentle_trans m1 m2 m3 root : gentle m1 m2 root → gentle m2 m3 root → gentle m1 m3 root.
Proof.
  intros G1 G2 q j Lq. destruct (G2 q j Lq) as [->|(e' & x' & E' & -> & Hx')]; [by apply G1|].
  right. destruct (G1 q j Lq) as [E|(e & x & E & Ex & Hx)].
  - rewrite E in E'. eauto.
  - rewrite Ex in E'. simplify_eq. exists e, x'. split; [done|]. split; [done|].
    destruct Hx as [[D P]|(L & P & N)], Hx' as [[D' P']|(L' & P' & N')]; [left|right|right|right]; split_and!; congruence.
Qed.

Lemma gentle_same m m' root : (∀ q j, length q ≤ 2 → entry m' root q j = entry m root q j) → gentle m m' root.
Proof. intros E q j Lq. left. by apply E. Qed.

Lemma gentle_node m m' root q t : gentle m m' root → length q ≤ 3 → node m root q = Some t → node m' root q = Some t.
Proof.
  intros G. revert t. induction q as [|i q IH] using rev_ind; intros t Lq; [done|]. rewrite length_app in Lq. simpl in Lq.
  rewrite !node_snoc. intros N. destruct (G q i) as [->|(e & x & E & -> & Hx)]; [lia|done|].
  rewrite E in N. simpl in *. destruct Hx as [[-> _]|(_ & _ & ?)]; [done|congruence].
Qed.

Lemma gentle_covered m m' root v pd : gentle m m' root → covered m root v pd → covered m' root v pd.
Proof.
  intros G [N (e2 & E2 & P2)].
  assert (∀ q i, length q ≤ 1 → node m' root (q ++ [i]) = node m root (q ++ [i])) as Hn.
  { intros q i Lq. rewrite !node_snoc. destruct (G q i) as [->|(e & x & -> & -> & Hx)]; [lia|done|].
    simpl. destruct Hx as [[-> _]|[? _]]; [done|lia]. }
  assert (node m' root [idx v 3; idx v 2] = Some pd) as N' by (change [idx v 3; idx v 2] with ([idx v 3] ++ [idx v 2]); rewrite Hn; [done|simpl; lia]).
  split; [done|]. assert (∀ n, node n root [idx v 3; idx v 2] = Some pd → ent n pd (idx v 1) = entry n root [idx v 3; idx v 2] (idx v 1)) as He.
  { intros n Nn. unfold entry. by rewrite Nn. }
  rewrite (He m') by done. rewrite (He m) in E2 by done.
  destruct (G [idx v 3; idx v 2] (idx v 1)) as [->|(e & x & Ee & -> & Hx)]; [simpl; lia|by eauto|].
  exists x. split; [done|]. rewrite Ee in E2. simplify_eq. destruct Hx as [[_ ->]|(_ & ? & _)]; done.
Qed.

Section ops.
Context {F : Type} {FS : FrameSource F}.
Implicit Types s : Mach F.

(** From [s] to [s'] only the tables [ts] of those held change. *)
Record edits (s s' : Mach F) (H H' : gset Z) (n : nat) (ts : list Z) : Prop := {
  ed_okay : okay s' H' n;
  ed_grow : H ⊆ H';
  ed_cr3 : cr3 s' = cr3 s;
  ed_kpml4 : KERNEL_PML4 s' = KERNEL_PML4 s;
  ed_only t : t ∈ H → t ∉ ts → mem s' !! t = mem s !! t
}.

Lemma edits_keeps s s' H H' n ts r : edits s s' H H' n ts → is_space (mem s) H r →
  (∀ p t, length p ≤ 3 → node (mem s) r p = Some t → t ∉ ts) → keeps (mem s) (mem s') r.
Proof using Type.
  intros E SP Hn p t Lp Np. apply (ed_only _ _ _ _ _ _ E); [|by eapply Hn].
  by apply (sp_held _ _ _ SP) in Np as [? _].
Qed.

Lemma edits_trans s1 s2 s3 H1 H2 H3 n1 n2 ts1 ts2 : edits s1 s2 H1 H2 n1 ts1 → edits s2 s3 H2 H3 n2 ts2 →
  edits s1 s3 H1 H3 n2 (ts1 ++ ts2).
Proof using Type.
  intros [A1 A2 A3 A4 A5] [B1 B2 B3 B4 B5]. split; [done|set_solver|congruence..|].
  intros t Ht Hn. apply not_elem_of_app in Hn as [Hn1 Hn2]. rewrite B5 by set_solver. by apply A5.
Qed.

Lemma okay_weaken s H n k : k ≤ n → okay s H n → okay s H k.
Proof using Type. intros Hk [O1 O2 O3]. split; [done|by eapply supply_le|done]. Qed.

Lemma edits_refl s H n ts : okay s H n → edits s s H H n ts.
Proof using Type. by split. Qed.

Variable HHDM_OFFSET : Z.
Hypothesis HHDM_room : (0 <= HHDM_OFFSET <= 2 ^ 64 - 2 ^ 44)%Z.

(** One entry of one held table. *)
Lemma write_edits s H n t T i x : okay s H n → mem s !! t = Some T → i < 512 →
  ∃ s', write_entry HHDM_OFFSET t i x s = (Ok (), s') ∧ mem s' = <[t:=<[i:=x]> T]> (mem s) ∧
    flushed s' = flushed s ∧ edits s s' H H n [t].
Proof using HHDM_room.
  intros [O1 O2 O3] HT Hi. eexists. split; [by eapply write_eq|]. split; [done|]. split; [done|].
  split; [split|done..|]; try done.
  - simpl. by eapply tabs_write.
  - intros t' Ht' Hn. simpl. rewrite lookup_insert_ne; [done|set_solver].
Qed.

(** The only new table of the space is [pt]. *)
Definition adds (m m' : memory) (root pt : Z) : Prop :=
  ∀ q t, length q ≤ 3 → node m' root q = Some t → node m root q = Some t ∨ t = pt.

(** Swinging the entry of a split page to the new table. *)
Lemma split_edits s H n v pd T e2 (mk : Z → Z) : okay s H (S n) → is_space (mem s) H (cr3 s) →
  node (mem s) (cr3 s) [idx v 3; idx v 2] = Some pd → mem s !! pd = Some T → T !! idx v 1 = Some e2 →
  has e2 PRESENT = true → has e2 HUGE = true → (∀ t, frame_ok t → down (mk t) = Some t) →
  ∃ pt s', (new_pt ← split_huge HHDM_OFFSET e2; write_entry HHDM_OFFSET pd (idx v 1) (mk new_pt);; mret new_pt) s = (Ok pt, s') ∧
    (pt ∉ H) ∧ edits s s' H ({[pt]} ∪ H) n [pd] ∧ flushed s' = flushed s ∧
    is_space (mem s') ({[pt]} ∪ H) (cr3 s) ∧ node (mem s') (cr3 s) (page v).1 = Some pt ∧
    (∀ q j, length q ≤ 2 → entry (mem s') (cr3 s) q j =
       if decide (q = [idx v 3; idx v 2] ∧ j = idx v 1) then Some (mk pt) else entry (mem s) (cr3 s) q j) ∧
    adds (mem s) (mem s') (cr3 s) pt ∧
    (∀ v', maps (mem s') (cr3 s) v' = maps (mem s) (cr3 s) v').
Proof using HHDM_room.
  intros Hok SP Np HT He2 P2 H2 Hmk.
  destruct (split_huge_eq HHDM_OFFSET HHDM_room s H n e2 Hok) as (t & f & Hs & Hn & Hf & Hok1).
  set (s1 := upd s _ f) in *. assert (pd ≠ t) as Hne.
  { intros ->. apply (sp_held _ _ _ SP) in Np as [? _]; [done|simpl; lia]. }
  assert (mem s1 !! pd = Some T) as HT1 by (simpl; by rewrite lookup_insert_ne).
  destruct (write_edits s1 ({[t]} ∪ H) n pd T (idx v 1) (mk t) Hok1 HT1 (idx_lt v 1)) as (s2 & Hw & Hm2 & Hfl & E2).
  exists t, s2. unfold mbind, M_bind. rewrite Hs, Hw. split; [done|].
  destruct (maps_split (mem s) H (cr3 s) v pd T e2 t (mk t) (ok_tabs _ _ _ Hok) SP Np HT He2 P2 H2 Hn Hf (Hmk t Hf)) as (S' & N' & W' & A' & M').
  rewrite Hm2. split_and!; try done. destruct E2 as [A1 A2 A3 A4 A5]. split; try done; [set_solver|].
  intros t' Ht' Hnt. rewrite A5 by set_solver. simpl. rewrite lookup_insert_ne; [done|set_solver].
Qed.

Lemma read_run {B} s H n t i e (k : Z → M (Mach F) Empty_set B) : okay s H n → ent (mem s) t i = Some e →
  (read_entry HHDM_OFFSET t i ≫= k) s = k e s.
Proof using HHDM_room. intros Hok He. apply bind_run, read_eq; [done|by apply (ok_tabs _ _ _ Hok)|done]. Qed.

Lemma assert_run {B} s b (k : unit → M (Mach F) Empty_set B) : b = true → (assert b ≫= k) s = k () s.
Proof using Type. clear HHDM_room. by intros ->. Qed.

Lemma root_run {B} s H n (k : Z → M (Mach F) Empty_set B) : okay s H n → is_space (mem s) H (cr3 s) →
  (current_pml4 ≫= k) s = k (cr3 s) s.
Proof using Type.
  clear HHDM_room. intros Hok SP. eapply bind_run. unfold current_pml4. erewrite bind_run by reflexivity. unfold mret, M_ret.
  by rewrite (root_ok _ _ _ (ok_tabs _ _ _ Hok) SP).
Qed.

(** What [ensure_pt] and [ensure_pt_user] promise: the last-level table of [v],
    with every mapping as it was. *)
Definition ensured (s : Mach F) (H : gset Z) (n : nat) (v : Z) (ts : list Z) (Q : memory → Prop)
    (r : res Empty_set Z * Mach F) : Prop :=
  ∃ pt s', r = (Ok pt, s') ∧ (pt ∉ H ∨ node (mem s) (cr3 s) (page v).1 = Some pt) ∧
    edits s s' H ({[pt]} ∪ H) n ts ∧ flushed s' = flushed s ∧
    is_space (mem s') ({[pt]} ∪ H) (cr3 s) ∧ node (mem s') (cr3 s) (page v).1 = Some pt ∧
    (∀ v', maps (mem s') (cr3 s) v' = maps (mem s) (cr3 s) v') ∧ gentle (mem s) (mem s') (cr3 s) ∧ adds (mem s) (mem s') (cr3 s) pt ∧ Q (mem s').

(** A present entry, and one that replaces it. *)
Lemma gentle_patch m m' root p i e x :
  (∀ q j, length q ≤ 2 → entry m' root q j = if decide (q = p ∧ j = i) then Some x else entry m root q j) →
  entry m root p i = Some e →
  (down x = down e ∧ has x PRESENT = has e PRESENT ∨ length p = 2 ∧ has x PRESENT = true ∧ down e = None) → gentle m m' root.
Proof using Type.
  clear HHDM_room. intros E Ee Hx q j Lq. rewrite E by done. case_decide as Hd; [|by left]. destruct Hd as [-> ->].
  right. by exists e, x.
Qed.

Lemma link_present t f : has f PRESENT = true → has (Z.lor t f) PRESENT = true.
Proof using Type. intros Hf. by rewrite has_lor, Hf, orb_true_r. Qed.

Lemma node_entry m root p t i : node m root p = Some t → entry m root p i = ent m t i.
Proof using Type. intros N. unfold entry. by rewrite N. Qed.

Lemma ent_table m t i e : ent m t i = Some e → ∃ T, m !! t = Some T ∧ T !! i = Some e.
Proof using Type. unfold ent. destruct (m !! t) as [T|]; simpl; [eauto|done]. Qed.

(** A table that is already there. *)
Lemma entry_table m H root p t i e : is_space m H root → length p ≤ 3 → node m root p = Some t → entry m root p i = Some e →
  ∃ T, m !! t = Some T ∧ T !! i = Some e.
Proof using Type. intros SP Lp Np E. unfold entry in E. rewrite Np in E. simpl in E. by apply ent_table. Qed.

Lemma ensured_there s H n v pd e2 ts (Q : memory → Prop) : Q (mem s) → okay s H (S n) → is_space (mem s) H (cr3 s) →
  node (mem s) (cr3 s) [idx v 3; idx v 2] = Some pd → ent (mem s) pd (idx v 1) = Some e2 →
  has e2 PRESENT = true → has e2 HUGE = false → ensured s H n v ts Q (Ok (Z.land e2 ADDR_MASK), s).
Proof using Type.
  clear HHDM_room. intros HQ Hok SP Np E2 P2 H2.
  assert (node (mem s) (cr3 s) (page v).1 = Some (Z.land e2 ADDR_MASK)) as Npt.
  { change (page v).1 with ([idx v 3; idx v 2] ++ [idx v 1]). rewrite (node_next _ _ _ _ _ _ Np E2).
    by apply down_Some. }
  exists (Z.land e2 ADDR_MASK), s.
  assert ({[Z.land e2 ADDR_MASK]} ∪ H = H) as ->.
  { apply (sp_held _ _ _ SP) in Npt as [? _]; [set_solver|simpl; lia]. }
  split_and!; try done; [by right| |apply gentle_refl|by left]. apply edits_refl. by eapply okay_weaken; [|exact Hok]; lia.
Qed.

Lemma ensure_pt_spec s H n v pd : okay s H (S n) → is_space (mem s) H (cr3 s) → covered (mem s) (cr3 s) v pd →
  ensured s H n v [pd] (λ _, True) (ensure_pt HHDM_OFFSET v s).
Proof using HHDM_room.
  intros Hok SP Hc. destruct (covered_path _ _ _ _ Hc) as (e4 & pdpt & e3 & E4 & D4 & N3 & E3 & D3).
  destruct Hc as [Np (e2 & E2 & P2)]. apply down_Some in D4 as (P4 & _ & ->). apply down_Some in D3 as (P3 & H3 & ->).
  unfold ensure_pt. erewrite root_run by done. erewrite read_run by done. rewrite assert_run by done.
  erewrite read_run by done. rewrite assert_run by (by rewrite P3, H3). cbv zeta. erewrite read_run by done.
  rewrite assert_run by done. destruct (has e2 HUGE) eqn:H2; [|by eapply ensured_there].
  destruct (ent_table _ _ _ _ E2) as (T & HT & He2).
  destruct (split_edits s H n v _ T e2 (λ t, Z.lor (Z.lor t PRESENT) WRITABLE) Hok SP Np HT He2 P2 H2)
    as (pt & s' & Hr & Fr & Ed & Hf & SP' & N' & W' & A' & M').
  { intros t Ht. rewrite <- Z.lor_assoc. by apply down_link. }
  exists pt, s'. split_and!; try done; [by left|]. eapply gentle_patch; [exact W'|unfold entry; by rewrite Np|].
  right. split_and!; [done|rewrite <- Z.lor_assoc; by apply link_present|]. by rewrite down_eq, P2, H2.
Qed.

Definition with_user (e : Z) : Z := if has e USER then e else Z.lor e USER.

Lemma with_user_spec e : has (with_user e) USER = true ∧ down (with_user e) = down e ∧ has (with_user e) PRESENT = has e PRESENT.
Proof using Type.
  unfold with_user. destruct (has e USER) eqn:Hu; [done|]. split_and!; [|apply down_user|].
  - rewrite has_lor. by rewrite orb_true_r.
  - rewrite has_lor. apply orb_false_r.
Qed.

(** Opening an intermediate entry to user mode. *)
Lemma set_user_spec s H n p t i e c : okay s H n → is_space (mem s) H (cr3 s) → length p ≤ 2 →
  node (mem s) (cr3 s) p = Some t → ent (mem s) t i = Some e → i < 512 → down e = Some c →
  ∃ s', set_user HHDM_OFFSET t i e s = (Ok (), s') ∧ edits s s' H H n [t] ∧ flushed s' = flushed s ∧
    is_space (mem s') H (cr3 s) ∧
    (∀ q, length q ≤ 4 → node (mem s') (cr3 s) q = node (mem s) (cr3 s) q) ∧
    (∀ q j, length q ≤ 3 → entry (mem s') (cr3 s) q j =
       if decide (q = p ∧ j = i) then Some (with_user e) else entry (mem s) (cr3 s) q j) ∧
    (∀ v', maps (mem s') (cr3 s) v' = maps (mem s) (cr3 s) v').
Proof using HHDM_room.
  intros Hok SP Lp Np E Hi Hd. unfold set_user, with_user. destruct (has e USER) eqn:Hu.
  { exists s. split_and!; try done; try by apply edits_refl. intros q j Lq. case_decide as Hc; [|done].
    destruct Hc as [-> ->]. unfold entry. by rewrite Np. }
  destruct (ent_table _ _ _ _ E) as (T & HT & HE). pose proof (lookup_lt_Some _ _ _ HE) as HiT.
  destruct (write_edits s H n t T i (Z.lor e USER) Hok HT Hi) as (s' & Hw & Hm & Hf & Ed).
  exists s'. rewrite Hm. assert (ent (mem s) t i ≫= down = down (Z.lor e USER)) as Hdd by (rewrite E, down_user; done).
  split_and!; try done.
  - eapply space_write_same; try done; [lia| |by right]. intros _. rewrite has_lor. change (has USER HUGE) with false.
    apply down_Some in Hd as (_ & -> & _). done.
  - intros q Lq. eapply node_write_same; try done. lia.
  - intros q j Lq. eapply entry_write_same; try done. lia.
  - intros v'. apply (maps_inner (mem s) H (cr3 s) (ok_tabs _ _ _ Hok) SP p t T i e); try done. apply down_user.
Qed.

(** Ring 3 is let through to the last table of [v]. *)
Definition user_path (m : memory) (root v : Z) : Prop :=
  ∀ p i, (p, i) ∈ [([], idx v 3); ([idx v 3], idx v 2); ([idx v 3; idx v 2], idx v 1)] →
    ∃ e, entry m root p i = Some e ∧ has e USER = true.

(** Entries open to user mode stay open. *)
Definition opens (m m' : memory) (root : Z) : Prop :=
  ∀ q j e, length q ≤ 2 → entry m root q j = Some e → has e USER = true →
    ∃ x, entry m' root q j = Some x ∧ has x USER = true.

Lemma opens_trans m1 m2 m3 root : opens m1 m2 root → opens m2 m3 root → opens m1 m3 root.
Proof using Type.
  clear HHDM_room. intros O1 O2 q j e Lq He Hu. destruct (O1 q j e Lq He Hu) as (x & Hx & Hux). by apply (O2 q j x).
Qed.

Lemma opens_same m m' root : (∀ q j, length q ≤ 2 → entry m' root q j = entry m root q j) → opens m m' root.
Proof using Type. clear HHDM_room. intros E q j e Lq He Hu. exists e. by rewrite E. Qed.

Lemma opens_patch m m' root p i x :
  (∀ q j, length q ≤ 2 → entry m' root q j = if decide (q = p ∧ j = i) then Some x else entry m root q j) →
  has x USER = true → opens m m' root.
Proof using Type.
  clear HHDM_room. intros E Hx q j e Lq He Hu. rewrite E by done. case_decide; eauto.
Qed.

Lemma user_path_opens m m' root v : opens m m' root → user_path m root v → user_path m' root v.
Proof using Type.
  clear HHDM_room. intros O Hu p i Hp. destruct (Hu p i Hp) as (e & He & Hx). apply (O p i e); try done.
  repeat (apply elem_of_cons in Hp as [[= -> ->]|Hp]; [simpl; lia|]). by apply elem_of_nil in Hp.
Qed.

Lemma user_path_intro m root v e4 e3 e2 :
  entry m root [] (idx v 3) = Some e4 → entry m root [idx v 3] (idx v 2) = Some e3 →
  entry m root [idx v 3; idx v 2] (idx v 1) = Some e2 →
  has e4 USER = true → has e3 USER = true → has e2 USER = true → user_path m root v.
Proof using Type.
  clear HHDM_room. intros H4 H3 H2 U4 U3 U2 p i Hp.
  repeat (apply elem_of_cons in Hp as [[= -> ->]|Hp]; [eauto|]). by apply elem_of_nil in Hp.
Qed.


Lemma ensure_pt_user_spec s H n v pd : okay s H (S n) → is_space (mem s) H (cr3 s) → covered (mem s) (cr3 s) v pd →
  ∃ pdpt, node (mem s) (cr3 s) [idx v 3] = Some pdpt ∧
  ensured s H n v [cr3 s; pdpt; pd] (λ m, user_path m (cr3 s) v ∧ opens (mem s) m (cr3 s)) (ensure_pt_user HHDM_OFFSET v s).
Proof using HHDM_room.
  intros Hok SP Hc. destruct (covered_path _ _ _ _ Hc) as (e4 & pdpt & e3 & E4 & D4 & N3 & E3 & D3).
  destruct Hc as [Np (e2 & E2 & P2)]. exists pdpt. split; [done|].
  pose proof D4 as D4'. pose proof D3 as D3'. apply down_Some in D4' as (P4 & _ & A4). apply down_Some in D3' as (P3 & H3 & A3).
  unfold ensure_pt_user. erewrite root_run by done. erewrite read_run by done. rewrite assert_run by done.
  destruct (set_user_spec s H (S n) [] (cr3 s) (idx v 3) e4 pdpt Hok SP) as (s1 & R1 & Ed1 & F1 & SP1 & ND1 & EN1 & M1);
    [simpl; lia|done|done|apply idx_lt|done|].
  rewrite (bind_run _ _ _ _ _ R1). cbv zeta. rewrite <- A4. pose proof (ed_okay _ _ _ _ _ _ Ed1) as Hok1. pose proof (ed_cr3 _ _ _ _ _ _ Ed1) as C1.
  assert (ent (mem s1) pdpt (idx v 2) = Some e3) as E3'.
  { rewrite <- (node_entry _ (cr3 s) [idx v 3]) by (rewrite ND1; [done|simpl; lia]). rewrite EN1 by (simpl; lia).
    rewrite decide_False by (by intros [? _]). by rewrite (node_entry _ _ _ pdpt). }
  erewrite read_run by done. rewrite assert_run by (by rewrite P3, H3).
  rewrite <- C1 in SP1.
  destruct (set_user_spec s1 H (S n) [idx v 3] pdpt (idx v 2) e3 pd Hok1 SP1) as (s2 & R2 & Ed2 & F2 & SP2 & ND2 & EN2 & M2);
    [simpl; lia|rewrite C1, ND1 by (simpl; lia); done|done|apply idx_lt|done|].
  rewrite (bind_run _ _ _ _ _ R2).
  assert (gentle (mem s) (mem s1) (cr3 s)) as G1.
  { eapply (gentle_patch _ _ _ [] (idx v 3) e4); [intros; apply EN1; lia|unfold entry; simpl; done|left; apply with_user_spec]. }
  assert (opens (mem s) (mem s2) (cr3 s)) as O2.
  { rewrite C1 in EN2. eapply opens_trans; eapply opens_patch; [intros; apply EN1; lia| |intros; apply EN2; lia|]; apply with_user_spec. }
  assert (gentle (mem s1) (mem s2) (cr3 s)) as G2.
  { rewrite C1 in EN2. eapply (gentle_patch _ _ _ [idx v 3] (idx v 2) e3); [intros; apply EN2; lia| |left; apply with_user_spec].
    rewrite EN1, decide_False by (simpl; (lia || by intros [? _])). by rewrite (node_entry _ _ _ pdpt). }
  rewrite <- A3. rewrite C1 in *. pose proof (ed_okay _ _ _ _ _ _ Ed2) as Hok2. pose proof (ed_cr3 _ _ _ _ _ _ Ed2) as C2.
  rewrite C1 in C2. pose proof (edits_trans _ _ _ _ _ _ _ _ _ _ Ed1 Ed2) as Ed12. simpl app in Ed12.
  assert (node (mem s2) (cr3 s) [idx v 3; idx v 2] = Some pd) as Np2 by (rewrite ND2, ND1 by (simpl; lia); done).
  assert (ent (mem s2) pd (idx v 1) = Some e2) as E2'.
  { rewrite <- (node_entry _ (cr3 s) [idx v 3; idx v 2]) by done. rewrite EN2, decide_False by (simpl; (lia || by intros [? _])).
    rewrite EN1, decide_False by (simpl; (lia || by intros [? _])). by rewrite (node_entry _ _ _ pd). }
  erewrite read_run by done. rewrite assert_run by done. rewrite <- C2 in SP2, Np2.
  assert (∀ x m3, has x USER = true →
    (∀ q j, length q ≤ 2 → entry m3 (cr3 s) q j =
      if decide (q = [idx v 3; idx v 2] ∧ j = idx v 1) then Some x else entry (mem s2) (cr3 s) q j) →
    user_path m3 (cr3 s) v) as Hup.
  { intros x m3 Hx EN3. apply (user_path_intro _ _ _ (with_user e4) (with_user e3) x); try apply with_user_spec; try done.
    - rewrite EN3, decide_False by (simpl; (lia || by intros [? _])). rewrite EN2, decide_False by (simpl; (lia || by intros [? _])).
      rewrite EN1 by (simpl; lia). by rewrite decide_True.
    - rewrite EN3, decide_False by (simpl; (lia || by intros [? _])). rewrite EN2 by (simpl; lia). by rewrite decide_True.
    - rewrite EN3 by (simpl; lia). by rewrite decide_True. }
  destruct (has e2 HUGE) eqn:H2.
  - destruct (ent_table _ _ _ _ E2') as (T & HT & He2).
    destruct (split_edits s2 H n v pd T e2 (λ t, Z.lor (Z.lor (Z.lor t PRESENT) WRITABLE) USER) Hok2 SP2 Np2 HT He2 P2 H2)
      as (pt & s3 & Hr & Fr & Ed3 & F3 & SP3 & N3' & EN3 & A' & M3).
    { intros t Ht. rewrite <- !Z.lor_assoc. by apply down_link. }
    exists pt, s3. rewrite C2 in *. split_and!; try done.
    + by left.
    + apply (edits_trans _ _ _ _ _ _ _ _ [cr3 s; pdpt] [pd] Ed12 Ed3).
    + congruence.
    + intros v'. by rewrite M3, M2, M1.
    + eapply gentle_trans; [exact G1|]. eapply gentle_trans; [exact G2|].
      eapply gentle_patch; [exact EN3|by rewrite (node_entry _ _ _ pd)|]. right. split_and!; [done| |].
      { rewrite <- !Z.lor_assoc. by apply link_present. } { by rewrite down_eq, P2, H2. }
    + intros q t Lq Nq. destruct (A' q t Lq Nq) as [Nq'|]; [left|by right]. by rewrite <- ND1, <- ND2 by lia.
    + eapply Hup; [|exact EN3]. rewrite !has_lor. by rewrite orb_true_r.
    + eapply opens_trans; [exact O2|]. eapply opens_patch; [exact EN3|]. rewrite !has_lor. by rewrite orb_true_r.
  - destruct (set_user_spec s2 H (S n) [idx v 3; idx v 2] pd (idx v 1) e2 (Z.land e2 ADDR_MASK) Hok2 SP2)
      as (s3 & R3 & Ed3 & F3 & SP3 & ND3 & EN3 & M3); [simpl; lia|done|done|apply idx_lt|by apply down_Some|].
    rewrite (bind_run _ _ _ _ _ R3).
    rewrite C2 in *. exists (Z.land e2 ADDR_MASK), s3.
    assert (node (mem s3) (cr3 s) (page v).1 = Some (Z.land e2 ADDR_MASK)) as Npt.
    { change (page v).1 with ([idx v 3; idx v 2] ++ [idx v 1]). rewrite ND3 by (simpl; lia).
      rewrite (node_next _ _ _ _ _ _ Np2 E2'). by apply down_Some. }
    assert ({[Z.land e2 ADDR_MASK]} ∪ H = H) as ->.
    { apply (sp_held _ _ _ SP3) in Npt as [? _]; [set_solver|simpl; lia]. }
    split_and!; try done.
    + right. rewrite <- Npt, ND3, ND2, ND1 by (simpl; lia). done.
    + pose proof (edits_trans _ _ _ _ _ _ _ _ [cr3 s; pdpt] [pd] Ed12 Ed3) as [A B C D E].
      split; try done. by eapply okay_weaken; [|exact A]; lia.
    + congruence.
    + intros v'. by rewrite M3, M2, M1.
    + eapply gentle_trans; [exact G1|]. eapply gentle_trans; [exact G2|].
      eapply (gentle_patch _ _ _ [idx v 3; idx v 2] (idx v 1) e2); [intros; apply EN3; lia|by rewrite (node_entry _ _ _ pd)|].
      left; apply with_user_spec.
    + intros q t Lq Nq. left. by rewrite <- ND1, <- ND2, <- ND3 by lia.
    + eapply Hup; [apply with_user_spec|]. intros q j Lq. apply EN3. lia.
    + eapply opens_trans; [exact O2|]. eapply opens_patch; [intros; apply EN3; lia|apply with_user_spec].
Qed.

(** ** Writing the last-level entry *)

Lemma page_align v : page (Z.ldiff v 0xfff) = page v.
Proof using Type.
  clear HHDM_room. assert (∀ l, (0 <= l)%Z → idx (Z.ldiff v 0xfff) l = idx v l) as E.
  { intros l Hl. apply Nat2Z.inj. rewrite !idx_eq by done. f_equal.
    change 0xfff%Z with (Z.ones 12). rewrite Z.ldiff_ones_r, Z.shiftl_mul_pow2, Z.shiftr_div_pow2 by lia.
    rewrite Z.pow_add_r, <- !Z.div_div by lia. f_equal. apply Z.div_mul. lia. }
  unfold page. by rewrite !E by lia.
Qed.

Lemma covered_align m root v pd : covered m root (Z.ldiff v 0xfff) pd ↔ covered m root v pd.
Proof using Type.
  pose proof (page_align v) as E. unfold page in E. injection E as E3 E2 E1 _. unfold covered. by rewrite E3, E2, E1.
Qed.

(** The outcome of an edit of the page of [v]: its entry is [x], every other page
    maps as before. *)
Definition edited (s : Mach F) (H : gset Z) (n : nat) (v x : Z) (ts : list Z) (Q : memory → Prop)
    (r : res Empty_set unit * Mach F) : Prop :=
  ∃ pt s', r = (Ok (), s') ∧ (pt ∉ H ∨ node (mem s) (cr3 s) (page v).1 = Some pt) ∧
    edits s s' H ({[pt]} ∪ H) n (pt :: ts) ∧ flushed s' = flushed s ++ [v] ∧
    is_space (mem s') ({[pt]} ∪ H) (cr3 s) ∧ node (mem s') (cr3 s) (page v).1 = Some pt ∧
    (∀ v', maps (mem s') (cr3 s) v' =
       if decide (page v' = page v)
       then if has x PRESENT then Some (meaning v' (x, 0xfff)%Z) else None
       else maps (mem s) (cr3 s) v') ∧ gentle (mem s) (mem s') (cr3 s) ∧ adds (mem s) (mem s') (cr3 s) pt ∧ Q (mem s').

Lemma finish_edit s H n v x ts (Q : memory → Prop) r :
  (∀ m m', (∀ q j, length q ≤ 2 → entry m' (cr3 s) q j = entry m (cr3 s) q j) → Q m → Q m') →
  ensured s H n v ts Q r →
  edited s H n v x ts Q
    (match r with
     | (Ok pt, s1) => (write_entry HHDM_OFFSET pt (idx v 0) x;; invlpg v) s1
     | (Err e, s1) => (Err e, s1)
     | (Panic, s1) => (Panic, s1)
     end).
Proof using HHDM_room.
  intros HQ (pt & s1 & -> & Hpt & Ed & Hf & SP & N & M & G & Ad & Q1). pose proof (ed_okay _ _ _ _ _ _ Ed) as Hok1.
  destruct (sp_held _ _ _ SP (page v).1 pt) as [_ [T HT]]; [simpl; lia|done|].
  destruct (ok_tabs _ _ _ Hok1 pt T HT) as [_ HL].
  destruct (write_edits s1 ({[pt]} ∪ H) n pt T (idx v 0) x Hok1 HT (idx_lt v 0)) as (s2 & Hw & Hm & Hf2 & Ed2).
  assert (length (page v).1 ≤ 3) as L3 by (simpl; lia).
  assert (idx v 0 < length T) as Hi by (rewrite HL; apply idx_lt).
  rewrite (bind_run _ _ _ _ _ Hw). exists pt. eexists. split; [reflexivity|]. cbn [mem flushed]. rewrite Hm, Hf2, Hf.
  pose proof (edits_trans _ _ _ _ _ _ _ _ _ _ Ed Ed2) as [A B C D E].
  assert (∀ q, length q ≤ 3 → ¬ ((page v).1 ++ [idx v 0]) `prefix_of` q) as Hpre.
  { intros q Lq [k Hk]. apply (f_equal length) in Hk. rewrite !length_app in Hk. simpl in Hk. lia. }
  assert (∀ q j, length q ≤ 2 → entry (<[pt:=<[idx v 0:=x]> T]> (mem s1)) (cr3 s) q j = entry (mem s1) (cr3 s) q j) as ES.
  { intros q j Lq. rewrite (entry_write (mem s1) _ _ pt T (page v).1 (idx v 0) x SP L3 N HT Hi) by (lia || (apply Hpre; lia)).
    rewrite decide_False; [done|]. intros [-> _]. simpl in Lq. lia. }
  split_and!; try done.
  - rewrite <- Hm. split; simpl; try done; [by destruct A; split|]. intros t Ht Hn. apply E; [done|set_solver].
  - apply (space_write_same (mem s1) _ _ pt T (page v).1 (idx v 0) x SP L3 N HT Hi); [done|by left].
  - rewrite (node_write (mem s1) _ _ pt T (page v).1 (idx v 0) x SP L3 N HT Hi); [done|simpl; lia|by apply Hpre].
  - intros v'. pose proof (maps_leaf _ _ _ (ok_tabs _ _ _ Hok1) SP v pt T x v' N HT HL) as ML.
    change (page v).2 with (idx v 0) in ML. by rewrite ML, M.
  - eapply gentle_trans; [exact G|by apply gentle_same].
  - intros q t Lq. rewrite (node_write (mem s1) _ _ pt T (page v).1 (idx v 0) x SP L3 N HT Hi); [by apply Ad|lia|by apply Hpre].
  - by eapply HQ.
Qed.

Definition leaf_entry (phys : Z) (prot : Prot) : Z := Z.lor (Z.land phys ADDR_MASK) (leaf_bits prot).
Definition user_entry (phys : Z) (prot : Prot) (domain : Z) : Z :=
  Z.lor (Z.lor (leaf_entry phys prot) USER) (pkey_bits domain).

Lemma map_page_edited s H n vaddr phys prot pd : okay s H (S n) → is_space (mem s) H (cr3 s) →
  covered (mem s) (cr3 s) vaddr pd →
  edited s H n (Z.ldiff vaddr 0xfff) (leaf_entry phys prot) [pd] (λ _, True) (map_page HHDM_OFFSET vaddr phys prot s).
Proof using HHDM_room.
  intros Hok SP Hc%covered_align. apply (finish_edit s H n _ (leaf_entry phys prot) [pd] (λ _, True)); [done|].
  by apply ensure_pt_spec.
Qed.

Lemma install_guard_edited s H n vaddr pd : okay s H (S n) → is_space (mem s) H (cr3 s) →
  covered (mem s) (cr3 s) vaddr pd →
  edited s H n (Z.ldiff vaddr 0xfff) 0 [pd] (λ _, True) (install_guard_page HHDM_OFFSET vaddr s).
Proof using HHDM_room.
  intros Hok SP Hc%covered_align. apply (finish_edit s H n _ 0 [pd] (λ _, True)); [done|].
  by apply ensure_pt_spec.
Qed.

Lemma map_user_edited s H n vaddr phys prot domain pd : okay s H (S n) → is_space (mem s) H (cr3 s) →
  covered (mem s) (cr3 s) vaddr pd →
  ∃ pdpt, node (mem s) (cr3 s) [idx vaddr 3] = Some pdpt ∧
  edited s H n (Z.ldiff vaddr 0xfff) (user_entry phys prot domain) [cr3 s; pdpt; pd]
    (λ m, user_path m (cr3 s) vaddr ∧ opens (mem s) m (cr3 s)) (map_user_page HHDM_OFFSET vaddr phys prot domain s).
Proof using HHDM_room.
  intros Hok SP Hc%covered_align. pose proof (page_align vaddr) as E. unfold page in E. injection E as E3 E2 E1 _.
  destruct (ensure_pt_user_spec s H n _ pd Hok SP Hc) as (pdpt & N & He). rewrite E3 in N. exists pdpt. split; [done|].
  apply (finish_edit s H n _ (user_entry phys prot domain) [cr3 s; pdpt; pd]
    (λ m, user_path m (cr3 s) vaddr ∧ opens (mem s) m (cr3 s))).
  - intros m m' Hm%opens_same [Hu Ho]. split; [by eapply user_path_opens|by eapply opens_trans].
  - unfold user_path in *. rewrite E3, E2, E1 in He. exact He.
Qed.

(** ** What the processor sees *)

(** [translate] and [page_prot] with the tables of [r] active. *)
Definition with_root (r : Z) (s : Mach F) : Mach F := (activate_address_space (mkSpace r 0) s).2.
Definition sees (s : Mach F) (r v : Z) : res Empty_set (option Z) * res Empty_set (option (bool * bool)) :=
  ((translate HHDM_OFFSET v (with_root r s)).1, (page_prot HHDM_OFFSET v (with_root r s)).1).

Lemma ldiff_below a b : (0 <= a)%Z → (0 <= Z.ldiff a b <= a)%Z.
Proof using Type.
  intros Ha. apply Z.ldiff_le; [done|]. apply Z.bits_inj'. intros i _. rewrite !Z.ldiff_spec, Z.bits_0.
  by destruct (Z.testbit a i), (Z.testbit b i).
Qed.

Lemma land_below a b : (0 <= b)%Z → (0 <= Z.land a b <= b)%Z.
Proof using Type.
  intros Hb. apply Z.ldiff_le; [done|]. apply Z.bits_inj'. intros i _. rewrite Z.ldiff_spec, Z.land_spec, Z.bits_0.
  by destruct (Z.testbit a i), (Z.testbit b i).
Qed.

Lemma leaf_mask m root v lm : leaf_of m root v = Some lm → (lm.2 = 0xfff ∨ lm.2 = 0x1fffff ∨ lm.2 = 0x3fffffff)%Z.
Proof using Type. unfold leaf_of. repeat case_match; intros; simplify_eq/=; auto. Qed.

Lemma sees_eq s H r v : tabs (mem s) → is_space (mem s) H r →
  sees s r v = (Ok ((λ x, x.1.1) <$> maps (mem s) r v), Ok ((λ x, x.1.2) <$> maps (mem s) r v)).
Proof using HHDM_room.
  intros TB SP. unfold sees, translate, page_prot.
  pose proof (walk_eq HHDM_OFFSET HHDM_room (with_root r s) H v TB SP) as W. simpl cr3 in W. simpl mem in W.
  rewrite !(bind_run _ _ _ _ _ W). unfold maps. destruct (leaf_of (mem s) r v) as [[e k]|] eqn:L; [|done].
  apply leaf_mask in L. simpl in L. unfold mbind, M_bind, lift. rewrite arith_in; [done|].
  destruct (land_bound e) as [He _]. pose proof (ldiff_below (Z.land e ADDR_MASK) k ltac:(lia)).
  pose proof (land_below v k ltac:(lia)).
  unfold in_u. lia.
Qed.
End ops.
