(* ===== verification/PagingClone.v ===== *)
(** * Cloning the kernel's tables for a process

    [new_process_space] answers a space with the mapping of the kernel's own whose
    tables on the way to the process window are fresh. *)

From S2P Require Import Prelude Arch Buddy MemInit Frames Paging PagingInv PagingOps.

#[local] Opaque idx.

(** The tables a process has for itself: the ways to the window [1 GiB, 2 GiB). *)
Definition own_path (p : list nat) : Prop :=
  p = [] ∨ p = [0] ∨ p = [0; 1] ∨ ∃ i, p = [0; 1; i].

#[export] Instance own_path_dec p : Decision (own_path p).
Proof.
  refine (match p with
    | [] | [0] | [0; 1] | [0; 1; _] => left _
    | _ => right _
    end); unfold own_path; abstract naive_solver.
Defined.

Lemma own_path_len p : own_path p → length p ≤ 3.
Proof. intros [->|[->|[->|[i ->]]]]; simpl; lia. Qed.

(** [r] in [m'] is a clone of [k] in [m], with its own tables outside of [H]. *)
Record cloned (m m' : memory) (H : gset Z) (k r : Z) : Prop := {
  cl_keep t : t ∈ H → m' !! t = m !! t;
  cl_other q : ¬ own_path q → length q ≤ 3 → node m' r q = node m k q;
  cl_own q t : own_path q → node m' r q = Some t → (t ∉ H) ∧ is_Some (m' !! t) ∧ is_Some (node m k q);
  cl_tree p q t : own_path p → own_path q → node m' r p = Some t → node m' r q = Some t → p = q;
  cl_maps v : maps m' r v = maps m k v;
  cl_top i e : ent m' r i = Some e → has e HUGE = false;
  cl_window v pd : idx v 3 = 0 → idx v 2 = 1 → covered m k v pd → ∃ pd', covered m' r v pd'
}.

Lemma cloned_space m m' H H' k r : is_space m H k → H ⊆ H' → cloned m m' H k r →
  (∀ q t, own_path q → node m' r q = Some t → t ∈ H') → is_space m' H' r.
Proof.
  intros SP HH C Hown.
  assert (∀ q t, ¬ own_path q → length q ≤ 3 → node m' r q = Some t → t ∈ H ∧ node m k q = Some t) as Hoth.
  { intros q t Hq Lq N. rewrite (cl_other _ _ _ _ _ C) in N by done. split; [|done]. by apply (sp_held _ _ _ SP) in N as [? _]. }
  split.
  - intros q t Lq N. destruct (decide (own_path q)) as [Hq|Hq].
    + split; [by eapply Hown|]. by apply (cl_own _ _ _ _ _ C) in N as (_ & ? & _).
    + destruct (Hoth q t Hq Lq N) as [Ht N']. split; [set_solver|]. rewrite (cl_keep _ _ _ _ _ C) by done.
      by apply (sp_held _ _ _ SP) in N' as [_ ?].
  - intros p q t Lp Lq Np Nq. destruct (decide (own_path p)) as [Hp|Hp], (decide (own_path q)) as [Hq|Hq].
    + by eapply (cl_tree _ _ _ _ _ C).
    + apply (cl_own _ _ _ _ _ C) in Np as [? _]; [|done]. by destruct (Hoth q t Hq Lq Nq).
    + apply (cl_own _ _ _ _ _ C) in Nq as [? _]; [|done]. by destruct (Hoth p t Hp Lp Np).
    + destruct (Hoth p t Hp Lp Np) as [_ Np']. destruct (Hoth q t Hq Lq Nq) as [_ Nq']. by eapply (sp_tree _ _ _ SP).
  - intros i e. apply (cl_top _ _ _ _ _ C).
Qed.

Section clone.
Context (m m' : memory) (H : gset Z) (k t3 t2 p4 p3 p2 x0 x1 : Z).
Hypothesis (SP : is_space m H k) (TB : tabs m).
Hypothesis (N3 : node m k [0] = Some t3) (N2 : node m k [0; 1] = Some t2).
Hypothesis (F4 : p4 ∉ H) (F3 : p3 ∉ H) (F2 : p2 ∉ H) (D43 : p4 ≠ p3) (D42 : p4 ≠ p2) (D32 : p3 ≠ p2).
Hypothesis (KEEP : ∀ t, t ∈ H → m' !! t = m !! t).
Hypothesis (E4 : ∀ i, ent m' p4 i = if decide (i = 0) then Some x0 else ent m k i).
Hypothesis (L0 : down x0 = Some p3).
Hypothesis (E3 : ∀ i, ent m' p3 i = if decide (i = 1) then Some x1 else ent m t3 i).
Hypothesis (L1 : down x1 = Some p2).
(** Every last-level table of the window is copied. *)
Hypothesis (E2 : ∀ i, match ent m t2 i ≫= down with
  | Some c => ∃ x g, ent m' p2 i = Some x ∧ down x = Some g ∧ (g ∉ H) ∧ g ≠ p4 ∧ g ≠ p3 ∧ g ≠ p2 ∧ m' !! g = m !! c
  | None => ent m' p2 i = ent m t2 i
  end).
Hypothesis (INJ : ∀ i j g, ent m' p2 i ≫= down = Some g → ent m' p2 j ≫= down = Some g → i = j).

Lemma clone_keeps : keeps m m' k.
Proof using SP KEEP. intros p t Lp Np. apply KEEP. by apply (sp_held _ _ _ SP) in Np as [? _]. Qed.

Lemma kept_ent p t i : length p ≤ 3 → node m k p = Some t → ent m' t i = ent m t i.
Proof using SP KEEP. intros Lp Np. unfold ent. by rewrite (clone_keeps p t). Qed.

Lemma node_k q : length q ≤ 4 → node m' k q = node m k q.
Proof using SP KEEP. intros Lq. apply keeps_node; [apply clone_keeps|done]. Qed.

Lemma down_k0 : ent m k 0 ≫= down = Some t3.
Proof using N3. pose proof N3 as N. simpl in N. by destruct (ent m k 0 ≫= down). Qed.

Lemma down_t3 : ent m t3 1 ≫= down = Some t2.
Proof using N2 N3.
  pose proof N2 as N. simpl in N. rewrite down_k0 in N. simpl in N. by destruct (ent m t3 1 ≫= down).
Qed.

Lemma node_not0 i q : i ≠ 0 → length q ≤ 3 → node m' p4 (i :: q) = node m k (i :: q).
Proof using SP KEEP E4.
  intros Hi Lq. rewrite <- (node_k (i :: q)) by (simpl; lia). cbn [node]. rewrite E4, decide_False by done.
  by rewrite (kept_ent [] k i) by (simpl; (lia || done)).
Qed.

Lemma node_0 q : node m' p4 (0 :: q) = node m' p3 q.
Proof using E4 L0. cbn [node]. rewrite E4, decide_True by done. simpl. by rewrite L0. Qed.

Lemma node_not1 j q : j ≠ 1 → length q ≤ 2 → node m' p3 (j :: q) = node m k (0 :: j :: q).
Proof using SP KEEP E3 N3.
  intros Hj Lq. rewrite <- (node_k (0 :: j :: q)) by (simpl; lia). cbn [node]. rewrite E3, decide_False by done.
  rewrite (kept_ent [] k 0) by (simpl; (lia || done)). rewrite down_k0. simpl.
  by rewrite (kept_ent [0] t3 j) by (simpl; (lia || done)).
Qed.

Lemma node_1 q : node m' p3 (1 :: q) = node m' p2 q.
Proof using E3 L1. cbn [node]. rewrite E3, decide_True by done. simpl. by rewrite L1. Qed.

Lemma node_other q : ¬ own_path q → length q ≤ 3 → node m' p4 q = node m k q.
Proof using SP KEEP E4 L0 E3 N3.
  intros Hq Lq. destruct q as [|i q]; [destruct Hq; by left|]. simpl in Lq.
  destruct (decide (i = 0)) as [->|]; [|by apply node_not0; [|lia]]. rewrite node_0.
  destruct q as [|j q]; [destruct Hq; by right; left|]. simpl in Lq.
  destruct (decide (j = 1)) as [->|]; [|by apply node_not1; [|lia]].
  destruct q as [|l [|? ?]]; [destruct Hq; by right; right; left|destruct Hq; right; right; right; eauto|simpl in Lq; lia].
Qed.

Lemma node_01 l : node m' p4 [0; 1; l] = ent m' p2 l ≫= down.
Proof using E4 L0 E3 L1. rewrite node_0, node_1. cbn [node]. by destruct (ent m' p2 l ≫= down). Qed.

Lemma node_k01 l : node m k [0; 1; l] = ent m t2 l ≫= down.
Proof using N3 N2. cbn [node]. rewrite down_k0. simpl. rewrite down_t3. simpl. by destruct (ent m t2 l ≫= down). Qed.

(** A copied last-level table has the contents of the original. *)
Lemma leaf_table l g : ent m' p2 l ≫= down = Some g →
  ∃ c, ent m t2 l ≫= down = Some c ∧ (g ∉ H) ∧ g ≠ p4 ∧ g ≠ p3 ∧ g ≠ p2 ∧ m' !! g = m !! c.
Proof using E2.
  intros Hg. pose proof (E2 l) as E. destruct (ent m t2 l ≫= down) as [c|] eqn:Hc.
  - destruct E as (x & g' & E & Hd & ?). rewrite E in Hg. simpl in Hg. simplify_eq. by exists c.
  - rewrite E in Hg. congruence.
Qed.

Lemma own_cases q t : own_path q → node m' p4 q = Some t →
  (q = [] ∧ t = p4) ∨ (q = [0] ∧ t = p3) ∨ (q = [0; 1] ∧ t = p2) ∨ ∃ l, q = [0; 1; l] ∧ ent m' p2 l ≫= down = Some t.
Proof using E4 L0 E3 L1.
  intros [->|[->|[->|[l ->]]]] N.
  - left. by injection N.
  - right; left. rewrite node_0 in N. by injection N.
  - right; right; left. rewrite node_0, node_1 in N. by injection N.
  - right; right; right. exists l. by rewrite node_01 in N.
Qed.

Lemma clone_entry2 v : node m' p4 [idx v 3; idx v 2; idx v 1] = None →
  entry m' p4 [idx v 3; idx v 2] (idx v 1) = entry m k [idx v 3; idx v 2] (idx v 1) ∧ node m k [idx v 3; idx v 2; idx v 1] = None.
Proof using SP KEEP E4 L0 E3 N3 L1 E2 N2.
  intros N. destruct (decide (own_path [idx v 3; idx v 2; idx v 1])) as [Ho|Ho].
  - destruct Ho as [|[|[|[l Ho]]]]; [done..|]. injection Ho as Ha Hb Hl. rewrite Ha, Hb, Hl in *. rewrite node_01 in N.
    rewrite node_k01. unfold entry. rewrite node_0, node_1, N2. cbn [node mbind option_bind]. pose proof (E2 l) as E.
    destruct (ent m t2 l ≫= down) eqn:Hc.
    + destruct E as (x & g & E & Hd & _). rewrite E in N. simpl in N. congruence.
    + done.
  - split; [|by rewrite <- node_other by (simpl; (lia || done))].
    destruct (decide (own_path [idx v 3; idx v 2])) as [Ho2|Ho2].
    + destruct Ho2 as [|[|[Ho2|[? ?]]]]; [done..| |done]. injection Ho2 as E3' E2'. destruct Ho. right; right; right. exists (idx v 1). congruence.
    + unfold entry. rewrite node_other by (simpl; (lia || done)). destruct (node m k [idx v 3; idx v 2]) as [t|] eqn:N'; [|done].
      simpl. by rewrite (kept_ent [idx v 3; idx v 2] t) by (simpl; (lia || done)).
Qed.

Lemma other_entry q i : ¬ own_path q → length q ≤ 3 → entry m' p4 q i = entry m k q i.
Proof using SP KEEP E4 L0 E3 N3.
  intros Hq Lq. unfold entry. rewrite node_other by done. destruct (node m k q) as [t|] eqn:N; [|done].
  simpl. by rewrite (kept_ent q t).
Qed.

Lemma clone_entry3 v : entry m' p4 [idx v 3; idx v 2; idx v 1] (idx v 0) = entry m k [idx v 3; idx v 2; idx v 1] (idx v 0).
Proof using SP KEEP E4 L0 E3 N3 L1 E2 N2.
  destruct (decide (own_path [idx v 3; idx v 2; idx v 1])) as [Ho|Ho]; [|apply other_entry; [done|simpl; lia]].
  destruct Ho as [|[|[|[l Ho]]]]; [done..|]. injection Ho as -> -> ->. unfold entry. rewrite node_01, node_k01.
  destruct (ent m' p2 l ≫= down) as [g|] eqn:Hg.
  - destruct (leaf_table l g Hg) as (c & -> & _ & _ & _ & _ & Hm). simpl. unfold ent. by rewrite Hm.
  - pose proof (E2 l) as E. destruct (ent m t2 l ≫= down) as [c|]; [|done]. destruct E as (x & g & E & Hd & _).
    rewrite E in Hg. simpl in Hg. congruence.
Qed.

Lemma clone_entry1 v : node m k [idx v 3; idx v 2] = None →
  entry m' p4 [idx v 3] (idx v 2) = entry m k [idx v 3] (idx v 2).
Proof using SP KEEP E4 L0 E3 N3 N2.
  intros N. destruct (decide (own_path [idx v 3])) as [Ho|Ho]; [|apply other_entry; [done|simpl; lia]].
  destruct Ho as [|[Ho|[|[? ?]]]]; [done| |done..]. injection Ho as Ha. rewrite Ha in *.
  unfold entry. rewrite node_0, N3. cbn [node mbind option_bind]. rewrite E3, decide_False; [done|].
  intros Hb. rewrite Hb in N. congruence.
Qed.

Lemma clone_maps v : maps m' p4 v = maps m k v.
Proof using SP KEEP E4 L0 E3 N3 L1 E2 N2 TB.
  unfold maps. f_equal. unfold leaf_of. rewrite clone_entry3.
  destruct (entry m k [idx v 3; idx v 2; idx v 1] (idx v 0)) as [e|] eqn:He; [done|].
  assert (node m k [idx v 3; idx v 2; idx v 1] = None) as Nk.
  { destruct (node m k [idx v 3; idx v 2; idx v 1]) as [t|] eqn:N; [|done].
    destruct (entry_Some m H k TB SP [idx v 3; idx v 2; idx v 1] t (idx v 0) ltac:(simpl; lia) N (idx_lt v 0)) as [? ?]. congruence. }
  assert (node m' p4 [idx v 3; idx v 2; idx v 1] = None) as Np.
  { destruct (decide (own_path [idx v 3; idx v 2; idx v 1])) as [Ho|Ho]; [|by rewrite node_other by (simpl; (lia || done))].
    destruct Ho as [|[|[|[l Ho]]]]; [done..|]. rewrite Ho in *. rewrite node_k01 in Nk. rewrite node_01.
    pose proof (E2 l) as E. rewrite Nk in E. by rewrite E. }
  destruct (clone_entry2 v Np) as [-> _].
  destruct (entry m k [idx v 3; idx v 2] (idx v 1)) as [e|] eqn:He2; [done|].
  rewrite clone_entry1; [done|]. destruct (node m k [idx v 3; idx v 2]) as [t|] eqn:N; [|done].
  destruct (entry_Some m H k TB SP [idx v 3; idx v 2] t (idx v 1) ltac:(simpl; lia) N (idx_lt v 1)) as [? ?]. congruence.
Qed.

Lemma clone_window v pd : idx v 3 = 0 → idx v 2 = 1 → covered m k v pd → ∃ pd', covered m' p4 v pd'.
Proof using SP KEEP E4 L0 E3 N3 L1 E2 N2.
  intros Ha Hb [N (e2 & He & P)]. exists p2. unfold covered. rewrite Ha, Hb in *. split; [by rewrite node_0, node_1|].
  assert (pd = t2) as -> by congruence. pose proof (E2 (idx v 1)) as E.
  destruct (ent m t2 (idx v 1) ≫= down) as [c|].
  - destruct E as (x & g & E & Hd & _). exists x. split; [done|]. by apply down_Some in Hd as [? _].
  - exists e2. by rewrite E.
Qed.

Lemma clone_cloned : is_Some (m' !! p4) → is_Some (m' !! p3) → is_Some (m' !! p2) → has x0 HUGE = false →
  cloned m m' H k p4.
Proof using All.
  intros S4 S3 S2 Hx0. split; try done.
  - intros q Hq Lq. by apply node_other.
  - intros q t Hq Nq. destruct (own_cases q t Hq Nq) as [[-> ->]|[[-> ->]|[[-> ->]|(l & -> & Hl)]]].
    + done.
    + by rewrite N3.
    + by rewrite N2.
    + destruct (leaf_table l t Hl) as (c & Hc & ? & _ & _ & _ & Hm). rewrite node_k01, Hc, Hm. split; [done|].
      split; [|done]. apply (sp_held _ _ _ SP [0; 1; l] c); [simpl; lia|by rewrite node_k01].
  - intros p q t Hp Hq Np Nq.
    destruct (own_cases p t Hp Np) as [[-> ->]|[[-> ->]|[[-> ->]|(l & -> & Hl)]]];
      destruct (own_cases q _ Hq Nq) as [[-> E]|[[-> E]|[[-> E]|(l' & -> & Hl')]]]; try done; try congruence;
      try (apply leaf_table in Hl as (c & _ & _ & ? & ? & ? & _); congruence);
      try (apply leaf_table in Hl' as (c & _ & _ & ? & ? & ? & _); congruence).
    by rewrite (INJ l l' t Hl Hl').
  - apply clone_maps.
  - intros i e. rewrite E4. case_decide; [by intros [= <-]|]. apply (sp_top _ _ _ SP).
  - apply clone_window.
Qed.
End clone.

Section new_space.
Context {F : Type} {FS : FrameSource F}.
Implicit Types s : Mach F.

(** Frames beyond those the clone can need. *)
Variable K : nat.

(** The [i] first entries of the window's directory have their own tables. *)
Record privatised (m5 : memory) (H5 : gset Z) (p2 : Z) (T2 : list Z) (i : nat) (s : Mach F) (Hi : gset Z) (D : list Z) : Prop := {
  pv_okay : okay s Hi (512 - i + K);
  pv_grow : H5 ⊆ Hi;
  pv_keep t : t ∈ H5 → t ≠ p2 → mem s !! t = m5 !! t;
  pv_table : mem s !! p2 = Some D ∧ length D = 512;
  pv_todo j : i ≤ j → D !! j = T2 !! j;
  pv_done j e : j < i → T2 !! j = Some e →
    match down e with
    | Some c => ∃ g, D !! j = Some (Z.lor g (Z.ldiff e ADDR_MASK)) ∧ frame_ok g ∧ (g ∉ H5) ∧ g ∈ Hi ∧ mem s !! g = m5 !! c
    | None => D !! j = Some e
    end;
  pv_exact t : t ∈ Hi → t ∈ H5 ∨ ∃ j, j < i ∧ D !! j ≫= down = Some t;
  pv_inj j j' g : j < i → j' < i → D !! j ≫= down = Some g → D !! j' ≫= down = Some g → j = j'
}.

Definition copies (m5 : memory) (H5 : gset Z) (p2 : Z) (T2 : list Z) : Prop :=
  ∀ j e c, T2 !! j = Some e → down e = Some c → c ∈ H5 ∧ c ≠ p2 ∧ is_Some (m5 !! c).

(** An entry already handled leads to a table that is held, and not to an old one. *)
Lemma privatised_led m5 H5 p2 T2 i s Hi D j g : privatised m5 H5 p2 T2 i s Hi D → length T2 = 512 →
  j < i → i ≤ 512 → D !! j ≫= down = Some g → g ∈ Hi.
Proof using Type.
  intros P HL Hj Hi' Hg. destruct (lookup_lt_is_Some_2 T2 j) as [e He]; [lia|].
  pose proof (pv_done _ _ _ _ _ _ _ _ P j e Hj He) as Hd. destruct (down e) as [c|] eqn:Hc.
  - destruct Hd as (g' & Hx & Hf & _ & Hin & _). rewrite Hx in Hg. simpl in Hg.
    rewrite down_copy in Hg by (done || by exists c). by simplify_eq.
  - rewrite Hd in Hg. simpl in Hg. congruence.
Qed.

Variable HHDM_OFFSET : Z.
Hypothesis HHDM_room : (0 <= HHDM_OFFSET <= 2 ^ 64 - 2 ^ 44)%Z.

Lemma privatise_step m5 H5 p2 T2 i s Hi D : privatised m5 H5 p2 T2 i s Hi D → copies m5 H5 p2 T2 → length T2 = 512 →
  p2 ∈ H5 → i < 512 →
  ∃ s' Hi' D', privatise HHDM_OFFSET p2 i s = (Ok (), s') ∧ privatised m5 H5 p2 T2 (S i) s' Hi' D' ∧
    cr3 s' = cr3 s ∧ KERNEL_PML4 s' = KERNEL_PML4 s ∧ flushed s' = flushed s.
Proof using HHDM_room.
  intros P HC HL Hp2 Hi512. destruct (lookup_lt_is_Some_2 T2 i) as [e He]; [lia|].
  destruct (pv_table _ _ _ _ _ _ _ _ P) as [HD HDL]. pose proof (pv_okay _ _ _ _ _ _ _ _ P) as Hok.
  assert (D !! i = Some e) as HDi by (rewrite (pv_todo _ _ _ _ _ _ _ _ P i) by lia; done).
  unfold privatise. erewrite read_run; [|done|done|unfold ent; by rewrite HD].
  destruct (down e) as [c|] eqn:Hc; last first.
  { assert (has e PRESENT && negb (has e HUGE) = false) as ->.
    { rewrite down_eq in Hc. by destruct (has e PRESENT), (has e HUGE). }
    exists s, Hi, D. split_and!; try done. destruct P. split; try done.
    - by eapply okay_weaken; [|done]; lia.
    - intros j Hj. apply pv_todo0. lia.
    - intros j e' Hj He'. destruct (decide (j = i)) as [->|]; [|apply pv_done0; [lia|done]]. simplify_eq. by rewrite Hc.
    - intros t Ht. destruct (pv_exact0 t Ht) as [|(j & Hj & ?)]; [by left|right; exists j; split; [lia|done]].
    - intros j j' g Hj Hj' Hg Hg'. destruct (decide (j = i)) as [->|], (decide (j' = i)) as [->|]; try done.
      + rewrite HDi in Hg. simpl in Hg. congruence.
      + rewrite HDi in Hg'. simpl in Hg'. congruence.
      + eapply pv_inj0; try done; lia. }
  destruct (HC i e c He Hc) as (Hc5 & Hcp & [Tc HTc]). pose proof Hc as Hc'. apply down_Some in Hc' as (Pe & He' & Ac).
  rewrite Pe, He'. cbn [andb negb]. rewrite <- Ac.
  assert (mem s !! c = Some Tc) as HTs by (rewrite (pv_keep _ _ _ _ _ _ _ _ P) by done; done).
  destruct (clone_table_eq HHDM_OFFSET HHDM_room s Hi (512 - S i + K) c Tc) as (g & f & Hr & Hg & Fg & Hok1).
  { eapply okay_weaken; [|exact Hok]. lia. }
  { by apply (pv_grow _ _ _ _ _ _ _ _ P). }
  { done. }
  rewrite (bind_run _ _ _ _ _ Hr). set (s1 := upd s _ f) in *.
  assert (g ∉ H5) as Hg5 by (intros Hx; by apply Hg, (pv_grow _ _ _ _ _ _ _ _ P)).
  assert (g ≠ p2) as Hgp by set_solver.
  assert (mem s1 !! p2 = Some D) as HD1 by (simpl; by rewrite lookup_insert_ne).
  destruct (write_edits HHDM_OFFSET HHDM_room s1 ({[g]} ∪ Hi) (512 - S i + K) p2 D i (Z.lor g (Z.ldiff e ADDR_MASK)) Hok1 HD1 Hi512)
    as (s2 & Hw & Hm2 & Hf2 & Ed2).
  assert (down (Z.lor g (Z.ldiff e ADDR_MASK)) = Some g) as Hdg by (apply down_copy; [done|by exists c]).
  exists s2, ({[g]} ∪ Hi), (<[i:=Z.lor g (Z.ldiff e ADDR_MASK)]> D).
  split; [exact Hw|]. split; [|by destruct Ed2; rewrite ed_cr3, ed_kpml4, Hf2].
  pose proof (λ j g, privatised_led _ _ _ _ _ _ _ _ j g P HL) as Hled. destruct P. split.
  - apply (ed_okay _ _ _ _ _ _ Ed2).
  - set_solver.
  - intros t Ht Hne. rewrite Hm2, lookup_insert_ne by done. simpl. rewrite lookup_insert_ne by set_solver. by apply pv_keep0.
  - rewrite Hm2, lookup_insert_eq, length_insert. done.
  - intros j Hj. rewrite list_lookup_insert_ne by lia. apply pv_todo0. lia.
  - intros j e' Hj Hej. destruct (decide (j = i)) as [->|].
    + simplify_eq. rewrite Hc. exists g. rewrite list_lookup_insert_eq by lia. split_and!; try done; [set_solver|].
      rewrite Hm2, lookup_insert_ne by done. simpl. by rewrite lookup_insert_eq, HTc.
    + rewrite list_lookup_insert_ne by done. pose proof (pv_done0 j e' ltac:(lia) Hej) as Hd.
      destruct (down e') as [c'|]; [|done]. destruct Hd as (g' & ? & ? & Hg' & Hin & Hm'). exists g'.
      split_and!; try done; [set_solver|]. rewrite Hm2, lookup_insert_ne by set_solver. simpl.
      rewrite lookup_insert_ne by set_solver. done.
  - intros t [->%elem_of_singleton|Ht]%elem_of_union.
    + right. exists i. rewrite list_lookup_insert_eq by lia. split; [lia|done].
    + destruct (pv_exact0 t Ht) as [|(j & Hj & ?)]; [by left|right; exists j].
      rewrite list_lookup_insert_ne by lia. split; [lia|done].
  - intros j j' g' Hj Hj' Hx Hx'. destruct (decide (j = i)) as [->|], (decide (j' = i)) as [->|]; try done.
    + rewrite list_lookup_insert_eq in Hx by lia. simpl in Hx. rewrite list_lookup_insert_ne in Hx' by done.
      simplify_eq. destruct Hg. by eapply (Hled j'); try done; lia.
    + rewrite list_lookup_insert_eq in Hx' by lia. simpl in Hx'. rewrite list_lookup_insert_ne in Hx by done.
      simplify_eq. destruct Hg. by eapply (Hled j); try done; lia.
    + rewrite list_lookup_insert_ne in Hx, Hx' by done. eapply pv_inj0; try done; lia.
Qed.

Lemma privatise_all m5 H5 p2 T2 s Hi D : privatised m5 H5 p2 T2 0 s Hi D → copies m5 H5 p2 T2 → length T2 = 512 → p2 ∈ H5 →
  ∃ s' Hi' D', mfor (seq 0 512) (privatise HHDM_OFFSET p2) s = (Ok (), s') ∧ privatised m5 H5 p2 T2 512 s' Hi' D' ∧
    cr3 s' = cr3 s ∧ KERNEL_PML4 s' = KERNEL_PML4 s ∧ flushed s' = flushed s.
Proof using HHDM_room.
  intros P HC HL Hp2.
  assert (∀ n i s Hi D, i + n = 512 → privatised m5 H5 p2 T2 i s Hi D →
    ∃ s' Hi' D', mfor (seq i n) (privatise HHDM_OFFSET p2) s = (Ok (), s') ∧ privatised m5 H5 p2 T2 512 s' Hi' D' ∧
      cr3 s' = cr3 s ∧ KERNEL_PML4 s' = KERNEL_PML4 s ∧ flushed s' = flushed s) as Hgen; [|by apply (Hgen 512 0 s Hi D)].
  clear P s Hi D. induction n as [|n IH]; intros i s Hi D Hin P.
  - exists s, Hi, D. assert (i = 512) as -> by lia. done.
  - destruct (privatise_step m5 H5 p2 T2 i s Hi D P HC HL Hp2) as (s1 & H1 & D1 & Hr & P1 & C1 & K1 & F1); [lia|].
    destruct (IH (S i) s1 H1 D1) as (s2 & H2 & D2 & Hr2 & P2 & C2 & K2 & F2); [lia|done|].
    exists s2, H2, D2. cbn [seq mfor]. rewrite (bind_run _ _ _ _ _ Hr). split_and!; try done; congruence.
Qed.

Lemma fresh_ne (t p : Z) (H : gset Z) : p ∉ H → t ∈ H → t ≠ p.
Proof using Type. clear HHDM_room. intros Hp Ht ->. done. Qed.

Lemma fresh3 (p4 p3 p2 : Z) (H : gset Z) : p4 ∉ H → p3 ∉ {[p4]} ∪ H → p2 ∉ {[p3]} ∪ ({[p4]} ∪ H) →
  p4 ≠ p3 ∧ p4 ≠ p2 ∧ p3 ≠ p2 ∧ (p3 ∉ H) ∧ (p2 ∉ H).
Proof using Type. clear HHDM_room. set_solver. Qed.

Lemma in_grown (t p : Z) (H : gset Z) : t ∈ H → t ∈ {[p]} ∪ H.
Proof using Type. clear HHDM_room. set_solver. Qed.

Lemma in_grown_new (p : Z) (H : gset Z) : p ∈ {[p]} ∪ H.
Proof using Type. clear HHDM_room. set_solver. Qed.

(** The three tables above the last level. *)
Lemma skeleton_spec s H e0 t3 e1 t2 T4 T3 T2 : okay s H (515 + K) →
  ent (mem s) (KERNEL_PML4 s) 0 = Some e0 → down e0 = Some t3 → ent (mem s) t3 1 = Some e1 → down e1 = Some t2 →
  KERNEL_PML4 s ∈ H → t3 ∈ H → t2 ∈ H →
  mem s !! KERNEL_PML4 s = Some T4 → mem s !! t3 = Some T3 → mem s !! t2 = Some T2 →
  ∃ p4 p3 p2 s5,
    let x0 := Z.lor p3 (Z.ldiff e0 ADDR_MASK) in
    let x1 := Z.lor p2 (Z.ldiff e1 ADDR_MASK) in
    new_process_space HHDM_OFFSET s = (mfor (seq 0 512) (privatise HHDM_OFFSET p2);; mret (mkSpace p4 0)) s5 ∧
    (p4 ∉ H) ∧ (p3 ∉ {[p4]} ∪ H) ∧ (p2 ∉ {[p3]} ∪ ({[p4]} ∪ H)) ∧ frame_ok p3 ∧ frame_ok p2 ∧
    okay s5 ({[p2]} ∪ ({[p3]} ∪ ({[p4]} ∪ H))) (512 + K) ∧
    mem s5 = <[p3:=<[1:=x1]> T3]> (<[p2:=T2]> (<[p4:=<[0:=x0]> T4]> (<[p3:=T3]> (<[p4:=T4]> (mem s))))) ∧
    cr3 s5 = cr3 s ∧ KERNEL_PML4 s5 = KERNEL_PML4 s ∧ flushed s5 = flushed s.
Proof using HHDM_room.
  intros Hok E0 L0 E1 L1 Hk H3 H2 HT4 HT3 HT2.
  apply down_Some in L0 as (_ & _ & A0). apply down_Some in L1 as (_ & _ & A1).
  unfold new_process_space. erewrite bind_run by reflexivity. cbv zeta.
  destruct (clone_table_eq HHDM_OFFSET HHDM_room s H (514 + K) _ T4 Hok Hk HT4) as (p4 & f4 & Hr4 & Fr4 & Fo4 & Hok4).
  rewrite (bind_run _ _ _ _ _ Hr4). set (s4 := upd s _ f4) in *.
  pose proof (fresh_ne _ _ _ Fr4 Hk). pose proof (fresh_ne _ _ _ Fr4 H3). pose proof (fresh_ne _ _ _ Fr4 H2).
  erewrite read_run; [|done|done|cbn [mem s4 upd]; rewrite ent_insert_ne by done; exact E0]. rewrite <- A0.
  assert (mem s4 !! t3 = Some T3) as HT3' by (cbn [mem s4 upd]; by rewrite lookup_insert_ne).
  destruct (clone_table_eq HHDM_OFFSET HHDM_room s4 _ (513 + K) t3 T3 Hok4 (in_grown _ _ _ H3) HT3') as (p3 & f3 & Hr3 & Fr3 & Fo3 & Hok3).
  rewrite (bind_run _ _ _ _ _ Hr3). set (s3 := upd s4 _ f3) in *.
  pose proof (fresh_ne _ _ _ Fr3 (in_grown_new p4 H)). pose proof (fresh_ne _ _ _ Fr3 (in_grown _ p4 _ H3)).
  pose proof (fresh_ne _ _ _ Fr3 (in_grown _ p4 _ H2)).
  set (x0 := Z.lor p3 (Z.ldiff e0 ADDR_MASK)).
  assert (mem s3 !! p4 = Some T4) as HT4' by (cbn [mem s3 s4 upd]; rewrite lookup_insert_ne by done; apply lookup_insert_eq).
  destruct (write_edits HHDM_OFFSET HHDM_room s3 _ (513 + K) p4 T4 0 x0 Hok3 HT4') as (s3' & Hw3 & Hm3 & Hf3 & Ed3); [lia|].
  rewrite (bind_run _ _ _ _ _ Hw3).
  erewrite read_run; [|done|exact (ed_okay _ _ _ _ _ _ Ed3)|rewrite Hm3; cbn [mem s3 s4 upd]; rewrite !ent_insert_ne by done; exact E1].
  rewrite <- A1.
  assert (mem s3' !! t2 = Some T2) as HT2' by (rewrite Hm3; cbn [mem s3 s4 upd]; by rewrite !lookup_insert_ne).
  destruct (clone_table_eq HHDM_OFFSET HHDM_room s3' _ (512 + K) t2 T2 (ed_okay _ _ _ _ _ _ Ed3) (in_grown _ _ _ (in_grown _ _ _ H2)) HT2')
    as (p2 & f2 & Hr2 & Fr2 & Fo2 & Hok2).
  rewrite (bind_run _ _ _ _ _ Hr2). set (s2 := upd s3' _ f2) in *.
  pose proof (fresh_ne _ _ _ Fr2 (in_grown_new p3 _)).
  assert (mem s2 !! p3 = Some T3) as HT3''.
  { cbn [mem s2 upd]. rewrite Hm3. cbn [mem s3 s4 upd]. rewrite !lookup_insert_ne by done. apply lookup_insert_eq. }
  destruct (write_edits HHDM_OFFSET HHDM_room s2 _ (512 + K) p3 T3 1 (Z.lor p2 (Z.ldiff e1 ADDR_MASK)) Hok2 HT3'') as (s5 & Hw2 & Hm5 & Hf5 & Ed5); [lia|].
  rewrite (bind_run _ _ _ _ _ Hw2). exists p4, p3, p2, s5. split; [done|]. split_and!; try done.
  - apply (ed_okay _ _ _ _ _ _ Ed5).
  - rewrite Hm5. cbn [mem s2 upd]. by rewrite Hm3.
  - rewrite (ed_cr3 _ _ _ _ _ _ Ed5). cbn [cr3 s2 upd]. by rewrite (ed_cr3 _ _ _ _ _ _ Ed3).
  - rewrite (ed_kpml4 _ _ _ _ _ _ Ed5). cbn [KERNEL_PML4 s2 upd]. by rewrite (ed_kpml4 _ _ _ _ _ _ Ed3).
  - rewrite Hf5. cbn [flushed s2 upd]. by rewrite Hf3.
Qed.

Lemma ent_of (m : memory) t T i : m !! t = Some T → ent m t i = T !! i.
Proof using Type. clear HHDM_room. intros E. unfold ent. by rewrite E. Qed.

Lemma patched (T : list Z) i x j : i < length T → <[i:=x]> T !! j = if decide (j = i) then Some x else T !! j.
Proof using Type.
  clear HHDM_room. intros Hi. case_decide as E; [subst; by apply list_lookup_insert_eq|]. by rewrite list_lookup_insert_ne.
Qed.

(** The privatised skeleton is a clone. *)
Lemma skeleton_cloned m H k e0 t3 e1 t2 T4 T3 T2 p4 p3 p2 s H6 D :
  tabs m → is_space m H k → node m k [0] = Some t3 → node m k [0; 1] = Some t2 →
  m !! k = Some T4 → m !! t3 = Some T3 → m !! t2 = Some T2 →
  (p4 ∉ H) → (p3 ∉ {[p4]} ∪ H) → (p2 ∉ {[p3]} ∪ ({[p4]} ∪ H)) → frame_ok p3 → frame_ok p2 →
  is_Some (down e0) → is_Some (down e1) →
  let x0 := Z.lor p3 (Z.ldiff e0 ADDR_MASK) in
  let x1 := Z.lor p2 (Z.ldiff e1 ADDR_MASK) in
  let m5 := <[p3:=<[1:=x1]> T3]> (<[p2:=T2]> (<[p4:=<[0:=x0]> T4]> (<[p3:=T3]> (<[p4:=T4]> m)))) in
  privatised m5 ({[p2]} ∪ ({[p3]} ∪ ({[p4]} ∪ H))) p2 T2 512 s H6 D →
  cloned m (mem s) H k p4 ∧ (∀ q t, own_path q → node (mem s) p4 q = Some t → t ∈ H6) ∧
  (∀ t, t ∈ H6 → t ∈ H ∨ ∃ q, own_path q ∧ node (mem s) p4 q = Some t).
Proof using Type.
  clear HHDM_room. intros TB SP N3 N2 HT4 HT3 HT2 F4 F3 F2 Fo3 Fo2 D0 D1 x0 x1 m5 P.
  destruct (fresh3 p4 p3 p2 H F4 F3 F2) as (D43 & D42 & D32 & F3' & F2').
  destruct (TB k T4 HT4) as [_ HL4]. destruct (TB t3 T3 HT3) as [_ HL3]. destruct (TB t2 T2 HT2) as [_ HL2].
  destruct (pv_table _ _ _ _ _ _ _ _ P) as [HD HDL].
  assert (∀ t, t ∈ H → mem s !! t = m !! t) as KEEP.
  { intros t Ht. rewrite (pv_keep _ _ _ _ _ _ _ _ P) by set_solver. unfold m5. by rewrite !lookup_insert_ne by set_solver. }
  assert (mem s !! p4 = Some (<[0:=x0]> T4)) as M4.
  { rewrite (pv_keep _ _ _ _ _ _ _ _ P) by set_solver. unfold m5. rewrite !(lookup_insert_ne _ _ p4) by done. apply lookup_insert_eq. }
  assert (mem s !! p3 = Some (<[1:=x1]> T3)) as M3.
  { rewrite (pv_keep _ _ _ _ _ _ _ _ P) by set_solver. unfold m5. apply lookup_insert_eq. }
  assert (down x0 = Some p3) as L0 by (by apply down_copy). assert (down x1 = Some p2) as L1 by (by apply down_copy).
  assert (∀ i, match ent m t2 i ≫= down with
    | Some c => ∃ x g, ent (mem s) p2 i = Some x ∧ down x = Some g ∧ (g ∉ H) ∧ g ≠ p4 ∧ g ≠ p3 ∧ g ≠ p2 ∧ mem s !! g = m !! c
    | None => ent (mem s) p2 i = ent m t2 i
    end) as E2.
  { intros i. rewrite (ent_of m t2 T2), (ent_of (mem s) p2 D) by done. destruct (T2 !! i) as [e|] eqn:He; simpl.
    - pose proof (lookup_lt_Some _ _ _ He) as Hi. rewrite HL2 in Hi. pose proof (pv_done _ _ _ _ _ _ _ _ P i e Hi He) as Hd.
      destruct (down e) as [c|] eqn:Hc; [|done]. destruct Hd as (g & Hx & Fg & Hg & _ & Hm).
      exists (Z.lor g (Z.ldiff e ADDR_MASK)), g. split; [done|]. split; [apply down_copy; [done|by exists c]|].
      assert (c ∈ H) as Hcin.
      { apply (sp_held _ _ _ SP [0; 1; i] c); [simpl; lia|]. change [0; 1; i] with ([0; 1] ++ [i]).
        rewrite (node_next _ _ _ t2 _ e N2); [done|]. by rewrite (ent_of m t2 T2). }
      rewrite !not_elem_of_union, !not_elem_of_singleton in Hg. destruct Hg as (G2 & G3 & G4 & GH).
      split_and!; try done. rewrite Hm. unfold m5.
      by rewrite !lookup_insert_ne by (apply not_eq_sym; by eapply fresh_ne).
    - apply lookup_ge_None in He. apply lookup_ge_None. lia. }
  assert (∀ i, ent (mem s) p4 i = if decide (i = 0) then Some x0 else ent m k i) as E4.
  { intros i. rewrite (ent_of _ _ _ i M4), (ent_of _ _ _ i HT4). apply patched. lia. }
  assert (∀ i, ent (mem s) p3 i = if decide (i = 1) then Some x1 else ent m t3 i) as E3.
  { intros i. rewrite (ent_of _ _ _ i M3), (ent_of _ _ _ i HT3). apply patched. lia. }
  split_and!.
  - apply (clone_cloned m (mem s) H k t3 t2 p4 p3 p2 x0 x1); try done.
    + intros i j g. rewrite !(ent_of _ _ _ _ HD). intros Hi Hj.
      apply (pv_inj _ _ _ _ _ _ _ _ P i j g); try done.
      * destruct (D !! i) eqn:E; [|done]. apply lookup_lt_Some in E. lia.
      * destruct (D !! j) eqn:E; [|done]. apply lookup_lt_Some in E. lia.
    + by apply down_Some in L0 as (_ & ? & _).
  - intros q t Hq Nq. pose proof (pv_grow _ _ _ _ _ _ _ _ P) as Hgrow.
    destruct (own_cases m (mem s) k t3 p4 p3 p2 x0 x1 E4 L0 E3 L1 q t Hq Nq) as [[-> ->]|[[-> ->]|[[-> ->]|(l & -> & Hl)]]];
      [set_solver..|].
    rewrite (ent_of _ _ _ _ HD) in Hl. destruct (D !! l) eqn:E; [|done]. apply lookup_lt_Some in E as Hl'.
    eapply (privatised_led _ _ _ _ _ _ _ _ l t P); [done|lia|lia|by rewrite E].
  - intros t Ht. destruct (pv_exact _ _ _ _ _ _ _ _ P t Ht) as [Ht5|(l & _ & Hl)].
    + rewrite !elem_of_union, !elem_of_singleton in Ht5. destruct Ht5 as [->|[->|[->|?]]]; [| | |by left]; right.
      * exists [0; 1]. split; [by right; right; left|]. by rewrite (node_0 m (mem s) k p4 p3 x0 E4 L0), (node_1 m (mem s) t3 p3 p2 x1 E3 L1).
      * exists [0]. split; [by right; left|]. by rewrite (node_0 m (mem s) k p4 p3 x0 E4 L0).
      * exists []. split; [by left|done].
    + right. exists [0; 1; l]. split; [right; right; right; by exists l|].
      by rewrite (node_01 m (mem s) k t3 p4 p3 p2 x0 x1 E4 L0 E3 L1), (ent_of _ _ _ _ HD).
Qed.

Lemma new_process_space_spec s H : okay s H (515 + K) → is_space (mem s) H (KERNEL_PML4 s) →
  is_Some (node (mem s) (KERNEL_PML4 s) [0; 1]) →
  ∃ r s' H', new_process_space HHDM_OFFSET s = (Ok (mkSpace r 0), s') ∧ okay s' H' K ∧ H ⊆ H' ∧
    cloned (mem s) (mem s') H (KERNEL_PML4 s) r ∧
    (∀ q t, own_path q → node (mem s') r q = Some t → t ∈ H') ∧
    (∀ t, t ∈ H' → t ∈ H ∨ ∃ q, own_path q ∧ node (mem s') r q = Some t) ∧
    cr3 s' = cr3 s ∧ KERNEL_PML4 s' = KERNEL_PML4 s ∧ flushed s' = flushed s.
Proof using HHDM_room.
  intros Hok SP [t2 N2]. pose proof (ok_tabs _ _ _ Hok) as TB. set (m := mem s) in *. set (k := KERNEL_PML4 s) in *.
  assert (∃ e0 t3 e1, ent m k 0 = Some e0 ∧ down e0 = Some t3 ∧ node m k [0] = Some t3 ∧ ent m t3 1 = Some e1 ∧ down e1 = Some t2)
    as (e0 & t3 & e1 & E0 & L0 & N3 & E1 & L1).
  { pose proof N2 as N. cbn [node] in N. destruct (ent m k 0) as [e0|] eqn:E0; [|done]. simpl in N.
    destruct (down e0) as [t3|] eqn:L0; [|done]. simpl in N. destruct (ent m t3 1) as [e1|] eqn:E1; [|done]. simpl in N.
    destruct (down e1) as [t|] eqn:L1; [|done]. simpl in N. injection N as ->. exists e0, t3, e1. cbn [node]. rewrite E0. simpl. by rewrite L0. }
  destruct (sp_held _ _ _ SP [] k) as [Hk [T4 HT4]]; [simpl; lia|done|].
  destruct (sp_held _ _ _ SP [0] t3) as [H3 [T3 HT3]]; [simpl; lia|done|].
  destruct (sp_held _ _ _ SP [0; 1] t2) as [H2 [T2 HT2]]; [simpl; lia|done|].
  destruct (skeleton_spec s H e0 t3 e1 t2 T4 T3 T2 Hok E0 L0 E1 L1 Hk H3 H2 HT4 HT3 HT2)
    as (p4 & p3 & p2 & s5 & Hrun & F4 & F3 & F2 & Fo3 & Fo2 & Hok5 & Hm5 & C5 & K5 & Fl5).
  set (H5 := {[p2]} ∪ ({[p3]} ∪ ({[p4]} ∪ H))) in *.
  destruct (fresh3 p4 p3 p2 H F4 F3 F2) as (D43 & D42 & D32 & F3' & F2').
  assert (∀ t, t ∈ H → t ∈ H5) as HH5 by (intros; by do 3 apply in_grown).
  assert (mem s5 !! p2 = Some T2) as M2 by (rewrite Hm5, lookup_insert_ne, lookup_insert_eq by done; done).
  destruct (privatise_all (mem s5) H5 p2 T2 s5 H5 T2) as (s6 & H6 & D & Hr6 & P6 & C6 & K6 & F6).
  { split; try done; [|intros; lia|by left|intros; lia]. split; [done|]. by apply (TB t2). }
  { intros j e c Hj Hc. assert (node m k [0; 1; j] = Some c) as Nj.
    { change [0; 1; j] with ([0; 1] ++ [j]). rewrite (node_next _ _ _ t2 _ e N2); [done|]. by rewrite (ent_of m t2 T2). }
    destruct (sp_held _ _ _ SP [0; 1; j] c) as [Hcin Hcs]; [simpl; lia|done|].
    split_and!; [by apply HH5|by eapply fresh_ne|]. rewrite Hm5.
    by rewrite !lookup_insert_ne by (apply not_eq_sym; by eapply fresh_ne). }
  { by apply (TB t2). }
  { apply in_grown_new. }
  rewrite Hm5 in P6.
  destruct (skeleton_cloned m H k e0 t3 e1 t2 T4 T3 T2 p4 p3 p2 s6 H6 D) as (C & Hown & Hex); try done; [by eexists..|].
  exists p4, s6, H6. rewrite Hrun, (bind_run _ _ _ _ _ Hr6). split; [done|].
  split; [apply (pv_okay _ _ _ _ _ _ _ _ P6)|]. split; [intros t Ht; by apply (pv_grow _ _ _ _ _ _ _ _ P6), HH5|].
  do 3 (split; [done|]). split; [by rewrite C6|]. split; [by rewrite K6|by rewrite F6].
Qed.
End new_space.
