(* ===== verification/PagingWorld.v ===== *)
(** * Process isolation by page tables

    The abstract state of the process windows is a map from process roots to the
    pages each process has been given.  The tables refine it: what user mode can
    reach through the tables of a process is exactly its map, in every history of
    spaces created, pages mapped and spaces reaped. *)

From S2P Require Import Prelude Arch Buddy MemInit Frames Paging PagingInv PagingOps PagingClone.

#[local] Opaque idx.

Definition writable (p : Prot) : bool := bool_decide (p = Rw).
Definition executable (p : Prot) : bool := bool_decide (p = Rx).

(** ** What a leaf means *)

Lemma frame_meaning a f v : Z.land a ADDR_MASK = a → Z.land f ADDR_MASK = 0%Z →
  meaning v (Z.lor a f, 0xfff)%Z = ((a + v mod 4096)%Z, (has f WRITABLE, negb (has f NX)), has f USER).
Proof.
  intros Ha Hf. unfold meaning. cbn [fst snd]. rewrite addr_lor by done. bits. rewrite !(has_addr a) by done. cbn [orb].
  destruct (land_bound a) as [_ Hal]. rewrite Ha in Hal. change 0xfff%Z with (Z.ones 12).
  rewrite Z.land_ones, Z.ldiff_ones_r, Z.shiftl_mul_pow2, Z.shiftr_div_pow2 by lia. change (2 ^ 12)%Z with 4096%Z.
  do 3 f_equal. pose proof (Z.div_mod a 4096 ltac:(lia)). lia.
Qed.

Lemma leaf_meaning phys prot v : (0 <= phys < 2 ^ 52)%Z → (phys mod 4096 = 0)%Z →
  has (leaf_entry phys prot) PRESENT = true ∧
  meaning v (leaf_entry phys prot, 0xfff)%Z = ((phys + v mod 4096)%Z, (writable prot, executable prot), false).
Proof.
  intros H1 H2. unfold leaf_entry. rewrite land_addr by done. split; [rewrite has_lor; destruct prot; apply orb_true_r|].
  rewrite frame_meaning by (apply land_addr || destruct prot; done). by destruct prot.
Qed.

Lemma pkey_land d b : Z.land (Z.shiftl 15 59) b = 0%Z → Z.land (pkey_bits d) b = 0%Z.
Proof. intros Hb. unfold pkey_bits, PKEY_SHIFT. by rewrite Z.shiftl_land, <- Z.land_assoc, Hb, Z.land_0_r. Qed.

Lemma pkey_has d b : Z.land (Z.shiftl 15 59) b = 0%Z → has (pkey_bits d) b = false.
Proof. intros Hb. unfold has. by rewrite pkey_land. Qed.

Lemma user_meaning phys prot d v : (0 <= phys < 2 ^ 52)%Z → (phys mod 4096 = 0)%Z →
  has (user_entry phys prot d) PRESENT = true ∧
  meaning v (user_entry phys prot d, 0xfff)%Z = ((phys + v mod 4096)%Z, (writable prot, executable prot), true).
Proof.
  intros H1 H2. unfold user_entry, leaf_entry. rewrite land_addr by done.
  split; [rewrite !has_lor; destruct prot; by rewrite orb_true_r|].
  rewrite <- !Z.lor_assoc. rewrite frame_meaning; [|by apply land_addr|].
  - bits. rewrite !pkey_has by done. by destruct prot.
  - rewrite !Z.land_lor_distr_l, pkey_land by done. by destruct prot.
Qed.

(** ** The process windows *)

Definition window (v : Z) : Prop := (2 ^ 30 <= v < 2 ^ 31)%Z.

Lemma window_idx v : window v → idx v 3 = 0 ∧ idx v 2 = 1.
Proof.
  intros Hv. unfold window in Hv. split; apply Nat2Z.inj; rewrite idx_eq by lia.
  - change (2 ^ (12 + 9 * 3))%Z with (2 ^ 39)%Z. rewrite Z.div_small by lia. done.
  - change (2 ^ (12 + 9 * 2))%Z with (2 ^ 30)%Z. assert (v / 2 ^ 30 = 1)%Z as -> by (symmetry; apply (Z.div_unique v (2 ^ 30) 1 (v - 2 ^ 30)); lia).
    done.
Qed.

Lemma window_own v : window v → own_path (page v).1.
Proof. intros [H3 H2]%window_idx. unfold page. simpl. rewrite H3, H2. right; right; right. by eexists. Qed.

(** In the window a page is a frame-sized range of addresses. *)
Lemma window_page v v' : window v → window v' → page v = page v' ↔ (v / 4096 = v' / 4096)%Z.
Proof.
  intros Hv Hv'. assert (∀ w, window w → (w / 4096 = 2 ^ 18 + Z.of_nat (idx w 1) * 512 + Z.of_nat (idx w 0))%Z) as E.
  { clear. intros w Hw. unfold window in Hw. rewrite !idx_eq by lia.
    change (2 ^ (12 + 9 * 1))%Z with (4096 * 512)%Z. change (2 ^ (12 + 9 * 0))%Z with 4096%Z.
    rewrite <- Z.div_div by lia. set (a := (w / 4096)%Z).
    assert (2 ^ 18 <= a < 2 ^ 19)%Z by (unfold a; split; [apply Z.div_le_lower_bound; lia|apply Z.div_lt_upper_bound; lia]).
    assert ((a / 512) mod 512 = a / 512 - 512)%Z as ->.
    { symmetry. apply (Z.mod_unique _ _ 1); [left|lia].
      split; [|assert (a / 512 < 1024)%Z by (apply Z.div_lt_upper_bound; lia); lia].
      assert (512 <= a / 512)%Z by (apply Z.div_le_lower_bound; lia). lia. }
    pose proof (Z.div_mod a 512 ltac:(lia)). lia. }
  split.
  - intros [= _ _ E1 E0]. rewrite !E by done. by rewrite E1, E0.
  - rewrite !E by done. intros Heq. destruct (window_idx v Hv) as [A3 A2], (window_idx v' Hv') as [B3 B2].
    pose proof (idx_lt v 0). pose proof (idx_lt v' 0). unfold page. rewrite A3, A2, B3, B2.
    assert (idx v 1 = idx v' 1) by lia. assert (idx v 0 = idx v' 0) by lia. congruence.
Qed.

Abbreviation pages := (gmap (list nat * nat) (Z * Prot)).

(** What the pages given to a process map [v] to. *)
Definition given (P : pages) (v : Z) : option (Z * (bool * bool)) :=
  (λ fp : Z * Prot, ((fp.1 + v mod 4096)%Z, (writable fp.2, executable fp.2))) <$> P !! page v.

(** The processor lets user mode through only if every entry of the walk does. *)
Definition user_way (m : memory) (r v : Z) : bool :=
  forallb (λ pi, match entry m r pi.1 pi.2 with Some e => has e USER | None => false end)
    [([], idx v 3); ([idx v 3], idx v 2); ([idx v 3; idx v 2], idx v 1)].
Definition user_view (m : memory) (r v : Z) : option (Z * (bool * bool)) :=
  x ← maps m r v; if x.2 && user_way m r v then Some x.1 else None.

Lemma user_way_path m r v : user_path m r v → user_way m r v = true.
Proof.
  intros Hu. unfold user_way. apply forallb_forall. intros [p i] Hp%list_elem_of_In.
  cbn [fst snd]. destruct (Hu p i Hp) as (e & -> & He). done.
Qed.

Lemma path_user_way m r v : user_way m r v = true → user_path m r v.
Proof.
  unfold user_way. rewrite forallb_forall. intros Hu p i Hp. specialize (Hu (p, i) (proj1 (list_elem_of_In _ _) Hp)).
  simpl in Hu. destruct (entry m r p i) as [e|]; [|done]. by exists e.
Qed.

Section world.
Context {F : Type} {FS : FrameSource F}.
Implicit Types s : Mach F.

(** The frames held for other purposes than the tables of processes. *)
Variable B : gset Z.

Record world (s : Mach F) (H : gset Z) (U : gmap Z pages) : Prop := {
  w_okay : okay s H 0;
  w_kernel : is_space (mem s) H (KERNEL_PML4 s);
  w_space r : is_Some (U !! r) → is_space (mem s) H r;
  w_window r v : r = KERNEL_PML4 s ∨ is_Some (U !! r) → window v → ∃ pd, covered (mem s) r v pd;
  w_own r r' p q t : is_Some (U !! r) → r' = KERNEL_PML4 s ∨ is_Some (U !! r') → r' ≠ r →
    own_path p → length q ≤ 3 → node (mem s) r p = Some t → node (mem s) r' q ≠ Some t;
  w_apart : U !! KERNEL_PML4 s = None;
  w_supervisor v x : maps (mem s) (KERNEL_PML4 s) v = Some x → x.2 = false;
  w_ways r v x : is_Some (U !! r) → maps (mem s) r v = Some x → x.2 = true → user_way (mem s) r v = true;
  w_view r P v : U !! r = Some P → user_view (mem s) r v = given P v;
  w_frames t : t ∈ H → t ∈ B ∨ ∃ r q, is_Some (U !! r) ∧ own_path q ∧ node (mem s) r q = Some t
}.

(** All the spaces of the world. *)
Definition root (s : Mach F) (U : gmap Z pages) (r : Z) : Prop := r = KERNEL_PML4 s ∨ is_Some (U !! r).

Lemma world_space s H U r : world s H U → root s U r → is_space (mem s) H r.
Proof using Type. intros W [->|Hr]; [apply (w_kernel _ _ _ W)|by apply (w_space _ _ _ W)]. Qed.

(** A supervisor leaf is never a user page. *)
Lemma supervisor_view m r v : (∀ x, maps m r v = Some x → x.2 = false) → user_view m r v = None.
Proof using Type. intros H. unfold user_view. destruct (maps m r v) as [x|]; [|done]. simpl. by rewrite (H x). Qed.

Lemma keeps_view m m' r v : keeps m m' r → user_view m' r v = user_view m r v.
Proof using Type.
  intros K. unfold user_view. rewrite (keeps_maps m m') by done. destruct (maps m r v); [|done]. simpl.
  unfold user_way. simpl. by rewrite !(keeps_entry m m') by (done || (simpl; lia)).
Qed.

Lemma keeps_covered m m' r v pd : keeps m m' r → covered m r v pd → covered m' r v pd.
Proof using Type.
  intros K Hc. eapply gentle_covered; [|done]. apply gentle_same. intros q j Lq. apply keeps_entry; [done|lia].
Qed.

Variable HHDM_OFFSET : Z.
Hypothesis HHDM_room : (0 <= HHDM_OFFSET <= 2 ^ 64 - 2 ^ 44)%Z.

(** The tables an edit of the window of [r] may touch belong to no other space. *)
Lemma world_touch s H U r r' v pt pdpt pd : world s H U → is_Some (U !! r) → window v → root s U r' → r' ≠ r →
  (pt ∉ H ∨ node (mem s) r (page v).1 = Some pt) →
  node (mem s) r [idx v 3] = Some pdpt → node (mem s) r [idx v 3; idx v 2] = Some pd →
  ∀ p t, length p ≤ 3 → node (mem s) r' p = Some t → t ∉ [pt; r; pdpt; pd].
Proof using Type.
  clear HHDM_room. intros W Hr Hv Hr' Hne Hpt N3 N2 p t Lp Np.
  destruct (window_idx v Hv) as [I3 I2]. rewrite I3 in N3. rewrite I3, I2 in N2.
  assert (∀ q t', own_path q → node (mem s) r q = Some t' → t ≠ t') as Hown.
  { intros q t' Hq Nq ->. by eapply (w_own _ _ _ W r r' q p t'). }
  rewrite !not_elem_of_cons. split_and!.
  - destruct Hpt as [Hpt|Hpt]; [|eapply Hown; [by apply window_own|done]]. intros ->.
    apply (sp_held _ _ _ (world_space _ _ _ _ W Hr')) in Np as [? _]; done.
  - apply (Hown [] r); [by left|done].
  - apply (Hown [0] pdpt); [by right; left|done].
  - apply (Hown [0; 1] pd); [by right; right; left|done].
  - apply not_elem_of_nil.
Qed.

(** The tables of the window stay private. *)
Lemma edit_own s s' H U r v pt : world s H U → is_Some (U !! r) → window v →
  (pt ∉ H ∨ node (mem s) r (page v).1 = Some pt) →
  (∀ r', root s U r' → r' ≠ r → keeps (mem s) (mem s') r') → adds (mem s) (mem s') r pt →
  ∀ r1 r2 p q t, is_Some (U !! r1) → root s U r2 → r2 ≠ r1 → own_path p → length q ≤ 3 →
    node (mem s') r1 p = Some t → node (mem s') r2 q ≠ Some t.
Proof using Type.
  clear HHDM_room. intros W Hr Hv Hpt K Ad r1 r2 p q t R1 R2 Hne Hp Lq Np Nq.
  pose proof (own_path_len p Hp) as Lp.
  destruct (decide (r1 = r)) as [->|Hn1].
  - rewrite (keeps_node (mem s) (mem s')) in Nq by (try apply K; (done || lia)).
    destruct (Ad p t Lp Np) as [Np'| ->]; [by eapply (w_own _ _ _ W r r2 p q t)|].
    destruct Hpt as [Hpt|Hpt]; [by apply (sp_held _ _ _ (world_space _ _ _ _ W R2)) in Nq as [? _]|].
    eapply (w_own _ _ _ W r r2 (page v).1 q pt); try done. by apply window_own.
  - rewrite (keeps_node (mem s) (mem s')) in Np by (try (apply K; [by right|done]); lia).
    destruct (decide (r2 = r)) as [->|Hn2].
    + destruct (Ad q t Lq Nq) as [Nq'| ->]; [by eapply (w_own _ _ _ W r1 r p q t)|].
      destruct Hpt as [Hpt|Hpt]; [by apply (sp_held _ _ _ (w_space _ _ _ W r1 R1)) in Np as [? _]|].
      by eapply (w_own _ _ _ W r1 r p (page v).1 pt).
    + rewrite (keeps_node (mem s) (mem s')) in Nq by (try apply K; (done || lia)). by eapply (w_own _ _ _ W r1 r2 p q t).
Qed.

(** The view of the edited process. *)
Lemma edit_view s s' H U r P v phys prot d v' : world s H U → U !! r = Some P →
  (0 <= phys < 2 ^ 52)%Z → (phys mod 4096 = 0)%Z →
  maps (mem s') r v' =
    (if decide (page v' = page v)
     then if has (user_entry phys prot d) PRESENT then Some (meaning v' (user_entry phys prot d, 0xfff)%Z) else None
     else maps (mem s) r v') →
  user_path (mem s') r v → opens (mem s) (mem s') r →
  (∀ x, maps (mem s') r v' = Some x → x.2 = true → user_way (mem s') r v' = true) ∧
  user_view (mem s') r v' = given (<[page v:=(phys, prot)]> P) v'.
Proof using Type.
  clear HHDM_room. intros W HP Hph Hal M' Up Op. assert (is_Some (U !! r)) as Hr by (by exists P).
  destruct (user_meaning phys prot d v' Hph Hal) as [Hpres Hmean].
  assert (page v' = page v → user_way (mem s') r v' = true) as Hway.
  { intros [= E3 E2 E1 _]. unfold user_way. rewrite E3, E2, E1. by apply user_way_path. }
  assert (∀ x, maps (mem s) r v' = Some x → x.2 = true → user_way (mem s) r v' = true ∧ user_way (mem s') r v' = true) as Hold.
  { intros x Hx Hu. pose proof (w_ways _ _ _ W r v' x Hr Hx Hu) as Hw. split; [done|].
    apply user_way_path. eapply user_path_opens; [done|]. by apply path_user_way. }
  unfold given, user_view. rewrite M'. case_decide as Hpg.
  - split; [intros; by apply Hway|]. rewrite Hpres, Hmean. simpl. rewrite Hway by done. by rewrite Hpg, lookup_insert_eq.
  - split; [intros x Hx Hu; by apply (Hold x)|]. rewrite lookup_insert_ne by congruence. fold (given P v').
    rewrite <- (w_view _ _ _ W r P v' HP). unfold user_view.
    destruct (maps (mem s) r v') as [x|] eqn:Hx; [|done]. simpl. destruct x.2 eqn:Hu; [|done]. simpl.
    by destruct (Hold x eq_refl Hu) as [-> ->].
Qed.

Lemma map_world s H U r P vaddr phys prot d n : world s H U → okay s H (S n) → U !! r = Some P → cr3 s = r → window vaddr →
  (0 <= phys < 2 ^ 52)%Z → (phys mod 4096 = 0)%Z →
  ∃ s' H', map_user_page HHDM_OFFSET vaddr phys prot d s = (Ok (), s') ∧
    world s' H' (<[r:=<[page vaddr:=(phys, prot)]> P]> U) ∧ okay s' H' n ∧
    KERNEL_PML4 s' = KERNEL_PML4 s ∧ cr3 s' = r ∧ H ⊆ H' ∧ flushed s' = flushed s ++ [Z.ldiff vaddr 0xfff] ∧
    (∀ r', root s U r' → r' ≠ r → keeps (mem s) (mem s') r') ∧
    (∀ t, t ∈ H → (∀ p, length p ≤ 3 → node (mem s) r p ≠ Some t) → mem s' !! t = mem s !! t) ∧
    (∀ q t, length q ≤ 3 → node (mem s) r q = Some t → node (mem s') r q = Some t) ∧ is_Some (node (mem s') r (page vaddr).1) ∧
    (∀ v, maps (mem s') r v = if decide (page v = page vaddr)
       then Some ((phys + v mod 4096)%Z, (writable prot, executable prot), true) else maps (mem s) r v) ∧
    (∀ p t, length p ≤ 3 → node (mem s') r p = Some t →
       (t ∉ H) ∨ ∃ q, length q ≤ 3 ∧ (own_path p → own_path q) ∧ node (mem s) r q = Some t).
Proof using HHDM_room.
  intros W Hok HP Hcr Hv Hph Hal. assert (is_Some (U !! r)) as Hr by (by exists P).
  pose proof (w_space _ _ _ W r Hr) as SPr. destruct (w_window _ _ _ W r vaddr (or_intror Hr) Hv) as [pd Hcov].
  rewrite <- Hcr in SPr, Hcov.
  destruct (map_user_edited HHDM_OFFSET HHDM_room s H n vaddr phys prot d pd Hok SPr Hcov)
    as (pdpt & N3 & pt & s' & Hrun & Hpt & Ed & Hfl & SP' & N' & M' & G & Ad & Up & Op).
  rewrite page_align in *. pose proof (proj1 Hcov) as N2. rewrite Hcr in *.
  assert (∀ r', root s U r' → r' ≠ r → keeps (mem s) (mem s') r') as K.
  { intros r' Hr' Hne. eapply edits_keeps; [done|by eapply world_space|].
    intros p t Lp Np. by eapply (world_touch s H U r r' vaddr). }
  assert (KERNEL_PML4 s ≠ r) as Hkr by (intros E; rewrite <- E, (w_apart _ _ _ W) in HP; done).
  assert (KERNEL_PML4 s' = KERNEL_PML4 s) as Hk' by apply (ed_kpml4 _ _ _ _ _ _ Ed).
  pose proof (K _ (or_introl eq_refl) Hkr) as Kk.
  assert (∀ r', r' ≠ r → is_Some (<[r:=<[page vaddr:=(phys, prot)]> P]> U !! r') → is_Some (U !! r')) as HU.
  { intros r' Hne. by rewrite lookup_insert_ne. }
  assert (∀ t, t ∈ H → (∀ p, length p ≤ 3 → node (mem s) r p ≠ Some t) → mem s' !! t = mem s !! t) as Hdata.
  { intros t Ht Hno. apply (ed_only _ _ _ _ _ _ Ed); [done|]. rewrite !elem_of_cons, elem_of_nil. intros [->|[->|[->|[->|[]]]]].
    - destruct Hpt as [|Npt]; [done|]. by apply (Hno (page vaddr).1) in Npt; [|simpl; lia].
    - by apply (Hno []); [simpl; lia|].
    - by apply Hno in N3; [|simpl; lia].
    - by apply Hno in N2; [|simpl; lia]. }
  assert (is_Some (node (mem s') r (page vaddr).1)) as Hpage by (by exists pt).
  pose proof (λ q t, gentle_node (mem s) (mem s') r q t G) as Hnodes.
  exists s', ({[pt]} ∪ H). split; [done|]. pose proof (ed_grow _ _ _ _ _ _ Ed) as Hgrow.
  split; [|split_and!; try done; [apply (ed_okay _ _ _ _ _ _ Ed)|by rewrite (ed_cr3 _ _ _ _ _ _ Ed)| |]]; last first.
  { intros p t Lp Np. destruct (Ad p t Lp Np) as [Np'| ->]; [right; by exists p|]. destruct Hpt as [|Npt]; [by left|right].
    exists (page vaddr).1. split; [simpl; lia|]. split; [|done]. intros _. by apply window_own. }
  { intros v. destruct (user_meaning phys prot d v Hph Hal) as [Hp Hm]. rewrite M'. case_decide; [|done]. by rewrite Hp, Hm. }
  split; rewrite ?Hk'.
  - eapply okay_weaken; [|apply (ed_okay _ _ _ _ _ _ Ed)]. lia.
  - eapply is_space_mono; [done|]. by eapply keeps_space, (w_kernel _ _ _ W).
  - intros r' Hr'. destruct (decide (r' = r)) as [->|Hne]; [done|]. apply HU in Hr'; [|done].
    eapply is_space_mono; [done|]. eapply keeps_space, (w_space _ _ _ W); [|done]. apply K; [by right|done].
  - intros r' v' Hr' Hv'. destruct (decide (r' = r)) as [->|Hne].
    + destruct (w_window _ _ _ W r v' (or_intror Hr) Hv') as [pd' Hc]. exists pd'. by eapply gentle_covered.
    + assert (root s U r') as Hroot by (destruct Hr'; [by left|right; by apply HU]).
      destruct (w_window _ _ _ W r' v' Hroot Hv') as [pd' Hc]. exists pd'. eapply keeps_covered; [|done]. by apply K.
  - intros r1 r2 p q t H1 H2 Hne. apply (edit_own s s' H U r vaddr pt W Hr Hv Hpt K Ad); try done.
    + destruct (decide (r1 = r)) as [->|]; [done|by apply HU].
    + destruct H2 as [|H2]; [by left|]. destruct (decide (r2 = r)) as [->|]; right; [done|by apply HU].
  - rewrite lookup_insert_ne by done. apply (w_apart _ _ _ W).
  - intros v x. rewrite (keeps_maps (mem s) (mem s')) by done. apply (w_supervisor _ _ _ W).
  - intros r' v x Hr' Hx Hu. destruct (decide (r' = r)) as [->|Hne].
    + by eapply (edit_view s s' H U r P vaddr phys prot d v).
    + apply HU in Hr'; [|done]. pose proof (K r' (or_intror Hr') Hne) as Kr.
      rewrite (keeps_maps (mem s) (mem s')) in Hx by done. pose proof (w_ways _ _ _ W r' v x Hr' Hx Hu) as Hw.
      unfold user_way in *. simpl in *. by rewrite !(keeps_entry (mem s) (mem s')) by (done || (simpl; lia)).
  - intros r' P' v HP'. destruct (decide (r' = r)) as [->|Hne].
    + rewrite lookup_insert_eq in HP'. injection HP' as <-. by eapply (edit_view s s' H U r P vaddr phys prot d v).
    + rewrite lookup_insert_ne in HP' by done. rewrite (keeps_view (mem s) (mem s')); [by apply (w_view _ _ _ W)|].
      apply K; [right; by eexists|done].
  - intros t [->%elem_of_singleton|Ht]%elem_of_union.
    + right. exists r, (page vaddr).1. rewrite lookup_insert_eq. split_and!; try done. by apply window_own.
    + destruct (w_frames _ _ _ W t Ht) as [|(r' & q & Hr' & Hq & Nq)]; [by left|right]. exists r', q.
      pose proof (own_path_len q Hq) as Lq.
      destruct (decide (r' = r)) as [->|Hne].
      * rewrite lookup_insert_eq. split_and!; try done. by eapply gentle_node.
      * rewrite lookup_insert_ne by done. split_and!; try done.
        rewrite (keeps_node (mem s) (mem s')); [done|by apply K; [right|]|lia].
Qed.

(** ** A new process *)

Lemma new_world s H U : world s H U → okay s H 515 →
  ∃ r s' H', new_process_space HHDM_OFFSET s = (Ok (mkSpace r 0), s') ∧ (r ∉ H) ∧
    world s' H' (<[r:=∅]> U) ∧ KERNEL_PML4 s' = KERNEL_PML4 s ∧ cr3 s' = cr3 s ∧ flushed s' = flushed s ∧ H ⊆ H' ∧
    (∀ r', root s U r' → keeps (mem s) (mem s') r') ∧ (∀ t, t ∈ H → mem s' !! t = mem s !! t) ∧
    (∀ v, maps (mem s') r v = maps (mem s) (KERNEL_PML4 s) v) ∧
    (∀ p t, length p ≤ 3 → node (mem s') r p = Some t →
       (t ∉ H) ∨ ¬ own_path p ∧ node (mem s) (KERNEL_PML4 s) p = Some t).
Proof using HHDM_room.
  intros W Hok. pose proof (w_kernel _ _ _ W) as SPk.
  assert (is_Some (node (mem s) (KERNEL_PML4 s) [0; 1])) as N2.
  { destruct (w_window _ _ _ W (KERNEL_PML4 s) (2 ^ 30)) as [pd [N _]]; [by left|unfold window; lia|].
    destruct (window_idx (2 ^ 30)) as [I3 I2]; [unfold window; lia|]. rewrite I3, I2 in N. by exists pd. }
  destruct (new_process_space_spec 0 HHDM_OFFSET HHDM_room s H Hok SPk N2)
    as (r & s' & H' & Hrun & Hok' & Hgrow & C & Hown & Hex & Hcr & Hk' & Hfl).
  assert (∀ r', root s U r' → keeps (mem s) (mem s') r') as K.
  { intros r' Hr' p t Lp Np. apply (cl_keep _ _ _ _ _ C). by apply (sp_held _ _ _ (world_space _ _ _ _ W Hr')) in Np as [? _]. }
  pose proof (cl_keep _ _ _ _ _ C) as Kd.
  assert (r ∉ H) as Hr by (apply (cl_own _ _ _ _ _ C [] r); [by left|done]).
  assert (∀ r', root s U r' → r' ≠ r) as Hne.
  { intros r' Hr' ->. apply Hr. apply (sp_held _ _ _ (world_space _ _ _ _ W Hr') [] r); [simpl; lia|done]. }
  assert (KERNEL_PML4 s ≠ r) as Hkr by (apply Hne; by left).
  assert (∀ r', is_Some (<[r:=∅]> U !! r') → r' = r ∨ is_Some (U !! r')) as HU.
  { intros r' Hr'. destruct (decide (r' = r)) as [->|]; [by left|right]. by rewrite lookup_insert_ne in Hr'. }
  assert (∀ v, maps (mem s') r v = maps (mem s) (KERNEL_PML4 s) v) as Mr by apply (cl_maps _ _ _ _ _ C).
  exists r, s', H'. split; [done|]. split; [done|]. split; [|split_and!; try done]; last first.
  { intros p t Lp Np. destruct (decide (own_path p)) as [Hp|Hp].
    - apply (cl_own _ _ _ _ _ C) in Np as [? _]; [by left|done].
    - right. by rewrite (cl_other _ _ _ _ _ C) in Np by done. }
  split; rewrite ?Hk'.
  - done.
  - eapply is_space_mono; [done|]. eapply keeps_space; [|done]. apply K. by left.
  - intros r' [->|Hr']%HU; [by eapply cloned_space|].
    eapply is_space_mono; [done|]. eapply keeps_space, (w_space _ _ _ W); [|done]. apply K. by right.
  - intros r' v Hr' Hv. assert (r' = r ∨ root s U r') as [->|Hr''] by (destruct Hr' as [|[|]%HU]; [by right; left|by left|by right; right]).
    + destruct (w_window _ _ _ W (KERNEL_PML4 s) v (or_introl eq_refl) Hv) as [pd Hc]. destruct (window_idx v Hv).
      by eapply (cl_window _ _ _ _ _ C).
    + destruct (w_window _ _ _ W r' v Hr'' Hv) as [pd Hc]. exists pd. eapply keeps_covered; [|done]. by apply K.
  - intros r1 r2 p q t H1 H2 Hne12 Hp Lq Np Nq. pose proof (own_path_len p Hp) as Lp.
    assert (r2 = r ∨ root s U r2) as R2 by (destruct H2 as [|[|]%HU]; [by right; left|by left|by right; right]).
    apply HU in H1 as [->|H1].
    + destruct R2 as [|R2]; [done|]. apply (cl_own _ _ _ _ _ C) in Np as [Ht _]; [|done]. apply Ht.
      rewrite (keeps_node (mem s) (mem s')) in Nq by (try apply K; (done || lia)).
      by apply (sp_held _ _ _ (world_space _ _ _ _ W R2)) in Nq as [? _].
    + rewrite (keeps_node (mem s) (mem s')) in Np by (try (apply K; by right); lia).
      destruct R2 as [->|R2].
      * destruct (decide (own_path q)) as [Hq|Hq].
        { apply (cl_own _ _ _ _ _ C) in Nq as [Ht _]; [|done]. apply Ht. by apply (sp_held _ _ _ (w_space _ _ _ W r1 H1)) in Np as [? _]. }
        rewrite (cl_other _ _ _ _ _ C) in Nq by done. eapply (w_own _ _ _ W r1 (KERNEL_PML4 s) p q t); try done; [by left|].
        intros E. rewrite <- E, (w_apart _ _ _ W) in H1. by destruct H1.
      * rewrite (keeps_node (mem s) (mem s')) in Nq by (try apply K; (done || lia)). by eapply (w_own _ _ _ W r1 r2 p q t).
  - rewrite lookup_insert_ne by done. apply (w_apart _ _ _ W).
  - intros v x. rewrite (keeps_maps (mem s) (mem s')) by (apply K; by left). apply (w_supervisor _ _ _ W).
  - intros r' v x [->|Hr']%HU Hx Hu.
    + rewrite Mr in Hx. by rewrite (w_supervisor _ _ _ W v x Hx) in Hu.
    + pose proof (K r' (or_intror Hr')) as Kr. rewrite (keeps_maps (mem s) (mem s')) in Hx by done.
      pose proof (w_ways _ _ _ W r' v x Hr' Hx Hu) as Hw. unfold user_way in *. simpl in *.
      by rewrite !(keeps_entry (mem s) (mem s')) by (done || (simpl; lia)).
  - intros r' P v HP. destruct (decide (r' = r)) as [->|Hn].
    + rewrite lookup_insert_eq in HP. injection HP as <-. unfold given. rewrite lookup_empty. simpl.
      apply supervisor_view. intros x Hx. rewrite Mr in Hx. by eapply (w_supervisor _ _ _ W).
    + rewrite lookup_insert_ne in HP by done. rewrite (keeps_view (mem s) (mem s')); [by apply (w_view _ _ _ W)|].
      apply K. right. by eexists.
  - intros t Ht. destruct (Hex t Ht) as [Ht'|(q & Hq & Nq)].
    + destruct (w_frames _ _ _ W t Ht') as [|(r' & q & Hr' & Hq & Nq)]; [by left|right]. exists r', q.
      pose proof (own_path_len q Hq) as Lq.
      rewrite lookup_insert_ne by (apply not_eq_sym, Hne; by right). split_and!; try done.
      rewrite (keeps_node (mem s) (mem s')); [done|apply K; by right|lia].
    + right. exists r, q. by rewrite lookup_insert_eq.
Qed.

(** ** Reaping a process *)

(** The frame a last-level entry of the window maps [va] to. *)
Definition leaf_frame (m : memory) (pd va : Z) : option Z :=
  pt ← ent m pd (idx va 1) ≫= down;
  e ← ent m pt (idx va 0);
  if has e PRESENT then Some (Z.land e ADDR_MASK) else None.

(** The last-level tables of a directory. *)
Definition leaf_tables (m : memory) (pd : Z) : list Z := omap (λ i, ent m pd i ≫= down) (seq 0 512).

(** [s] with the frames [L] given back. *)
Definition returned (s s' : Mach F) (H : gset Z) (L : list Z) : Prop :=
  mem s' = mem s ∧ cr3 s' = cr3 s ∧ KERNEL_PML4 s' = KERNEL_PML4 s ∧ flushed s' = flushed s ∧
  held (fr s') (H ∖ list_to_set L).

Lemma free_returned s H t : held (fr s) H → t ∈ loose H →
  ∃ s', free_table t s = (Ok (), s') ∧ returned s s' H [t].
Proof using Type.
  clear HHDM_room. intros Hh [Ht Hk]%elem_of_difference. destruct (fs_free_spec _ _ _ Hh Ht Hk) as (f & Hf & Hh' & _).
  unfold free_table, on_frames. rewrite Hf. eexists. split; [done|]. split_and!; try done. simpl.
  by replace (H ∖ ({[t]} ∪ ∅)) with (H ∖ {[t]}) by set_solver.
Qed.

Lemma returned_app s1 s2 s3 H L1 L2 : returned s1 s2 H L1 → returned s2 s3 (H ∖ list_to_set L1) L2 → returned s1 s3 H (L1 ++ L2).
Proof using Type.
  clear HHDM_room. intros (A1 & A2 & A3 & A4 & A5) (B1 & B2 & B3 & B4 & B5). split_and!; try congruence.
  rewrite list_to_set_app_L. by replace (H ∖ (list_to_set L1 ∪ list_to_set L2)) with (H ∖ list_to_set L1 ∖ list_to_set L2) by set_solver.
Qed.

Lemma returned_nil s H : held (fr s) H → returned s s H [].
Proof using Type. clear HHDM_room. intros Hh. split_and!; try done. simpl. by rewrite difference_empty_L. Qed.

Lemma reap_leaves_spec m pd H vas n s : tabs m → mem s = m → held (fr s) H → is_Some (m !! pd) →
  (∀ i t, ent m pd i ≫= down = Some t → is_Some (m !! t)) →
  NoDup (omap (leaf_frame m pd) vas) → (∀ t, t ∈ omap (leaf_frame m pd) vas → t ∈ loose H) →
  (0 <= n)%Z → (n + Z.of_nat (length vas) < 2 ^ 32)%Z →
  ∃ s', reap_leaves HHDM_OFFSET pd vas n s = (Ok (n + Z.of_nat (length (omap (leaf_frame m pd) vas)))%Z, s') ∧
    returned s s' H (omap (leaf_frame m pd) vas).
Proof using HHDM_room.
  intros TB Hm Hh [D HD] Hpts. revert n s H Hm Hh. induction vas as [|va vas IH]; intros n s H Hm Hh Hnd Hin Hn0 Hn; cbn [reap_leaves].
  { exists s. cbn [omap list_omap length]. rewrite Z.add_0_r. split; [done|by apply returned_nil]. }
  cbn [length] in Hn. destruct (TB pd D HD) as [_ HL].
  destruct (lookup_lt_is_Some_2 D (idx va 1)) as [e2 He2]; [rewrite HL; apply idx_lt|].
  assert (ent m pd (idx va 1) = Some e2) as E2 by (unfold ent; by rewrite HD).
  rewrite (bind_run _ _ _ _ _ (read_eq HHDM_OFFSET HHDM_room s pd (idx va 1) e2 ltac:(by rewrite Hm) ltac:(by rewrite Hm))).
  assert (∀ o, leaf_frame m pd va = o → omap (leaf_frame m pd) (va :: vas) = match o with Some t => t :: omap (leaf_frame m pd) vas | None => omap (leaf_frame m pd) vas end) as Hcons.
  { intros o <-. done. }
  unfold leaf_frame in Hcons at 1. rewrite E2 in Hcons. cbn [mbind option_bind] in Hcons. rewrite down_eq in Hcons.
  destruct (has e2 PRESENT) eqn:P2, (has e2 HUGE) eqn:H2; cbn [andb negb];
    try (rewrite (Hcons None eq_refl) in *; apply IH; try done; lia).
  destruct (Hpts (idx va 1) (Z.land e2 ADDR_MASK)) as [Tp HTp]; [rewrite E2; simpl; by rewrite down_eq, P2, H2|].
  destruct (TB _ _ HTp) as [_ HLp]. destruct (lookup_lt_is_Some_2 Tp (idx va 0)) as [e1 He1]; [rewrite HLp; apply idx_lt|].
  assert (ent m (Z.land e2 ADDR_MASK) (idx va 0) = Some e1) as E1 by (unfold ent; by rewrite HTp).
  rewrite (bind_run _ _ _ _ _ (read_eq HHDM_OFFSET HHDM_room s _ (idx va 0) e1 ltac:(by rewrite Hm) ltac:(by rewrite Hm))).
  cbn [mbind option_bind] in Hcons. rewrite E1 in Hcons. cbn [mbind option_bind] in Hcons.
  destruct (has e1 PRESENT) eqn:P1; [|rewrite (Hcons None eq_refl) in *; apply IH; try done; lia].
  rewrite (Hcons _ eq_refl) in *. apply NoDup_cons in Hnd as [Hni Hnd].
  destruct (free_returned s H (Z.land e1 ADDR_MASK) Hh) as (s1 & Hf & R1); [apply Hin; left|].
  rewrite (bind_run _ _ _ _ _ Hf). erewrite bind_run by (unfold lift; by rewrite arith_in by (unfold in_u; lia)).
  destruct (IH (n + 1)%Z s1 (H ∖ list_to_set [Z.land e1 ADDR_MASK])) as (s2 & Hr2 & R2).
  - destruct R1 as (-> & _). done.
  - apply R1.
  - done.
  - intros t Ht. assert (t ∈ loose H) by (apply Hin; by right). assert (t ≠ Z.land e1 ADDR_MASK) by congruence. set_solver.
  - lia.
  - lia.
  - exists s2. rewrite Hr2. split; [do 2 f_equal; cbn [length]; lia|]. by apply (returned_app _ _ _ _ [_]) with (1 := R1).
Qed.

Lemma reap_pts_spec m pd H js n s : tabs m → mem s = m → held (fr s) H → is_Some (m !! pd) →
  Forall (λ i, i < 512) js →
  NoDup (omap (λ i, ent m pd i ≫= down) js) → (∀ t, t ∈ omap (λ i, ent m pd i ≫= down) js → t ∈ loose H) →
  (0 <= n)%Z → (n + Z.of_nat (length js) < 2 ^ 32)%Z →
  ∃ s', reap_pts HHDM_OFFSET pd js n s = (Ok (n + Z.of_nat (length (omap (λ i, ent m pd i ≫= down) js)))%Z, s') ∧
    returned s s' H (omap (λ i, ent m pd i ≫= down) js).
Proof using HHDM_room.
  intros TB Hm Hh [D HD] Hall. revert n s H Hm Hh. induction Hall as [|i js Hi Hall IH]; intros n s H Hm Hh Hnd Hin Hn0 Hn; cbn [reap_pts].
  { exists s. cbn [omap list_omap length]. rewrite Z.add_0_r. split; [done|by apply returned_nil]. }
  cbn [length] in Hn. destruct (TB pd D HD) as [_ HL].
  destruct (lookup_lt_is_Some_2 D i) as [e He]; [lia|]. assert (ent m pd i = Some e) as E by (unfold ent; by rewrite HD).
  rewrite (bind_run _ _ _ _ _ (read_eq HHDM_OFFSET HHDM_room s pd i e ltac:(by rewrite Hm) ltac:(by rewrite Hm))).
  set (f := λ i, ent m pd i ≫= down) in *.
  assert (∀ o, f i = o → omap f (i :: js) = match o with Some t => t :: omap f js | None => omap f js end) as Hcons by (by intros o <-).
  assert (f i = down e) as Hfi by (unfold f; by rewrite E). rewrite down_eq in Hfi.
  destruct (has e PRESENT) eqn:P2, (has e HUGE) eqn:H2; cbn [andb negb];
    try (rewrite (Hcons None Hfi) in *; apply IH; try done; lia).
  rewrite (Hcons _ Hfi) in *. apply NoDup_cons in Hnd as [Hni Hnd].
  destruct (free_returned s H (Z.land e ADDR_MASK) Hh) as (s1 & Hf & R1); [apply Hin; left|].
  rewrite (bind_run _ _ _ _ _ Hf). erewrite bind_run by (unfold lift; by rewrite arith_in by (unfold in_u; lia)).
  destruct (IH (n + 1)%Z s1 (H ∖ list_to_set [Z.land e ADDR_MASK])) as (s2 & Hr2 & R2).
  - destruct R1 as (-> & _). done.
  - apply R1.
  - done.
  - intros t Ht. assert (t ∈ loose H) by (apply Hin; by right). assert (t ≠ Z.land e ADDR_MASK) by congruence. set_solver.
  - lia.
  - lia.
  - exists s2. rewrite Hr2. split; [do 2 f_equal; cbn [length]; lia|]. by apply (returned_app _ _ _ _ [_]) with (1 := R1).
Qed.

(** The frames that go with process [r]: the listed leaves and its own tables. *)
Definition reaped (m : memory) (r pdpt pd : Z) (vas : list Z) : list Z :=
  omap (leaf_frame m pd) vas ++ leaf_tables m pd ++ [pd; pdpt; r].

Lemma own_window s H U r : world s H U → is_Some (U !! r) → ∃ e0 pdpt e1 pd,
  ent (mem s) r 0 = Some e0 ∧ Z.land e0 ADDR_MASK = pdpt ∧ node (mem s) r [0] = Some pdpt ∧
  ent (mem s) pdpt 1 = Some e1 ∧ Z.land e1 ADDR_MASK = pd ∧ node (mem s) r [0; 1] = Some pd ∧
  ∀ i, node (mem s) r [0; 1; i] = ent (mem s) pd i ≫= down.
Proof using Type.
  clear HHDM_room. intros W Hr. destruct (w_window _ _ _ W r (2 ^ 30)) as [pd Hc]; [by right|unfold window; lia|].
  destruct (covered_path _ _ _ _ Hc) as (e0 & pdpt & e1 & E0 & D0 & N0 & E1 & D1). destruct Hc as [N _].
  destruct (window_idx (2 ^ 30)) as [I3 I2]; [unfold window; lia|]. rewrite I3, ?I2 in *.
  apply down_Some in D0 as (_ & _ & A0). apply down_Some in D1 as (_ & _ & A1).
  exists e0, pdpt, e1, pd. split_and!; try done. intros i. change [0; 1; i] with ([0; 1] ++ [i]).
  rewrite node_snoc. unfold entry. by rewrite N.
Qed.

Lemma leaf_tables_NoDup s H U r pd : world s H U → is_Some (U !! r) →
  (∀ i, node (mem s) r [0; 1; i] = ent (mem s) pd i ≫= down) → NoDup (leaf_tables (mem s) pd).
Proof using Type.
  clear HHDM_room. intros W Hr Hn. unfold leaf_tables. generalize 512. generalize 0. intros a n. revert a.
  induction n as [|n IH]; intros a; cbn [seq omap list_omap]; [constructor|].
  destruct (ent (mem s) pd a ≫= down) as [t|] eqn:E; [|apply IH]. apply NoDup_cons. split; [|apply IH].
  rewrite list_elem_of_omap. intros (j & Hj & E'). apply elem_of_seq in Hj. rewrite <- Hn in E, E'.
  pose proof (sp_tree _ _ _ (w_space _ _ _ W r Hr) [0; 1; a] [0; 1; j] t ltac:(simpl; lia) ltac:(simpl; lia) E E') as [= ->]. lia.
Qed.

Lemma own_tables s H U r pdpt pd t : world s H U → is_Some (U !! r) →
  node (mem s) r [0] = Some pdpt → node (mem s) r [0; 1] = Some pd →
  (∀ i, node (mem s) r [0; 1; i] = ent (mem s) pd i ≫= down) →
  t ∈ leaf_tables (mem s) pd ++ [pd; pdpt; r] ↔ ∃ q, own_path q ∧ node (mem s) r q = Some t.
Proof using Type.
  clear HHDM_room. intros W Hr N0 N1 Hn. rewrite elem_of_app. unfold leaf_tables. rewrite list_elem_of_omap.
  rewrite !elem_of_cons, elem_of_nil. split.
  - intros [(i & _ & E)|[->|[->|[->|[]]]]].
    + exists [0; 1; i]. rewrite Hn. split; [|done]. right; right; right. by exists i.
    + exists [0; 1]. split; [by right; right; left|done].
    + exists [0]. split; [by right; left|done].
    + exists []. split; [by left|done].
  - intros (q & [->|[->|[->|[i ->]]]] & Nq).
    { injection Nq as ->. auto. } { rewrite N0 in Nq. injection Nq as ->. auto. } { rewrite N1 in Nq. injection Nq as ->. auto. }
    left. rewrite Hn in Nq. exists i. split; [|done]. apply elem_of_seq. destruct (ent (mem s) pd i) as [e|] eqn:E; [|done].
    unfold ent in E. destruct (mem s !! pd) as [D|] eqn:HD; [|done]. simpl in E. apply lookup_lt_Some in E.
    destruct (ok_tabs _ _ _ (w_okay _ _ _ W) pd D HD) as [_ HL]. lia.
Qed.

Lemma leaf_tables_eq m pd : leaf_tables m pd = omap (λ i, ent m pd i ≫= down) (seq 0 512).
Proof using Type. reflexivity. Qed.

Lemma leaf_tables_elem m pd t : t ∈ leaf_tables m pd → ∃ i, ent m pd i ≫= down = Some t.
Proof using Type.
  clear HHDM_room. rewrite leaf_tables_eq, list_elem_of_omap. intros (i & _ & Hi). exists i. exact Hi.
Qed.

Lemma leaf_tables_length m pd : length (leaf_tables m pd) ≤ 512.
Proof using Type.
  clear HHDM_room. rewrite leaf_tables_eq. etrans; [apply omap_length_le|]. rewrite length_seq. apply Nat.le_refl.
Qed.

#[local] Opaque leaf_tables.

(** Without the frames of [r] the rest of the world stands. *)
Lemma world_without s s' H U r L : world s H U → is_Some (U !! r) → returned s s' H L →
  (∀ t, t ∈ L → ∀ r' p, root s U r' → r' ≠ r → length p ≤ 3 → node (mem s) r' p ≠ Some t) →
  (∀ q t, own_path q → node (mem s) r q = Some t → t ∈ L) →
  world s' (H ∖ list_to_set L) (delete r U).
Proof using Type.
  clear HHDM_room. intros W Hr (Hm & Hc & Hk & Hf & Hh) HL Hown.
  assert (∀ r', is_Some (delete r U !! r') → r' ≠ r ∧ is_Some (U !! r')) as HU.
  { intros r' Hr'. destruct (decide (r' = r)) as [->|]; [by rewrite lookup_delete_eq in Hr'; destruct Hr'|].
    by rewrite lookup_delete_ne in Hr' by done. }
  assert (KERNEL_PML4 s ≠ r) as Hkr by (intros E; rewrite <- E, (w_apart _ _ _ W) in Hr; by destruct Hr).
  assert (∀ r', root s U r' → r' ≠ r → is_space (mem s) (H ∖ list_to_set L) r') as HS.
  { intros r' Hr' Hne. destruct (world_space _ _ _ _ W Hr') as [S1 S2 S3]. split; try done. intros p t Lp Np.
    destruct (S1 p t Lp Np) as [Ht ?]. split; [|done]. apply elem_of_difference. split; [done|]. rewrite elem_of_list_to_set.
    intros Hin. by eapply (HL t Hin r' p). }
  split; rewrite ?Hm, ?Hk.
  - split; [done|done|]. rewrite Hm. apply (ok_tabs _ _ _ (w_okay _ _ _ W)).
  - apply HS; [by left|done].
  - intros r' [Hne Hr']%HU. apply HS; [by right|done].
  - intros r' v [->|[_ Hr']%HU] Hv; apply (w_window _ _ _ W); auto.
  - intros r1 r2 p q t [_ H1]%HU H2. apply (w_own _ _ _ W); [done|]. destruct H2 as [|[_ ?]%HU]; auto.
  - rewrite lookup_delete_ne by done. apply (w_apart _ _ _ W).
  - apply (w_supervisor _ _ _ W).
  - intros r' v x [_ Hr']%HU. by apply (w_ways _ _ _ W).
  - intros r' P v HP. destruct (HU r') as [Hne _]; [by eexists|]. rewrite lookup_delete_ne in HP by done. by apply (w_view _ _ _ W).
  - intros t [Ht Hn]%elem_of_difference. rewrite elem_of_list_to_set in Hn.
    destruct (w_frames _ _ _ W t Ht) as [|(r' & q & Hr' & Hq & Nq)]; [by left|right]. exists r', q.
    assert (r' ≠ r) by (intros ->; by apply Hn, (Hown q)). by rewrite lookup_delete_ne by done.
Qed.

Lemma own_tables_NoDup s H U r pdpt pd : world s H U → is_Some (U !! r) →
  node (mem s) r [0] = Some pdpt → node (mem s) r [0; 1] = Some pd →
  (∀ i, node (mem s) r [0; 1; i] = ent (mem s) pd i ≫= down) → NoDup (leaf_tables (mem s) pd ++ [pd; pdpt; r]).
Proof using Type.
  clear HHDM_room. intros W Hr N0 N1 Hn. pose proof (w_space _ _ _ W r Hr) as SP.
  apply NoDup_app. split_and!; [by eapply leaf_tables_NoDup| |].
  - intros t Ht Hx. apply leaf_tables_elem in Ht as (i & Hi). rewrite <- Hn in Hi.
    assert (∀ q, length q ≤ 2 → node (mem s) r q ≠ Some t) as Hno.
    { intros q Lq Nq. pose proof (sp_tree _ _ _ SP [0; 1; i] q t ltac:(simpl; lia) ltac:(lia) Hi Nq) as <-. simpl in Lq. lia. }
    rewrite !elem_of_cons, elem_of_nil in Hx. destruct Hx as [->|[->|[->|[]]]];
      [by apply (Hno [0; 1]); [simpl; lia|]|by apply (Hno [0]); [simpl; lia|]|by apply (Hno []); [simpl; lia|]].
  - assert (pd ≠ pdpt) by (intros ->; by pose proof (sp_tree _ _ _ SP [0; 1] [0] pdpt ltac:(simpl; lia) ltac:(simpl; lia) N1 N0)).
    assert (pd ≠ r) by (intros ->; by pose proof (sp_tree _ _ _ SP [0; 1] [] r ltac:(simpl; lia) ltac:(simpl; lia) N1 eq_refl)).
    assert (pdpt ≠ r) by (intros ->; by pose proof (sp_tree _ _ _ SP [0] [] r ltac:(simpl; lia) ltac:(simpl; lia) N0 eq_refl)).
    rewrite !NoDup_cons, !not_elem_of_cons. split_and!; try done; try apply not_elem_of_nil. constructor.
Qed.

(** The last three tables. *)
Lemma free3_spec s H a b c : held (fr s) H → NoDup [a; b; c] → (∀ t, t ∈ [a; b; c] → t ∈ loose H) →
  ∃ s', (∀ (X : Type) (k : M (Mach F) Empty_set X), (free_table a;; free_table b;; free_table c;; k) s = k s') ∧
    returned s s' H [a; b; c].
Proof using Type.
  clear HHDM_room. intros Hh Hnd Hin. rewrite !NoDup_cons, !not_elem_of_cons in Hnd. destruct Hnd as ((Hab & Hac & _) & (Hbc & _) & _).
  destruct (free_returned s H a Hh) as (s1 & F1 & R1); [apply Hin; by left|].
  assert (∀ t, t ∈ [b; c] → t ∈ loose H) as Hin' by (intros t Ht; apply Hin; by right).
  destruct (free_returned s1 (H ∖ list_to_set [a]) b) as (s2 & F2 & R2); [apply R1| |].
  { assert (b ∈ loose H) by (apply Hin'; by left). simpl. set_solver. }
  pose proof (returned_app _ _ _ _ _ _ R1 R2) as R12.
  destruct (free_returned s2 (H ∖ list_to_set [a; b]) c) as (s3 & F3 & R3); [apply R12| |].
  { assert (c ∈ loose H) by (apply Hin'; right; by left). simpl. set_solver. }
  exists s3. split; [|apply (returned_app _ _ _ _ _ _ R12 R3)].
  intros X k. by rewrite (bind_run _ _ _ _ _ F1), (bind_run _ _ _ _ _ F2), (bind_run _ _ _ _ _ F3).
Qed.

(** The leaves handed to [reap_process_space] with the space: frames of the
    process's own, none twice, none of them a table. *)
Definition owned_leaves (s : Mach F) (H : gset Z) (U : gmap Z pages) (pd : Z) (vas : list Z) : Prop :=
  NoDup (omap (leaf_frame (mem s) pd) vas) ∧
  (∀ t, t ∈ omap (leaf_frame (mem s) pd) vas → t ∈ loose H ∧
     ∀ r' p, root s U r' → length p ≤ 3 → node (mem s) r' p ≠ Some t).

Lemma reap_world s H U r pdpt pd vas : world s H U → is_Some (U !! r) →
  node (mem s) r [0] = Some pdpt → node (mem s) r [0; 1] = Some pd →
  owned_leaves s H U pd vas → (∀ q t, own_path q → node (mem s) r q = Some t → t ∉ fs_kept) → (Z.of_nat (length vas) + 515 < 2 ^ 32)%Z →
  ∃ s', reap_process_space HHDM_OFFSET (mkSpace r 0) vas s =
      (Ok (Z.of_nat (length (reaped (mem s) r pdpt pd vas))), s') ∧
    returned s s' H (reaped (mem s) r pdpt pd vas) ∧
    world s' (H ∖ list_to_set (reaped (mem s) r pdpt pd vas)) (delete r U).
Proof using HHDM_room.
  intros W Hr N0' N1' [Hnd Hleaf] Hkept Hlen. pose proof (ok_tabs _ _ _ (w_okay _ _ _ W)) as TB.
  destruct (own_window s H U r W Hr) as (e0 & pdpt' & e1 & pd' & E0 & A0 & N0 & E1 & A1 & N1 & Hn).
  assert (pdpt' = pdpt) as -> by congruence. assert (pd' = pd) as -> by congruence.
  pose proof (w_space _ _ _ W r Hr) as SP.
  assert (is_Some (mem s !! pd)) as Hpd by (apply (sp_held _ _ _ SP) in N1 as [_ ?]; [done|simpl; lia]).
  pose proof (λ t, own_tables s H U r pdpt pd t W Hr N0 N1 Hn) as Hown.
  assert (∀ t, t ∈ leaf_tables (mem s) pd ++ [pd; pdpt; r] → t ∈ loose H ∧ t ∉ omap (leaf_frame (mem s) pd) vas) as Htab.
  { intros t Ht. apply Hown in Ht as (q & Hq & Nq). pose proof (own_path_len q Hq) as Lq. split.
    - apply elem_of_difference. split; [by apply (sp_held _ _ _ SP) in Nq as [? _]|by apply (Hkept q)].
    - intros Hin. destruct (Hleaf t Hin) as [_ Hno]. by apply (Hno r q); [right| |]. }
  pose proof (own_tables_NoDup s H U r pdpt pd W Hr N0 N1 Hn) as Hnd2.
  set (L1 := omap (leaf_frame (mem s) pd) vas) in *. set (L2 := leaf_tables (mem s) pd) in *.
  assert (length L1 ≤ length vas ∧ length L2 ≤ 512) as [Hl1 Hl2].
  { split; [apply omap_length_le|apply leaf_tables_length]. }
  unfold reap_process_space. cbn [primary]. cbv zeta.
  rewrite (bind_run _ _ _ _ _ (read_eq HHDM_OFFSET HHDM_room s r 0 e0 TB E0)), A0.
  rewrite (bind_run _ _ _ _ _ (read_eq HHDM_OFFSET HHDM_room s pdpt 1 e1 TB E1)), A1.
  destruct (reap_leaves_spec (mem s) pd H vas 0 s TB eq_refl (ok_held _ _ _ (w_okay _ _ _ W)) Hpd) as (s1 & Hr1 & R1); try done; try lia.
  { intros i t Hi. rewrite <- Hn in Hi. apply (sp_held _ _ _ SP) in Hi as [_ ?]; [done|simpl; lia]. }
  { intros t Ht. by apply Hleaf. }
  fold L1 in Hr1, R1. rewrite (bind_run _ _ _ _ _ Hr1).
  destruct (reap_pts_spec (mem s) pd (H ∖ list_to_set L1) (seq 0 512) (0 + Z.of_nat (length L1)) s1) as (s2 & Hr2 & R2); try done; try lia.
  { apply R1. } { apply R1. } { apply Forall_seq. lia. } { rewrite <- leaf_tables_eq. by apply NoDup_app in Hnd2 as [? _]. }
  { rewrite <- leaf_tables_eq. intros t Ht. destruct (Htab t) as [? ?]; [apply elem_of_app; by left|]. set_solver. }
  { rewrite length_seq. lia. }
  rewrite <- leaf_tables_eq in Hr2, R2. fold L2 in Hr2, R2. rewrite (bind_run _ _ _ _ _ Hr2).
  pose proof (returned_app _ _ _ _ _ _ R1 R2) as R12.
  assert (∀ t, t ∈ [pd; pdpt; r] → t ∈ loose (H ∖ list_to_set (L1 ++ L2))) as H3.
  { intros t Ht. destruct (Htab t) as [Hin Hno]; [apply elem_of_app; by right|]. apply NoDup_app in Hnd2 as (_ & Hdis & _).
    apply elem_of_difference in Hin as [Hin Hk].
    apply elem_of_difference. split; [|done]. apply elem_of_difference. split; [done|]. rewrite elem_of_list_to_set, elem_of_app.
    intros [?|Hx]; [done|]. by apply (Hdis t). }
  destruct (free3_spec s2 (H ∖ list_to_set (L1 ++ L2)) pd pdpt r) as (s3 & F3 & R3); [apply R12|by apply NoDup_app in Hnd2 as (_ & _ & ?)|done|].
  rewrite F3. pose proof (returned_app _ _ _ _ _ _ R12 R3) as R. rewrite <- app_assoc in R.
  exists s3. split; [|split; [exact R|]].
  - unfold lift. rewrite arith_in by (unfold in_u; lia). do 2 f_equal. unfold reaped. fold L1 L2. rewrite !length_app. cbn [length]. lia.
  - eapply world_without; try done.
    + intros t Ht r' p Hr' Hne Lp Np. apply elem_of_app in Ht as [Ht|Ht]; [by apply (proj2 (Hleaf t Ht) r' p)|].
      apply Hown in Ht as (q & Hq & Nq). by eapply (w_own _ _ _ W r r' q p t).
    + intros q t Hq Nq. apply elem_of_app. right. apply Hown. by exists q.
Qed.
End world.
