(* ===== verification/PagingBuild.v ===== *)
(** * Building the kernel's own tables

    [build_address_space] from an empty root: the identity map, the higher-half
    direct map and the kernel image.  A space under construction grows by two
    moves: a fresh table linked at an empty entry, which maps nothing new, and a
    write of leaves. *)

From S2P Require Import Prelude Arch Buddy MemInit Frames Paging PagingInv PagingOps PagingWorld.

#[local] Opaque idx.

(** ** The moves on memory *)

Lemma node_ext m m' : (∀ t j, ent m' t j ≫= down = ent m t j ≫= down) → ∀ q t, node m' t q = node m t q.
Proof.
  intros E q. induction q as [|i q IH]; intros t; [done|]. cbn [node]. rewrite E.
  destruct (ent m t i ≫= down); [|done]. simpl. apply IH.
Qed.

Lemma zeros_lookup j : replicate 512 0%Z !! j = if decide (j < 512) then Some 0%Z else None.
Proof. case_decide; [apply lookup_replicate_2; assumption|apply lookup_replicate_None; lia]. Qed.

Lemma zeros_down j : replicate 512 0%Z !! j ≫= down = None.
Proof. rewrite zeros_lookup. by case_decide. Qed.

Section link.
Context (m : memory) (H : gset Z) (root t n x : Z) (T : list Z) (p : list nat) (i : nat).
Hypothesis (TB : tabs m) (SP : is_space m H root) (Lp : length p ≤ 2) (Np : node m root p = Some t).
Hypothesis (HT : m !! t = Some T) (Hi : T !! i = Some 0%Z) (Hn : n ∉ H) (Hx : down x = Some n).

Let m1 := <[n:=replicate 512 0%Z]> m.
Let m' := <[t:=<[i:=x]> T]> m1.

Lemma link_ne : n ≠ t.
Proof using SP Lp Np Hn.
  destruct (sp_held _ _ _ SP p t) as [Ht _]; [lia|done|]. intros E. apply Hn. by rewrite E.
Qed.

Lemma link_empty q : q ≠ [] → node m' n q = None.
Proof using SP Lp Np Hn.
  destruct q as [|j q]; [done|]. intros _. cbn [node]. unfold m', m1.
  rewrite ent_insert_ne, ent_insert by apply link_ne. by rewrite zeros_down.
Qed.

Lemma link_none q : node m root (p ++ [i] ++ q) = None.
Proof using Np HT Hi.
  rewrite app_assoc. apply node_stuck. rewrite (node_next _ _ _ t _ 0%Z Np); [done|]. unfold ent. by rewrite HT.
Qed.

Lemma link_node q : length q ≤ 3 → node m' root q = if decide (q = p ++ [i]) then Some n else node m root q.
Proof using TB SP Lp Np HT Hi Hn Hx.
  intros Lq. assert (keeps m m1 root) as K by (by eapply keeps_fresh).
  assert (is_space m1 H root) as SP1 by (by eapply keeps_space).
  assert (node m1 root p = Some t) as Np1 by (rewrite (keeps_node m m1); (done || lia)).
  assert (m1 !! t = Some T) as HT1 by (unfold m1; rewrite lookup_insert_ne; [done|apply link_ne]).
  assert (i < length T) as Hlt by (by eapply lookup_lt_Some).
  destruct (decide ((p ++ [i]) `prefix_of` q)) as [[r ->]|Hpre].
  - assert (node m' root (p ++ [i]) = Some n) as Hl.
    { rewrite node_snoc. unfold m'. rewrite (entry_write m1 H root t T p i x) by (done || lia ||
        (intros [r' Hr']; apply (f_equal length) in Hr'; rewrite !length_app in Hr'; simpl in Hr'; lia)).
      by rewrite decide_True. }
    rewrite node_app, Hl. simpl. destruct (decide (r = [])) as [->|Hr].
    + rewrite app_nil_r, decide_True by done. done.
    + rewrite link_empty by done. rewrite decide_False.
      * by rewrite <- app_assoc, link_none.
      * intros E. apply (f_equal length) in E. rewrite !length_app in E. destruct r; [done|simpl in E; lia].
  - rewrite decide_False by (intros ->; by apply Hpre).
    unfold m'. rewrite (node_write m1 H root t T p i x) by (done || lia). apply keeps_node; [done|lia].
Qed.

Lemma link_ent t' j : t' ≠ n → ent m' t' j = if decide (t' = t ∧ j = i) then Some x else ent m t' j.
Proof using SP Lp Np HT Hi Hn.
  intros Hne. unfold m', m1. destruct (decide (t' = t)) as [->|Ht].
  - rewrite ent_insert. unfold ent at 1. rewrite HT. simpl. destruct (decide (j = i)) as [->|Hj].
    + rewrite decide_True by done. apply list_lookup_insert_eq. by eapply lookup_lt_Some.
    + rewrite decide_False by naive_solver. by apply list_lookup_insert_ne.
  - rewrite decide_False by naive_solver. by rewrite !ent_insert_ne by done.
Qed.

Lemma link_entry q j : length q ≤ 3 → entry m' root q j =
  if decide (q = p ∧ j = i) then Some x
  else if decide (q = p ++ [i]) then (if decide (j < 512) then Some 0%Z else None) else entry m root q j.
Proof using TB SP Lp Np HT Hi Hn Hx.
  intros Lq. unfold entry. rewrite link_node by done. case_decide as E.
  - subst q. rewrite decide_False by (intros [E _]; apply (f_equal length) in E; rewrite length_app in E; simpl in E; lia).
    simpl. unfold m', m1. rewrite ent_insert_ne, ent_insert by apply link_ne. apply zeros_lookup.
  - destruct (node m root q) as [t'|] eqn:Nq; simpl.
    + assert (t' ≠ n) as Hne by (apply (sp_held _ _ _ SP) in Nq as [? _]; [by intros ->|done]).
      rewrite link_ent by done. destruct (decide (q = p)) as [->|Hq].
      * assert (t' = t) as -> by congruence. repeat case_decide; naive_solver.
      * rewrite !decide_False; [done|naive_solver|]. intros [-> ->]. apply Hq. by apply (sp_tree _ _ _ SP q p t); [lia|lia| |].
    + rewrite decide_False; [done|]. intros [-> _]. congruence.
Qed.

Lemma link_space : is_space m' ({[n]} ∪ H) root.
Proof using TB SP Lp Np HT Hi Hn Hx.
  assert (∀ t', is_Some (m !! t') → is_Some (m' !! t')) as Hdom.
  { intros t' Ht. unfold m', m1. destruct (decide (t' = t)) as [->|]; [rewrite lookup_insert_eq; by eexists|].
    rewrite lookup_insert_ne by done. destruct (decide (t' = n)) as [->|]; [rewrite lookup_insert_eq; by eexists|].
    by rewrite lookup_insert_ne by done. }
  split.
  - intros q t' Lq. rewrite link_node by done. case_decide.
    + intros [= <-]. split; [set_solver|]. unfold m', m1. rewrite lookup_insert_ne, lookup_insert_eq by (apply not_eq_sym, link_ne). by eexists.
    + intros Nq. apply (sp_held _ _ _ SP) in Nq as [? ?]; [|done]. split; [set_solver|by apply Hdom].
  - intros q r t' Lq Lr. rewrite !link_node by done.
    assert (∀ q', length q' ≤ 3 → node m root q' ≠ Some n) as Hfr.
    { intros q' Lq' N'. by apply (sp_held _ _ _ SP) in N' as [? _]. }
    repeat case_decide; intros N1 N2; simplify_eq; try done.
    + by apply Hfr in N2.
    + by apply Hfr in N1.
    + by eapply (sp_tree _ _ _ SP).
  - intros j e He. assert (entry m' root [] j = Some e) as He' by done. rewrite link_entry in He' by (simpl; lia).
    case_decide as Hd.
    + injection He' as <-. rewrite down_eq in Hx. by destruct (has x PRESENT), (has x HUGE).
    + rewrite decide_False in He' by (by destruct p). by apply (sp_top _ _ _ SP j).
Qed.

(** Linking an empty table maps nothing. *)
Lemma link_maps v : maps m' root v = maps m root v.
Proof using TB SP Lp Np HT Hi Hn Hx.
  assert (∀ q j, entry m root (p ++ [i] ++ q) j = None) as Hno by (intros q j; unfold entry; by rewrite link_none).
  assert (entry m root p i = Some 0%Z) as Hpi by (unfold entry; rewrite Np; simpl; unfold ent; by rewrite HT).
  unfold maps. f_equal. unfold leaf_of. rewrite !link_entry by (simpl; lia). pose proof (idx_lt v) as Hlt.
  clear -Lp Hno Hpi Hlt.
  destruct p as [|a [|b [|c r]]]; [| | |simpl in Lp; lia]; cbn [app] in *.
  - rewrite !(decide_False (P := _ = [] ∧ _)) by naive_solver. rewrite !(decide_False (P := [_; _; _] = [i])), !(decide_False (P := [_; _] = [i])) by done.
    destruct (decide ([idx v 3] = [i])) as [[= ->]|Hne]; [|done].
    rewrite !Hno. by rewrite decide_True by apply Hlt.
  - rewrite !(decide_False (P := [_; _; _] = [a] ∧ _)), !(decide_False (P := [_; _] = [a] ∧ _)) by naive_solver.
    rewrite !(decide_False (P := [_; _; _] = [a; i])), !(decide_False (P := [_] = [a; i])) by done.
    destruct (decide ([idx v 3; idx v 2] = [a; i])) as [[= -> ->]|Hne].
    + rewrite (Hno [idx v 1]), (Hno []), Hpi. by rewrite decide_True by apply Hlt.
    + rewrite (decide_False (P := [_] = [a] ∧ _)); [done|]. intros [[= E3] E2]. apply Hne. by rewrite E3, E2.
  - rewrite !(decide_False (P := [_; _; _] = [a; b] ∧ _)), !(decide_False (P := [_] = [a; b] ∧ _)) by naive_solver.
    rewrite !(decide_False (P := [_; _] = [a; b; i])), !(decide_False (P := [_] = [a; b; i])) by done.
    destruct (decide ([idx v 3; idx v 2; idx v 1] = [a; b; i])) as [[= -> -> ->]|Hne].
    + rewrite (Hno []), Hpi. by rewrite decide_True by apply Hlt.
    + rewrite (decide_False (P := [_; _] = [a; b] ∧ _)); [done|]. intros [[= E3 E2] E1]. apply Hne. by rewrite E3, E2, E1.
Qed.

Lemma link_covered v pd : covered m root v pd → covered m' root v pd.
Proof using TB SP Lp Np HT Hi Hn Hx.
  intros [N (e2 & E2 & P2)]. assert (pd ≠ n) as Hne by (apply (sp_held _ _ _ SP) in N as [? _]; [by intros ->|simpl; lia]).
  split.
  - rewrite link_node by (simpl; lia). rewrite decide_False; [done|]. intros E.
    rewrite E, <- (app_nil_r (p ++ [i])), <- app_assoc, link_none in N. done.
  - exists e2. split; [|done]. rewrite link_ent by done. rewrite decide_False; [done|]. intros [-> E].
    unfold ent in E2. rewrite HT in E2. simpl in E2. rewrite E, Hi in E2. injection E2 as <-. done.
Qed.
End link.

(** Filling a directory with 2 MiB pages. *)
Section huge.
Context (m : memory) (H : gset Z) (root t : Z) (T T' : list Z) (a b : nat).
Hypothesis (TB : tabs m) (SP : is_space m H root) (Np : node m root [a; b] = Some t).
Hypothesis (HT : m !! t = Some T) (HZ : ∀ j, T !! j ≫= down = None).
Hypothesis (HL : length T' = 512) (HH : ∀ j x, T' !! j = Some x → has x PRESENT = true ∧ has x HUGE = true).

Let m' := <[t:=T']> m.

Lemma huge_down j : T' !! j ≫= down = None.
Proof using HH.
  destruct (T' !! j) as [x|] eqn:E; [|done]. simpl. destruct (HH j x E) as [P Hu]. by rewrite down_eq, P, Hu.
Qed.

Lemma huge_node q t' : node m' t' q = node m t' q.
Proof using HT HZ HH.
  apply node_ext. intros u j. unfold m'. destruct (decide (u = t)) as [->|].
  - rewrite ent_insert, huge_down. unfold ent. rewrite HT. simpl. by rewrite HZ.
  - by rewrite ent_insert_ne.
Qed.

Lemma huge_entry_eq q j : length q ≤ 3 → entry m' root q j = if decide (q = [a; b]) then T' !! j else entry m root q j.
Proof using SP Np HT HZ HL HH.
  intros Lq. unfold entry. rewrite huge_node. case_decide as E.
  - subst q. rewrite Np. simpl. apply ent_insert.
  - destruct (node m root q) as [u|] eqn:Nq; [|done]. simpl. apply ent_insert_ne. intros ->. apply E.
    apply (sp_tree _ _ _ SP q [a; b] t); [lia|simpl; lia|done|done].
Qed.

Lemma huge_space : is_space m' H root.
Proof using SP Np HT HZ HL HH.
  split.
  - intros q u Lq. rewrite huge_node. intros Nq. apply (sp_held _ _ _ SP) in Nq as [? ?]; [|done]. split; [done|].
    unfold m'. destruct (decide (u = t)) as [->|]; [rewrite lookup_insert_eq; by eexists|by rewrite lookup_insert_ne].
  - intros q r u Lq Lr. rewrite !huge_node. by apply (sp_tree _ _ _ SP).
  - intros j e He. assert (entry m' root [] j = Some e) as He' by done. rewrite huge_entry_eq in He' by (simpl; lia).
    rewrite decide_False in He' by done. by apply (sp_top _ _ _ SP j).
Qed.

Lemma huge_maps v : maps m' root v =
  if decide (idx v 3 = a ∧ idx v 2 = b) then Some (meaning v (T' !!! idx v 1, 0x1fffff)%Z) else maps m root v.
Proof using SP Np HT HZ HL HH.
  unfold maps, leaf_of. rewrite !huge_entry_eq by (simpl; lia).
  rewrite (decide_False (P := [_; _; _] = [a; b])), (decide_False (P := [_] = [a; b])) by done.
  destruct (decide (idx v 3 = a ∧ idx v 2 = b)) as [[E3 E2]|Hne].
  - rewrite E3, E2, decide_True by done.
    assert (entry m root [a; b; idx v 1] (idx v 0) = None) as ->.
    { unfold entry. change [a; b; idx v 1] with ([a; b] ++ [idx v 1]). rewrite node_snoc. unfold entry. rewrite Np. simpl.
      unfold ent. rewrite HT. simpl. by rewrite HZ. }
    rewrite (list_lookup_lookup_total_lt T' (idx v 1)) by (rewrite HL; apply idx_lt).
    destruct (HH (idx v 1) (T' !!! idx v 1)) as [-> _]; [|done]. apply list_lookup_lookup_total_lt. rewrite HL. apply idx_lt.
  - rewrite decide_False; [done|]. intros [= E3 E2]. by apply Hne.
Qed.

Lemma huge_covered v pd : covered m root v pd → covered m' root v pd.
Proof using SP Np HT HZ HL HH.
  intros [N (e2 & E2 & P2)]. split; [by rewrite huge_node|]. unfold m'. destruct (decide (pd = t)) as [->|].
  - destruct (lookup_lt_is_Some_2 T' (idx v 1)) as [x Hx]; [rewrite HL; apply idx_lt|].
    exists x. rewrite ent_insert. split; [done|]. by apply (HH (idx v 1)).
  - exists e2. by rewrite ent_insert_ne.
Qed.

Lemma huge_covers v : idx v 3 = a → idx v 2 = b → covered m' root v t.
Proof using SP Np HT HZ HL HH.
  intros E3 E2. split; [by rewrite huge_node, E3, E2|].
  destruct (lookup_lt_is_Some_2 T' (idx v 1)) as [x Hx]; [rewrite HL; apply idx_lt|].
  exists x. unfold m'. rewrite ent_insert. split; [done|]. by apply (HH (idx v 1)).
Qed.
End huge.

(** ** The code *)

(** The entry of [map_low] for the [j]-th 2 MiB of the [g]-th GiB. *)
Definition low_entry (g j : nat) : Z :=
  Z.lor (Z.lor (Z.lor (Z.lor (Z.lor (wrap 64 (Z.shiftl (Z.of_nat g) 30)) (wrap 64 (Z.shiftl (Z.of_nat j) 21)))
    PRESENT) WRITABLE) HUGE) NX.

Section build.
Context {F : Type} {FS : FrameSource F}.
Implicit Types s : Mach F.
Variable HHDM_OFFSET : Z.
Hypothesis HHDM_room : (0 <= HHDM_OFFSET <= 2 ^ 64 - 2 ^ 44)%Z.

(** Tables held before, which the construction does not touch. *)
Variable H0 : gset Z.

(** A space under construction, with room for [k] more tables, mapping [W]. *)
Record building (s0 s : Mach F) (H : gset Z) (root : Z) (k : nat) (W : Z → option (Z * (bool * bool) * bool)) : Prop := {
  b_okay : okay s H k;
  b_space : is_space (mem s) H root;
  b_maps v : maps (mem s) root v = W v;
  b_covered v : is_Some (W v) → ∃ pd, covered (mem s) root v pd;
  b_cr3 : cr3 s = cr3 s0;
  b_kernel : KERNEL_PML4 s = KERNEL_PML4 s0;
  b_flushed : flushed s = flushed s0;
  b_before : H0 ⊆ H;
  b_own q t : length q ≤ 3 → node (mem s) root q = Some t → t ∉ H0;
  b_rest t : t ∈ H0 → mem s !! t = mem s0 !! t
}.

Lemma building_ext s0 s H root k W W' : building s0 s H root k W → (∀ v, W v = W' v) → building s0 s H root k W'.
Proof using Type. intros [O SP M C R K Fl Be Ow Re] E. split; try done; intros v; rewrite <- E; auto. Qed.

Lemma link_run s0 s H root k W p t i : building s0 s H root (S k) W → length p ≤ 2 → node (mem s) root p = Some t →
  i < 512 → entry (mem s) root p i = Some 0%Z →
  ∃ n s', (∀ X (K : Z → M (Mach F) Empty_set X),
      (x ← alloc_table HHDM_OFFSET; write_entry HHDM_OFFSET t i (Z.lor (Z.lor x PRESENT) WRITABLE);; K x) s = K n s') ∧
    building s0 s' ({[n]} ∪ H) root k W ∧ node (mem s') root (p ++ [i]) = Some n ∧
    (∀ q, length q ≤ 3 → q ≠ p ++ [i] → node (mem s') root q = node (mem s) root q) ∧
    (∀ q j, length q ≤ 3 → entry (mem s') root q j =
      if decide (q = p ∧ j = i) then Some (Z.lor (Z.lor n PRESENT) WRITABLE)
      else if decide (q = p ++ [i]) then (if decide (j < 512) then Some 0%Z else None) else entry (mem s) root q j).
Proof using HHDM_room.
  intros B Lp Np Hi He. destruct B as [Hok SP M C C3 Kp Fl Be Ow Re].
  destruct (entry_table (mem s) H root p t i 0%Z SP ltac:(lia) Np He) as (T & HT & HTi).
  destruct (alloc_table_eq HHDM_OFFSET HHDM_room s H k Hok) as (n & f & Ha & Hn & Hf & Hok1). set (s1 := upd _ _ _) in *.
  assert (n ≠ t) as Hne by (by eapply link_ne; [exact SP| | |]).
  assert (down (Z.lor (Z.lor n PRESENT) WRITABLE) = Some n) as Hx by (rewrite <- Z.lor_assoc; by apply down_link).
  assert (mem s1 !! t = Some T) as HT1 by (simpl; by rewrite lookup_insert_ne).
  pose proof (ok_tabs _ _ _ Hok) as TB.
  pose proof (write_eq HHDM_OFFSET HHDM_room s1 t T i (Z.lor (Z.lor n PRESENT) WRITABLE) (ok_tabs _ _ _ Hok1) HT1 Hi) as Hw.
  exists n. eexists. split.
  { intros X K. rewrite (bind_run _ _ _ _ _ Ha), (bind_run _ _ _ _ _ Hw). reflexivity. }
  set (x := Z.lor (Z.lor n PRESENT) WRITABLE) in *. simpl mem.
  pose proof (link_node (mem s) H root t n x T p i TB SP Lp Np HT HTi Hn Hx) as LN.
  split; [|split; [|split]].
  - split; simpl; try done.
    + destruct Hok1 as [O1 O2 O3]. split; [done|done|]. simpl. by apply tabs_write.
    + by apply (link_space (mem s) H root t n x T p i).
    + intros v. rewrite <- M. by apply (link_maps (mem s) H root t n x T p i).
    + intros v Hv. destruct (C v Hv) as [pd Hc]. exists pd. by apply (link_covered (mem s) H root t n x T p i).
    + etrans; [exact Be|apply union_subseteq_r].
    + intros q u Lq. rewrite LN by done. case_decide; [intros [= <-] Hu; by apply Hn, Be|by apply Ow].
    + intros u Hu. rewrite !lookup_insert_ne; [by apply Re|intros ->; by apply Hn, Be|intros ->; by apply (Ow p u ltac:(lia) Np)].
  - rewrite LN by (rewrite length_app; simpl; lia). by rewrite decide_True.
  - intros q Lq Hq. by rewrite LN, decide_False.
  - intros q j Lq. by apply (link_entry (mem s) H root t n x T p i).
Qed.

(** ** The low maps *)

Definition low_maps (i n : nat) (W : Z → option (Z * (bool * bool) * bool)) (v : Z) : option (Z * (bool * bool) * bool) :=
  if decide (idx v 3 = i ∧ idx v 2 < n) then Some (meaning v (low_entry (idx v 2) (idx v 1), 0x1fffff)%Z) else W v.

Lemma low_entry_bits g j : has (low_entry g j) PRESENT = true ∧ has (low_entry g j) HUGE = true.
Proof using Type. unfold low_entry. rewrite !has_lor. split; by rewrite ?orb_true_r. Qed.

(** [s'] is [s] but for the space under construction, which keeps its upper
    entries other than the [g]-th of [p]. *)
Definition beside (s s' : Mach F) (root : Z) (p : list nat) (g : nat) : Prop :=
  ∀ q j, length q ≤ 1 → ¬ (q = p ∧ j = g) → q ≠ p ++ [g] → entry (mem s') root q j = entry (mem s) root q j.

Lemma gib_run s0 s H root k W i g pdpt : building s0 s H root (S k) (low_maps i g W) → node (mem s) root [i] = Some pdpt →
  g < 512 → entry (mem s) root [i] g = Some 0%Z →
  ∃ s' H', map_low_gib HHDM_OFFSET pdpt g s = (Ok (), s') ∧ building s0 s' H' root k (low_maps i (S g) W) ∧
    H ⊆ H' ∧ node (mem s') root [i] = Some pdpt ∧ beside s s' root [i] g.
Proof using HHDM_room.
  intros B Np Hg He. destruct (link_run s0 s H root k _ [i] pdpt g B) as (pd & s1 & Hrun & B1 & Npd & LN & LE); try (done || simpl; lia).
  cbn [app] in Npd, LN, LE. unfold map_low_gib. rewrite Hrun. clear Hrun. destruct B1 as [Hok1 SP1 M1 C1 R1 K1 F1 Be1 Ow1 Re1].
  destruct (sp_held _ _ _ SP1 [i; g] pd) as [_ [T HT]]; [simpl; lia|done|]. destruct (ok_tabs _ _ _ Hok1 pd T HT) as [Hfo HLT].
  assert (∀ j, T !! j ≫= down = None) as HZ.
  { intros j. specialize (LE [i; g] j ltac:(simpl; lia)). unfold entry in LE at 1. rewrite Npd in LE. simpl in LE. unfold ent in LE.
    rewrite HT in LE. simpl in LE. rewrite LE, decide_False by (by intros [? _]). rewrite decide_True by done. rewrite <- zeros_lookup. apply zeros_down. }
  assert (∀ j x, (low_entry g <$> seq 0 512) !! j = Some x → has x PRESENT = true ∧ has x HUGE = true) as HH.
  { intros j x Hx. apply list_lookup_fmap_Some in Hx as (y & -> & _). apply low_entry_bits. }
  assert (length (low_entry g <$> seq 0 512) = 512) as HL' by (rewrite length_fmap, length_seq; reflexivity).
  set (T' := low_entry g <$> seq 0 512) in *.
  rewrite (fill_all s1 pd T _ (low_entry g) HT HLT); last first.
  { intros j T2 Hj HL2. rewrite (write_eq HHDM_OFFSET HHDM_room _ pd T2); [simpl; by rewrite insert_insert_eq| |simpl; by rewrite lookup_insert_eq|done].
    simpl. apply tabs_insert; try done. apply (ok_tabs _ _ _ Hok1). }
  fold T'. eexists _, ({[pd]} ∪ H). split; [reflexivity|].
  pose proof (huge_maps (mem s1) _ root pd T T' i g SP1 Npd HT HZ HL' HH) as HM.
  split; [split; cbn [upd mem fr cr3 KERNEL_PML4 flushed]; try assumption|].
  - destruct Hok1 as [O1 O2 O3]. split; [done|done|]. simpl. by apply tabs_insert.
  - by apply (huge_space (mem s1) ({[pd]} ∪ H) root pd T T' i g).
  - intros v. rewrite HM, M1. unfold low_maps. destruct (decide (idx v 3 = i)) as [E3|E3].
    + destruct (decide (idx v 2 = g)) as [E2|E2].
      * rewrite !decide_True by (split; (done || lia)). unfold T'. do 3 f_equal. rewrite E2.
        apply list_lookup_total_correct, lookup_fill, idx_lt.
      * rewrite decide_False by (by intros [? ?]). destruct (decide (idx v 2 < g)).
        { by rewrite !decide_True by (split; (done || lia)). } { by rewrite !decide_False by (intros [? ?]; lia). }
    + by rewrite !decide_False by (by intros [? ?]).
  - intros v Hv. destruct (decide (idx v 3 = i ∧ idx v 2 = g)) as [[E3 E2]|Hne].
    + exists pd. by apply (huge_covers (mem s1) ({[pd]} ∪ H) root pd T T' i g).
    + destruct (C1 v) as [pd' Hc]; [|exists pd'; by apply (huge_covered (mem s1) ({[pd]} ∪ H) root pd T T' i g)].
      unfold low_maps in *. destruct (decide (idx v 3 = i ∧ idx v 2 < S g)) as [[E3 E2]|Hn].
      * rewrite decide_True; [by eexists|]. split; [done|]. assert (idx v 2 ≠ g) by (intros E; by apply Hne). lia.
      * rewrite decide_False; [done|]. intros [? ?]. apply Hn. split; [done|lia].
  - intros q u Lq. rewrite (huge_node (mem s1) pd T T') by done. by apply Ow1.
  - intros u Hu. rewrite lookup_insert_ne; [by apply Re1|]. intros ->. by apply (Ow1 [i; g] u ltac:(simpl; lia) Npd).
  - split; [apply union_subseteq_r|]. split.
    + cbn [upd mem]. rewrite (huge_node (mem s1) pd T T'); [|done..]. rewrite LN by (simpl; (lia || done)). done.
    + intros q j Lq Hn1 Hn2. cbn [upd mem]. rewrite (huge_entry_eq (mem s1) ({[pd]} ∪ H) root pd T T' i g) by (done || lia).
      rewrite decide_False by (intros ->; simpl in Lq; lia). rewrite LE by lia. by rewrite !decide_False.
Qed.

Lemma gibs_run s0 root W i pdpt n : ∀ g k s H, g + n ≤ 512 →
  building s0 s H root (n + k) (low_maps i g W) → node (mem s) root [i] = Some pdpt →
  (∀ g', g ≤ g' < 512 → entry (mem s) root [i] g' = Some 0%Z) →
  ∃ s' H', mfor (seq g n) (map_low_gib HHDM_OFFSET pdpt) s = (Ok (), s') ∧
    building s0 s' H' root k (low_maps i (g + n) W) ∧ H ⊆ H' ∧
    (∀ j, entry (mem s') root [] j = entry (mem s) root [] j).
Proof using HHDM_room.
  induction n as [|n IH]; intros g k s H Hn B Np Hz; cbn [seq mfor].
  - exists s, H. rewrite Nat.add_0_r. done.
  - destruct (gib_run s0 s H root (n + k) W i g pdpt B Np) as (s1 & H1 & R1 & B1 & S1 & N1 & E1); [lia|apply Hz; lia|].
    rewrite (bind_run _ _ _ _ _ R1).
    destruct (IH (S g) k s1 H1) as (s2 & H2 & R2 & B2 & S2 & E2); [lia|done|done| |].
    { intros g' Hg'. rewrite E1; [apply Hz; lia|simpl; lia| |done]. intros [_ ->]. lia. }
    exists s2, H2. replace (g + S n) with (S g + n) by lia. split; [done|]. split; [done|]. split; [by etrans|].
    intros j. rewrite E2, E1; [done|simpl; lia|by intros [? _]|done].
Qed.

Lemma low_run s0 s H root k W i bytes n : building s0 s H root (S n + k) W → i < 512 → n = Z.to_nat (div_ceil bytes GIB) → n ≤ 512 →
  entry (mem s) root [] i = Some 0%Z →
  ∃ s' H', map_low HHDM_OFFSET root i bytes s = (Ok (), s') ∧ building s0 s' H' root k (low_maps i n W) ∧ H ⊆ H' ∧
    (∀ j, j ≠ i → entry (mem s') root [] j = entry (mem s) root [] j).
Proof using HHDM_room.
  intros B Hi Hn Hn5 He. unfold map_low. rewrite <- Hn.
  destruct (link_run s0 s H root (n + k) W [] root i B) as (pdpt & s1 & Hrun & B1 & N1 & _ & LE); try (done || simpl; lia).
  rewrite Hrun. cbn [app] in *.
  assert (building s0 s1 ({[pdpt]} ∪ H) root (n + k) (low_maps i 0 W)) as B1'.
  { eapply building_ext; [exact B1|]. intros v. unfold low_maps. rewrite decide_False; [done|]. intros [_ ?]. lia. }
  destruct (gibs_run s0 root W i pdpt n 0 k s1 _ ltac:(lia) B1' N1) as (s2 & H2 & R2 & B2 & S2 & E2).
  { intros g Hg. rewrite LE by (simpl; lia). rewrite decide_False by (by intros [? _]). rewrite !decide_True by (done || lia). done. }
  exists s2, H2. split; [done|]. split; [done|]. split.
  { intros t Ht. apply S2, elem_of_union_r, Ht. }
  intros j Hj. rewrite E2, LE by (simpl; lia). by rewrite !decide_False by naive_solver.
Qed.

(** ** The kernel image *)

Lemma leaf_covered m root v pt : node m root (page v).1 = Some pt → ∃ pd, covered m root v pd.
Proof using Type.
  change (page v).1 with ([idx v 3; idx v 2] ++ [idx v 1]). rewrite node_snoc. unfold entry.
  destruct (node m root [idx v 3; idx v 2]) as [pd|] eqn:N; [|done]. simpl. intros Hd. exists pd. split; [done|].
  destruct (ent m pd (idx v 1)) as [e2|]; [|done]. simpl in Hd. apply down_Some in Hd as [? _]. by exists e2.
Qed.

Lemma leaf_run s0 s H root k W v x pt : building s0 s H root k W → node (mem s) root (page v).1 = Some pt →
  ∃ s', write_entry HHDM_OFFSET pt (idx v 0) x s = (Ok (), s') ∧
    building s0 s' H root k (λ v', if decide (page v' = page v)
      then if has x PRESENT then Some (meaning v' (x, 0xfff)%Z) else None else W v') ∧
    (∀ q, length q ≤ 3 → node (mem s') root q = node (mem s) root q).
Proof using HHDM_room.
  intros [Hok SP M C R K Fl Be Ow Re] N. destruct (sp_held _ _ _ SP (page v).1 pt) as [_ [T HT]]; [simpl; lia|done|].
  destruct (ok_tabs _ _ _ Hok pt T HT) as [_ HL]. pose proof (ok_tabs _ _ _ Hok) as TB.
  assert (length (page v).1 ≤ 3) as L3 by (simpl; lia).
  assert (idx v 0 < length T) as Hi by (rewrite HL; apply idx_lt).
  pose proof (write_eq HHDM_OFFSET HHDM_room s pt T (idx v 0) x TB HT (idx_lt v 0)) as Hw.
  eexists. split; [exact Hw|]. cbn [upd mem].
  assert (∀ q, length q ≤ 3 → ¬ ((page v).1 ++ [idx v 0]) `prefix_of` q) as Hpre.
  { intros q Lq [r Hr]. apply (f_equal length) in Hr. rewrite !length_app in Hr. simpl in Hr. lia. }
  assert (∀ q, length q ≤ 3 → node (<[pt:=<[idx v 0:=x]> T]> (mem s)) root q = node (mem s) root q) as HN.
  { intros q Lq. apply (node_write (mem s) H root pt T (page v).1 (idx v 0) x SP L3 N HT Hi); [lia|by apply Hpre]. }
  assert (∀ v' pd, covered (mem s) root v' pd → covered (<[pt:=<[idx v 0:=x]> T]> (mem s)) root v' pd) as HC.
  { intros v' pd [Nd (e2 & E2 & P2)]. split; [rewrite HN by (simpl; lia); done|]. exists e2. split; [|done].
    rewrite ent_insert_ne; [done|]. intros ->.
    by pose proof (sp_tree _ _ _ SP [idx v' 3; idx v' 2] (page v).1 pt ltac:(simpl; lia) ltac:(simpl; lia) Nd N). }
  split; [split; cbn [upd mem fr cr3 KERNEL_PML4 flushed]; try assumption|done].
  - destruct Hok as [O1 O2 O3]. split; [done|done|]. cbn [upd mem]. by apply tabs_write.
  - apply (space_write_same (mem s) H root pt T (page v).1 (idx v 0) x SP L3 N HT Hi); [done|by left].
  - intros v'. rewrite <- M. apply (maps_leaf _ _ _ TB SP v pt T x v' N HT HL).
  - intros v' Hv. case_decide as E.
    + destruct (leaf_covered (mem s) root v' pt) as [pd Hc]; [by rewrite E|]. exists pd. by apply HC.
    + destruct (C v' Hv) as [pd Hc]. exists pd. by apply HC.
  - intros q u Lq. rewrite HN by done. by apply Ow.
  - intros u Hu. rewrite lookup_insert_ne; [by apply Re|]. intros ->. by apply (Ow (page v).1 u L3 N).
Qed.

(** The image: page aligned and within one last-level table. *)
Record image_ok (km : KernelMap) : Prop := {
  im_base : (kernel_vbase km mod 2 ^ 21 = 0)%Z;
  im_low : (0 <= kernel_vbase km)%Z;
  im_end : (kernel_vend km <= kernel_vbase km + 2 ^ 21)%Z;
  im_top : (kernel_vbase km + 2 ^ 21 <= 2 ^ 64 - 2 ^ 12)%Z;
  im_phys : (0 <= kernel_phys km < 2 ^ 51)%Z;
  im_frame : (kernel_phys km mod 4096 = 0)%Z
}.

Definition image_pages (km : KernelMap) : nat := Z.to_nat (div_ceil (kernel_vend km - kernel_vbase km) PAGE).
Definition image_entry (km : KernelMap) (j : nat) : Z :=
  Z.lor (kernel_phys km + Z.of_nat j * 4096) (leaf_bits (section_prot km (kernel_vbase km + Z.of_nat j * 4096))).
Definition image_maps (km : KernelMap) (n : nat) (W : Z → option (Z * (bool * bool) * bool)) (v : Z) : option (Z * (bool * bool) * bool) :=
  if decide ((page v).1 = (page (kernel_vbase km)).1 ∧ idx v 0 < n)
  then Some (meaning v (image_entry km (idx v 0), 0xfff)%Z) else W v.

Lemma image_present km j : has (image_entry km j) PRESENT = true.
Proof using Type. unfold image_entry. rewrite has_lor. destruct (section_prot _ _); apply orb_true_r. Qed.

Lemma image_page km j : image_ok km → j < 512 →
  page (kernel_vbase km + Z.of_nat j * 4096) = ((page (kernel_vbase km)).1, j).
Proof using Type.
  intros I Hj. destruct I. set (b := kernel_vbase km) in *.
  assert (∃ c, b = c * 2 ^ 21)%Z as [c Hc] by (exists (b / 2 ^ 21)%Z; pose proof (Z.div_mod b (2 ^ 21) ltac:(lia)); lia).
  assert (∀ l, (1 <= l)%Z → idx (b + Z.of_nat j * 4096) l = idx b l) as E.
  { intros l Hl. apply Nat2Z.inj. rewrite !idx_eq by lia. f_equal.
    replace (12 + 9 * l)%Z with (21 + (9 * l - 9))%Z by lia. rewrite Z.pow_add_r, <- !Z.div_div by lia. f_equal.
    rewrite Hc. rewrite Z.div_mul, Z.div_add_l, Z.div_small by lia. lia. }
  unfold page. rewrite !E by lia. f_equal. apply Nat2Z.inj. rewrite idx_eq by lia. change (2 ^ (12 + 9 * 0))%Z with 4096%Z.
  rewrite Z.div_add by lia. replace (b / 4096)%Z with (c * 512)%Z; [|rewrite Hc; apply Z.div_unique with 0%Z; lia].
  rewrite Z.add_comm, Z.mod_add, Z.mod_small by lia. done.
Qed.

Lemma image_pages_lt km j : j < image_pages km ↔ (kernel_vbase km + Z.of_nat j * 4096 < kernel_vend km)%Z.
Proof using Type.
  clear HHDM_room. unfold image_pages, PAGE, div_ceil. set (d := (kernel_vend km - kernel_vbase km)%Z).
  pose proof (Z.div_mod (d + 4096 - 1) 4096 ltac:(lia)).
  pose proof (Z.mod_pos_bound (d + 4096 - 1) 4096 ltac:(lia)). lia.
Qed.

Lemma image_pages_max km : image_ok km → image_pages km ≤ 512.
Proof using Type.
  clear HHDM_room. intros []. destruct (decide (image_pages km ≤ 512)) as [|Hn]; [done|].
  pose proof (proj1 (image_pages_lt km 512) ltac:(lia)). lia.
Qed.

Lemma image_loop s0 root W km pt k H : image_ok km → ∀ fuel j s, image_pages km ≤ j + fuel → j ≤ image_pages km →
  building s0 s H root k (image_maps km j W) → node (mem s) root (page (kernel_vbase km)).1 = Some pt →
  ∃ s', map_kernel_loop HHDM_OFFSET fuel km pt (kernel_vbase km + Z.of_nat j * 4096) s = (Ok (), s') ∧
    building s0 s' H root k (image_maps km (image_pages km) W).
Proof using HHDM_room.
  intros I fuel. pose proof (image_pages_lt km) as Hlt. pose proof (image_pages_max km I) as Hmax.
  induction fuel as [|fuel IH]; intros j s Hf Hj B N; cbn [map_kernel_loop].
  - assert (j = image_pages km) as -> by lia. rewrite (proj2 (Z.ltb_ge _ _)); [by exists s|]. pose proof (Hlt (image_pages km)). lia.
  - destruct (Z.ltb_spec (kernel_vbase km + Z.of_nat j * 4096) (kernel_vend km)) as [Hv|Hv]; last first.
    { assert (j = image_pages km) as -> by (pose proof (Hlt j); lia). by exists s. }
    assert (j < image_pages km) as Hjn by (by apply Hlt). pose proof (image_page km j I ltac:(lia)) as Hpg.
    destruct (leaf_run s0 s H root k _ (kernel_vbase km + Z.of_nat j * 4096) (image_entry km j) pt B) as (s1 & R1 & B1 & N1).
    { by rewrite Hpg. }
    unfold lift. munfold. destruct I. rewrite arith_in by (unfold in_u; lia). rewrite arith_in by (unfold in_u; lia).
    replace (kernel_phys km + _)%Z with (kernel_phys km + Z.of_nat j * 4096)%Z by lia. fold (image_entry km j). rewrite R1.
    rewrite arith_in by (unfold in_u, PAGE; lia).
    replace (_ + PAGE)%Z with (kernel_vbase km + Z.of_nat (S j) * 4096)%Z by (unfold PAGE; lia).
    apply IH; [lia|lia| |by rewrite N1 by (simpl; lia)].
    eapply building_ext; [exact B1|]. intros v'. rewrite Hpg, image_present. unfold image_maps.
    destruct (decide ((page v').1 = (page (kernel_vbase km)).1)) as [E1|E1]; last first.
    { rewrite !decide_False; [done|by intros [? _]|by intros [? _]|]. intros E. by rewrite E in E1. }
    change (idx v' 0) with (page v').2. destruct (decide ((page v').2 = j)) as [E0|E0].
    + rewrite !decide_True by (try split; (done || lia || (rewrite <- E1, <- E0; by destruct (page v')))). by rewrite E0.
    + rewrite (decide_False (P := page v' = _)) by (intros E; by rewrite E in E0).
      destruct (decide ((page v').2 < j)); [by rewrite !decide_True by (split; (done || lia))|].
      by rewrite !decide_False by (intros [_ ?]; lia).
Qed.

Lemma kernel_run s0 s H root k W km : building s0 s H root (3 + k) W → image_ok km →
  entry (mem s) root [] (idx (kernel_vbase km) 3) = Some 0%Z →
  ∃ s' H', map_kernel HHDM_OFFSET root km s = (Ok (), s') ∧
    building s0 s' H' root k (image_maps km (image_pages km) W) ∧ H ⊆ H'.
Proof using HHDM_room.
  intros B I He. unfold map_kernel. set (b := kernel_vbase km).
  assert (∀ v l, idx v l < 512) as Hl by apply idx_lt.
  destruct (link_run s0 s H root (2 + k) W [] root (idx b 3) B) as (pdpt & s1 & R1 & B1 & N1 & _ & E1); try (done || simpl; lia).
  rewrite R1. clear R1. cbn [app] in *.
  destruct (link_run s0 s1 _ root (1 + k) W [idx b 3] pdpt (idx b 2) B1) as (pd & s2 & R2 & B2 & N2 & _ & E2); [simpl; lia|done|done| |].
  { rewrite E1 by (simpl; lia). rewrite decide_False by (by intros [? _]). by rewrite !decide_True. }
  rewrite R2. clear R2. cbn [app] in *.
  destruct (link_run s0 s2 _ root k W [idx b 3; idx b 2] pd (idx b 1) B2) as (pt & s3 & R3 & B3 & N3 & _ & E3); [simpl; lia|done|done| |].
  { rewrite E2 by (simpl; lia). rewrite decide_False by (by intros [? _]). by rewrite !decide_True. }
  rewrite R3. clear R3. cbn [app] in *.
  destruct (image_loop s0 root W km pt k ({[pt]} ∪ ({[pd]} ∪ ({[pdpt]} ∪ H))) I (image_pages km) 0 s3 ltac:(lia) ltac:(lia)) as (s4 & R4 & B4); [|done|].
  { eapply building_ext; [exact B3|]. intros v. unfold image_maps. rewrite decide_False; [done|]. intros [_ ?]. lia. }
  rewrite Z.add_0_r in R4. unfold b. fold (image_pages km). rewrite R4. eexists _, _. split; [done|]. split; [done|].
  intros t Ht. by do 3 apply elem_of_union_r.
Qed.

Lemma empty_run s H k : H0 ⊆ H → okay s H (S k) →
  ∃ root s', alloc_table HHDM_OFFSET s = (Ok root, s') ∧ building s s' ({[root]} ∪ H) root k (λ _, None) ∧
    (∀ j, j < 512 → entry (mem s') root [] j = Some 0%Z).
Proof using HHDM_room.
  intros Be Hok. destruct (alloc_table_eq HHDM_OFFSET HHDM_room s H k Hok) as (t & f & Ha & Hn & Hf & Hok1).
  exists t. eexists. split; [exact Ha|]. set (m := <[t:=replicate 512 0%Z]> (mem s)) in *.
  assert (∀ q, q ≠ [] → node m t q = None) as Hno.
  { intros [|j q]; [done|]. intros _. cbn [node]. unfold m. by rewrite ent_insert, zeros_down. }
  assert (∀ q u, node m t q = Some u → q = [] ∧ u = t) as Hnode.
  { intros q u. destruct (decide (q = [])) as [->|Hq]; [intros [= <-]; done|]. by rewrite Hno. }
  split; [split; cbn [upd mem fr cr3 KERNEL_PML4 flushed]; try done|].
  - split.
    + intros q u Lq [-> ->]%Hnode. split; [set_solver|]. unfold m. rewrite lookup_insert_eq. by eexists.
    + intros q r u Lq Lr [-> ->]%Hnode [-> _]%Hnode. done.
    + intros j e. unfold m. rewrite ent_insert, zeros_lookup. case_decide; [by intros [= <-]|done].
  - intros v. unfold maps, leaf_of, entry. fold m. by rewrite !Hno.
  - etrans; [exact Be|apply union_subseteq_r].
  - intros q u Lq [-> ->]%Hnode Hu. by apply Hn, Be.
  - intros u Hu. unfold m. rewrite lookup_insert_ne; [done|]. intros ->. by apply Hn, Be.
  - intros j Hj. unfold entry. cbn [node mbind option_bind upd mem]. unfold m. rewrite ent_insert, zeros_lookup. by rewrite decide_True.
Qed.

(** Three different slots of the root. *)
Definition slots_ok (km : KernelMap) : Prop :=
  idx (hhdm_offset km) 3 ≠ 0 ∧ idx (kernel_vbase km) 3 ≠ 0 ∧ idx (kernel_vbase km) 3 ≠ idx (hhdm_offset km) 3.

Definition gibs (km : KernelMap) : nat := Z.to_nat (div_ceil (identity_bytes km) GIB).

Definition boot_maps (km : KernelMap) : Z → option (Z * (bool * bool) * bool) :=
  image_maps km (image_pages km) (low_maps (idx (hhdm_offset km) 3) (gibs km) (low_maps 0 (gibs km) (λ _, None))).

End build.

Section whole.
Context {F : Type} {FS : FrameSource F}.
Implicit Types s : Mach F.
Variable HHDM_OFFSET : Z.
Hypothesis HHDM_room : (0 <= HHDM_OFFSET <= 2 ^ 64 - 2 ^ 44)%Z.

Lemma build_run s H k km : okay s H (6 + 2 * gibs km + k) → image_ok km → slots_ok km → gibs km ≤ 512 →
  ∃ root s' H', build_address_space HHDM_OFFSET km s = (Ok (mkSpace root 0), s') ∧ okay s' H' k ∧ H ⊆ H' ∧
    is_space (mem s') H' root ∧ (∀ v, maps (mem s') root v = boot_maps km v) ∧
    (∀ v, is_Some (boot_maps km v) → ∃ pd, covered (mem s') root v pd) ∧
    cr3 s' = cr3 s ∧ KERNEL_PML4 s' = root ∧ flushed s' = flushed s.
Proof using HHDM_room.
  intros Hok I (Z1 & Z2 & Z3) Hg. set (n := gibs km) in *.
  destruct (empty_run HHDM_OFFSET HHDM_room ∅ s H (5 + 2 * n + k) (empty_subseteq _) Hok) as (root & s1 & R1 & B1 & E1).
  unfold build_address_space. rewrite (bind_run _ _ _ _ _ R1).
  destruct (low_run HHDM_OFFSET HHDM_room ∅ s s1 ({[root]} ∪ H) root (4 + n + k) (λ _, None) 0 (identity_bytes km) n) as (s2 & H2 & R2 & B2 & S2 & E2); [|lia|done|done|apply E1; lia|].
  { by replace (S n + (4 + n + k)) with (5 + 2 * n + k) by lia. }
  rewrite (bind_run _ _ _ _ _ R2).
  destruct (low_run HHDM_OFFSET HHDM_room ∅ s s2 H2 root (3 + k) (low_maps 0 n (λ _, None)) (idx (hhdm_offset km) 3) (identity_bytes km) n) as (s3 & H3 & R3 & B3 & S3 & E3); [|apply idx_lt|done|done| |].
  { by replace (S n + (3 + k)) with (4 + n + k) by lia. }
  { rewrite E2 by done. apply E1, idx_lt. }
  rewrite (bind_run _ _ _ _ _ R3).
  destruct (kernel_run HHDM_OFFSET HHDM_room ∅ s s3 H3 root k _ km B3 I) as (s4 & H4 & R4 & B4 & S4).
  { rewrite E3, E2 by done. apply E1, idx_lt. }
  rewrite (bind_run _ _ _ _ _ R4). destruct B4 as [O SP M C R K Fl _ _ _].
  exists root. eexists _, H4. split; [reflexivity|]. cbn [mem fr cr3 KERNEL_PML4 flushed].
  split; [by destruct O; split|]. split; [|done]. intros t Ht. by apply S4, S3, S2, elem_of_union_r.
Qed.
End whole.
