(* ===== verification/PagingBoot.v ===== *)
(** * The mapping the kernel starts from

    What [build_address_space] maps, by ranges of canonical addresses, and that its
    tables are a world without processes. *)

From S2P Require Import Prelude Arch Buddy MemInit Frames Paging PagingInv PagingOps PagingClone PagingWorld PagingBuild.

#[local] Opaque idx.

(** The upper 17 bits are all the same. *)
Definition canonical (v : Z) : Prop := (0 <= v < 2 ^ 47)%Z ∨ (2 ^ 64 - 2 ^ 47 <= v < 2 ^ 64)%Z.

(** What the code of [arch::x86_64] expects of the map it is given. *)
Record map_ok (km : KernelMap) : Prop := {
  mo_image : image_ok km;
  mo_kernel : canonical (kernel_vbase km);
  mo_high : (2 ^ 47 <= kernel_vbase km)%Z;
  mo_hhdm : canonical (hhdm_offset km);
  mo_hhdm_high : (2 ^ 47 <= hhdm_offset km)%Z;
  mo_hhdm_slot : (hhdm_offset km mod 2 ^ 39 = 0)%Z;
  mo_apart : (kernel_vbase km / 2 ^ 39 ≠ hhdm_offset km / 2 ^ 39)%Z;
  mo_low : 2 ≤ gibs km ≤ 512
}.

Definition boot_view (km : KernelMap) (v : Z) : option (Z * (bool * bool)) :=
  let low := (Z.of_nat (gibs km) * GIB)%Z in
  if (kernel_vbase km <=? v)%Z && (v <? kernel_vbase km + Z.of_nat (image_pages km) * 4096)%Z then
    let prot := section_prot km (v - v mod 4096) in
    Some ((kernel_phys km + (v - kernel_vbase km))%Z, (writable prot, executable prot))
  else if (hhdm_offset km <=? v)%Z && (v <? hhdm_offset km + low)%Z then Some ((v - hhdm_offset km)%Z, (true, false))
  else if (0 <=? v)%Z && (v <? low)%Z then Some (v, (true, false))
  else None.

(** ** Indices of canonical addresses *)

Lemma idx3_inj v w : canonical v → canonical w → idx v 3 = idx w 3 ↔ (v / 2 ^ 39 = w / 2 ^ 39)%Z.
Proof.
  intros Hv Hw. split; [|intros E; apply Nat2Z.inj; rewrite !idx_eq by lia; change (2 ^ (12 + 9 * 3))%Z with (2 ^ 39)%Z; by rewrite E].
  intros E%(f_equal Z.of_nat). rewrite !idx_eq in E by lia. change (2 ^ (12 + 9 * 3))%Z with (2 ^ 39)%Z in E.
  assert (∀ u, canonical u → (0 <= u / 2 ^ 39 < 256)%Z ∨ (2 ^ 25 - 256 <= u / 2 ^ 39 < 2 ^ 25)%Z) as R.
  { clear. intros u [Hu|Hu]; [left|right]; (split; [apply Z.div_le_lower_bound; lia|apply Z.div_lt_upper_bound; lia]). }
  pose proof (R v Hv). pose proof (R w Hw). set (a := (v / 2 ^ 39)%Z) in *. set (b := (w / 2 ^ 39)%Z) in *.
  pose proof (Z.div_mod a 512 ltac:(lia)). pose proof (Z.div_mod b 512 ltac:(lia)). lia.
Qed.

Lemma idx_split v l : (0 <= l)%Z →
  (v / 2 ^ (12 + 9 * l) = v / 2 ^ (12 + 9 * (l + 1)) * 512 + Z.of_nat (idx v l))%Z.
Proof.
  intros Hl. rewrite idx_eq by done. replace (12 + 9 * (l + 1))%Z with (12 + 9 * l + 9)%Z by lia.
  rewrite (Z.pow_add_r 2 (12 + 9 * l) 9), <- Z.div_div by lia. change (2 ^ 9)%Z with 512%Z.
  pose proof (Z.div_mod (v / 2 ^ (12 + 9 * l)) 512 ltac:(lia)). lia.
Qed.

(** The remainder of [v] above the start of its slot. *)
Lemma idx_spread v : (v = v / 2 ^ 39 * 2 ^ 39 + Z.of_nat (idx v 2) * 2 ^ 30 + Z.of_nat (idx v 1) * 2 ^ 21 + v mod 2 ^ 21)%Z.
Proof.
  pose proof (idx_split v 2 ltac:(lia)) as E2. pose proof (idx_split v 1 ltac:(lia)) as E1.
  change (12 + 9 * 2)%Z with 30%Z in E2. change (12 + 9 * (2 + 1))%Z with 39%Z in E2.
  change (12 + 9 * 1)%Z with 21%Z in E1. change (12 + 9 * (1 + 1))%Z with 30%Z in E1.
  pose proof (Z.div_mod v (2 ^ 21) ltac:(lia)). lia.
Qed.

Lemma idx_page v : (v / 2 ^ 12 = v / 2 ^ 21 * 512 + Z.of_nat (idx v 0))%Z.
Proof. apply (idx_split v 0). lia. Qed.

Lemma slots km : map_ok km → slots_ok km.
Proof.
  intros []. assert (idx 0 3 = 0) as E0 by reflexivity.
  assert (canonical 0) as C0 by (left; lia).
  assert (∀ v, canonical v → (2 ^ 47 <= v)%Z → idx v 3 ≠ 0) as Hne.
  { intros v Hv Hh. rewrite <- E0. rewrite idx3_inj by done. intros E. rewrite Z.div_0_l in E by lia.
    pose proof (Z.div_le_lower_bound v (2 ^ 39) 256 ltac:(lia) ltac:(lia)). lia. }
  split_and!; [by apply Hne|by apply Hne|]. by rewrite idx3_inj.
Qed.

(** ** The leaves *)

Lemma huge_meaning a f v : (0 <= a < 2 ^ 52)%Z → (a mod 2 ^ 21 = 0)%Z → Z.land f ADDR_MASK = 0%Z →
  meaning v (Z.lor a f, 0x1fffff)%Z = ((a + v mod 2 ^ 21)%Z, (has f WRITABLE, negb (has f NX)), has f USER).
Proof.
  intros H1 H2 Hf. assert (Z.land a ADDR_MASK = a) as Ha.
  { apply land_addr; [done|]. pose proof (Z.div_mod a (2 ^ 21) ltac:(lia)).
    symmetry. apply Z.mod_unique with (a / 2 ^ 21 * 512)%Z; lia. }
  unfold meaning. cbn [fst snd]. rewrite addr_lor by done. rewrite !has_lor, !(has_addr a) by done. cbn [orb].
  change 0x1fffff%Z with (Z.ones 21). rewrite Z.land_ones, Z.ldiff_ones_r, Z.shiftl_mul_pow2, Z.shiftr_div_pow2 by lia.
  do 3 f_equal. pose proof (Z.div_mod a (2 ^ 21) ltac:(lia)). lia.
Qed.

Lemma low_base g j : g < 512 → j < 512 →
  Z.lor (wrap 64 (Z.shiftl (Z.of_nat g) 30)) (wrap 64 (Z.shiftl (Z.of_nat j) 21)) = (Z.of_nat g * 2 ^ 30 + Z.of_nat j * 2 ^ 21)%Z.
Proof.
  intros Hg Hj. rewrite !Z.shiftl_mul_pow2 by lia. rewrite !wrap_small by (unfold in_u; lia).
  pose proof (Z.add_lor_land (Z.of_nat g * 2 ^ 30) (Z.of_nat j * 2 ^ 21)) as E.
  assert (Z.land (Z.of_nat g * 2 ^ 30) (Z.of_nat j * 2 ^ 21) = 0)%Z as Hz; [|lia].
  rewrite <- (Z.mod_small (Z.of_nat j * 2 ^ 21) (2 ^ 30)) by lia. rewrite <- Z.land_ones by lia.
  rewrite (Z.land_comm _ (Z.ones 30)), Z.land_assoc, Z.land_ones, Z.mod_mul, Z.land_0_l by lia. done.
Qed.

Lemma low_meaning g j v : g < 512 → j < 512 →
  meaning v (low_entry g j, 0x1fffff)%Z = ((Z.of_nat g * 2 ^ 30 + Z.of_nat j * 2 ^ 21 + v mod 2 ^ 21)%Z, (true, false), false).
Proof.
  intros Hg Hj. unfold low_entry. rewrite low_base, <- !Z.lor_assoc by done.
  rewrite huge_meaning; [done|lia| |done].
  replace (Z.of_nat g * 2 ^ 30 + Z.of_nat j * 2 ^ 21)%Z with ((Z.of_nat g * 512 + Z.of_nat j) * 2 ^ 21)%Z by lia.
  apply Z.mod_mul. lia.
Qed.

Lemma image_meaning km j v : image_ok km → j < 512 →
  meaning v (image_entry km j, 0xfff)%Z =
    let prot := section_prot km (kernel_vbase km + Z.of_nat j * 4096) in
    ((kernel_phys km + Z.of_nat j * 4096 + v mod 4096)%Z, (writable prot, executable prot), false).
Proof.
  intros [] Hj. set (a := (kernel_phys km + Z.of_nat j * 4096)%Z).
  assert (a mod 4096 = 0)%Z as Hm by (unfold a; rewrite Z.mod_add; [done|lia]).
  pose proof (proj2 (leaf_meaning a (section_prot km (kernel_vbase km + Z.of_nat j * 4096)) v ltac:(unfold a; lia) Hm)) as E.
  unfold leaf_entry in E. rewrite land_addr in E by (done || (unfold a; lia)). exact E.
Qed.

(** ** The whole mapping *)

Lemma in_range a b v : (a <=? v)%Z && (v <? b)%Z = true ↔ (a <= v < b)%Z.
Proof. rewrite andb_true_iff, Z.leb_le, Z.ltb_lt. done. Qed.

Lemma low_range h n v W : canonical v → canonical h → (h mod 2 ^ 39 = 0)%Z → n ≤ 512 →
  low_maps (idx h 3) n W v =
    if (h <=? v)%Z && (v <? h + Z.of_nat n * GIB)%Z then Some ((v - h)%Z, (true, false), false) else W v.
Proof.
  intros Hv Hh Hm Hn. unfold low_maps. pose proof (idx_spread v) as Sp. pose proof (idx_lt v 2). pose proof (idx_lt v 1).
  pose proof (Z.mod_pos_bound v (2 ^ 21) ltac:(lia)). pose proof (Z.div_mod h (2 ^ 39) ltac:(lia)) as Sh.
  change GIB with (2 ^ 30)%Z.
  destruct (decide (idx v 3 = idx h 3 ∧ idx v 2 < n)) as [[E3 E2]|Hne].
  - apply idx3_inj in E3; [|done..]. rewrite (proj2 (in_range _ _ _)) by lia.
    rewrite low_meaning by apply idx_lt. do 3 f_equal. lia.
  - destruct ((h <=? v)%Z && (v <? h + Z.of_nat n * 2 ^ 30)%Z) eqn:E; [|done]. apply in_range in E.
    exfalso. apply Hne. assert (v / 2 ^ 39 = h / 2 ^ 39)%Z as E3.
    { symmetry. apply Z.div_unique with (v - h)%Z; lia. }
    split; [by apply idx3_inj|]. lia.
Qed.

Lemma image_range km v W : image_ok km → canonical v → canonical (kernel_vbase km) →
  image_maps km (image_pages km) W v =
    if (kernel_vbase km <=? v)%Z && (v <? kernel_vbase km + Z.of_nat (image_pages km) * 4096)%Z then
      let prot := section_prot km (v - v mod 4096) in
      Some ((kernel_phys km + (v - kernel_vbase km))%Z, (writable prot, executable prot), false)
    else W v.
Proof.
  intros I Hv Hk. unfold image_maps. set (b := kernel_vbase km) in *. pose proof (im_base _ I) as Hb. fold b in Hb.
  pose proof (idx_spread v) as Sv. pose proof (idx_spread b) as Sb. pose proof (idx_page v) as Pv.
  pose proof (Z.div_mod b (2 ^ 21) ltac:(lia)). pose proof (Z.div_mod v (2 ^ 21) ltac:(lia)). pose proof (Z.div_mod v (2 ^ 12) ltac:(lia)).
  pose proof (idx_lt v 0). pose proof (Z.mod_pos_bound v (2 ^ 12) ltac:(lia)). change (2 ^ 12)%Z with 4096%Z in *.
  destruct (decide ((page v).1 = (page b).1 ∧ idx v 0 < image_pages km)) as [[E1 E0]|Hne].
  - unfold page in E1. injection E1 as E3 E2 E1. apply idx3_inj in E3; [|done..].
    assert (v = b + Z.of_nat (idx v 0) * 4096 + v mod 4096)%Z as Ev by lia.
    rewrite (proj2 (in_range _ _ _)) by lia. rewrite image_meaning by (done || apply idx_lt). cbv zeta. fold b.
    replace (v - v mod 4096)%Z with (b + Z.of_nat (idx v 0) * 4096)%Z by lia. do 3 f_equal. lia.
  - destruct ((b <=? v)%Z && (v <? b + Z.of_nat (image_pages km) * 4096)%Z) eqn:E; [|done]. apply in_range in E.
    exfalso. apply Hne. set (j := Z.to_nat ((v - b) / 4096)).
    pose proof (Z.div_mod (v - b) 4096 ltac:(lia)). pose proof (Z.mod_pos_bound (v - b) 4096 ltac:(lia)).
    assert (j < image_pages km) as Hj by (unfold j; lia). pose proof (image_pages_max km I).
    assert (Z.ldiff v 0xfff = b + Z.of_nat j * 4096)%Z as Ev.
    { change 0xfff%Z with (Z.ones 12). rewrite Z.ldiff_ones_r, Z.shiftl_mul_pow2, Z.shiftr_div_pow2 by lia.
      change (2 ^ 12)%Z with 4096%Z. unfold j. lia. }
    pose proof (page_align v) as Hp. rewrite Ev in Hp. unfold b in Hp. rewrite image_page in Hp by (done || lia). fold b in Hp.
    change (idx v 0) with (page v).2. by rewrite <- Hp.
Qed.

Lemma boot_range km v : map_ok km → canonical v → boot_maps km v = (λ x, (x, false)) <$> boot_view km v.
Proof.
  intros [] Hv. unfold boot_maps, boot_view. rewrite image_range by done. rewrite low_range by (done || lia).
  change (low_maps 0) with (low_maps (idx 0 3)). rewrite low_range; [|done|left; lia|done|lia].
  cbv zeta. rewrite Z.sub_0_r, Z.add_0_l. by repeat case_match.
Qed.

(** No page of the kernel is a user page, or both writable and executable. *)
Lemma boot_maps_flags km v x : image_ok km → gibs km ≤ 512 → boot_maps km v = Some x → x.2 = false ∧ x.1.2 ≠ (true, true).
Proof.
  intros I Hg. unfold boot_maps, image_maps, low_maps. pose proof (image_pages_max km I).
  pose proof (idx_lt v 1). destruct (decide _) as [[_ Hj]|_].
  - rewrite image_meaning by (done || lia). intros [= <-]. split; [done|]. simpl. by destruct (section_prot _ _).
  - repeat (destruct (decide _) as [[_ ?]|_]; [rewrite low_meaning by (done || lia); by intros [= <-]|]). done.
Qed.

Section boot.
Context {F : Type} {FS : FrameSource F}.
Implicit Types s : Mach F.
Variable HHDM_OFFSET : Z.
Hypothesis HHDM_room : (0 <= HHDM_OFFSET <= 2 ^ 64 - 2 ^ 44)%Z.

Lemma build_world s H k km : okay s H (6 + 2 * gibs km + k) → map_ok km →
  ∃ root s' H', build_address_space HHDM_OFFSET km s = (Ok (mkSpace root 0), s') ∧ okay s' H' k ∧ H ⊆ H' ∧
    KERNEL_PML4 s' = root ∧ cr3 s' = cr3 s ∧ flushed s' = flushed s ∧
    (∀ v, maps (mem s') root v = boot_maps km v) ∧ world H' s' H' ∅.
Proof using HHDM_room.
  intros Hok M. destruct (build_run HHDM_OFFSET HHDM_room s H k km Hok (mo_image _ M) (slots km M) (proj2 (mo_low _ M)))
    as (root & s' & H' & R & Hok' & HH & SP & MP & C & C3 & K & Fl).
  exists root, s', H'. do 7 (split; [done|]). split; rewrite ?K; try done.
  - eapply okay_weaken; [|exact Hok']. lia.
  - intros r [? ?]; done.
  - intros r v [->|[? ?]] Hv; [|done]. apply C. rewrite boot_range by (done || (left; unfold window in Hv; lia)).
    destruct (boot_view km v) as [x|] eqn:E; [by eexists|]. exfalso. revert E. unfold boot_view. cbv zeta.
    rewrite (proj2 (in_range 0 _ v)); [by repeat case_match|]. change GIB with (2 ^ 30)%Z. destruct M. unfold window in Hv. lia.
  - intros r r' p q t [? ?]; done.
  - intros v x. rewrite MP. intros Hx. destruct M as [Mi _ _ _ _ _ _ Ml]. by apply boot_maps_flags in Hx as [? _]; [|done|lia].
  - intros r v x [? ?]; done.
  - intros t Ht. by left.
Qed.
End boot.
