(* ===== verification/PagingHistory.v ===== *)
(** * Histories of processes over page tables

    After boot the kernel hands out frames, creates process spaces, switches
    between spaces, maps pages into the active one and reaps dead ones.  The
    abstract state is the map of the pages each process was given and the set of
    frames handed out; [hinv] relates it to the tables in every history. *)

From stdpp Require Import sets relations.
From S2P Require Import Prelude Arch Buddy MemInit Frames Paging PagingInv PagingOps PagingClone PagingWorld PagingBuild PagingBoot.

#[local] Opaque idx leaf_tables.

Section history.
Context {F : Type} {FS : FrameSource F}.
Variable HHDM_OFFSET : Z.
Variable km : KernelMap.

Record pstate := mkPstate {
  mach : Mach F;
  procs : gmap Z pages;
  handed : gset Z
}.

(** The frames behind the addresses [vas] of the window of [r]. *)
Definition window_leaves (m : memory) (r : Z) (vas : list Z) : list Z :=
  match node m r [0; 1] with
  | Some pd => omap (leaf_frame m pd) vas
  | None => []
  end.

(** The contracts of the calls: memory is left for the tables a call needs, pages
    go to the window of the active process, the space to reap is not active, and
    the leaves named to the reaper are frames handed out, none twice.  The kernel
    writes only into frames it was handed and frees only those; [step_block] is a
    block of several frames that is taken and given back. *)
Inductive step : pstate → pstate → Prop :=
  | step_frame s U D pa s' :
      alloc_zeroed_frame HHDM_OFFSET s = (Ok (Some pa), s') →
      step (mkPstate s U D) (mkPstate s' U ({[pa]} ∪ D))
  | step_raw s U D pa s' :
      on_frames fs_alloc s = (Ok (Some pa), s') →
      step (mkPstate s U D) (mkPstate s' U ({[pa]} ∪ D))
  | step_write s U D pa T s' :
      pa ∈ D → length T = 512 → set_mem (<[pa:=T]> (mem s)) s = (Ok (), s') →
      step (mkPstate s U D) (mkPstate s' U D)
  | step_free s U D pa s' :
      pa ∈ loose D → free_table pa s = (Ok (), s') →
      step (mkPstate s U D) (mkPstate s' U (D ∖ {[pa]}))
  | step_block s U D f :
      (∀ H, held (fr s) H → held f H) → fs_count f = fs_count (fr s) →
      step (mkPstate s U D) (mkPstate (upd s (mem s) f) U D)
  | step_new s U D sp s' :
      (515 <= fs_count (fr s))%Z → new_process_space HHDM_OFFSET s = (Ok sp, s') →
      step (mkPstate s U D) (mkPstate s' (<[primary sp:=∅]> U) D)
  | step_switch s U D r s' :
      root s U r → activate_address_space (mkSpace r 0) s = (Ok (), s') →
      step (mkPstate s U D) (mkPstate s' U D)
  | step_map s U D P vaddr phys prot domain s' :
      U !! cr3 s = Some P → window vaddr → (0 <= phys < 2 ^ 52)%Z → (phys mod 4096 = 0)%Z → (1 <= fs_count (fr s))%Z →
      map_user_page HHDM_OFFSET vaddr phys prot domain s = (Ok (), s') →
      step (mkPstate s U D) (mkPstate s' (<[cr3 s:=<[page vaddr:=(phys, prot)]> P]> U) D)
  | step_reap s U D r vas n s' :
      is_Some (U !! r) → cr3 s ≠ r → NoDup (window_leaves (mem s) r vas) →
      (∀ t, t ∈ window_leaves (mem s) r vas → t ∈ loose D) → (Z.of_nat (length vas) + 515 < 2 ^ 32)%Z →
      reap_process_space HHDM_OFFSET (mkSpace r 0) vas s = (Ok n, s') →
      step (mkPstate s U D) (mkPstate s' (delete r U) (D ∖ list_to_set (window_leaves (mem s) r vas))).

(** What the tables of a space map: the pages given to it and, elsewhere, what the
    kernel maps. *)
Definition full_view (P : pages) (v : Z) : option (Z * (bool * bool) * bool) :=
  match P !! page v with
  | Some (f, p) => Some ((f + v mod 4096)%Z, (writable p, executable p), true)
  | None => boot_maps km v
  end.

(** [B] are the frames held since boot. *)
Record hinv (B : gset Z) (st : pstate) (H : gset Z) : Prop := {
  h_world : world (B ∪ handed st) (mach st) H (procs st);
  h_kernel v : maps (mem (mach st)) (KERNEL_PML4 (mach st)) v = boot_maps km v;
  h_full r P v : procs st !! r = Some P → maps (mem (mach st)) r v = full_view P v;
  h_boot : B ⊆ H;
  h_handed : handed st ⊆ H;
  h_fresh t : t ∈ handed st → t ∉ B;
  h_apart t r p : t ∈ handed st → root (mach st) (procs st) r → length p ≤ 3 → node (mem (mach st)) r p ≠ Some t;
  h_own r q t : is_Some (procs st !! r) → own_path q → node (mem (mach st)) r q = Some t → t ∉ B;
  h_kept : fs_kept ⊆ B ∪ handed st
}.

Lemma world_frames (A A' : gset Z) (s : Mach F) H U : world A s H U → (∀ t, t ∈ H → t ∈ A → t ∈ A') → world A' s H U.
Proof using Type.
  intros [] HA. split; try done. intros t Ht. destruct (w_frames t Ht) as [Hin|?]; [left; by apply HA|by right].
Qed.

(** A world whose spaces are left alone. *)
Lemma world_keeps (A A' : gset Z) (s s' : Mach F) H H' U : world A s H U → okay s' H' 0 → KERNEL_PML4 s' = KERNEL_PML4 s → H ⊆ H' →
  (∀ r, root s U r → keeps (mem s) (mem s') r) → (∀ t, t ∈ H' → t ∈ A' ∨ t ∈ H ∧ t ∉ A) → A ⊆ A' → world A' s' H' U.
Proof using Type.
  intros W Hok Hk Hgrow K Hnew HA. destruct W as [W1 W2 W3 W4 W5 W6 W7 W8 W9 W10].
  assert (∀ r q, root s U r → length q ≤ 4 → node (mem s') r q = node (mem s) r q) as KN by (intros; apply keeps_node; auto).
  split; rewrite ?Hk; try done.
  - eapply is_space_mono, keeps_space, W2; [done|]. apply K. by left.
  - intros r Hr. eapply is_space_mono, keeps_space, W3; [done| |done]. apply K. by right.
  - intros r v Hr Hv. destruct (W4 r v Hr Hv) as [pd Hc]. exists pd. eapply keeps_covered; [|done]. by apply K.
  - intros r1 r2 p q t H1 H2 Hne Hp Lq. pose proof (own_path_len p Hp). rewrite !KN by (done || lia || by right). by apply W5.
  - intros v x. rewrite (keeps_maps (mem s) (mem s')) by (apply K; by left). apply W7.
  - intros r v x Hr. rewrite (keeps_maps (mem s) (mem s')) by (apply K; by right). intros Hx Hu. specialize (W8 r v x Hr Hx Hu).
    unfold user_way in *. simpl in *. by rewrite !(keeps_entry (mem s) (mem s')) by (try (apply K; by right); simpl; lia).
  - intros r P v HP. rewrite (keeps_view (mem s) (mem s')); [by apply W9|]. apply K. right. by eexists.
  - intros t Ht. destruct (Hnew t Ht) as [|[Ht' Hn]]; [by left|]. destruct (W10 t Ht') as [|(r & q & Hr & Hq & Nq)]; [done|right].
    exists r, q. pose proof (own_path_len q Hq). rewrite KN by (lia || by right). done.
Qed.

Hypothesis HHDM_room : (0 <= HHDM_OFFSET <= 2 ^ 64 - 2 ^ 44)%Z.

Lemma raw_hinv B s U D pa s' H : hinv B (mkPstate s U D) H → on_frames fs_alloc s = (Ok (Some pa), s') →
  hinv B (mkPstate s' U ({[pa]} ∪ D)) ({[pa]} ∪ H).
Proof using Type.
  clear HHDM_room. intros [W HK HF HB HD Hfr Hap Ho Hke] Hrun. cbn [mach procs handed] in *. pose proof (w_okay _ _ _ _ W) as [Hh _ TB].
  pose proof (fs_alloc_spec _ _ Hh) as Ha. revert Hrun. unfold on_frames.
  destruct (fs_alloc (fr s)) as [[[t|]|e|] f]; try done. destruct Ha as (Hn & Hh' & _). intros [= -> <-].
  split; cbn [mach procs handed mem KERNEL_PML4]; try done.
  - eapply world_keeps; [exact W|by split|done|apply union_subseteq_r|done| |set_solver].
    intros t [->%elem_of_singleton|Ht]%elem_of_union; [left; set_solver|]. destruct (decide (t ∈ B ∪ D)); [left; set_solver|by right].
  - set_solver.
  - set_solver.
  - intros t [->%elem_of_singleton|Ht]%elem_of_union; [|by apply Hfr]. intros Hin. by apply Hn, HB.
  - intros t r p [->%elem_of_singleton|Ht]%elem_of_union Hr Lp; [|by apply Hap]. intros Np.
    apply (sp_held _ _ _ (world_space _ _ _ _ _ W Hr)) in Np as [? _]; done.
  - set_solver.
Qed.

Lemma write_hinv B s U D pa T s' H : hinv B (mkPstate s U D) H → pa ∈ D → length T = 512 →
  set_mem (<[pa:=T]> (mem s)) s = (Ok (), s') → hinv B (mkPstate s' U D) H ∧ (∀ r, root s U r → keeps (mem s) (mem s') r).
Proof using Type.
  clear HHDM_room. intros [W HK HF HB HD Hfr Hap Ho Hke] Hpa HT [= <-]. cbn [mach procs handed] in *. pose proof (w_okay _ _ _ _ W) as [Hh _ TB].
  assert (∀ r, root s U r → keeps (mem s) (<[pa:=T]> (mem s)) r) as K.
  { intros r Hr p t Lp Np. rewrite lookup_insert_ne; [done|]. intros ->. by eapply Hap. }
  assert (∀ r q, root s U r → length q ≤ 3 → node (<[pa:=T]> (mem s)) r q = node (mem s) r q) as KN.
  { intros r q Hr Lq. apply keeps_node; [by apply K|lia]. }
  split; [|exact K]. split; cbn [mach procs handed mem KERNEL_PML4]; try done.
  - eapply world_keeps; [exact W| |done|done|exact K| |done]; cbn [mem fr].
    + split; [done|done|]. cbn [mem]. apply tabs_insert; [done| |done]. by apply (fs_held_ok (fr s) H); [|apply HD].
    + intros t Ht. destruct (decide (t ∈ B ∪ D)); [by left|by right].
  - intros v. rewrite (keeps_maps (mem s)); [done|]. apply K. by left.
  - intros r P v HP. rewrite (keeps_maps (mem s)); [by apply HF|]. apply K. right. by eexists.
  - intros t r p Ht Hr Lp. rewrite KN by done. by apply Hap.
  - intros r q t Hr Hq. pose proof (own_path_len q Hq). rewrite KN by (done || by right). by apply Ho.
Qed.

Lemma frame_hinv B s U D pa s' H : hinv B (mkPstate s U D) H → alloc_zeroed_frame HHDM_OFFSET s = (Ok (Some pa), s') →
  hinv B (mkPstate s' U ({[pa]} ∪ D)) ({[pa]} ∪ H).
Proof using Type.
  clear HHDM_room. intros I. unfold alloc_zeroed_frame, mbind, M_bind.
  destruct (on_frames fs_alloc s) as [[[t|]|e|] s1] eqn:R; try done. unfold lift.
  destruct (phys_to_virt HHDM_OFFSET t) as [x|e|]; try done. unfold get.
  destruct (set_mem (<[t:=replicate 512 0%Z]> (mem s1)) s1) as [[u|e|] s2] eqn:R2; try done. intros [= -> ->]. destruct u.
  edestruct write_hinv as [I' _]; [by eapply raw_hinv| | |exact R2|exact I']; [set_solver|apply length_replicate].
Qed.

Lemma free_hinv B s U D pa s' H : hinv B (mkPstate s U D) H → pa ∈ loose D → free_table pa s = (Ok (), s') →
  hinv B (mkPstate s' U (D ∖ {[pa]})) (H ∖ {[pa]}).
Proof using Type.
  clear HHDM_room. intros [W HK HF HB HD Hfr Hap Ho Hke] [Hpa Hkp]%elem_of_difference Hrun. cbn [mach procs handed] in *. pose proof (w_okay _ _ _ _ W) as [Hh _ TB].
  destruct (fs_free_spec (fr s) H pa Hh) as (f & Hf & Hh' & _); [by apply HD|done|].
  revert Hrun. unfold free_table, on_frames. rewrite Hf. intros [= <-].
  assert (∀ r, root s U r → is_space (mem s) (H ∖ {[pa]}) r) as Hsp.
  { intros r Hr. destruct (world_space _ _ _ _ _ W Hr) as [S1 S2 S3]. split; [|done..]. intros p t Lp Np.
    destruct (S1 p t Lp Np) as [Hin ?]. split; [|done]. apply elem_of_difference. split; [done|]. intros ->%elem_of_singleton. by eapply (Hap pa r p). }
  destruct W as [W1 W2 W3 W4 W5 W6 W7 W8 W9 W10].
  split; cbn [mach procs handed mem KERNEL_PML4]; try done.
  - split; cbn [mem fr KERNEL_PML4]; try done.
    + apply Hsp. by left.
    + intros r Hr. apply Hsp. by right.
    + intros t [Ht Hne]%elem_of_difference. destruct (W10 t Ht) as [[?|?]%elem_of_union|?]; [left; set_solver..|by right].
  - intros t Ht. apply elem_of_difference. split; [by apply HB|]. intros ->%elem_of_singleton. by apply (Hfr pa).
  - set_solver.
  - intros t [Ht _]%elem_of_difference. by apply Hfr.
  - intros t r p [Ht _]%elem_of_difference. by apply Hap.
  - intros t Ht. specialize (Hke t Ht). assert (t ≠ pa) by congruence. set_solver.
Qed.

Lemma block_hinv B s U D f H : hinv B (mkPstate s U D) H → (∀ H, held (fr s) H → held f H) →
  hinv B (mkPstate (upd s (mem s) f) U D) H.
Proof using Type.
  clear HHDM_room. intros [W HK HF HB HD Hfr Hap Ho Hke] Hf. cbn [mach procs handed] in *.
  split; cbn [mach procs handed mem KERNEL_PML4]; try done.
  eapply world_keeps; [exact W| |done|done|done| |done].
  - destruct (w_okay _ _ _ _ W). split; [by apply Hf|done|done].
  - intros t Ht. destruct (decide (t ∈ B ∪ D)); [by left|by right].
Qed.

Lemma switch_hinv B s U D r s' H : hinv B (mkPstate s U D) H → activate_address_space (mkSpace r 0) s = (Ok (), s') →
  hinv B (mkPstate s' U D) H.
Proof using Type.
  clear HHDM_room. intros [W HK HF HB HD Hfr Hap Ho Hke] [= <-]. cbn [mach procs handed] in *.
  split; cbn [mach procs handed mem KERNEL_PML4]; try done.
  eapply world_keeps; [exact W|by destruct (w_okay _ _ _ _ W); split|done|done|done| |done].
  intros t Ht. destruct (decide (t ∈ B ∪ D)); [by left|by right].
Qed.

Lemma new_run B s U D H : hinv B (mkPstate s U D) H → (515 <= fs_count (fr s))%Z →
  ∃ r s' H', new_process_space HHDM_OFFSET s = (Ok (mkSpace r 0), s') ∧ hinv B (mkPstate s' (<[r:=∅]> U) D) H' ∧
    (∀ r, root s U r → keeps (mem s) (mem s') r) ∧ KERNEL_PML4 s' = KERNEL_PML4 s ∧ cr3 s' = cr3 s ∧ U !! r = None ∧
    (∀ t, t ∈ D → mem s' !! t = mem s !! t).
Proof using HHDM_room.
  intros [W HK HF HB HD Hfr Hap Ho Hke] Hs. cbn [mach procs handed] in *.
  destruct (new_world _ HHDM_OFFSET HHDM_room s H U W) as (r & s1 & H' & R & Hr & W' & K' & C' & _ & HH & Kp & Kd & Mr & Nr).
  { destruct (w_okay _ _ _ _ W). by apply okay_count. }
  exists r, s1, H'. split; [done|].
  split; [|split; [done|split; [done|split; [done|split; [|intros t Ht; by apply Kd, HD]]]]]; last first.
  { destruct (U !! r) as [P|] eqn:E; [|done]. exfalso. apply Hr. eapply (sp_held _ _ _ (w_space _ _ _ _ W r ltac:(by eexists)) []); [simpl; lia|done]. }
  assert (∀ r', is_Some (<[r:=∅]> U !! r') → r' ≠ r → is_Some (U !! r')) as HU.
  { intros r' Hr' Hne. by rewrite lookup_insert_ne in Hr'. }
  assert (∀ r', root s1 (<[r:=∅]> U) r' → r' ≠ r → root s U r') as HR.
  { intros r' [->|Hr'] Hne; [by left|]. right. by apply HU. }
  split; cbn [mach procs handed]; try done.
  - intros v. rewrite K', (keeps_maps (mem s)); [done|]. apply Kp. by left.
  - intros r' P v HP. destruct (decide (r' = r)) as [->|Hne].
    + rewrite lookup_insert_eq in HP. injection HP as <-. rewrite Mr, HK. done.
    + rewrite lookup_insert_ne in HP by done. rewrite (keeps_maps (mem s)); [by apply HF|]. apply Kp. right. by eexists.
  - by etrans.
  - by etrans.
  - intros t r' p Ht Hr' Lp Np. destruct (decide (r' = r)) as [->|Hne].
    + destruct (Nr p t Lp Np) as [Hn|[_ Np']]; [by apply Hn, HD|]. eapply (Hap t (KERNEL_PML4 s) p); try done. by left.
    + rewrite (keeps_node (mem s)) in Np by (lia || (apply Kp; by apply HR)). eapply (Hap t r' p); try done. by apply HR.
  - intros r' q t Hr' Hq Nq. pose proof (own_path_len q Hq) as Lq. destruct (decide (r' = r)) as [->|Hne].
    + destruct (Nr q t Lq Nq) as [Hn|[Hn _]]; [|done]. intros Hin. by apply Hn, HB.
    + apply HU in Hr'; [|done]. rewrite (keeps_node (mem s)) in Nq by (lia || (apply Kp; by right)). by eapply (Ho r' q).
Qed.

Lemma map_run B s U D P vaddr phys prot domain H : hinv B (mkPstate s U D) H → U !! cr3 s = Some P → window vaddr →
  (0 <= phys < 2 ^ 52)%Z → (phys mod 4096 = 0)%Z → (1 <= fs_count (fr s))%Z →
  ∃ s' H', map_user_page HHDM_OFFSET vaddr phys prot domain s = (Ok (), s') ∧
    hinv B (mkPstate s' (<[cr3 s:=<[page vaddr:=(phys, prot)]> P]> U) D) H' ∧
    (∀ r, root s U r → r ≠ cr3 s → keeps (mem s) (mem s') r) ∧ KERNEL_PML4 s' = KERNEL_PML4 s ∧ cr3 s' = cr3 s ∧
    (∀ t, t ∈ D → mem s' !! t = mem s !! t) ∧
    (∀ q t, length q ≤ 3 → node (mem s) (cr3 s) q = Some t → node (mem s') (cr3 s) q = Some t) ∧
    is_Some (node (mem s') (cr3 s) (page vaddr).1).
Proof using HHDM_room.
  intros [W HK HF HB HD Hfr Hap Ho Hke] HP Hv Hph Hal Hs. cbn [mach procs handed] in *.
  destruct (map_world _ HHDM_OFFSET HHDM_room s H U (cr3 s) P vaddr phys prot domain 0 W) as (s1 & H' & R & W' & _ & K' & C' & HH & _ & Kp & Kd & Kn & Kpage & Mr & Nr); try done.
  { destruct (w_okay _ _ _ _ W). by apply okay_count. }
  exists s1, H'. set (r := cr3 s) in *. split; [done|]. split; [|split; [done|split; [done|split; [done|split; [|done]]]]]; last first.
  { intros t Ht. apply Kd; [by apply HD|]. intros p Lp. apply (Hap t); [done|right; by exists P|done]. }
  assert (KERNEL_PML4 s ≠ r) as Hkr by (intros E; rewrite <- E, (w_apart _ _ _ _ W) in HP; done).
  assert (∀ r', is_Some (<[r:=<[page vaddr:=(phys, prot)]> P]> U !! r') → is_Some (U !! r')) as HU.
  { intros r' Hr'. destruct (decide (r' = r)) as [->|]; [by eexists|]. by rewrite lookup_insert_ne in Hr'. }
  assert (∀ r', root s1 (<[r:=<[page vaddr:=(phys, prot)]> P]> U) r' → root s U r') as HR.
  { intros r' [->|Hr']; [by left|]. right. by apply HU. }
  assert (root s U r) as Hrr by (right; by eexists).
  split; cbn [mach procs handed]; try done.
  - intros v. rewrite K', (keeps_maps (mem s)); [done|]. apply Kp; [by left|done].
  - intros r' P' v HP'. destruct (decide (r' = r)) as [->|Hne].
    + rewrite lookup_insert_eq in HP'. injection HP' as <-. rewrite Mr. unfold full_view. case_decide as Hpg.
      * by rewrite Hpg, lookup_insert_eq.
      * rewrite lookup_insert_ne by congruence. by rewrite (HF r P).
    + rewrite lookup_insert_ne in HP' by done. rewrite (keeps_maps (mem s)); [by apply HF|]. apply Kp; [|done]. right. by eexists.
  - by etrans.
  - by etrans.
  - intros t r' p Ht Hr'%HR Lp Np. destruct (decide (r' = r)) as [->|Hne].
    + destruct (Nr p t Lp Np) as [Hn|(q & Lq & _ & Nq)]; [by apply Hn, HD|]. by eapply (Hap t r q).
    + rewrite (keeps_node (mem s)) in Np by (lia || by apply Kp). by eapply (Hap t r' p).
  - intros r' q t Hr'%HU Hq Nq. pose proof (own_path_len q Hq) as Lq. destruct (decide (r' = r)) as [->|Hne].
    + destruct (Nr q t Lq Nq) as [Hn|(q' & Lq' & Hq' & Nq')]; [|by apply (Ho r q' t Hr' (Hq' Hq))]. intros Hin. by apply Hn, HB.
    + rewrite (keeps_node (mem s)) in Nq by (lia || (apply Kp; [by right|done])). by eapply (Ho r' q).
Qed.

(** The tables and frames that [reap_process_space] gives back. *)
Lemma reap_run B s U D r vas H : hinv B (mkPstate s U D) H → is_Some (U !! r) → NoDup (window_leaves (mem s) r vas) →
  (∀ t, t ∈ window_leaves (mem s) r vas → t ∈ loose D) → (Z.of_nat (length vas) + 515 < 2 ^ 32)%Z →
  ∃ L s', reap_process_space HHDM_OFFSET (mkSpace r 0) vas s = (Ok (Z.of_nat (length L)), s') ∧ NoDup L ∧
    (∀ t, t ∈ L ↔ t ∈ window_leaves (mem s) r vas ∨ ∃ q, own_path q ∧ node (mem s) r q = Some t) ∧
    mem s' = mem s ∧ KERNEL_PML4 s' = KERNEL_PML4 s ∧ cr3 s' = cr3 s ∧
    hinv B (mkPstate s' (delete r U) (D ∖ list_to_set (window_leaves (mem s) r vas))) (H ∖ list_to_set L).
Proof using HHDM_room.
  intros [W HK HF HB HD Hfr Hap Ho Hke] Hr Hnd Hin Hlen. cbn [mach procs handed] in *.
  destruct (own_window _ s H U r W Hr) as (e0 & pdpt & e1 & pd & _ & _ & N0 & _ & _ & N1 & Hn).
  assert (window_leaves (mem s) r vas = omap (leaf_frame (mem s) pd) vas) as E by (unfold window_leaves; by rewrite N1).
  rewrite E in *. set (L1 := omap (leaf_frame (mem s) pd) vas) in *.
  destruct (reap_world _ HHDM_OFFSET HHDM_room s H U r pdpt pd vas W Hr N0 N1) as (s' & R & Ret & W'); [| |done|].
  { split; [done|]. fold L1. intros t Ht. specialize (Hin t Ht). split; [set_solver|]. intros r' p Hr' Lp. apply (Hap t); [set_solver|auto..]. }
  { intros q t Hq Nq [?|?]%Hke%elem_of_union; [by apply (Ho r q t)|]. pose proof (own_path_len q Hq). eapply (Hap t r q); [done|by right|done|done]. }
  assert (∀ t, t ∈ L1 → t ∈ D) as HinD by (intros t Ht; specialize (Hin t Ht); set_solver).
  pose proof (own_tables (B ∪ D) s H U r pdpt pd) as Hown.
  assert (∀ t, t ∈ reaped (mem s) r pdpt pd vas ↔ t ∈ L1 ∨ ∃ q, own_path q ∧ node (mem s) r q = Some t) as HL.
  { intros t. unfold reaped. fold L1. rewrite elem_of_app. by rewrite (Hown t W Hr N0 N1 Hn). }
  assert (NoDup (reaped (mem s) r pdpt pd vas)) as HLnd.
  { unfold reaped. fold L1. apply NoDup_app. split_and!; [done| |by eapply own_tables_NoDup].
    intros t Ht Ht2. apply (Hown t W Hr N0 N1 Hn) in Ht2 as (q & Hq & Nq). pose proof (own_path_len q Hq).
    eapply (Hap t r q); [by apply HinD|by right|done|done]. }
  set (L := reaped (mem s) r pdpt pd vas) in *. destruct Ret as (Rm & Rc & Rk & Rf & Rh).
  assert (∀ r', is_Some (delete r U !! r') → is_Some (U !! r')) as HU.
  { intros r' Hr'. destruct (decide (r' = r)) as [->|]; [done|]. by rewrite lookup_delete_ne in Hr'. }
  assert (∀ t, t ∈ L → t ∉ B) as HLB.
  { intros t [Ht|(q & Hq & Nq)]%HL; [by apply Hfr, HinD|by apply (Ho r q)]. }
  assert (∀ t, t ∈ D → t ∉ L1 → t ∉ L) as HLD.
  { intros t Ht Hn1 [|(q & Hq & Nq)]%HL; [done|]. pose proof (own_path_len q Hq). eapply (Hap t r q); try done. by right. }
  exists L, s'. do 6 (split; [done|]). split; cbn [mach procs handed]; rewrite ?Rm, ?Rk; try done.
  - eapply world_frames; [exact W'|]. intros t [_ Ht]%elem_of_difference. rewrite elem_of_list_to_set in Ht.
    intros [HtB|HtD]%elem_of_union; apply elem_of_union; [by left|right]. apply elem_of_difference. split; [done|].
    rewrite elem_of_list_to_set. intros Hx. apply Ht, HL. by left.
  - intros r' P v HP. apply HF. destruct (decide (r' = r)) as [->|]; [by rewrite lookup_delete_eq in HP|]. by rewrite lookup_delete_ne in HP.
  - intros t Ht. apply elem_of_difference. split; [by apply HB|]. rewrite elem_of_list_to_set. intros Hx. by apply (HLB t).
  - intros t [Ht Hx]%elem_of_difference. rewrite elem_of_list_to_set in Hx. apply elem_of_difference. split; [by apply HD|].
    rewrite elem_of_list_to_set. by apply HLD.
  - intros t [Ht _]%elem_of_difference. by apply Hfr.
  - intros t r' p [Ht _]%elem_of_difference Hr'. apply Hap; [done|]. destruct Hr' as [->|Hr']; [by left; rewrite Rk|right; by apply HU].
  - intros r' q t Hr'%HU. by apply Ho.
  - intros t Ht. pose proof (Hke t Ht) as Hu. apply elem_of_union in Hu as [|]; apply elem_of_union; [by left|right]. apply elem_of_difference. split; [done|].
    rewrite elem_of_list_to_set. intros Hx. by apply (Hin t) in Hx as [_ ?]%elem_of_difference.
Qed.

Lemma step_hinv B st st' H : hinv B st H → step st st' → ∃ H', hinv B st' H'.
Proof using HHDM_room.
  intros I Hst. destruct Hst as [s U D pa s' R|s U D pa s' R|s U D pa T s' Hpa HT R|s U D pa s' Hpa R|s U D f Hf _|s U D sp s' Hs R|s U D r s' Hr R|s U D P vaddr phys prot d s' HP Hv H1 H2 Hs R
    |s U D r vas n s' Hr Hne Hnd Hin Hlen R].
  - eexists. by eapply frame_hinv.
  - eexists. by eapply raw_hinv.
  - eexists. by eapply (write_hinv B s U D pa T s' H).
  - eexists. by eapply free_hinv.
  - eexists. by eapply block_hinv.
  - destruct (new_run B s U D H I Hs) as (r & s1 & H' & R' & I' & _). rewrite R' in R. injection R as <- <-. by exists H'.
  - eexists. by eapply switch_hinv.
  - destruct (map_run B s U D P vaddr phys prot d H I HP Hv H1 H2 Hs) as (s1 & H' & R' & I' & _). rewrite R' in R. injection R as <-. by exists H'.
  - destruct (reap_run B s U D r vas H I Hr Hnd Hin Hlen) as (L & s1 & R1 & _ & _ & _ & _ & _ & I'). rewrite R1 in R.
    injection R as _ <-. by eexists.
Qed.

Lemma steps_hinv B st st' H : hinv B st H → rtc step st st' → ∃ H', hinv B st' H'.
Proof using HHDM_room.
  intros I Hst. revert H I. induction Hst as [st|st st1 st2 H1 _ IH]; intros H I; [by eexists|].
  destruct (step_hinv B st st1 H I H1) as [H' I']. by eapply IH.
Qed.

(** The kernel up and running: its own tables built and loaded. *)
Definition booted (s0 s : Mach F) (H0 : gset Z) : Prop :=
  held (fr s0) H0 ∧ tabs (mem s0) ∧ map_ok km ∧ (Z.of_nat (6 + 2 * gibs km) <= fs_count (fr s0))%Z ∧
  ∃ sp s1, build_address_space HHDM_OFFSET km s0 = (Ok sp, s1) ∧ activate_address_space sp s1 = (Ok (), s).

Lemma boot_hinv s0 s H0 : booted s0 s H0 → ∃ B, H0 ⊆ B ∧ hinv B (mkPstate s ∅ ∅) B.
Proof using HHDM_room.
  intros (Hh & Hm & M & Hs & sp & s1 & R & Hact).
  destruct (build_world HHDM_OFFSET HHDM_room s0 H0 0 km) as (root & s' & B & R' & Hok & HB & K & C & _ & MP & W); [|done|].
  { rewrite Nat.add_0_r. by apply okay_count. }
  rewrite R' in R. injection R as <- <-. injection Hact as <-. exists B. split; [done|].
  split; cbn [mach procs handed mem KERNEL_PML4 primary]; try done.
  - eapply world_keeps; [exact W| |done|done|done| |]; [by destruct Hok; split| |set_solver].
    intros t Ht. left. set_solver.
  - intros v. by rewrite K.
  - intros r q t [? ?]. done.
  - pose proof (fs_kept_held _ _ Hh). set_solver.
Qed.

(** Its tables are the active ones. *)
Lemma booted_active s0 s H0 n : booted s0 s H0 → (Z.of_nat n <= fs_count (fr s))%Z →
  ∃ B, okay s B n ∧ is_space (mem s) B (cr3 s) ∧ ∀ v, window v → ∃ pd, covered (mem s) (cr3 s) v pd.
Proof using HHDM_room.
  intros Hb Hn. destruct (boot_hinv s0 s H0 Hb) as (B & _ & [W _ _ _ _ _ _ _ _]). cbn [mach procs handed] in W.
  assert (cr3 s = KERNEL_PML4 s) as E.
  { destruct Hb as (Hh & Hm & M & Hs & sp & s1 & R & [= <-]).
    destruct (build_world HHDM_OFFSET HHDM_room s0 H0 0 km) as (root & s' & B' & R' & _ & _ & K & _); [|done|].
    { rewrite Nat.add_0_r. by apply okay_count. }
    rewrite R' in R. by injection R as <- <-. }
  exists B. rewrite E. split; [|split; [apply (w_kernel _ _ _ _ W)|]].
  - destruct (w_okay _ _ _ _ W). by apply okay_count.
  - intros v. apply (w_window _ _ _ _ W). by left.
Qed.
End history.
Arguments step {F FS} HHDM_OFFSET _ _.
Arguments pstate F : clear implicits.

(** Two sources with the same operations: every call does the same. *)
Record same_ops {F} (S1 S2 : FrameSource F) : Prop := {
  so_alloc : fs_alloc (FrameSource := S1) = fs_alloc (FrameSource := S2);
  so_free : fs_free (FrameSource := S1) = fs_free (FrameSource := S2);
  so_count : fs_count (FrameSource := S1) = fs_count (FrameSource := S2)
}.

Lemma counted_same {F} (FS : FrameSource F) N : same_ops (counted FS N) FS.
Proof. done. Qed.

Section same.
Context {F : Type} (S1 S2 : FrameSource F) (HHDM_OFFSET : Z) (E : same_ops S1 S2).

Lemma same_frame : alloc_zeroed_frame (FS := S1) HHDM_OFFSET = alloc_zeroed_frame (FS := S2) HHDM_OFFSET.
Proof using E. unfold alloc_zeroed_frame. by rewrite (so_alloc _ _ E). Qed.

Lemma same_table : alloc_table (FS := S1) HHDM_OFFSET = alloc_table (FS := S2) HHDM_OFFSET.
Proof using E. unfold alloc_table. by rewrite same_frame. Qed.

Lemma same_free : free_table (FS := S1) = free_table (FS := S2).
Proof using E. unfold free_table. by rewrite (so_free _ _ E). Qed.

Lemma same_clone : clone_table (FS := S1) HHDM_OFFSET = clone_table (FS := S2) HHDM_OFFSET.
Proof using E. unfold clone_table. by rewrite same_table. Qed.

Lemma same_privatise : privatise (FS := S1) HHDM_OFFSET = privatise (FS := S2) HHDM_OFFSET.
Proof using E. unfold privatise. by rewrite same_clone. Qed.

Lemma same_new : new_process_space (FS := S1) HHDM_OFFSET = new_process_space (FS := S2) HHDM_OFFSET.
Proof using E. unfold new_process_space. by rewrite same_clone, same_privatise. Qed.

Lemma same_map : map_user_page (FS := S1) HHDM_OFFSET = map_user_page (FS := S2) HHDM_OFFSET.
Proof using E. unfold map_user_page, ensure_pt_user, split_huge. by rewrite same_table. Qed.

Lemma same_map_page : map_page (FS := S1) HHDM_OFFSET = map_page (FS := S2) HHDM_OFFSET.
Proof using E. unfold map_page, ensure_pt, split_huge. by rewrite same_table. Qed.

Lemma same_leaves pd vas n s : reap_leaves (FS := S1) HHDM_OFFSET pd vas n s = reap_leaves (FS := S2) HHDM_OFFSET pd vas n s.
Proof using E.
  revert n s. induction vas as [|va vas IH]; intros n s; [done|]. cbn [reap_leaves]. rewrite same_free. apply bind_ext. intros e2 s1.
  case_match; [|apply IH]. apply bind_ext. intros e1 s2. case_match; [|apply IH]. apply bind_ext. intros u s3. apply bind_ext. intros k s4. apply IH.
Qed.

Lemma same_pts pd js n s : reap_pts (FS := S1) HHDM_OFFSET pd js n s = reap_pts (FS := S2) HHDM_OFFSET pd js n s.
Proof using E.
  revert n s. induction js as [|j js IH]; intros n s; [done|]. cbn [reap_pts]. rewrite same_free. apply bind_ext. intros e s1.
  case_match; [|apply IH]. apply bind_ext. intros u s2. apply bind_ext. intros k s3. apply IH.
Qed.

Lemma same_reap sp vas s : reap_process_space (FS := S1) HHDM_OFFSET sp vas s = reap_process_space (FS := S2) HHDM_OFFSET sp vas s.
Proof using E.
  unfold reap_process_space. rewrite same_free. cbv zeta.
  apply bind_ext. intros e0 s0. apply bind_ext. intros e1 s1. unfold mbind, M_bind. rewrite same_leaves.
  destruct (reap_leaves _ _ _ _ _) as [[n|e|] s2]; [|done..]. by rewrite same_pts.
Qed.

Lemma same_build km : build_address_space (FS := S1) HHDM_OFFSET km = build_address_space (FS := S2) HHDM_OFFSET km.
Proof using E. unfold build_address_space, map_kernel, map_low, map_low_gib. by rewrite same_table. Qed.
End same.

(** Counting changes no step. *)
Section counting.
Context {F : Type} (FS : FrameSource F) (HHDM_OFFSET N : Z).
Abbreviation CS := (counted FS N).

Lemma step_counted (st st' : pstate F) : step (FS := FS) HHDM_OFFSET st st' → step (FS := CS) HHDM_OFFSET st st'.
Proof.
  pose proof (counted_same FS N) as E.
  intros [s U D pa s' R|s U D pa s' R|s U D pa T s' Hpa HT R|s U D pa s' Hpa R|s U D f Hf Hc|s U D sp s' Hs R|s U D r s' Hr R|s U D P vaddr phys prot d s' HP Hv H1 H2 Hs R
    |s U D r vas n s' Hr Hne Hnd Hin Hlen R].
  - apply (step_frame (FS := CS)). by rewrite (same_frame _ _ _ E).
  - by apply (step_raw (FS := CS)).
  - by eapply (step_write (FS := CS)).
  - apply (step_free (FS := CS)); [done|]. by rewrite (same_free _ _ E).
  - apply (step_block (FS := CS)); [|done]. intros H [Hh Hn]. split; [by apply Hf|]. cbn [counted fs_count] in *. lia.
  - apply (step_new (FS := CS)); [done|by rewrite (same_new _ _ _ E)].
  - by eapply (step_switch (FS := CS)).
  - eapply (step_map (FS := CS)); [done..|by rewrite (same_map _ _ _ E)].
  - eapply (step_reap (FS := CS)); [done..|]. by rewrite (same_reap _ _ _ E).
Qed.

Lemma steps_counted (st st' : pstate F) : rtc (step (FS := FS) HHDM_OFFSET) st st' → rtc (step (FS := CS) HHDM_OFFSET) st st'.
Proof. apply rtc_congruence with (f := id). apply step_counted. Qed.
End counting.

(** The invariant of a history, with all frames accounted for. *)
Lemma paging_history_inv {F} {FS : FrameSource F} HHDM_OFFSET km (s0 s : Mach F) H0 st : (0 <= HHDM_OFFSET <= 2 ^ 64 - 2 ^ 44)%Z →
  booted HHDM_OFFSET km s0 s H0 → rtc (step HHDM_OFFSET) (mkPstate s ∅ ∅) st →
  ∃ N B H, hinv (FS := counted FS N) km B (mkPstate s ∅ ∅) B ∧ hinv (FS := counted FS N) km B st H.
Proof.
  intros HH (Hh & Hm & M & Hs & sp & s1 & R & Hact) Hst. set (N := (fs_count (fr s0) + Z.of_nat (size H0))%Z).
  destruct (boot_hinv (FS := counted FS N) HHDM_OFFSET km HH s0 s H0) as (B & _ & I).
  { split; [done|]. split; [done|]. split; [done|]. split; [done|]. exists sp, s1. by rewrite (same_build _ _ _ (counted_same FS N)). }
  destruct (steps_hinv (FS := counted FS N) HHDM_OFFSET km HH B _ st B I) as [H I']; [by apply steps_counted|].
  by exists N, B, H.
Qed.

Lemma size_minus_list (H : gset Z) L : NoDup L → (∀ t, t ∈ L → t ∈ H) → size (H ∖ list_to_set L) + length L = size H.
Proof.
  intros Hnd Hin. rewrite size_difference; [|intros t Ht; apply Hin; by apply elem_of_list_to_set in Ht].
  rewrite size_list_to_set by done. assert (length L ≤ size H); [|lia].
  rewrite <- (size_list_to_set (C := gset Z)) by done. apply subseteq_size. intros t Ht. apply Hin. by apply elem_of_list_to_set in Ht.
Qed.
