(* ===== verification/PagingDomain.v ===== *)
(** * A table that leaves one page out

    [build_domain_excluding] copies the tables on the way to the victim's page into
    fresh frames; the copies map what the originals map, and only then is the page
    taken out. *)

From S2P Require Import Prelude Arch Buddy MemInit Frames Paging PagingInv PagingOps.

#[local] Opaque idx.

Lemma node_agree m m' u r :
  (∀ r1 w, length r1 < length r → node m u r1 = Some w → m' !! w = m !! w) → node m' u r = node m u r.
Proof.
  induction r as [|j r IH] using rev_ind; intros Hr; [done|]. rewrite length_app in Hr. simpl in Hr.
  rewrite !node_snoc. unfold entry. rewrite IH by (intros r1 w L; apply Hr; lia).
  destruct (node m u r) as [w|] eqn:N; [|done]. simpl. unfold ent. by rewrite (Hr r w) by (done || lia).
Qed.

(** ** A copy of a table in place of the table *)
Section copy.
Context (m : memory) (H : gset Z) (root t n c e x : Z) (T Tc : list Z) (p : list nat) (i : nat).
Hypothesis (TB : tabs m) (SP : is_space m H root) (Lp : length p ≤ 2) (Np : node m root p = Some t).
Hypothesis (HT : m !! t = Some T) (Hi : T !! i = Some e) (He : down e = Some c) (Hc : m !! c = Some Tc).
Hypothesis (Hn : n ∉ H) (Hx : down x = Some n).

Let m1 := <[n:=Tc]> m.
Let m' := <[t:=<[i:=x]> T]> m1.

Lemma copy_old : node m root (p ++ [i]) = Some c.
Proof using Np HT Hi He. rewrite (node_next m root p t i e Np); [done|]. unfold ent. by rewrite HT. Qed.

Lemma copy_other q u : length q ≤ 3 → node m root q = Some u → u ≠ n ∧ (u = t → q = p).
Proof using SP Lp Np Hn.
  intros Lq Nq. split.
  - intros E. apply Hn. rewrite <- E. by apply (sp_held _ _ _ SP) in Nq as [? _].
  - intros ->. apply (sp_tree _ _ _ SP q p t); [done|lia|done|done].
Qed.

Lemma copy_keep u : u ≠ n → u ≠ t → m' !! u = m !! u.
Proof using Type. intros A B. unfold m', m1. by rewrite !lookup_insert_ne. Qed.

Lemma copy_node q : length q ≤ 3 → node m' root q = if decide (q = p ++ [i]) then Some n else node m root q.
Proof using TB SP Lp Np HT Hi He Hc Hn Hx.
  intros Lq. assert (keeps m m1 root) as K by (by eapply keeps_fresh).
  assert (is_space m1 H root) as SP1 by (by eapply keeps_space).
  assert (node m1 root p = Some t) as Np1 by (rewrite (keeps_node m m1); (done || lia)).
  destruct (copy_other p t ltac:(lia) Np) as [Htn _].
  assert (m1 !! t = Some T) as HT1 by (unfold m1; by rewrite lookup_insert_ne).
  assert (i < length T) as Hlt by (by eapply lookup_lt_Some).
  destruct (decide ((p ++ [i]) `prefix_of` q)) as [[r ->]|Hpre]; last first.
  { rewrite decide_False by (intros ->; by apply Hpre).
    unfold m'. rewrite (node_write m1 H root t T p i x) by (done || lia). apply keeps_node; [done|lia]. }
  assert (node m' root (p ++ [i]) = Some n) as Hl.
  { rewrite node_snoc. unfold m'. rewrite (entry_write m1 H root t T p i x) by (done || lia ||
      (intros [r' Hr']; apply (f_equal length) in Hr'; rewrite !length_app in Hr'; simpl in Hr'; lia)).
    by rewrite decide_True. }
  rewrite (node_app m'), (node_app m root (p ++ [i]) r), Hl, copy_old. simpl. destruct r as [|j r]; [by rewrite app_nil_r, decide_True|].
  rewrite decide_False by (intros E; apply (f_equal length) in E; rewrite !length_app in E; simpl in E; lia).
  cbn [node]. assert (ent m' n j = ent m c j) as ->.
  { unfold m', m1. rewrite ent_insert_ne, ent_insert by done. unfold ent. by rewrite Hc. }
  destruct (ent m c j ≫= down) as [u|] eqn:Hu; [|done]. simpl. apply node_agree. intros r1 w L1 Nw.
  rewrite !length_app in Lq. simpl in Lq.
  assert (node m root (p ++ [i] ++ j :: r1) = Some w) as Nw'.
  { rewrite app_assoc, (node_app m root (p ++ [i])), copy_old. simpl. by rewrite Hu. }
  destruct (copy_other (p ++ [i] ++ j :: r1) w) as [Hwn Hwt]; [rewrite !length_app; simpl; lia|done|].
  apply copy_keep; [done|]. intros ->. specialize (Hwt eq_refl). apply (f_equal length) in Hwt.
  rewrite !length_app in Hwt. simpl in Hwt. lia.
Qed.

Lemma copy_entry q j : length q ≤ 3 → entry m' root q j = if decide (q = p ∧ j = i) then Some x else entry m root q j.
Proof using TB SP Lp Np HT Hi He Hc Hn Hx.
  intros Lq. destruct (copy_other p t ltac:(lia) Np) as [Htn _]. unfold entry. rewrite copy_node by done. case_decide as E.
  - subst q. rewrite decide_False by (intros [E _]; apply (f_equal length) in E; rewrite length_app in E; simpl in E; lia).
    rewrite copy_old. simpl. unfold m', m1. rewrite ent_insert_ne, ent_insert by done. unfold ent. by rewrite Hc.
  - destruct (node m root q) as [u|] eqn:Nq; simpl.
    + destruct (copy_other q u Lq Nq) as [Hun Hut]. destruct (decide (u = t)) as [->|Hne].
      * assert (q = p) as -> by (by apply Hut). unfold m'. rewrite ent_insert. unfold ent. rewrite HT. simpl.
        destruct (decide (j = i)) as [->|Hj].
        { rewrite decide_True by done. apply list_lookup_insert_eq. by eapply lookup_lt_Some. }
        { rewrite decide_False by (by intros [_ ?]). by apply list_lookup_insert_ne. }
      * rewrite decide_False; [unfold ent; by rewrite copy_keep|]. intros [-> _]. congruence.
    + rewrite decide_False; [done|]. intros [-> _]. congruence.
Qed.

Lemma copy_space : is_space m' ({[n]} ∪ H) root.
Proof using TB SP Lp Np HT Hi He Hc Hn Hx.
  assert (∀ u, is_Some (m !! u) → is_Some (m' !! u)) as Hdom.
  { intros u Hu. unfold m', m1. destruct (decide (u = t)) as [->|]; [rewrite lookup_insert_eq; by eexists|].
    rewrite lookup_insert_ne by done. destruct (decide (u = n)) as [->|]; [rewrite lookup_insert_eq; by eexists|].
    by rewrite lookup_insert_ne. }
  assert (∀ q, length q ≤ 3 → node m root q ≠ Some n) as Hfr.
  { intros q Lq Nq. by apply (sp_held _ _ _ SP) in Nq as [? _]. }
  destruct (copy_other p t ltac:(lia) Np) as [Htn _]. split.
  - intros q u Lq. rewrite copy_node by done. case_decide.
    + intros [= <-]. split; [by apply elem_of_union_l, elem_of_singleton|].
      unfold m', m1. rewrite lookup_insert_ne, lookup_insert_eq by done. by eexists.
    + intros Nq. apply (sp_held _ _ _ SP) in Nq as [? ?]; [|done]. split; [by apply elem_of_union_r|by apply Hdom].
  - intros q r u Lq Lr. rewrite !copy_node by done. repeat case_decide; intros N1 N2; simplify_eq; try done.
    + by apply Hfr in N2.
    + by apply Hfr in N1.
    + by eapply (sp_tree _ _ _ SP).
  - intros j f Hf. assert (entry m' root [] j = Some f) as Hf' by done. rewrite copy_entry in Hf' by (simpl; lia).
    case_decide as Hd; [|by apply (sp_top _ _ _ SP j)]. injection Hf' as <-. rewrite down_eq in Hx.
    by destruct (has x PRESENT), (has x HUGE).
Qed.

Lemma copy_maps v : maps m' root v = maps m root v.
Proof using TB SP Lp Np HT Hi He Hc Hn Hx.
  apply (maps_inner_ext m H root TB SP m' p i x v Lp); [rewrite copy_old; by eexists|]. intros q j. apply copy_entry.
Qed.
End copy.

Section domain.
Context {F : Type} {FS : FrameSource F}.
Implicit Types s : Mach F.
Variable HHDM_OFFSET : Z.
Hypothesis HHDM_room : (0 <= HHDM_OFFSET <= 2 ^ 64 - 2 ^ 44)%Z.

(** [r] maps in [s] what [root] maps in [s0], on frames of its own above [H0]. *)
Record domain (s0 s : Mach F) (H0 H : gset Z) (root r : Z) (k : nat) : Prop := {
  d_okay : okay s H k;
  d_grow : H0 ⊆ H;
  d_space : is_space (mem s) H r;
  d_maps v : maps (mem s) r v = maps (mem s0) root v;
  d_keep t : t ∈ H0 → mem s !! t = mem s0 !! t;
  d_cr3 : cr3 s = cr3 s0;
  d_kernel : KERNEL_PML4 s = KERNEL_PML4 s0;
  d_flushed : flushed s = flushed s0
}.

Lemma clone_root s H k root : okay s H (S k) → is_space (mem s) H root →
  ∃ r s1, clone_table HHDM_OFFSET root s = (Ok r, s1) ∧ (r ∉ H) ∧ domain s s1 H ({[r]} ∪ H) root r k ∧
    (∀ q j, length q ≤ 3 → entry (mem s1) r q j = entry (mem s) root q j).
Proof using HHDM_room.
  intros Hok SP. destruct (sp_held _ _ _ SP [] root) as [Hroot [T HT]]; [simpl; lia|done|].
  destruct (clone_table_eq HHDM_OFFSET HHDM_room s H k root T Hok Hroot HT) as (r & f & Hc & Hr & Hf & Hok1).
  exists r, (upd s (<[r:=T]> (mem s)) f). split; [done|]. split; [done|]. set (m1 := <[r:=T]> (mem s)) in *.
  assert (∀ q u, length q ≤ 3 → node (mem s) root q = Some u → m1 !! u = mem s !! u) as Hk.
  { intros q u Lq Nq. apply (sp_held _ _ _ SP) in Nq as [Hu _]; [|done]. unfold m1. rewrite lookup_insert_ne; [done|].
    intros ->. done. }
  assert (∀ j, ent m1 r j = ent (mem s) root j) as He by (intros j; unfold m1; rewrite ent_insert; unfold ent; by rewrite HT).
  assert (∀ q, q ≠ [] → length q ≤ 4 → node m1 r q = node (mem s) root q) as HN.
  { intros [|j q] Hq Lq; [done|]. cbn [node]. rewrite He. destruct (ent (mem s) root j ≫= down) as [u|] eqn:Hu; [|done]. simpl.
    simpl in Lq. apply node_agree. intros r1 w L1 Nw. apply (Hk (j :: r1)); [simpl; lia|]. cbn [node]. by rewrite Hu. }
  assert (∀ q j, length q ≤ 3 → entry m1 r q j = entry (mem s) root q j) as HE.
  { intros q j Lq. destruct (decide (q = [])) as [->|Hq]; [apply He|]. unfold entry. rewrite HN by (done || lia).
    destruct (node (mem s) root q) as [u|] eqn:Nq; [|done]. simpl. unfold ent. by rewrite (Hk q u). }
  split; [|done]. split; cbn [upd mem cr3 KERNEL_PML4 flushed]; try done.
  - apply union_subseteq_r.
  - assert (∀ q, length q ≤ 3 → node (mem s) root q ≠ Some r) as Hfr.
    { intros q Lq Nq. by apply (sp_held _ _ _ SP) in Nq as [? _]. }
    split.
    + intros q u Lq Nq. destruct (decide (q = [])) as [->|Hq].
      { injection Nq as <-. split; [by apply elem_of_union_l, elem_of_singleton|]. unfold m1. rewrite lookup_insert_eq. by eexists. }
      rewrite HN in Nq by (done || lia). rewrite (Hk q u) by done.
      apply (sp_held _ _ _ SP) in Nq as [? ?]; [|done]. split; [by apply elem_of_union_r|done].
    + intros p q u Lp Lq Np Nq. destruct (decide (p = [])) as [->|Hp], (decide (q = [])) as [->|Hq]; try done.
      * injection Np as <-. rewrite HN in Nq by (done || lia). by apply Hfr in Nq.
      * injection Nq as <-. rewrite HN in Np by (done || lia). by apply Hfr in Np.
      * rewrite HN in Np, Nq by (done || lia). by eapply (sp_tree _ _ _ SP).
    + intros j e. rewrite He. apply (sp_top _ _ _ SP).
  - intros v. unfold maps, leaf_of. by rewrite !HE by (simpl; lia).
  - intros t Ht. unfold m1. rewrite lookup_insert_ne; [done|]. intros ->. done.
Qed.

Lemma clone_step s0 s H0 H root r k p t i e c (mk : Z → Z) : domain s0 s H0 H root r (S k) → length p ≤ 2 →
  node (mem s) r p = Some t → (t ∉ H0) → i < 512 → entry (mem s) r p i = Some e → down e = Some c →
  (∀ n, frame_ok n → down (mk n) = Some n) →
  ∃ n s', (∀ X (K : Z → M (Mach F) Empty_set X),
      (x ← clone_table HHDM_OFFSET c; write_entry HHDM_OFFSET t i (mk x);; K x) s = K n s') ∧
    domain s0 s' H0 ({[n]} ∪ H) root r k ∧ (n ∉ H0) ∧ node (mem s') r (p ++ [i]) = Some n ∧
    (∀ q j, length q ≤ 3 → entry (mem s') r q j = if decide (q = p ∧ j = i) then Some (mk n) else entry (mem s) r q j).
Proof using HHDM_room.
  intros [Hok HG SP M Hk C3 K Fl] Lp Np Ht Hi He Hd Hmk.
  destruct (entry_table (mem s) H r p t i e SP) as (T & HT & HTi); [lia|done|done|].
  assert (node (mem s) r (p ++ [i]) = Some c) as Nc by (rewrite node_snoc, He; done).
  destruct (sp_held _ _ _ SP (p ++ [i]) c) as [Hc [Tc HTc]]; [rewrite length_app; simpl; lia|done|].
  destruct (clone_table_eq HHDM_OFFSET HHDM_room s H k c Tc Hok Hc HTc) as (n & f & Hrun & Hn & Hf & Hok1).
  set (s1 := upd _ _ _) in *. pose proof (ok_tabs _ _ _ Hok) as TB.
  assert (t ≠ n) as Hne.
  { intros ->. apply Hn. apply (sp_held _ _ _ SP) in Np as [? _]; [done|lia]. }
  assert (mem s1 !! t = Some T) as HT1 by (cbn [s1 upd mem]; by rewrite lookup_insert_ne).
  pose proof (write_eq HHDM_OFFSET HHDM_room s1 t T i (mk n) (ok_tabs _ _ _ Hok1) HT1 Hi) as Hw.
  exists n. eexists. split; [intros X K0; rewrite (bind_run _ _ _ _ _ Hrun), (bind_run _ _ _ _ _ Hw); reflexivity|].
  cbn [s1 upd mem]. pose proof (Hmk n Hf) as Hx. split; [split; cbn [upd mem cr3 KERNEL_PML4 flushed]; try done|].
  - destruct Hok1 as [O1 O2 O3]. split; [done|done|]. cbn [upd mem]. by apply tabs_write.
  - etrans; [exact HG|apply union_subseteq_r].
  - by apply (copy_space (mem s) H r t n c e (mk n) T Tc p i).
  - intros v. rewrite <- M. by apply (copy_maps (mem s) H r t n c e (mk n) T Tc p i).
  - intros u Hu. rewrite !lookup_insert_ne; [by apply Hk| |].
    + intros ->. by apply Hn, HG.
    + intros ->. done.
  - split; [intros Hin; by apply Hn, HG|]. split.
    + rewrite (copy_node (mem s) H r t n c e (mk n) T Tc p i) by (done || (rewrite length_app; simpl; lia)). by rewrite decide_True.
    + intros q j Lq. by apply (copy_entry (mem s) H r t n c e (mk n) T Tc p i).
Qed.

(** The last table: split from a 2 MiB page, or copied. *)
Lemma last_step s0 s H0 H root r k v pd e2 (X : Type) (K : Z → M (Mach F) Empty_set X) : domain s0 s H0 H root r (S k) →
  node (mem s) r [idx v 3; idx v 2] = Some pd → (pd ∉ H0) → entry (mem s) r [idx v 3; idx v 2] (idx v 1) = Some e2 →
  has e2 PRESENT = true →
  ∃ n s', (x ← (if has e2 HUGE then split_huge HHDM_OFFSET e2 else clone_table HHDM_OFFSET (Z.land e2 ADDR_MASK));
      write_entry HHDM_OFFSET pd (idx v 1) (Z.lor (Z.lor x PRESENT) WRITABLE);; K x) s = K n s' ∧
    domain s0 s' H0 ({[n]} ∪ H) root r k ∧ (n ∉ H0) ∧ node (mem s') r (page v).1 = Some n.
Proof using HHDM_room.
  intros D Np Ht He P2. set (mk := λ x, Z.lor (Z.lor x PRESENT) WRITABLE).
  assert (∀ n, frame_ok n → down (mk n) = Some n) as Hmk by (intros n Hn; unfold mk; rewrite <- Z.lor_assoc; by apply down_link).
  destruct (has e2 HUGE) eqn:H2; last first.
  { destruct (clone_step s0 s H0 H root r k [idx v 3; idx v 2] pd (idx v 1) e2 (Z.land e2 ADDR_MASK) mk D)
      as (n & s' & R & D' & Hn & N' & _); [simpl; lia|done|done|apply idx_lt|done|by apply down_Some|done|].
    exists n, s'. split; [apply R|done]. }
  destruct D as [Hok HG SP M Hk C3 Kp Fl]. pose proof (ok_tabs _ _ _ Hok) as TB.
  destruct (entry_table (mem s) H r [idx v 3; idx v 2] pd (idx v 1) e2 SP) as (T & HT & HTi); [simpl; lia|done|done|].
  destruct (split_huge_eq HHDM_OFFSET HHDM_room s H k e2 Hok) as (n & f & Hs & Hn & Hf & Hok1). set (s1 := upd s _ f) in *.
  assert (pd ≠ n) as Hne.
  { intros ->. apply (sp_held _ _ _ SP) in Np as [? _]; [done|simpl; lia]. }
  assert (mem s1 !! pd = Some T) as HT1 by (cbn [s1 upd mem]; by rewrite lookup_insert_ne).
  pose proof (write_eq HHDM_OFFSET HHDM_room s1 pd T (idx v 1) (mk n) (ok_tabs _ _ _ Hok1) HT1 (idx_lt v 1)) as Hw.
  destruct (maps_split (mem s) H r v pd T e2 n (mk n) TB SP Np HT HTi P2 H2 Hn Hf (Hmk n Hf)) as (SP' & N' & _ & _ & M').
  exists n. eexists. split; [rewrite (bind_run _ _ _ _ _ Hs), (bind_run _ _ _ _ _ Hw); reflexivity|].
  cbn [s1 upd mem]. split; [split; cbn [upd mem cr3 KERNEL_PML4 flushed]; try done|split; [intros Hin; by apply Hn, HG|done]].
  - destruct Hok1 as [O1 O2 O3]. split; [done|done|]. cbn [upd mem]. by apply tabs_write.
  - etrans; [exact HG|apply union_subseteq_r].
  - intros v'. by rewrite M', M.
  - intros u Hu. rewrite !lookup_insert_ne; [by apply Hk| |].
    + intros ->. by apply Hn, HG.
    + intros ->. done.
Qed.

(** Taking the page out. *)
Lemma unmap_step s0 s H0 H root r k v pt : domain s0 s H0 H root r k → node (mem s) r (page v).1 = Some pt → (pt ∉ H0) →
  ∃ s', write_entry HHDM_OFFSET pt (idx v 0) 0 s = (Ok (), s') ∧ okay s' H k ∧ is_space (mem s') H r ∧
    (∀ v', maps (mem s') r v' = if decide (page v' = page v) then None else maps (mem s0) root v') ∧
    (∀ t, t ∈ H0 → mem s' !! t = mem s0 !! t) ∧ cr3 s' = cr3 s0 ∧ KERNEL_PML4 s' = KERNEL_PML4 s0 ∧ flushed s' = flushed s0.
Proof using HHDM_room.
  intros [Hok HG SP M Hk C3 Kp Fl] N Hn. pose proof (ok_tabs _ _ _ Hok) as TB.
  destruct (sp_held _ _ _ SP (page v).1 pt) as [_ [T HT]]; [simpl; lia|done|]. destruct (TB pt T HT) as [_ HL].
  assert (length (page v).1 ≤ 3) as L3 by (simpl; lia).
  assert (idx v 0 < length T) as Hi by (rewrite HL; apply idx_lt).
  eexists. split; [apply (write_eq HHDM_OFFSET HHDM_room s pt T (idx v 0) 0 TB HT (idx_lt v 0))|].
  cbn [upd mem cr3 KERNEL_PML4 flushed]. split_and!; try done.
  - destruct Hok as [O1 O2 O3]. split; [done|done|]. cbn [upd mem]. by apply tabs_write.
  - apply (space_write_same (mem s) H r pt T (page v).1 (idx v 0) 0 SP L3 N HT Hi); [done|by left].
  - intros v'. rewrite <- M. apply (maps_leaf _ _ _ TB SP v pt T 0 v' N HT HL).
  - intros t Ht. rewrite lookup_insert_ne; [by apply Hk|]. intros ->. done.
Qed.

Lemma domain_spec s H k vaddr pd : okay s H (4 + k) → is_space (mem s) H (cr3 s) → covered (mem s) (cr3 s) vaddr pd →
  ∃ r s' H', build_domain_excluding HHDM_OFFSET vaddr s = (Ok r, s') ∧ (r ∉ H) ∧ H ⊆ H' ∧ okay s' H' k ∧ is_space (mem s') H' r ∧
    (∀ v, maps (mem s') r v = if decide (page v = page vaddr) then None else maps (mem s) (cr3 s) v) ∧
    (∀ t, t ∈ H → mem s' !! t = mem s !! t) ∧ cr3 s' = cr3 s ∧ KERNEL_PML4 s' = KERNEL_PML4 s ∧ flushed s' = flushed s.
Proof using HHDM_room.
  intros Hok SP Hc. unfold build_domain_excluding. cbv zeta. set (v := Z.ldiff vaddr 0xfff).
  apply covered_align in Hc. fold v in Hc. assert (page v = page vaddr) as Hpg by apply page_align.
  destruct (covered_path _ _ _ _ Hc) as (e4 & pdpt & e3 & E4 & L4 & N3 & E3 & L3). destruct Hc as [N2 (e2 & E2 & P2)].
  rewrite (root_run _ _ (4 + k)) by done.
  destruct (clone_root s H (3 + k) (cr3 s) Hok SP) as (r & s1 & R1 & Hr & D1 & En1). rewrite (bind_run _ _ _ _ _ R1).
  assert (∀ s1 H1 k1 t i e, domain s s1 H H1 (cr3 s) r k1 → t ∈ H → ent (mem s) t i = Some e → ent (mem s1) t i = Some e) as Hkeep.
  { intros s1' H1 k1 t i e D Ht He. unfold ent. by rewrite (d_keep _ _ _ _ _ _ _ D t Ht). }
  assert (∀ p t, length p ≤ 3 → node (mem s) (cr3 s) p = Some t → t ∈ H) as Hin.
  { intros p t Lp Np. by apply (sp_held _ _ _ SP) in Np as [? _]. }
  pose proof (proj1 (down_Some _ _) L4) as (P4 & G4 & A4). pose proof (proj1 (down_Some _ _) L3) as (P3 & G3 & A3).
  rewrite (read_run HHDM_OFFSET HHDM_room _ _ _ (cr3 s) _ e4 _ (d_okay _ _ _ _ _ _ _ D1)) by (eapply Hkeep; [exact D1|apply (Hin []); [simpl; lia|done]|exact E4]).
  rewrite assert_run by done.
  destruct (clone_step s s1 H _ (cr3 s) r (2 + k) [] r (idx v 3) e4 pdpt (λ x, Z.lor x (Z.ldiff e4 ADDR_MASK)) D1)
    as (n3 & s2 & R2 & D2 & F3 & M3 & En2); [simpl; lia|done|done|apply idx_lt|rewrite En1 by (simpl; lia); done|done| |].
  { intros n Hn. apply down_copy; [done|by eexists]. }
  rewrite <- A4, R2. clear R2. cbn [app] in M3.
  rewrite (read_run HHDM_OFFSET HHDM_room _ _ _ pdpt _ e3 _ (d_okay _ _ _ _ _ _ _ D2)) by (eapply Hkeep; [exact D2|apply (Hin [idx v 3]); [simpl; lia|done]|exact E3]).
  rewrite P3, G3. rewrite assert_run by done.
  destruct (clone_step s s2 H _ (cr3 s) r (1 + k) [idx v 3] n3 (idx v 2) e3 pd (λ x, Z.lor x (Z.ldiff e3 ADDR_MASK)) D2)
    as (n2 & s3 & R3 & D3 & F2 & M2 & En3); [simpl; lia|done|done|apply idx_lt| |done| |].
  { rewrite En2, decide_False by (simpl; (lia || by intros [? _])). rewrite En1 by (simpl; lia). unfold entry. by rewrite N3. }
  { intros n Hn. apply down_copy; [done|by eexists]. }
  rewrite <- A3, R3. clear R3. cbn [app] in M2.
  rewrite (read_run HHDM_OFFSET HHDM_room _ _ _ pd _ e2 _ (d_okay _ _ _ _ _ _ _ D3)) by (eapply Hkeep; [exact D3|apply (Hin [idx v 3; idx v 2]); [simpl; lia|done]|exact E2]).
  rewrite P2. rewrite assert_run by done.
  destruct (last_step s s3 H _ (cr3 s) r k v n2 e2 Z (λ new_pt, write_entry HHDM_OFFSET new_pt (idx v 0) 0;; mret r) D3 M2 F2)
    as (n1 & s4 & R4 & D4 & F1 & M1); [|done|].
  { rewrite En3, decide_False by (simpl; (lia || by intros [? _])). rewrite En2, decide_False by (simpl; (lia || by intros [? _])).
    rewrite En1 by (simpl; lia). unfold entry. by rewrite N2. }
  rewrite R4. clear R4.
  destruct (unmap_step s s4 H _ (cr3 s) r k v n1 D4 M1 F1) as (s5 & R5 & O5 & SP5 & Mp5 & K5 & C5 & Kp5 & Fl5).
  rewrite (bind_run _ _ _ _ _ R5). exists r, s5. eexists. split; [reflexivity|]. split; [done|].
  split; [apply (d_grow _ _ _ _ _ _ _ D4)|]. rewrite <- Hpg. done.
Qed.
End domain.
