(* ===== verification/PagingTheorems.v ===== *)
(** * Page tables and process isolation: theorems *)

From stdpp Require Import sets relations.
From S2P Require Import Prelude Arch Buddy BuddyInv BuddyProps MemInit MemInitProps Frames.
From S2P Require Import Paging PagingInv PagingOps PagingClone PagingWorld PagingBuild PagingBoot PagingHistory PagingDomain.

#[local] Opaque idx.

(** What [translate] and [page_prot] answer where the tables map [x]. *)
Definition answers (x : option (Z * (bool * bool))) : res Empty_set (option Z) * res Empty_set (option (bool * bool)) :=
  (Ok (fst <$> x), Ok (snd <$> x)).

(** A process has its pages and, elsewhere, what the kernel maps. *)
Definition proc_view (km : KernelMap) (P : pages) (v : Z) : option (Z * (bool * bool)) :=
  match P !! page v with
  | Some (f, p) => Some ((f + v mod 4096)%Z, (writable p, executable p))
  | None => boot_view km v
  end.

Section theorems.
Context {F : Type} {FS : FrameSource F}.
Variable HHDM_OFFSET : Z.
Hypothesis HHDM_room : (0 <= HHDM_OFFSET <= 2 ^ 64 - 2 ^ 44)%Z.
Implicit Types s : Mach F.

(** ** The kernel's own tables *)

Lemma sees_maps s H r v : tabs (mem s) → is_space (mem s) H r → sees HHDM_OFFSET s r v = answers (fst <$> maps (mem s) r v).
Proof using HHDM_room. intros TB SP. rewrite (sees_eq HHDM_OFFSET HHDM_room s H) by done. unfold answers. by destruct (maps _ _ _). Qed.

(** C17: [build_address_space] succeeds with enough frames, and [translate] and
    [page_prot] over the tables it builds answer, at every canonical address, the
    kernel image at its physical place with the protection of the section, the
    direct map and the identity map as writable data, and nothing anywhere else;
    no page at all is both writable and executable. *)
Theorem boot_mapping km s H :
  held (fr s) H → tabs (mem s) → (Z.of_nat (6 + 2 * gibs km) <= fs_count (fr s))%Z → map_ok km →
  ∃ r s', build_address_space HHDM_OFFSET km s = (Ok (mkSpace r 0), s') ∧ kernel_space s' = mkSpace r 0 ∧
    (∀ v, canonical v → sees HHDM_OFFSET s' r v = answers (boot_view km v)) ∧
    (∀ v, (sees HHDM_OFFSET s' r v).2 ≠ Ok (Some (true, true))).
Proof using HHDM_room.
  intros Hh Hm Hs M.
  destruct (build_world HHDM_OFFSET HHDM_room s H 0 km) as (r & s' & B & R & Hok & _ & K & _ & _ & MP & W); [|done|].
  { rewrite Nat.add_0_r. by apply okay_count. }
  pose proof (w_kernel _ _ _ _ W) as SP. rewrite K in SP. pose proof (ok_tabs _ _ _ Hok) as TB.
  exists r, s'. split; [done|]. split; [unfold kernel_space; by rewrite K|]. split; intros v.
  - intros Hv. rewrite (sees_maps s' B) by done. rewrite MP, boot_range by done. by destruct (boot_view km v).
  - rewrite (sees_maps s' B) by done. rewrite MP. destruct (boot_maps km v) as [x|] eqn:E; [|done]. destruct M as [Mi _ _ _ _ _ _ Ml].
    apply boot_maps_flags in E as [_ E]; [|done|lia]. simpl. congruence.
Qed.

(** ** One page *)

(** [map_page] on a covered address of the active space succeeds with one frame
    to spare: the whole page maps to [phys] with exactly [prot], every other
    address answers as before, and the page is flushed. *)
Theorem map_page_exact s H vaddr phys prot pd :
  okay s H 1 → is_space (mem s) H (cr3 s) → covered (mem s) (cr3 s) vaddr pd → (0 <= phys < 2 ^ 52)%Z → (phys mod 4096 = 0)%Z →
  ∃ s', map_page HHDM_OFFSET vaddr phys prot s = (Ok (), s') ∧ cr3 s' = cr3 s ∧ flushed s' = flushed s ++ [Z.ldiff vaddr 0xfff] ∧
    ∀ v, sees HHDM_OFFSET s' (cr3 s) v =
      if decide (page v = page vaddr) then answers (Some ((phys + v mod 4096)%Z, (writable prot, executable prot)))
      else sees HHDM_OFFSET s (cr3 s) v.
Proof using HHDM_room.
  intros Hok SP Hc H1 H2.
  destruct (map_page_edited HHDM_OFFSET HHDM_room s H 0 vaddr phys prot pd Hok SP Hc)
    as (pt & s' & R & _ & Ed & Fl & SP' & _ & M & _).
  exists s'. split; [done|]. split; [apply (ed_cr3 _ _ _ _ _ _ Ed)|]. split; [done|]. intros v.
  rewrite (sees_maps s' ({[pt]} ∪ H)) by (done || apply (ed_okay _ _ _ _ _ _ Ed)). rewrite M, page_align.
  destruct (leaf_meaning phys prot v H1 H2) as [Hp Hm]. rewrite Hp, Hm. case_decide; [done|].
  by rewrite (sees_maps s H) by (done || apply Hok).
Qed.

(** [install_guard_page] leaves exactly one page without a mapping: every
    address of it faults, every other address answers as before, and the page is
    flushed. *)
Theorem guard_page_exact s H vaddr pd :
  okay s H 1 → is_space (mem s) H (cr3 s) → covered (mem s) (cr3 s) vaddr pd →
  ∃ s', install_guard_page HHDM_OFFSET vaddr s = (Ok (), s') ∧ cr3 s' = cr3 s ∧ flushed s' = flushed s ++ [Z.ldiff vaddr 0xfff] ∧
    ∀ v, sees HHDM_OFFSET s' (cr3 s) v =
      if decide (page v = page vaddr) then answers None else sees HHDM_OFFSET s (cr3 s) v.
Proof using HHDM_room.
  intros Hok SP Hc.
  destruct (install_guard_edited HHDM_OFFSET HHDM_room s H 0 vaddr pd Hok SP Hc)
    as (pt & s' & R & _ & Ed & Fl & SP' & _ & M & _).
  exists s'. split; [done|]. split; [apply (ed_cr3 _ _ _ _ _ _ Ed)|]. split; [done|]. intros v.
  rewrite (sees_maps s' ({[pt]} ∪ H)) by (done || apply (ed_okay _ _ _ _ _ _ Ed)). rewrite M, page_align.
  case_decide; [done|]. by rewrite (sees_maps s H) by (done || apply Hok).
Qed.

(** [build_domain_excluding] answers a fresh root over which the victim's page is
    not mapped and every other address answers as over the active tables; the
    active tables are left as they were. *)
Theorem domain_excludes s H vaddr pd :
  okay s H 4 → is_space (mem s) H (cr3 s) → covered (mem s) (cr3 s) vaddr pd →
  ∃ r s', build_domain_excluding HHDM_OFFSET vaddr s = (Ok r, s') ∧ (r ∉ H) ∧ cr3 s' = cr3 s ∧
    (∀ v, sees HHDM_OFFSET s' r v = if decide (page v = page vaddr) then answers None else sees HHDM_OFFSET s (cr3 s) v) ∧
    (∀ v, sees HHDM_OFFSET s' (cr3 s) v = sees HHDM_OFFSET s (cr3 s) v).
Proof using HHDM_room.
  intros Hok SP Hc. destruct (domain_spec HHDM_OFFSET HHDM_room s H 0 vaddr pd Hok SP Hc)
    as (r & s' & H' & R & Hr & HH & Hok' & SP' & M & K & C & _).
  exists r, s'. split; [done|]. split; [done|]. split; [done|]. split; intros v.
  - rewrite (sees_maps s' H'), (sees_maps s H) by (done || apply Hok || apply Hok'). rewrite M. by case_decide.
  - assert (keeps (mem s) (mem s') (cr3 s)) as Kp.
    { intros p t Lp Np. apply K. by apply (sp_held _ _ _ SP) in Np as [? _]. }
    rewrite (sees_maps s' H), (sees_maps s H) by (done || apply Hok || apply Hok' || by eapply keeps_space).
    by rewrite (keeps_maps (mem s) (mem s')).
Qed.

(** ** Histories of processes *)

Variable km : KernelMap.

(** C3: In every history of frames handed out, spaces created, switched to, mapped
    into and reaped after boot, the tables refine the abstract map of the pages
    each process was given: user mode of a process reaches exactly its own pages
    with their protections and nothing else, the kernel running in that space sees
    those pages and everywhere else its boot mapping, and the kernel's own space
    stays as built, without a user page. *)
Theorem spaces_refine_given s0 s H0 st :
  booted HHDM_OFFSET km s0 s H0 → rtc (step HHDM_OFFSET) (mkPstate s ∅ ∅) st →
  (∀ r P v, procs st !! r = Some P →
     user_view (mem (mach st)) r v = given P v ∧
     (canonical v → sees HHDM_OFFSET (mach st) r v = answers (proc_view km P v))) ∧
  (∀ v, user_view (mem (mach st)) (KERNEL_PML4 (mach st)) v = None ∧
     (canonical v → sees HHDM_OFFSET (mach st) (KERNEL_PML4 (mach st)) v = answers (boot_view km v))).
Proof using HHDM_room.
  intros Hb Hst. pose proof Hb as (_ & _ & M & _). destruct (boot_hinv HHDM_OFFSET km HHDM_room s0 s H0 Hb) as (B & _ & I).
  destruct (steps_hinv HHDM_OFFSET km HHDM_room B _ _ _ I Hst) as [H [W HK HF _ _ _ _ _ _]]. pose proof (ok_tabs _ _ _ (w_okay _ _ _ _ W)) as TB.
  split.
  - intros r P v HP. split; [by apply (w_view _ _ _ _ W)|]. intros Hv.
    rewrite (sees_maps _ H) by (done || (apply (w_space _ _ _ _ W); by exists P)). rewrite (HF r P v HP). unfold full_view, proc_view.
    destruct (P !! page v) as [[f p]|]; [done|]. rewrite boot_range by done. by destruct (boot_view km v).
  - intros v. split; [apply supervisor_view; apply (w_supervisor _ _ _ _ W)|]. intros Hv.
    rewrite (sees_maps _ H) by (done || apply (w_kernel _ _ _ _ W)). rewrite HK, boot_range by done. by destruct (boot_view km v).
Qed.

(** C23: In every such history no space, of the kernel or of a process, has a page
    that is both writable and executable. *)
Theorem wx_always s0 s H0 st r v :
  booted HHDM_OFFSET km s0 s H0 → rtc (step HHDM_OFFSET) (mkPstate s ∅ ∅) st → root (mach st) (procs st) r →
  (sees HHDM_OFFSET (mach st) r v).2 ≠ Ok (Some (true, true)).
Proof using HHDM_room.
  intros Hb Hst Hr. pose proof Hb as (_ & _ & [Mi _ _ _ _ _ _ Ml] & _). destruct (boot_hinv HHDM_OFFSET km HHDM_room s0 s H0 Hb) as (B & _ & I).
  destruct (steps_hinv HHDM_OFFSET km HHDM_room B _ _ _ I Hst) as [H [W HK HF _ _ _ _ _ _]].
  rewrite (sees_maps _ H) by (apply (w_okay _ _ _ _ W) || by eapply world_space).
  assert (∀ x, boot_maps km v = Some x → x.1.2 ≠ (true, true)) as Hboot.
  { intros x Hx. by apply boot_maps_flags in Hx as [_ ?]; [|done|lia]. }
  assert (∀ x, maps (mem (mach st)) r v = Some x → x.1.2 ≠ (true, true)) as Hx.
  { destruct Hr as [->|[P HP]]; [rewrite HK; exact Hboot|]. rewrite (HF r P v HP). unfold full_view.
    destruct (P !! page v) as [[f p]|]; [|exact Hboot]. intros x [= <-]. by destruct p. }
  unfold answers. simpl. destruct (maps (mem (mach st)) r v) as [x|]; [|done]. specialize (Hx x eq_refl). simpl. congruence.
Qed.

(** In every such history creating a space and mapping a page into the active
    process succeed whenever memory is left for their tables (515 and one frame):
    no assertion of the walk fails and no table is missing. *)
Theorem calls_never_panic s0 s H0 st :
  booted HHDM_OFFSET km s0 s H0 → rtc (step HHDM_OFFSET) (mkPstate s ∅ ∅) st →
  ((515 <= fs_count (fr (mach st)))%Z → ∃ r s', new_process_space HHDM_OFFSET (mach st) = (Ok (mkSpace r 0), s') ∧
     procs st !! r = None ∧ r ≠ KERNEL_PML4 (mach st)) ∧
  (∀ vaddr phys prot domain, is_Some (procs st !! cr3 (mach st)) → (1 <= fs_count (fr (mach st)))%Z → window vaddr →
     (0 <= phys < 2 ^ 52)%Z → (phys mod 4096 = 0)%Z →
     ∃ s', map_user_page HHDM_OFFSET vaddr phys prot domain (mach st) = (Ok (), s')).
Proof using HHDM_room.
  intros Hb Hst. destruct (boot_hinv HHDM_OFFSET km HHDM_room s0 s H0 Hb) as (B & _ & I).
  destruct (steps_hinv HHDM_OFFSET km HHDM_room B _ _ _ I Hst) as [H [W _ _ _ _ _ _ _ _]]. pose proof (w_okay _ _ _ _ W) as [Hh _ TB].
  assert (∀ r, root (mach st) (procs st) r → r ∈ H) as Hroot.
  { intros r Hr. by apply (sp_held _ _ _ (world_space _ _ _ _ _ W Hr) [] r); [simpl; lia|]. }
  split.
  - intros Hs. destruct (new_world _ HHDM_OFFSET HHDM_room _ H _ W) as (r & s1 & H' & R & Hn & _); [by apply okay_count|].
    exists r, s1. split; [done|]. split.
    + destruct (procs st !! r) as [P|] eqn:E; [|done]. exfalso. apply Hn, Hroot. right. by exists P.
    + intros ->. apply Hn, Hroot. by left.
  - intros vaddr phys prot domain [P HP] Hs Hv H1 H2.
    destruct (map_world _ HHDM_OFFSET HHDM_room (mach st) H (procs st) (cr3 (mach st)) P vaddr phys prot domain 0 W) as (s1 & H' & R & _); try done; [by apply okay_count|]. by exists s1.
Qed.

(** In every such history reaping a process that is not running, with leaves of
    its own, succeeds and gives back exactly those leaves and the tables of its
    window, none twice: it answers how many, the free-frame counter rises by that
    number, and every other space answers as before. *)
Theorem reap_exact s0 s H0 st r vas :
  booted HHDM_OFFSET km s0 s H0 → rtc (step HHDM_OFFSET) (mkPstate s ∅ ∅) st →
  is_Some (procs st !! r) → cr3 (mach st) ≠ r → NoDup (window_leaves (mem (mach st)) r vas) →
  (∀ t, t ∈ window_leaves (mem (mach st)) r vas → t ∈ loose (handed st)) → (Z.of_nat (length vas) + 515 < 2 ^ 32)%Z →
  ∃ L s', reap_process_space HHDM_OFFSET (mkSpace r 0) vas (mach st) = (Ok (Z.of_nat (length L)), s') ∧ NoDup L ∧
    (∀ t, t ∈ L ↔ t ∈ window_leaves (mem (mach st)) r vas ∨ ∃ q, own_path q ∧ node (mem (mach st)) r q = Some t) ∧
    fs_count (fr s') = (fs_count (fr (mach st)) + Z.of_nat (length L))%Z ∧
    (∀ r' v, r' ≠ r → root (mach st) (procs st) r' → sees HHDM_OFFSET s' r' v = sees HHDM_OFFSET (mach st) r' v).
Proof using HHDM_room.
  intros Hb Hst Hr Hc Hnd Hin Hlen. destruct (paging_history_inv HHDM_OFFSET km s0 s H0 st HHDM_room Hb Hst) as (N & B & H & _ & I).
  destruct st as [s1 U D]. cbn [mach procs handed] in *. pose proof (h_world _ _ _ _ I) as W. cbn [mach procs handed] in W.
  destruct (reap_run (FS := counted FS N) HHDM_OFFSET km HHDM_room B s1 U D r vas H I Hr Hnd Hin Hlen)
    as (L & s' & R & HLnd & HL & Hm & _ & _ & I').
  exists L, s'. rewrite (same_reap _ _ _ (counted_same FS N)) in R. do 3 (split; [done|]). split.
  - destruct (ok_held _ _ _ (w_okay _ _ _ _ W)) as [_ Hcount].
    destruct (ok_held _ _ _ (w_okay _ _ _ _ (h_world _ _ _ _ I'))) as [_ Hcount']. cbn [mach] in Hcount'.
    pose proof (size_minus_list H L HLnd) as Hsz.
    assert (∀ t, t ∈ L → t ∈ H) as HLH; [|specialize (Hsz HLH); lia].
    intros t [Ht|(q & Hq & Nq)]%HL; [apply (h_handed _ _ _ _ I); by apply Hin in Ht as [? _]%elem_of_difference|].
    apply (sp_held _ _ _ (w_space _ _ _ _ W r Hr)) in Nq as [? _]; [done|by apply own_path_len].
  - intros r' v Hne Hr'. pose proof (world_space _ _ _ _ _ W Hr') as SP. pose proof (ok_tabs _ _ _ (w_okay _ _ _ _ W)) as TB.
    rewrite (sees_maps s1 H), (sees_maps s' H) by (rewrite ?Hm; done). by rewrite Hm.
Qed.

(** C8: Frames are conserved: once every process of a history has been reaped, the
    free-frame counter is back to what it was after boot, less the frames handed
    out and not returned. *)
Theorem frames_conserved s0 s H0 st :
  booted HHDM_OFFSET km s0 s H0 → rtc (step HHDM_OFFSET) (mkPstate s ∅ ∅) st → procs st = ∅ →
  (fs_count (fr (mach st)) + Z.of_nat (size (handed st)) = fs_count (fr s))%Z.
Proof using HHDM_room.
  intros Hb Hst HU. destruct (paging_history_inv HHDM_OFFSET km s0 s H0 st HHDM_room Hb Hst) as (N & B & H & I0 & I).
  destruct (ok_held _ _ _ (w_okay _ _ _ _ (h_world _ _ _ _ I0))) as [_ C0].
  destruct (ok_held _ _ _ (w_okay _ _ _ _ (h_world _ _ _ _ I))) as [_ C1]. cbn [mach] in C0.
  assert (H = B ∪ handed st) as ->.
  { apply set_eq. intros t. split.
    - intros Ht. destruct (w_frames _ _ _ _ (h_world _ _ _ _ I) t Ht) as [|(r & q & Hr & _)]; [done|]. rewrite HU in Hr. by destruct Hr.
    - intros [Ht|Ht]%elem_of_union; [by apply (h_boot _ _ _ _ I)|by apply (h_handed _ _ _ _ I)]. }
  rewrite size_union in C1; [lia|]. intros t Ht Ht'. by apply (h_fresh _ _ _ _ I t).
Qed.
End theorems.

(** ** A small machine

    Memory from frame 16 on, 1024 frames, and the kernel where the loader
    places it. *)

Definition small_hhdm : Z := 0xffff800000000000.
Definition small_km : KernelMap :=
  let v := 0xffffffff80000000%Z in
  mkKernelMap small_hhdm (2 ^ 32) v (v + 0x5000) 0x100000 (v, v + 0x2000)%Z (v + 0x2000, v + 0x4000)%Z (v + 0x4000, v + 0x5000)%Z.
Definition small_fa : FrameAllocator :=
  match init_ranges small_hhdm [(16, 1040)%Z] with
  | Ok (fa, _) => fa
  | _ => mkFA (Buddy.new []) 0
  end.
Definition small_boot : Mach (option FrameAllocator) := mkMach ∅ (Some small_fa) 0 0 [].

Lemma small_room : (0 <= small_hhdm <= 2 ^ 64 - 2 ^ 44)%Z.
Proof. unfold small_hhdm. lia. Qed.

Lemma small_held : held (fr small_boot) ∅.
Proof.
  assert (init_ranges small_hhdm [(16, 1040)%Z] = Ok (small_fa, (16 * 4096, 12288)%Z)) as E
    by (vm_cast_no_check (@eq_refl (I (FrameAllocator * (Z * Z))) (init_ranges small_hhdm [(16, 1040)%Z]))).
  pose proof (init_ranges_spec small_hhdm [(16, 1040)%Z]) as H. rewrite E in H.
  destruct H as [I _ _ _]; [unfold small_hhdm; lia|repeat constructor; simpl; lia|].
  assert (base_pfn small_fa = 16%Z ∧ Buddy.nframes (buddy small_fa) = 1024) as [E1 E2] by (split; vm_compute; reflexivity).
  cbn [held frame_allocator_source fenced fa_held fr small_boot]. rewrite E1, E2. split; [lia|]. split; [lia|]. split; [intros Hk; exfalso; exact (Hk eq_refl)|].
  split; [apply empty_subseteq|]. exists []. split; [exact I|]. split; [intros x Hx; exfalso; exact (not_elem_of_nil x Hx)|]. intros pa Hpa. exfalso. exact (not_elem_of_empty pa Hpa).
Qed.

Lemma small_tabs : tabs (mem small_boot).
Proof. intros t T Ht. cbn [small_boot mem] in Ht. by rewrite lookup_empty in Ht. Qed.

Lemma small_map_ok : map_ok small_km.
Proof.
  split; [split| | | | | | |]; cbn [small_km kernel_vbase kernel_vend kernel_phys hhdm_offset]; unfold small_hhdm, canonical; try lia.
  all: vm_compute; (lia || done || congruence).
Qed.

(** The state after boot is kept evaluated, so that what is said of it and of the
    states after it does not boot the machine again. *)
Definition small_s : Mach (option FrameAllocator) := Eval vm_compute in
  match build_address_space small_hhdm small_km small_boot with
  | (Ok sp, s1) => (activate_address_space sp s1).2
  | (_, s1) => s1
  end.

(** One process: a frame, a space, the page mapped in it, the kernel's space again,
    and the process reaped. *)
Definition small_pa : Z := 135168.
Definition small_root : Z := 139264.
Definition small_va : Z := 2 ^ 30 + 0x5000.
Definition small_pages : pages := <[page small_va:=(small_pa, Rw)]> ∅.
Definition after_frame := (alloc_zeroed_frame small_hhdm small_s).2.
Definition after_new := (new_process_space small_hhdm after_frame).2.
Definition in_process := (activate_address_space (mkSpace small_root 0) after_new).2.
Definition after_map := (map_user_page small_hhdm small_va small_pa Rw 0 in_process).2.
Definition in_kernel := (activate_address_space (mkSpace (KERNEL_PML4 after_map) 0) after_map).2.
Definition after_reap := (reap_process_space small_hhdm (mkSpace small_root 0) [small_va] in_kernel).2.

Lemma ran {S A} (m : M S Empty_set A) s a : (m s).1 = Ok a → m s = (Ok a, (m s).2).
Proof. intros <-. by destruct (m s). Qed.

(** [m s = x] for a run that computes to the evaluated [x]. *)
Ltac evaluated := lazymatch goal with |- _ = ?x => vm_cast_no_check (@eq_refl _ x) end.

Lemma small_booted : booted small_hhdm small_km small_boot small_s ∅.
Proof.
  split; [exact small_held|]. split; [exact small_tabs|]. split; [exact small_map_ok|]. split; [by vm_compute|].
  exists (mkSpace 77824 0). eexists. split; [apply ran; vm_compute; reflexivity|evaluated].
Qed.

Lemma small_start : step small_hhdm (mkPstate small_s ∅ ∅) (mkPstate after_frame ∅ ({[small_pa]} ∪ ∅)).
Proof. apply step_frame. unfold after_frame. apply ran. vm_compute. reflexivity. Qed.

Lemma small_create : step small_hhdm (mkPstate after_frame ∅ ({[small_pa]} ∪ ∅)) (mkPstate after_new (<[small_root:=∅]> ∅) ({[small_pa]} ∪ ∅)).
Proof.
  apply (step_new _ _ _ _ (mkSpace small_root 0)); [by vm_compute|]. unfold after_new. apply ran. vm_compute. reflexivity.
Qed.

Lemma small_enter : step small_hhdm (mkPstate after_new (<[small_root:=∅]> ∅) ({[small_pa]} ∪ ∅)) (mkPstate in_process (<[small_root:=∅]> ∅) ({[small_pa]} ∪ ∅)).
Proof.
  apply (step_switch _ _ _ _ small_root); [|reflexivity]. right. exists ∅. apply lookup_insert_eq.
Qed.

Lemma small_map_page : step small_hhdm (mkPstate in_process (<[small_root:=∅]> ∅) ({[small_pa]} ∪ ∅))
  (mkPstate after_map (<[small_root:=small_pages]> (<[small_root:=∅]> ∅)) ({[small_pa]} ∪ ∅)).
Proof.
  apply (step_map _ in_process _ _ ∅ small_va small_pa Rw 0 after_map).
  - apply lookup_insert_eq.
  - unfold window, small_va. lia.
  - unfold small_pa. lia.
  - reflexivity.
  - by vm_compute.
  - unfold after_map. apply ran. vm_compute. reflexivity.
Qed.

Lemma small_leave : step small_hhdm
  (mkPstate after_map (<[small_root:=small_pages]> (<[small_root:=∅]> ∅)) ({[small_pa]} ∪ ∅))
  (mkPstate in_kernel (<[small_root:=small_pages]> (<[small_root:=∅]> ∅)) ({[small_pa]} ∪ ∅)).
Proof. apply (step_switch _ _ _ _ (KERNEL_PML4 after_map)); [|reflexivity]. by left. Qed.

Lemma small_leaves : window_leaves (mem in_kernel) small_root [small_va] = [small_pa].
Proof. vm_compute. reflexivity. Qed.

Lemma small_loose : small_pa ∈ ({[small_pa]} ∪ ∅ : gset Z) ∖ fs_kept.
Proof.
  apply elem_of_difference. split; [apply elem_of_union_l, elem_of_singleton; reflexivity|]. apply not_elem_of_empty.
Qed.

Lemma small_reaped : step small_hhdm
  (mkPstate in_kernel (<[small_root:=small_pages]> (<[small_root:=∅]> ∅)) ({[small_pa]} ∪ ∅))
  (mkPstate after_reap (delete small_root (<[small_root:=small_pages]> (<[small_root:=∅]> ∅)))
     (({[small_pa]} ∪ ∅) ∖ list_to_set (window_leaves (mem in_kernel) small_root [small_va]))).
Proof.
  apply (step_reap _ in_kernel _ _ small_root [small_va] 5 after_reap).
  - exists small_pages. apply lookup_insert_eq.
  - vm_compute. congruence.
  - rewrite small_leaves. apply NoDup_singleton.
  - rewrite small_leaves. intros t ->%list_elem_of_singleton. exact small_loose.
  - reflexivity.
  - unfold after_reap. apply ran. vm_compute. reflexivity.
Qed.

#[local] Opaque small_s after_frame after_new in_process after_map in_kernel after_reap.

Lemma small_history : rtc (step small_hhdm) (mkPstate small_s ∅ ∅)
  (mkPstate after_map (<[small_root:=small_pages]> (<[small_root:=∅]> ∅)) ({[small_pa]} ∪ ∅)).
Proof.
  eapply rtc_l; [exact small_start|]. eapply rtc_l; [exact small_create|]. eapply rtc_l; [exact small_enter|].
  eapply rtc_l; [exact small_map_page|]. apply rtc_refl.
Qed.

Lemma boot_mapping_witness : ∃ r s', build_address_space small_hhdm small_km small_boot = (Ok (mkSpace r 0), s') ∧
  sees small_hhdm s' r 0xffffffff80001234 = answers (Some (0x101234, (false, true))%Z) ∧
  sees small_hhdm s' r 0xffffffff80004000 = answers (Some (0x104000, (true, false))%Z) ∧
  sees small_hhdm s' r 0xffffffff80005000 = answers None.
Proof.
  destruct (boot_mapping small_hhdm small_room small_km small_boot ∅) as (r & s' & R & _ & S & _);
    [exact small_held|exact small_tabs|by vm_compute|exact small_map_ok|].
  exists r, s'. split; [exact R|]. rewrite !S by (right; lia). split; [|split]; vm_compute; reflexivity.
Defined.

Lemma small_supply : (515 <= fs_count (fr small_s))%Z.
Proof. by vm_compute. Qed.

(** The kernel's tables, active, before any process. *)
Lemma small_active : ∃ B pd, okay small_s B 4 ∧ is_space (mem small_s) B (cr3 small_s) ∧ covered (mem small_s) (cr3 small_s) (2 ^ 30) pd.
Proof.
  destruct (booted_active small_hhdm small_km small_room small_boot small_s ∅ 4 small_booted) as (B & Hok & SP & Hc).
  - pose proof small_supply. lia.
  - destruct (Hc (2 ^ 30)%Z) as [pd Hpd]; [unfold window; lia|]. exists B, pd. split; [exact Hok|]. split; [exact SP|exact Hpd].
Qed.

Lemma map_page_exact_witness : ∃ s', map_page small_hhdm (2 ^ 30) 0x7000 Rx small_s = (Ok (), s') ∧
  sees small_hhdm s' (cr3 small_s) (2 ^ 30 + 5) = answers (Some (0x7005, (false, true))%Z) ∧
  sees small_hhdm s' (cr3 small_s) (2 ^ 30 + 0x1000) = answers (Some (2 ^ 30 + 0x1000, (true, false))%Z).
Proof.
  destruct small_active as (B & pd & Hok & SP & Hc).
  destruct (map_page_exact small_hhdm small_room small_s B (2 ^ 30) 0x7000 Rx pd) as (s' & R & _ & _ & S);
    [exact (okay_weaken _ _ 4 1 ltac:(lia) Hok)|exact SP|exact Hc|lia|reflexivity|].
  exists s'. split; [exact R|].
  split; [etrans; [exact (S (2 ^ 30 + 5)%Z)|vm_compute; reflexivity]|etrans; [exact (S (2 ^ 30 + 0x1000)%Z)|vm_compute; reflexivity]].
Defined.

Lemma guard_page_exact_witness : ∃ s', install_guard_page small_hhdm (2 ^ 30) small_s = (Ok (), s') ∧
  sees small_hhdm s' (cr3 small_s) (2 ^ 30 + 0xfff) = answers None ∧
  sees small_hhdm s' (cr3 small_s) (2 ^ 30 + 0x1000) = answers (Some (2 ^ 30 + 0x1000, (true, false))%Z).
Proof.
  destruct small_active as (B & pd & Hok & SP & Hc).
  destruct (guard_page_exact small_hhdm small_room small_s B (2 ^ 30) pd) as (s' & R & _ & _ & S);
    [exact (okay_weaken _ _ 4 1 ltac:(lia) Hok)|exact SP|exact Hc|].
  exists s'. split; [exact R|].
  split; [etrans; [exact (S (2 ^ 30 + 0xfff)%Z)|vm_compute; reflexivity]|etrans; [exact (S (2 ^ 30 + 0x1000)%Z)|vm_compute; reflexivity]].
Defined.

Lemma domain_excludes_witness : ∃ r s', build_domain_excluding small_hhdm (2 ^ 30) small_s = (Ok r, s') ∧
  sees small_hhdm s' r (2 ^ 30 + 0xfff) = answers None ∧
  sees small_hhdm s' r (2 ^ 30 + 0x1000) = answers (Some (2 ^ 30 + 0x1000, (true, false))%Z) ∧
  sees small_hhdm s' (cr3 small_s) (2 ^ 30) = answers (Some (2 ^ 30, (true, false))%Z).
Proof.
  destruct small_active as (B & pd & Hok & SP & Hc).
  destruct (domain_excludes small_hhdm small_room small_s B (2 ^ 30) pd) as (r & s' & R & _ & _ & S & S0); [exact Hok|exact SP|exact Hc|].
  exists r, s'. split; [exact R|]. split; [|split].
  - etrans; [exact (S (2 ^ 30 + 0xfff)%Z)|vm_compute; reflexivity].
  - etrans; [exact (S (2 ^ 30 + 0x1000)%Z)|vm_compute; reflexivity].
  - etrans; [exact (S0 (2 ^ 30)%Z)|vm_compute; reflexivity].
Defined.

Lemma spaces_refine_given_witness :
  user_view (mem after_map) small_root (small_va + 7) = Some ((small_pa + 7)%Z, (true, false)) ∧
  user_view (mem after_map) small_root (small_va + 0x1000) = None ∧
  sees small_hhdm after_map small_root (small_va + 0x1000) = answers (Some ((small_va + 0x1000)%Z, (true, false))).
Proof.
  destruct (spaces_refine_given small_hhdm small_room small_km _ _ _ _ small_booted small_history) as [H _].
  destruct (H small_root small_pages (small_va + 7)%Z) as [H1 _]; [reflexivity|].
  destruct (H small_root small_pages (small_va + 0x1000)%Z) as [H2 H3]; [reflexivity|]. cbn [mach] in H1, H2, H3.
  split; [|split].
  - etrans; [exact H1|]. vm_compute. reflexivity.
  - etrans; [exact H2|]. vm_compute. reflexivity.
  - etrans; [apply H3; left; unfold small_va; lia|]. vm_compute. reflexivity.
Defined.

Lemma wx_always_witness : (sees small_hhdm after_map small_root small_va).2 ≠ Ok (Some (true, true)).
Proof.
  exact (wx_always small_hhdm small_room small_km _ _ _ _ small_root small_va small_booted small_history
    (or_intror (ex_intro _ small_pages eq_refl))).
Defined.

Lemma calls_never_panic_witness : ∃ r s', new_process_space small_hhdm small_s = (Ok (mkSpace r 0), s') ∧ r ≠ KERNEL_PML4 small_s.
Proof.
  destruct (calls_never_panic small_hhdm small_room small_km _ _ _ _ small_booted (rtc_refl _ _)) as [H _].
  destruct (H small_supply) as (r & s' & R & _ & Hr). exists r, s'. split; [exact R|exact Hr].
Defined.

Lemma small_whole : rtc (step small_hhdm) (mkPstate small_s ∅ ∅)
  (mkPstate in_kernel (<[small_root:=small_pages]> (<[small_root:=∅]> ∅)) ({[small_pa]} ∪ ∅)).
Proof. eapply rtc_r; [exact small_history|exact small_leave]. Qed.

Lemma reap_exact_witness : ∃ L s', reap_process_space small_hhdm (mkSpace small_root 0) [small_va] in_kernel = (Ok (Z.of_nat (length L)), s') ∧
  NoDup L ∧ small_pa ∈ L ∧ free_frame_count (fr s') = (free_frame_count (fr in_kernel) + Z.of_nat (length L))%Z.
Proof.
  destruct (reap_exact small_hhdm small_room small_km _ _ _ _ small_root [small_va] small_booted small_whole)
    as (L & s' & R & Hnd & HL & Hc & _).
  - exists small_pages. reflexivity.
  - vm_compute. congruence.
  - cbn [mach]. rewrite small_leaves. apply NoDup_singleton.
  - cbn [mach handed]. rewrite small_leaves. intros t ->%list_elem_of_singleton. exact small_loose.
  - reflexivity.
  - exists L, s'. split; [exact R|]. split; [exact Hnd|]. split; [|exact Hc].
    apply HL. left. cbn [mach]. rewrite small_leaves. apply list_elem_of_singleton. reflexivity.
Defined.

Lemma frames_conserved_witness : free_frame_count (fr after_reap) = free_frame_count (fr small_s).
Proof.
  pose proof (frames_conserved small_hhdm small_room small_km _ _ _ _ small_booted (rtc_r _ _ _ small_whole small_reaped)) as H.
  rewrite small_leaves in H. etrans; [|apply H; vm_compute; reflexivity].
  symmetry. etrans; [|apply Z.add_0_r]. f_equal.
Defined.
