(* ===== verification/Boot.v ===== *)
(** * The memory subsystem comes up ([kernel/src/memory/mod.rs], [kernel/src/main.rs])

    The part of [init] after the frame allocator is installed: the kernel's own
    page tables are built and loaded ([setup_kernel_paging], [verify_wx]), then
    the allocator, the slab cache and the untyped region are exercised over live
    frames ([demo], [verify_zero_on_retype]).  [kmain_memory] is [kmain] up to the
    end of [memory::init].  Every [fatal] is an [Err].

    The linker's symbols are a record, the control registers of [enable_wx] a
    second record, and [ram] is what a frame holds before anyone wrote to it. *)

From S2P Require Import Prelude Handoff Buddy MemInit Arch Frames Paging Slab.

Record Symbols := mkSymbols {
  kernel_start : Z; kernel_end : Z;
  text_start : Z; text_end : Z;
  rodata_start : Z; rodata_end : Z;
  data_start : Z; data_end : Z
}.

(** The answer of CPUID 8000_0001h, and the registers [enable_wx] writes. *)
Record Ctl := mkCtl { cpuid_edx : Z; EFER : Z; CR0 : Z }.

Record Kernel := mkKernel { machine : Mach (option FrameAllocator); ctl : Ctl }.

Inductive Fatal :=
| FHandoff (h : Halt)
| FMemory (e : InitError)
| NoKernelPhys
| ImageTooBig
| WxAccepted
| TextUnmapped
| TextNotRx
| RodataUnmapped
| RodataNotRo
| DataUnmapped
| DataNotRw
| FrameAllocFailed
| FramesNotDistinct
| SlabFrameFailed
| SlabAllocFailed
| SlabTwice
| UntypedBlockFailed
| RetypeFailed
| ZeroCheckAlloc
| ZeroCheckRealloc
| StaleData.

Abbreviation BM := (M Kernel Fatal).

(** A call that cannot return an error. *)
Definition call {E A} (r : res Empty_set A) : res E A :=
  match r with
  | Ok a => Ok a
  | Err e => match e with end
  | Panic => Panic
  end.
Definition on_mach {A} (m : M (Mach (option FrameAllocator)) Empty_set A) : BM A := λ k,
  let '(r, s) := m (machine k) in (call r, mkKernel s (ctl k)).

(** [opt.unwrap_or_else(|| fatal(..))] *)
Definition unwrap {A} (o : option A) (e : Fatal) : BM A := lift (ok_or o e).

Definition enable_wx : BM unit := λ k,
  let c := ctl k in
  if (Z.land (cpuid_edx c) (Z.shiftl 1 20) =? 0)%Z then (Panic, k)
  else (Ok (), mkKernel (machine k) (mkCtl (cpuid_edx c) (Z.lor (EFER c) (Z.shiftl 1 11)) (Z.lor (CR0 c) (Z.shiftl 1 16)))).

(** [u64::next_multiple_of] *)
Definition next_multiple_of {E} (x a : Z) : res E Z :=
  if (x mod a =? 0)%Z then Ok x else arith 64 (x + (a - x mod a)).

Section boot.
Variable HHDM_OFFSET : Z.
(** What a frame holds that nobody has written to yet: 512 words. *)
Variable ram : Z → list Z.

Definition alloc_zeroed : BM (option Z) := on_mach (alloc_zeroed_frame HHDM_OFFSET).
Definition alloc_block (order : nat) : BM (option Z) := on_mach (on_frames (alloc_frames order)).
Definition free_block (pa : Z) : BM unit := on_mach (on_frames (free_frames pa)).

(** Volatile accesses to the first word of a frame through the direct map. *)
Definition peek (pa : Z) : BM Z := on_mach (
  lift (phys_to_virt HHDM_OFFSET pa);;
  s ← get;
  lift (index (contents ram s pa) 0)).
Definition poke (pa v : Z) : BM unit := on_mach (
  lift (phys_to_virt HHDM_OFFSET pa);;
  s ← get;
  set_mem (<[pa:=<[0:=v]> (contents ram s pa)]> (mem s))).

(** ** The kernel's own tables *)

Definition page_prot_or (v : Z) (e : Fatal) : BM (bool * bool) :=
  o ← on_mach (page_prot HHDM_OFFSET v);
  unwrap o e.

Definition verify_wx (km : KernelMap) : BM unit :=
  match prot_checked true true true with
  | Some _ => throw WxAccepted
  | None =>
      '(text_w, text_x) ← page_prot_or (text km).1 TextUnmapped;
      if (text_w || negb text_x : bool) then throw TextNotRx else
      (if ((rodata km).1 <? (rodata km).2)%Z then
         '(ro_w, ro_x) ← page_prot_or (rodata km).1 RodataUnmapped;
         if (ro_w || ro_x : bool) then throw RodataNotRo else mret ()
       else mret ());;
      '(data_w, data_x) ← page_prot_or (data_sect km).1 DataUnmapped;
      if (negb data_w || data_x : bool) then throw DataNotRw else mret ()
  end.

Definition kernel_map (sy : Symbols) (vend kphys : Z) : KernelMap :=
  mkKernelMap HHDM_OFFSET IDENTITY_BYTES (kernel_start sy) vend kphys
    (text_start sy, text_end sy) (rodata_start sy, rodata_end sy) (data_start sy, data_end sy).

Definition setup_kernel_paging (sy : Symbols) : BM unit :=
  o ← on_mach (translate HHDM_OFFSET (kernel_start sy));
  kphys ← unwrap o NoKernelPhys;
  vend ← lift (next_multiple_of (kernel_end sy) PAGE_SIZE);
  let km := kernel_map sy vend kphys in
  if negb (kernel_vbase km mod 0x200000 =? 0)%Z then throw ImageTooBig else
  size ← lift (arith 64 (kernel_vend km - kernel_vbase km));
  if (0x200000 <? size)%Z then throw ImageTooBig else
  enable_wx;;
  space ← on_mach (build_address_space HHDM_OFFSET km);
  on_mach (activate_address_space space);;
  verify_wx km.

(** ** The demonstration over live frames *)

Definition MARK : Z := 0xDEADBEEFCAFEF00D.
Definition POISON : Z := 0xA5A5A5A5A5A5A5A5.

Definition demo_frames : BM unit :=
  a ← alloc_zeroed;
  a ← unwrap a FrameAllocFailed;
  b ← alloc_zeroed;
  b ← unwrap b FrameAllocFailed;
  x ← peek a;
  poke a MARK;;
  ok ← (if (x =? 0)%Z then y ← peek a; mret (y =? MARK)%Z else mret false);
  if (negb ok || (a =? b)%Z : bool) then throw FramesNotDistinct else
  free_block a;;
  free_block b.

(** [region] is the frame itself, as bytes. *)
Definition demo_slab : BM unit :=
  o ← alloc_zeroed;
  sf ← unwrap o SlabFrameFailed;
  lift (phys_to_virt HHDM_OFFSET sf);;
  k ← get;
  let region := frame_bytes (contents ram (machine k) sf) in
  cache ← lift (call (Slab.new 64 8 PAGE_SIZE));
  let '(r0, c0) := Slab.init (cache, region) in
  lift (call r0);;
  let '(r1, c1) := Slab.alloc c0 in
  o1 ← lift (call r1);
  o1 ← unwrap o1 SlabAllocFailed;
  let '(r2, c2) := Slab.alloc c1 in
  o2 ← lift (call r2);
  o2 ← unwrap o2 SlabAllocFailed;
  on_mach (s ← get; set_mem (<[sf:=frame_words 512 c2.2]> (mem s)));;
  if (o1 =? o2)%Z then throw SlabTwice else
  free_block sf.

Definition demo_untyped : BM unit :=
  o ← alloc_block 4;
  uf ← unwrap o UntypedBlockFailed;
  let '(r, u) := Retype.retype 1 4 (Retype.new (phys_to_pfn uf) 16) in
  o ← lift (call r);
  r ← unwrap o RetypeFailed;
  lift (call (Retype.remaining u));;
  free_block uf.

Definition demo : BM unit := demo_frames;; demo_slab;; demo_untyped.

Definition verify_zero_on_retype : BM unit :=
  o ← alloc_block 0;
  f ← unwrap o ZeroCheckAlloc;
  poke f POISON;;
  free_block f;;
  o ← alloc_zeroed;
  g ← unwrap o ZeroCheckRealloc;
  val ← peek g;
  if negb (val =? 0)%Z then throw StaleData else
  free_block g.

(** The rest of [init], on the installed allocator. *)
Definition bring_up (sy : Symbols) : BM unit :=
  setup_kernel_paging sy;;
  demo;;
  verify_zero_on_retype.

(** [init] once the region array has been read. *)
Definition memory_init (sy : Symbols) (m : MemMap) (arr : list MemRegion) : BM unit :=
  match init HHDM_OFFSET m arr with
  | Ok (fa, _) =>
      on_mach (modify (λ s, mkMach (mem s) (Some fa) (cr3 s) (KERNEL_PML4 s) (flushed s)));;
      bring_up sy
  | Err e => throw (FMemory e)
  | Panic => panic
  end.
End boot.

(** [kmain], to the end of [memory::init].  The array is read at its address
    through the direct map. *)
Definition kmain_memory (byte_at : Z → Z) (ram : Z → list Z) (sy : Symbols) (bootinfo : Z) : BM unit :=
  match validate_and_dump byte_at bootinfo [] with
  | (Ok bi, _) =>
      let arr := region_at byte_at (mm_regions (memmap bi) + hhdm bi) <$>
        seq 0 (Z.to_nat (Z.min (mm_count (memmap bi)) (Z.of_nat MAX_REGIONS))) in
      memory_init (hhdm bi) ram sy (memmap bi) arr
  | (Err h, _) => throw (FHandoff h)
  | (Panic, _) => panic
  end.
