(* ===== verification/BootProps.v ===== *)
(** * The memory subsystem comes up: what each stage does

    Every stage is a history of page-table steps ([PagingHistory.step]), so that
    the theorems about histories hold of the running kernel. *)

From stdpp Require Import sets relations.
From S2P Require Import Prelude Handoff Buddy BuddyInv BuddyProps MemInit MemInitProps Arch Frames Slab.
From S2P Require Import Paging PagingInv PagingOps PagingClone PagingWorld PagingBuild PagingBoot PagingHistory Boot.

#[local] Opaque idx.

Lemma mach_run {A C} (m : M (Mach (option FrameAllocator)) Empty_set A) (K : A → M Kernel Fatal C) s c a s' :
  m s = (Ok a, s') → (on_mach m ≫= K) (mkKernel s c) = K a (mkKernel s' c).
Proof. intros H. unfold mbind, M_bind, on_mach. cbn [machine]. by rewrite H. Qed.

Lemma mach_end {A} (m : M (Mach (option FrameAllocator)) Empty_set A) s c a s' :
  m s = (Ok a, s') → on_mach m (mkKernel s c) = (Ok a, mkKernel s' c).
Proof. intros H. unfold on_mach. cbn [machine]. by rewrite H. Qed.

Lemma unwrap_run {A C} (x : A) e (K : A → M Kernel Fatal C) k : (unwrap (Some x) e ≫= K) k = K x k.
Proof. reflexivity. Qed.

Lemma lift_run {A C} (x : A) (r : res Fatal A) (K : A → M Kernel Fatal C) k : r = Ok x → (lift r ≫= K) k = K x k.
Proof. by intros ->. Qed.

(** An allocator fresh from [init] holds nothing for anyone. *)
Lemma built_held U fa dp db : built U fa dp db → held (Some fa) ∅.
Proof.
  intros [I [H1 H2] _ _ _]. cbn [held frame_allocator_source fenced fa_held]. split; [done|]. split; [lia|]. split; [done|].
  split; [apply empty_subseteq|]. exists []. split; [done|]. split; [by intros x Hx%elem_of_nil|]. intros pa Hpa. by apply not_elem_of_empty in Hpa.
Qed.

(** A block taken and given back. *)
Lemma buddy_round b order p b' A : Buddy.alloc order b = (Ok (Some p), b') → binv b A →
  ∃ b'', Buddy.free_block p b' = (Ok (), b'') ∧ Buddy.nframes b'' = Buddy.nframes b ∧ Buddy.free_frames b'' = Buddy.free_frames b ∧
    p + 2 ^ order ≤ Buddy.nframes b ∧ ∀ A', binv b A' → binv b'' A'.
Proof.
  intros R I. pose proof (λ A I, alloc_spec b A order I) as Ha. rewrite R in Ha.
  destruct (Ha A I) as (I1 & Hn & _ & _ & Hc). pose proof (bi_alloc _ _ I1 p order ltac:(left)) as [(_ & _ & Hp) _].
  destruct (free_spec b' ((p, order) :: A) 0 p order I1 eq_refl) as (b2 & R2 & I2 & Hn2 & _ & Hc2).
  exists b2. split; [done|]. split; [congruence|]. split; [lia|]. split; [lia|]. intros A' I'.
  destruct (Ha A' I') as (I3 & _). destruct (free_spec b' ((p, order) :: A') 0 p order I3 eq_refl) as (b3 & R3 & I4 & _).
  rewrite R2 in R3. by injection R3 as <-.
Qed.

Lemma block_round fa order H : fa_held 0 [] (Some fa) H →
  match alloc_frames order (Some fa) with
  | (Ok (Some uf), st) => (0 <= phys_to_pfn uf)%Z ∧ (phys_to_pfn uf + Z.of_nat (2 ^ order) < 2 ^ 32)%Z ∧
      ∃ st', free_frames uf st = (Ok (), st') ∧ (∀ H', fa_held 0 [] (Some fa) H' → fa_held 0 [] st' H') ∧
        free_frame_count st' = free_frame_count (Some fa)
  | (Ok None, st) => st = Some fa ∧ ∀ p o, blk (buddy fa) p o → o < order
  | _ => False
  end.
Proof.
  intros (Hb & Hn & _ & _ & A & I & _). unfold alloc_frames, fa_alloc, on_buddy. munfold. pose proof (alloc_spec (buddy fa) A order I) as Ha.
  destruct (Buddy.alloc order (buddy fa)) as [[[p|]|e|] b'] eqn:R; try done; last first.
  { destruct Ha as [-> Hno]. split; [by destruct fa|done]. }
  destruct (buddy_round _ _ _ _ _ R I) as (b2 & R2 & Hn2 & Hc2 & Hp & Hk). pose proof (pow2_pos order). cbn [base_pfn].
  rewrite arith_in by (unfold in_u; lia). rewrite pfn_to_phys_eq by lia. rewrite phys_pfn by lia. split; [lia|]. split; [lia|].
  unfold free_frames, fa_free, on_buddy. munfold. cbn [base_pfn buddy]. rewrite phys_pfn by lia. rewrite arith_in by (unfold in_u; lia).
  replace (Z.to_nat (base_pfn fa + Z.of_nat p - base_pfn fa)) with p by lia. rewrite R2. eexists. split; [done|]. split.
  - intros H' (? & ? & ? & ? & A' & I' & HH'). cbn [fa_held base_pfn buddy]. split; [done|]. split; [by rewrite Hn2|]. split; [done|]. split; [done|]. exists A'. split; [by apply Hk|done].
  - cbn [free_frame_count buddy]. by rewrite Hc2.
Qed.

(** ** Stages over live tables *)

Section stages.
Variable HHDM_OFFSET : Z.
Hypothesis HHDM_room : (0 <= HHDM_OFFSET <= 2 ^ 64 - 2 ^ 44)%Z.
Variable km : KernelMap.
Variable B : gset Z.
Abbreviation mach_t := (Mach (option FrameAllocator)).
Implicit Types s : mach_t.

(** The tables are sound and the frames of [D] are handed out; no process yet. *)
Definition live s (D : gset Z) : Prop := ∃ H, hinv km B (mkPstate s ∅ D) H.
Definition roots s : Z * Z := (cr3 s, KERNEL_PML4 s).
Definition reach s D s' D' : Prop := rtc (step HHDM_OFFSET) (mkPstate s ∅ D) (mkPstate s' ∅ D').

Lemma reach_live s D s' D' : live s D → reach s D s' D' → live s' D'.
Proof using HHDM_room. intros [H I] R. by eapply steps_hinv. Qed.

Lemma live_held s D : live s D → ∃ H, held (fr s) H ∧ D ⊆ H ∧ tabs (mem s).
Proof using Type.
  clear HHDM_room. intros [H I]. pose proof (w_okay _ _ _ _ (h_world _ _ _ _ I)) as [Hh _ TB].
  exists H. split; [done|]. split; [apply (h_handed _ _ _ _ I)|done].
Qed.

Lemma live_frame s D pa : live s D → pa ∈ D → frame_ok pa.
Proof using Type. intros L Hpa. destruct (live_held s D L) as (H & Hh & HD & _). apply (fs_held_ok (fr s) H); [done|by apply HD]. Qed.

Lemma raw_ok s D : live s D → (1 <= fs_count (fr s))%Z →
  ∃ pa s', on_frames fs_alloc s = (Ok (Some pa), s') ∧ (pa ∉ D) ∧ mem s' = mem s ∧ (fs_count (fr s) = fs_count (fr s') + 1)%Z ∧
    roots s' = roots s ∧ reach s D s' ({[pa]} ∪ D).
Proof using Type.
  clear HHDM_room. intros L Hc. destruct (live_held s D L) as (H & Hh & HD & _). pose proof (fs_alloc_spec (fr s) H Hh) as Ha.
  destruct (on_frames fs_alloc s) as [r s'] eqn:R. pose proof R as R'. unfold on_frames in R'.
  destruct (fs_alloc (fr s)) as [[[pa|]|e|] f]; try done; [|destruct Ha; lia]. destruct Ha as (Hn & _ & Hc').
  injection R' as <- <-. exists pa. eexists. split; [reflexivity|]. split; [intros Hin; by apply Hn, HD|]. do 3 (split; [done|]).
  apply rtc_once. by apply step_raw.
Qed.

Lemma write_ok s D pa T : live s D → pa ∈ D → length T = 512 → reach s D (upd s (<[pa:=T]> (mem s)) (fr s)) D.
Proof using Type. clear HHDM_room. intros L Hpa HT. apply rtc_once. by eapply step_write. Qed.

Lemma zeroed_ok s D : live s D → (1 <= fs_count (fr s))%Z →
  ∃ pa s', alloc_zeroed_frame HHDM_OFFSET s = (Ok (Some pa), s') ∧ (pa ∉ D) ∧ mem s' = <[pa:=replicate 512 0%Z]> (mem s) ∧
    (fs_count (fr s) = fs_count (fr s') + 1)%Z ∧ roots s' = roots s ∧ reach s D s' ({[pa]} ∪ D).
Proof using HHDM_room.
  intros L Hc. destruct (raw_ok s D L Hc) as (pa & s' & R & Hn & Hm & Hc' & C & St).
  assert (frame_ok pa) as Hf by (eapply (live_frame s'); [by eapply reach_live|set_solver]).
  exists pa. eexists. assert (alloc_zeroed_frame HHDM_OFFSET s = (Ok (Some pa), upd s' (<[pa:=replicate 512 0%Z]> (mem s')) (fr s'))) as E.
  { unfold alloc_zeroed_frame. rewrite (bind_run _ _ _ _ _ R). munfold. by rewrite phys_ok. }
  split; [exact E|]. split; [done|]. split; [by rewrite Hm|]. split; [done|]. split; [done|].
  apply rtc_once. by apply step_frame.
Qed.

Lemma free_ok s D pa : live s D → pa ∈ D →
  ∃ s', free_table pa s = (Ok (), s') ∧ mem s' = mem s ∧ (fs_count (fr s') = fs_count (fr s) + 1)%Z ∧ roots s' = roots s ∧
    reach s D s' (D ∖ {[pa]}).
Proof using Type.
  clear HHDM_room. intros L Hpa. destruct (live_held s D L) as (H & Hh & HD & _).
  destruct (fs_free_spec (fr s) H pa Hh) as (f & Hf & _ & Hc); [by apply HD|apply not_elem_of_empty|].
  assert (free_table pa s = (Ok (), upd s (mem s) f)) as E by (unfold free_table, on_frames; by rewrite Hf).
  eexists. split; [exact E|]. do 3 (split; [done|]). apply rtc_once. apply step_free; [|done].
  apply elem_of_difference. split; [done|apply not_elem_of_empty].
Qed.

Variable ram : Z → list Z.

(** Reading and writing the first word of a frame in hand. *)
Lemma poke_run s c D pa v C (K : unit → M Kernel Fatal C) : live s D → pa ∈ D → length (contents ram s pa) = 512 →
  (poke HHDM_OFFSET ram pa v ≫= K) (mkKernel s c) = K () (mkKernel (upd s (<[pa:=<[0:=v]> (contents ram s pa)]> (mem s)) (fr s)) c) ∧
  reach s D (upd s (<[pa:=<[0:=v]> (contents ram s pa)]> (mem s)) (fr s)) D.
Proof using HHDM_room.
  intros L Hpa HT. split; [|apply write_ok; [done..|by rewrite length_insert]]. unfold poke. apply mach_run. munfold. rewrite phys_ok by (done || by eapply live_frame). done.
Qed.

Lemma peek_run s c D pa x T C (K : Z → M Kernel Fatal C) : live s D → pa ∈ D → mem s !! pa = Some (x :: T) →
  (peek HHDM_OFFSET ram pa ≫= K) (mkKernel s c) = K x (mkKernel s c).
Proof using HHDM_room.
  intros L Hpa HT. unfold peek. erewrite mach_run; [reflexivity|]. munfold. rewrite phys_ok by (done || by eapply live_frame).
  unfold contents. by rewrite HT.
Qed.
(** A stage that ends as it began. *)
Definition restores (m : M Kernel Fatal unit) s c : Prop :=
  ∃ s', m (mkKernel s c) = (Ok (), mkKernel s' c) ∧ reach s ∅ s' ∅ ∧ fs_count (fr s') = fs_count (fr s) ∧ roots s' = roots s.

Lemma free_block_table pa : free_block pa = on_mach (free_table pa).
Proof using Type. reflexivity. Qed.

Lemma demo_frames_ok s c : live s ∅ → (2 <= fs_count (fr s))%Z → restores (demo_frames HHDM_OFFSET ram) s c.
Proof using HHDM_room.
  intros L Hc. unfold restores, demo_frames.
  destruct (zeroed_ok s ∅ L) as (a & s1 & R1 & _ & M1 & C1 & Z1 & S1); [lia|].
  pose proof (reach_live _ _ _ _ L S1) as L1. destruct (zeroed_ok s1 _ L1) as (b & s2 & R2 & Hb & M2 & C2 & Z2 & S2); [lia|].
  pose proof (reach_live _ _ _ _ L1 S2) as L2. set (D := {[b]} ∪ ({[a]} ∪ ∅)) in *.
  assert (b ≠ a) as Hne by (clear -Hb; set_solver). assert (a ∈ D ∧ b ∈ D) as [Ha Hb'] by (subst D; clear; set_solver).
  unfold alloc_zeroed. rewrite (mach_run _ _ _ _ _ _ R1), unwrap_run. rewrite (mach_run _ _ _ _ _ _ R2), unwrap_run.
  assert (mem s2 !! a = Some (replicate 512 0%Z)) as Ea by (rewrite M2, lookup_insert_ne, M1, lookup_insert_eq by done; done).
  rewrite (peek_run s2 c D a 0 (replicate 511 0%Z)) by done.
  assert (contents ram s2 a = replicate 512 0%Z) as Ec by (unfold contents; by rewrite Ea).
  destruct (poke_run s2 c D a MARK _ (λ _, ok ← (if (0 =? 0)%Z then y ← peek HHDM_OFFSET ram a; mret (y =? MARK)%Z else mret false);
    if (negb ok || (a =? b)%Z : bool) then throw FramesNotDistinct else free_block a;; free_block b) L2 Ha) as [R3 S3].
  { rewrite Ec. apply length_replicate. }
  rewrite R3. clear R3. rewrite Ec in *. set (s3 := upd s2 _ _) in *. pose proof (reach_live _ _ _ _ L2 S3) as L3.
  cbn [Z.eqb]. rewrite (bind_run _ _ _ true (mkKernel s3 c)); last first.
  { rewrite (peek_run s3 c D a MARK (replicate 511 0%Z)) by (done || (cbn [s3 upd mem]; by rewrite lookup_insert_eq)). done. }
  rewrite (proj2 (Z.eqb_neq a b)) by done. cbn [negb orb]. rewrite !free_block_table.
  destruct (free_ok s3 D a L3 Ha) as (s4 & R4 & M4 & C4 & Z4 & S4). pose proof (reach_live _ _ _ _ L3 S4) as L4.
  destruct (free_ok s4 _ b L4) as (s5 & R5 & M5 & C5 & Z5 & S5); [subst D; clear -Hne; set_solver|].
  rewrite (mach_run _ _ _ _ _ _ R4), (mach_end _ _ _ _ _ R5). exists s5. split; [done|]. split; [|split; [|transitivity (roots s2); [by rewrite Z5, Z4|congruence]]].
  - replace (∅ : gset Z) with (D ∖ {[a]} ∖ {[b]}) at 2 by (subst D; clear; set_solver). unfold reach in *. by repeat (etrans; [eassumption|]).
  - cbn [s3 upd fr] in C4. lia.
Qed.
Lemma slab_frame_ok : ∃ c0 c1 c2 o1 o2 b0 b2, Slab.new 64 8 PAGE_SIZE = Ok c0 ∧
  Slab.init (c0, frame_bytes (replicate 512 0%Z)) = (Ok (), (c1, b0)) ∧ Slab.alloc (c1, b0) = (Ok (Some o1), c2) ∧
  Slab.alloc c2 = (Ok (Some o2), b2) ∧ o1 ≠ o2.
Proof using Type.
  exists (Slab.mkSlab 64 64 Slab.NIL_OFF 0).
  destruct (Slab.init_spec (Slab.mkSlab 64 64 Slab.NIL_OFF 0) (frame_bytes (replicate 512 0%Z))) as (c1 & b0 & R & I & Hs & Hc & _).
  1-4: by vm_compute.
  rewrite Hc in I. cbn [Slab.capacity] in I. change (Z.to_nat 64) with 64 in I. unfold Slab.slot_list in I. cbn [seq fmap list_fmap] in I.
  pose proof (Slab.alloc_sinv _ _ _ I) as (c2 & R1 & I1 & _). pose proof (Slab.alloc_sinv _ _ _ I1) as (c3 & R2 & _ & _).
  eexists c1, (c2, b0), _, _, b0, (c3, b0). split; [by vm_compute|]. split; [exact R|]. split; [exact R1|]. split; [exact R2|].
  pose proof (Slab.si_nodup _ _ _ I) as Hnd. apply NoDup_cons in Hnd as [Hnd _]. rewrite not_elem_of_cons in Hnd. by apply Hnd.
Qed.
Lemma frame_words_length n b : length (frame_words n b) = n.
Proof using Type. revert b. induction n as [|n IH]; intros b; [done|]. cbn [frame_words length]. by rewrite IH. Qed.

Lemma lone_back (x : Z) : ({[x]} ∪ ∅) ∖ {[x]} = (∅ : gset Z).
Proof using Type. clear. set_solver. Qed.

Lemma lone_in (x : Z) : x ∈ ({[x]} ∪ ∅ : gset Z).
Proof using Type. clear. set_solver. Qed.

Lemma demo_slab_ok s c : live s ∅ → (1 <= fs_count (fr s))%Z → restores (demo_slab HHDM_OFFSET ram) s c.
Proof using HHDM_room.
  intros L Hc. unfold restores, demo_slab.
  destruct (zeroed_ok s ∅ L Hc) as (f & s1 & R1 & _ & M1 & C1 & Z1 & S1). pose proof (reach_live _ _ _ _ L S1) as L1.
  unfold alloc_zeroed. rewrite (mach_run _ _ _ _ _ _ R1), unwrap_run.
  rewrite (lift_run (f + HHDM_OFFSET)%Z) by (apply phys_ok; [done|]; eapply (live_frame s1); [done|apply lone_in]).
  rewrite (bind_run get _ _ (mkKernel s1 c) (mkKernel s1 c)) by done. cbv zeta. cbn [machine].
  assert (contents ram s1 f = replicate 512 0%Z) as -> by (unfold contents; by rewrite M1, lookup_insert_eq).
  destruct slab_frame_ok as (c0 & c1 & c2 & o1 & o2 & b0 & b2 & E0 & E1 & E2 & E3 & Hne).
  rewrite (lift_run c0) by (by rewrite E0). rewrite E1, (lift_run ()) by done. rewrite E2, (lift_run (Some o1)), unwrap_run by done.
  rewrite E3, (lift_run (Some o2)), unwrap_run by done. rewrite (mach_run _ _ s1 c () (upd s1 (<[f:=frame_words 512 b2.2]> (mem s1)) (fr s1))) by done.
  rewrite (proj2 (Z.eqb_neq o1 o2)) by done. set (s2 := upd s1 _ _).
  assert (reach s1 ({[f]} ∪ ∅) s2 ({[f]} ∪ ∅)) as S2 by (apply write_ok; [done|apply lone_in|apply frame_words_length]).
  pose proof (reach_live _ _ _ _ L1 S2) as L2. rewrite free_block_table.
  destruct (free_ok s2 _ f L2 (lone_in f)) as (s3 & R3 & M3 & C3 & Z3 & S3). rewrite lone_back in S3.
  rewrite (mach_end _ _ _ _ _ R3). exists s3. split; [done|]. split; [|split].
  - unfold reach in *. by repeat (etrans; [eassumption|]).
  - cbn [s2 upd fr] in C3. lia.
  - rewrite Z3. exact Z1.
Qed.

Lemma demo_untyped_ok s c : live s ∅ →
  restores demo_untyped s c ∨
  (demo_untyped (mkKernel s c) = (Err UntypedBlockFailed, mkKernel s c) ∧ ∀ fa, fr s = Some fa → ∀ p o, blk (buddy fa) p o → o < 4).
Proof using Type.
  clear HHDM_room. intros L. destruct (live_held s ∅ L) as (H & Hh & _ & TB). unfold restores, demo_untyped, alloc_block.
  destruct (fr s) as [fa|] eqn:Ef; last first.
  { right. split; [|done]. unfold mbind, M_bind, on_mach, on_frames. cbn [machine]. rewrite Ef. cbn. do 2 f_equal. by destruct s; cbn in *; subst. }
  pose proof (block_round fa 4 H Hh) as Hr. destruct (alloc_frames 4 (Some fa)) as [[[uf|]|e|] st] eqn:R; try done.
  - destruct Hr as (H1 & H2 & st' & Rf & Hk & Hc). left.
    rewrite (mach_run _ _ s c (Some uf) (upd s (mem s) st)), unwrap_run by (unfold on_frames; by rewrite Ef, R).
    destruct (Retype.region_retype_spec 1 4 (Retype.new (phys_to_pfn uf) 16)) as [(u & Ru & Hu & Hw & _ & Hfm)|[_ Hbad]].
    { change (2 ^ 4) with 16 in H2. unfold Retype.uwf. cbn. lia. } { lia. } { lia. } 2: { cbn in Hbad. lia. }
    rewrite Ru, (lift_run (Some _)) by reflexivity. rewrite unwrap_run. cbn in Hw, Hfm.
    rewrite (lift_run 12%Z) by (unfold Retype.remaining; rewrite Hfm, Hw; by vm_compute).
    exists (upd s (mem s) st'). split; [|split; [|split]].
    + apply mach_end. unfold on_frames. cbn [upd fr]. by rewrite Rf.
    + apply rtc_once, step_block; rewrite Ef; [exact Hk|exact Hc].
    + exact Hc.
    + done.
  - destruct Hr as [-> Hno]. right. split; [|intros fa' [= <-]; exact Hno].
    unfold mbind, M_bind, on_mach, on_frames. cbn [machine]. rewrite Ef, R. cbn. do 2 f_equal. by destruct s; cbn in *; subst.
Qed.

Hypothesis ram_words : ∀ pa, length (ram pa) = 512.

Lemma contents_length s D pa : live s D → length (contents ram s pa) = 512.
Proof using ram_words.
  intros L. destruct (live_held s D L) as (_ & _ & _ & TB). unfold contents. destruct (mem s !! pa) as [T|] eqn:E; [|apply ram_words].
  by apply TB in E as [_ ?].
Qed.

Lemma verify_zero_ok s c : live s ∅ → (1 <= fs_count (fr s))%Z → restores (verify_zero_on_retype HHDM_OFFSET ram) s c.
Proof using HHDM_room ram_words.
  intros L Hc. unfold restores, verify_zero_on_retype.
  destruct (raw_ok s ∅ L Hc) as (f & s1 & R1 & _ & M1 & C1 & Z1 & S1). pose proof (reach_live _ _ _ _ L S1) as L1.
  change (alloc_block 0) with (on_mach (on_frames (F := option FrameAllocator) fs_alloc)). rewrite (mach_run _ _ _ _ _ _ R1), unwrap_run.
  match goal with |- context [poke _ _ f POISON ≫= ?K] => destruct (poke_run s1 c _ f POISON _ K L1 (lone_in f)) as [R2 S2] end.
  { by eapply contents_length. }
  rewrite R2. clear R2. set (s2 := upd s1 _ _) in *. pose proof (reach_live _ _ _ _ L1 S2) as L2. rewrite free_block_table.
  destruct (free_ok s2 _ f L2 (lone_in f)) as (s3 & R3 & M3 & C3 & Z3 & S3). rewrite lone_back in S3. pose proof (reach_live _ _ _ _ L2 S3) as L3.
  rewrite (mach_run _ _ _ _ _ _ R3). cbn [s2 upd fr] in C3.
  destruct (zeroed_ok s3 ∅ L3) as (g & s4 & R4 & _ & M4 & C4 & Z4 & S4); [lia|]. pose proof (reach_live _ _ _ _ L3 S4) as L4.
  unfold alloc_zeroed. rewrite (mach_run _ _ _ _ _ _ R4), unwrap_run.
  rewrite (peek_run s4 c _ g 0 (replicate 511 0%Z) _ _ L4 (lone_in g)) by (by rewrite M4, lookup_insert_eq). cbn [Z.eqb negb]. rewrite free_block_table.
  destruct (free_ok s4 _ g L4 (lone_in g)) as (s5 & R5 & M5 & C5 & Z5 & S5). rewrite lone_back in S5.
  rewrite (mach_end _ _ _ _ _ R5). exists s5. split; [done|]. split; [|split].
  - unfold reach in *. by repeat (etrans; [eassumption|]).
  - lia.
  - rewrite Z5, Z4, Z3. exact Z1.
Qed.
End stages.

(** ** The kernel's own tables *)

(** The linker's sections: pages of the image, disjoint, text and data not empty. *)
Record sections_ok (km : KernelMap) : Prop := {
  so_text : (kernel_vbase km <= (text km).1 < kernel_vend km)%Z ∧ ((text km).1 < (text km).2)%Z ∧ ((text km).1 mod 4096 = 0)%Z;
  so_data : (kernel_vbase km <= (data_sect km).1 < kernel_vend km)%Z ∧ ((data_sect km).1 < (data_sect km).2)%Z ∧
    ((data_sect km).1 mod 4096 = 0)%Z ∧ ¬ ((text km).1 <= (data_sect km).1 < (text km).2)%Z;
  so_rodata : ((rodata km).1 < (rodata km).2)%Z → (kernel_vbase km <= (rodata km).1 < kernel_vend km)%Z ∧ ((rodata km).1 mod 4096 = 0)%Z ∧
    ¬ ((text km).1 <= (rodata km).1 < (text km).2)%Z ∧ ¬ ((data_sect km).1 <= (rodata km).1 < (data_sect km).2)%Z
}.

Lemma image_view km v : map_ok km → (kernel_vbase km <= v < kernel_vend km)%Z → (v mod 4096 = 0)%Z →
  canonical v ∧ (snd <$> boot_view km v) = Some (writable (section_prot km v), executable (section_prot km v)).
Proof.
  intros M Hv Ha. destruct M as [[I1 I2 I3 I4 I5 I6] K1 K2 _ _ _ _ _]. split.
  { unfold canonical in *. lia. }
  unfold boot_view. cbv zeta. rewrite Ha, Z.sub_0_r.
  assert (v < kernel_vbase km + Z.of_nat (image_pages km) * 4096)%Z as Hlt.
  { unfold image_pages. change PAGE with 4096%Z. pose proof (div_ceil_bounds (kernel_vend km - kernel_vbase km) ltac:(lia)). lia. }
  rewrite (proj2 (Z.leb_le _ _)), (proj2 (Z.ltb_lt _ _)) by lia. done.
Qed.

(** What [verify_wx] finds of a section. *)
Lemma section_prots km : sections_ok km →
  section_prot km (text km).1 = Rx ∧ section_prot km (data_sect km).1 = Rw ∧
  (((rodata km).1 < (rodata km).2)%Z → section_prot km (rodata km).1 = Ro).
Proof.
  intros [(T1 & T2 & _) (D1 & D2 & _ & D3) R]. unfold section_prot.
  assert (∀ a b v, (a <=? v)%Z && (v <? b)%Z = bool_decide (a <= v < b)%Z) as E.
  { intros a b v. apply eq_true_iff_eq. rewrite andb_true_iff, bool_decide_eq_true, Z.leb_le, Z.ltb_lt. done. }
  rewrite !E. split; [|split].
  - by rewrite bool_decide_eq_true_2 by lia.
  - by rewrite bool_decide_eq_false_2, bool_decide_eq_true_2 by lia.
  - intros Hr. destruct (R Hr) as (_ & _ & R1 & R2). by rewrite !bool_decide_eq_false_2.
Qed.

Section paging.
Variable HHDM_OFFSET : Z.
Hypothesis HHDM_room : (0 <= HHDM_OFFSET <= 2 ^ 64 - 2 ^ 44)%Z.
Implicit Types s : Mach (option FrameAllocator).

Lemma page_prot_eq s H v : tabs (mem s) → is_space (mem s) H (cr3 s) →
  page_prot HHDM_OFFSET v s = (Ok ((λ x, x.1.2) <$> maps (mem s) (cr3 s) v), s).
Proof using HHDM_room.
  intros TB SP. unfold page_prot. rewrite (bind_run _ _ _ _ _ (walk_eq HHDM_OFFSET HHDM_room s H v TB SP)).
  unfold maps. by destruct (leaf_of _ _ _).
Qed.

Lemma count_supply n (f : option FrameAllocator) H : held f H → supply n f → (Z.of_nat n <= fs_count f)%Z.
Proof using Type.
  clear HHDM_room. revert f H. induction n as [|n IH]; intros f H Hh Hs; [apply fs_count_nonneg|]. cbn [supply] in Hs.
  pose proof (fs_alloc_spec f H Hh) as Ha. destruct (fs_alloc f) as [[[pa|]|e|] f']; try done.
  destruct Ha as (_ & Hh' & Hc). specialize (IH f' _ Hh' Hs). lia.
Qed.

(** [verify_wx] over the tables [build_address_space] built. *)
Lemma verify_wx_ok km s c H : map_ok km → sections_ok km → tabs (mem s) → is_space (mem s) H (cr3 s) →
  (∀ v, maps (mem s) (cr3 s) v = boot_maps km v) → verify_wx HHDM_OFFSET km (mkKernel s c) = (Ok (), mkKernel s c).
Proof using HHDM_room.
  intros MK SO TB SP MP. destruct (section_prots km SO) as (PT & PD & PR). pose proof SO as [(T1 & _ & T2) (D1 & _ & D2 & _) R].
  assert (∀ v e C (K : bool * bool → M Kernel Fatal C), (kernel_vbase km <= v < kernel_vend km)%Z → (v mod 4096 = 0)%Z →
    (page_prot_or HHDM_OFFSET v e ≫= K) (mkKernel s c) = K (writable (section_prot km v), executable (section_prot km v)) (mkKernel s c)) as Hp.
  { intros v e C K Hv Ha. destruct (image_view km v MK Hv Ha) as [Hc E]. unfold page_prot_or.
    assert (page_prot HHDM_OFFSET v s = (Ok (Some (writable (section_prot km v), executable (section_prot km v))), s)) as Er.
    { rewrite (page_prot_eq s H) by done. rewrite MP, boot_range by done. rewrite <- E. by destruct (boot_view km v). }
    unfold mbind, M_bind, on_mach. cbn [machine]. by rewrite Er. }
  unfold verify_wx. cbn [prot_checked]. rewrite Hp by done. rewrite PT. change (writable Rx || negb (executable Rx)) with false. cbv iota.
  destruct (Z.ltb_spec (rodata km).1 (rodata km).2) as [Hr|Hr].
  - destruct (R Hr) as (R1 & R2 & _). erewrite bind_run; [|rewrite Hp by done; rewrite (PR Hr); reflexivity].
    rewrite Hp by done. by rewrite PD.
  - erewrite bind_run; [|reflexivity]. rewrite Hp by done. by rewrite PD.
Qed.

Definition wx_ctl (c : Ctl) : Ctl := mkCtl (cpuid_edx c) (Z.lor (EFER c) (Z.shiftl 1 11)) (Z.lor (CR0 c) (Z.shiftl 1 16)).

Lemma setup_ok sy s c vend kphys H n : let km := kernel_map HHDM_OFFSET sy vend kphys in
  held (fr s) H → tabs (mem s) → (Z.of_nat (14 + n) <= fs_count (fr s))%Z → Z.land (cpuid_edx c) (Z.shiftl 1 20) ≠ 0%Z →
  translate HHDM_OFFSET (kernel_start sy) s = (Ok (Some kphys), s) → next_multiple_of (E := Fatal) (kernel_end sy) PAGE_SIZE = Ok vend →
  map_ok km → sections_ok km →
  ∃ s', setup_kernel_paging HHDM_OFFSET sy (mkKernel s c) = (Ok (), mkKernel s' (wx_ctl c)) ∧ booted HHDM_OFFSET km s s' H ∧
    (Z.of_nat n <= fs_count (fr s'))%Z ∧ cr3 s' = KERNEL_PML4 s'.
Proof using HHDM_room.
  intros km Hh TB Hc Hnx Ht He M SO. assert (gibs km = 4) as Hg by reflexivity.
  destruct (build_world HHDM_OFFSET HHDM_room s H n km) as (r & s1 & B & R & Hok & HB & K & C & _ & MP & W); [|done|].
  { apply okay_count; [done|done|]. rewrite Hg. exact Hc. }
  pose proof M as [[I1 I2 I3 I4 I5 I6] _ _ _ _ _ _ _]. pose proof SO as [(T1 & _) _ _].
  unfold setup_kernel_paging. rewrite (mach_run _ _ _ _ _ _ Ht), unwrap_run, (lift_run vend) by done. fold km. cbv zeta.
  change 0x200000%Z with (2 ^ 21)%Z. rewrite I1. cbn [Z.eqb negb]. rewrite (lift_run (kernel_vend km - kernel_vbase km)%Z) by (apply arith_in; unfold in_u; lia).
  rewrite (proj2 (Z.ltb_ge _ _)) by lia. rewrite (bind_run enable_wx _ _ () (mkKernel s (wx_ctl c))); last first.
  { unfold enable_wx. cbn [ctl]. by rewrite (proj2 (Z.eqb_neq _ _)). }
  rewrite (mach_run _ _ _ _ _ _ R). set (s2 := (activate_address_space (mkSpace r 0) s1).2).
  rewrite (mach_run _ _ _ _ () s2) by done. exists s2. pose proof (w_kernel _ _ _ _ W) as SP. rewrite K in SP.
  assert (okay s2 B n) as Hok2 by (by destruct Hok; split).
  split; [by apply (verify_wx_ok km s2 _ B); [| |apply Hok| |]|]. split; [|split; [|symmetry; exact K]].
  - split; [done|]. split; [done|]. split; [done|]. rewrite Hg. split; [lia|]. by exists (mkSpace r 0), s1.
  - apply (count_supply n (fr s2) B); apply Hok2.
Qed.
End paging.
