(* ===== verification/BootTheorems.v ===== *)
(** * From the boot loader to a running memory subsystem: theorems *)

From stdpp Require Import sets relations strings.
From S2P Require Import Prelude Handoff HandoffProps Buddy BuddyInv BuddyProps MemInit MemInitProps Arch Frames Slab.
From S2P Require Import Paging PagingInv PagingOps PagingClone PagingWorld PagingBuild PagingBoot PagingHistory PagingTheorems Boot BootProps.

(** ** The handoff *)

Lemma regions_holds byte_at a rs : Forall wf rs → holds byte_at a (concat (image <$> rs)) → regions byte_at a (length rs) = rs.
Proof.
  intros Hw. revert a. induction Hw as [|r rs Hr Hw IH]; intros a H; [done|]. cbn [fmap list_fmap concat] in H.
  apply holds_app in H as [H1 H2]. rewrite image_size in H2 by done. change (size_of MemRegion_t) with 24 in H2.
  unfold regions in *. cbn [length seq fmap list_fmap]. f_equal.
  - unfold region_at. change (Z.of_nat (0 * size_of MemRegion_t)) with 0%Z. rewrite Z.add_0_r. by apply (image_read (Coder := region_coder)).
  - specialize (IH _ H2). rewrite <- IH at 2. rewrite <- fmap_S_seq, <- list_fmap_compose. apply list_fmap_ext.
    intros i j _. unfold compose, region_at. f_equal. change (size_of MemRegion_t) with 24. lia.
Qed.

(** The kernel reads the handoff as the loader wrote it: over any memory that
    holds the frozen 144-byte image of a [WardenBootInfo] and the image of a region
    array, the dereferences at the computed [repr(C)] offsets give back every field
    and every region, and the compile-time layout assertions hold. *)
Theorem handoff_roundtrip byte_at a b bi rs :
  wf bi → Forall wf rs → holds byte_at a (image bi) → holds byte_at b (concat (image <$> rs)) →
  read_bootinfo byte_at a = bi ∧ regions byte_at b (length rs) = rs ∧ length (image bi) = 144 ∧ tripwire = true.
Proof.
  intros Hbi Hrs H1 H2. split; [by apply (image_read (Coder := info_coder))|]. split; [by apply regions_holds|].
  split; [by rewrite image_size|by vm_compute].
Qed.

(** Of an acceptable handoff the dump prints, after the header, at most 32
    regions and how many more there are, and the exact number of usable pages in
    the first 1024 regions, saturated; the walk never panics, whatever the bytes
    behind the pointers. *)
Theorem dump_exact byte_at p :
  (∀ a, 0 <= byte_at a < 256)%Z → refusal byte_at p = None →
  let bi := read_bootinfo byte_at p in
  validate_and_dump byte_at p [] = (Ok bi, header bi ++ map_report byte_at bi).
Proof.
  intros Hb Hr bi. rewrite validate_eq. unfold refusal in Hr. cbv zeta in *. fold bi in Hr |- *. destruct (info_bounds byte_at Hb p) as (_ & Hc & _).
  repeat (case_decide; [done|]). erewrite bind_run; [reflexivity|]. cbn [app]. apply dump_memmap_run; [done|done|]. by apply one_zero.
Qed.

(** ** The hostile map *)

Lemma seen_regions byte_at a m :
  seen m (regions byte_at a (Z.to_nat (Z.min (mm_count m) (Z.of_nat MAX_REGIONS)))) =
  regions byte_at a (Z.to_nat (Z.min (mm_count m) (Z.of_nat MAX_REGIONS))).
Proof. unfold seen. apply take_ge. unfold regions. by rewrite length_fmap, length_seq. Qed.

(** [k] with [fa] installed in [FRAMES]. *)
Definition install (fa : FrameAllocator) (k : Kernel) : Kernel :=
  mkKernel (upd (machine k) (mem (machine k)) (Some fa)) (ctl k).

Lemma init_overflow hhdm m arr : in_u 64 hhdm → in_u 64 (mm_regions m) → in_u 64 (mm_count m) →
  mm_regions m ≠ 0%Z → mm_count m ≠ 0%Z → (2 ^ 64 <= mm_regions m + hhdm)%Z → init hhdm m arr = Panic.
Proof.
  unfold in_u. intros Hh Hm Hc N0 N1 Ho. unfold init, region_slice. rewrite (proj2 (Z.eqb_neq _ _) N0).
  rewrite (proj2 (Nat.eqb_neq _ _)) by (unfold MAX_REGIONS; lia). cbn [orb]. munfold. unfold arith.
  by rewrite (proj2 (fits_false _ _)) by (unfold in_u; lia).
Qed.


(** ** Up and running *)

(** With the loader's contract met (its tables map the kernel, the linker's
    sections lie in the image, the processor has NX) and 16 frames to spare, the
    memory subsystem comes up on any allocator [init] built: the tables are built,
    loaded and pass the W^X check with NXE and WP set, every step of the
    demonstration succeeds and gives all its frames back, and the state is a history
    of the booted tables, to which the theorems on process isolation apply.  It
    halts only if no block of 16 frames is left. *)
Theorem memory_comes_up hhdm ram sy s c fa U dp db vend kphys :
  (0 <= hhdm <= 2 ^ 64 - 2 ^ 44)%Z → (∀ pa, length (ram pa) = 512) →
  built U fa dp db → fr s = Some fa → tabs (mem s) → (16 <= free_frame_count (Some fa))%Z →
  Z.land (cpuid_edx c) (Z.shiftl 1 20) ≠ 0%Z →
  translate hhdm (kernel_start sy) s = (Ok (Some kphys), s) → next_multiple_of (E := Fatal) (kernel_end sy) PAGE_SIZE = Ok vend →
  let km := kernel_map hhdm sy vend kphys in
  map_ok km → sections_ok km →
  ∃ s1, booted hhdm km s s1 ∅ ∧
    match bring_up hhdm ram sy (mkKernel s c) with
    | (Ok (), k) => rtc (step hhdm) (mkPstate s1 ∅ ∅) (mkPstate (machine k) ∅ ∅) ∧ ctl k = wx_ctl c ∧
        cr3 (machine k) = KERNEL_PML4 (machine k) ∧ free_frame_count (fr (machine k)) = free_frame_count (fr s1)
    | (Err UntypedBlockFailed, k) => ∀ fa', fr (machine k) = Some fa' → ∀ p o, blk (buddy fa') p o → o < 4
    | _ => False
    end.
Proof.
  intros Hh Hram Hbt Hfa TB Hc Hnx Ht He km M SO. pose proof (built_held _ _ _ _ Hbt) as Hheld. rewrite <- Hfa in Hheld, Hc.
  destruct (setup_ok hhdm Hh sy s c vend kphys ∅ 2) as (s1 & R1 & Hbo & Hc1 & C1); try done. fold km in Hbo. exists s1. split; [done|].
  destruct (boot_hinv hhdm km Hh s s1 ∅ Hbo) as (B & _ & I). assert (live km B s1 ∅) as L1 by (by exists B). clear I.
  unfold bring_up. rewrite (bind_run _ _ _ _ _ R1). set (c' := wx_ctl c). unfold demo.
  destruct (demo_frames_ok hhdm Hh km B ram s1 c' L1) as (s2 & R2 & S2 & Hc2 & C2); [done|].
  pose proof (reach_live hhdm Hh km B _ _ _ _ L1 S2) as L2.
  destruct (demo_slab_ok hhdm Hh km B ram s2 c' L2) as (s3 & R3 & S3 & Hc3 & C3); [lia|].
  pose proof (reach_live hhdm Hh km B _ _ _ _ L2 S3) as L3.
  destruct (demo_untyped_ok hhdm km B s3 c' L3) as [(s4 & R4 & S4 & Hc4 & C4)|[R4 Hno]].
  - rewrite (bind_run _ _ _ () (mkKernel s4 c')) by (by rewrite (bind_run _ _ _ _ _ R2), (bind_run _ _ _ _ _ R3)).
    pose proof (reach_live hhdm Hh km B _ _ _ _ L3 S4) as L4.
    destruct (verify_zero_ok hhdm Hh km B ram Hram s4 c' L4) as (s5 & -> & S5 & Hc5 & C5); [lia|]. cbn [machine ctl].
    assert (rtc (step hhdm) (mkPstate s1 ∅ ∅) (mkPstate s5 ∅ ∅)) as St by (unfold reach in *; by repeat (etrans; [eassumption|])).
    split; [exact St|]. split; [done|]. split; [|cbn in *; lia].
    assert (roots s5 = roots s1) as [= -> ->] by congruence. exact C1.
  - assert ((demo_frames hhdm ram;; demo_slab hhdm ram;; demo_untyped) (mkKernel s1 c') = (Err UntypedBlockFailed, mkKernel s3 c')) as E
      by (by rewrite (bind_run _ _ _ _ _ R2), (bind_run _ _ _ _ _ R3)).
    unfold mbind at 1, M_bind at 1. rewrite E. exact Hno.
Qed.

(** ** A small handoff

    The structure at 0x1000, an array of three regions at physical 0x2000. *)

Definition demo_regions : list MemRegion :=
  [mkRegion 0 1 RESERVED 0; mkRegion 0x9000 3 USABLE 0; mkRegion 0x2000 5 USABLE 0].
Definition demo_info : WardenBootInfo :=
  mkBootInfo WARDEN_MAGIC 1 0 (mkMap 0x2000 3) OptFb_NONE ModuleList_EMPTY small_hhdm 0xE0000 OptRange_NONE PhysStr_EMPTY.
Definition place (a : Z) (l : bytes) (rest : Z → Z) (x : Z) : Z := 
  if (a <=? x)%Z && (x <? a + Z.of_nat (length l))%Z then l !!! Z.to_nat (x - a) else rest x.
Definition demo_bytes : Z → Z :=
  place 0x1000 (image demo_info) (place (small_hhdm + 0x2000) (concat (image <$> demo_regions)) (λ _, 0%Z)).

Lemma place_holds a l rest : holds (place a l rest) a l.
Proof.
  intros i x Hi. pose proof (lookup_lt_Some _ _ _ Hi). unfold place. rewrite (proj2 (Z.leb_le _ _)), (proj2 (Z.ltb_lt _ _)) by lia. cbn [andb].
  replace (Z.to_nat (a + Z.of_nat i - a)) with i by lia. by apply list_lookup_total_correct.
Qed.

Lemma place_bytes a l rest x : byte_list l → (∀ y, 0 <= rest y < 256)%Z → (0 <= place a l rest x < 256)%Z.
Proof.
  intros Hl Hr. unfold place. destruct (Z.leb_spec a x), (Z.ltb_spec x (a + Z.of_nat (length l))); cbn [andb]; [|apply Hr..].
  apply (Forall_lookup_total_1 _ _ _ Hl). lia.
Qed.

Lemma place_other a l rest x : (a + Z.of_nat (length l) <= x)%Z → place a l rest x = rest x.
Proof. intros H. unfold place. rewrite (proj2 (Z.ltb_ge _ _)) by lia. by rewrite andb_false_r. Qed.

Lemma demo_is_bytes x : (0 <= demo_bytes x < 256)%Z.
Proof.
  apply place_bytes; [apply byte_list_check; by vm_compute|]. intros y. apply place_bytes; [apply byte_list_check; by vm_compute|]. lia.
Qed.

Lemma demo_array_holds : holds demo_bytes (small_hhdm + 0x2000) (concat (image <$> demo_regions)).
Proof.
  intros i x Hi. unfold demo_bytes. rewrite place_other; [by apply place_holds|].
  change (length (image demo_info)) with 144. unfold small_hhdm. lia.
Qed.

Lemma handoff_roundtrip_witness :
  read_bootinfo demo_bytes 0x1000 = demo_info ∧ regions demo_bytes (small_hhdm + 0x2000) 3 = demo_regions.
Proof.
  destruct (handoff_roundtrip demo_bytes 0x1000 (small_hhdm + 0x2000) demo_info demo_regions) as (H1 & H2 & _).
  - by vm_compute.
  - repeat (constructor; [by vm_compute|]). constructor.
  - apply place_holds.
  - apply demo_array_holds.
  - split; [exact H1|exact H2].
Defined.

Lemma dump_exact_witness :
  last (validate_and_dump demo_bytes 0x1000 []).2 = Some (LUsable 8 0).
Proof.
  assert (refusal demo_bytes 0x1000 = None) as E by (vm_compute; reflexivity).
  rewrite (dump_exact demo_bytes 0x1000 demo_is_bytes E). vm_compute. reflexivity.
Defined.

(** A machine as the loader leaves it: its tables map the kernel with one page of
    1 GiB, and the allocator of [small_boot] is installed. *)
Definition loader_tables : gmap Z (list Z) :=
  <[0x1000%Z := <[511:=0x2003%Z]> (replicate 512 0%Z)]> (<[0x2000%Z := <[510:=0x40000083%Z]> (replicate 512 0%Z)]> ∅).
Definition loader_s : Mach (option FrameAllocator) := mkMach loader_tables (Some small_fa) 0x1000 0 [].
Definition loader_c : Ctl := mkCtl (2 ^ 20) 0x500 0x80000011.
Definition small_sy : Symbols :=
  let v := 0xffffffff80000000%Z in
  mkSymbols v (v + 0x4800) v (v + 0x2000) (v + 0x2000) (v + 0x4000) (v + 0x4000) (v + 0x5000).
Definition small_ram : Z → list Z := λ _, replicate 512 (0x5555555555555555)%Z.
Definition up_map : KernelMap := kernel_map small_hhdm small_sy 0xffffffff80005000 0x40000000.


Lemma loader_built : ∃ U dp db, built U small_fa dp db.
Proof.
  assert (init_ranges small_hhdm [(16, 1040)%Z] = Ok (small_fa, (16 * 4096, 12288)%Z)) as E
    by (vm_cast_no_check (@eq_refl (I (FrameAllocator * (Z * Z))) (init_ranges small_hhdm [(16, 1040)%Z]))).
  pose proof (init_ranges_spec small_hhdm [(16, 1040)%Z]) as H. rewrite E in H.
  eexists _, _, _. apply H; [unfold small_hhdm; lia|repeat constructor; simpl; lia].
Qed.

Lemma loader_tabs : tabs loader_tables.
Proof.
  unfold loader_tables. apply tabs_insert; [apply tabs_insert| |].
  - intros t T Ht. by rewrite lookup_empty in Ht.
  - split; [lia|reflexivity].
  - reflexivity.
  - split; [lia|reflexivity].
  - reflexivity.
Qed.

Lemma up_map_ok : map_ok up_map.
Proof.
  split; [split| | | | | | |]; cbn [up_map kernel_map kernel_vbase kernel_vend kernel_phys hhdm_offset small_sy kernel_start];
    unfold small_hhdm, canonical; try lia.
  all: vm_compute; (lia || done || congruence).
Qed.

Lemma up_sections : sections_ok up_map.
Proof. split; vm_compute; [intuition congruence..|]. intros _. intuition congruence. Qed.

Lemma memory_comes_up_witness : ∃ s1 k, bring_up small_hhdm small_ram small_sy (mkKernel loader_s loader_c) = (Ok (), k) ∧
  rtc (step small_hhdm) (mkPstate s1 ∅ ∅) (mkPstate (machine k) ∅ ∅) ∧
  EFER (ctl k) = 0xd00%Z ∧ CR0 (ctl k) = 0x80010011%Z.
Proof.
  destruct loader_built as (U & dp & db & Hb).
  destruct (memory_comes_up small_hhdm small_ram small_sy loader_s loader_c small_fa U dp db 0xffffffff80005000 0x40000000)
    as (s1 & _ & H).
  - exact small_room.
  - intros pa. apply length_replicate.
  - exact Hb.
  - reflexivity.
  - exact loader_tabs.
  - by vm_compute.
  - by vm_compute.
  - vm_compute. reflexivity.
  - vm_compute. reflexivity.
  - exact up_map_ok.
  - exact up_sections.
  - assert ((bring_up small_hhdm small_ram small_sy (mkKernel loader_s loader_c)).1 = Ok ()) as E by (vm_compute; reflexivity).
    destruct (bring_up small_hhdm small_ram small_sy (mkKernel loader_s loader_c)) as [r k]. cbn [fst] in E. subst r.
    destruct H as (St & Hc & _). exists s1, k. split; [reflexivity|]. split; [exact St|]. rewrite Hc. split; reflexivity.
Defined.
