(* ===== verification/PagingCount.v ===== *)
(** * What the page-table calls cost

    [spends n m]: when [m] answers, the allocator is still sound and has lost at
    most [n] frames. *)

From stdpp Require Import sets.
From S2P Require Import Prelude Arch Buddy MemInit Frames Paging.

Section spends.
Context {F : Type} {FS : FrameSource F}.
Variable HHDM_OFFSET : Z.
Abbreviation PM := (M (Mach F) Empty_set).

Definition spends {A} (n : nat) (m : PM A) : Prop := ∀ s H a s', held (fr s) H → m s = (Ok a, s') →
  ∃ H', held (fr s') H' ∧ (fs_count (fr s) <= fs_count (fr s') + Z.of_nat n)%Z.

Lemma spends_frames {A} (m : PM A) : (∀ s a s', m s = (Ok a, s') → fr s' = fr s) → spends 0 m.
Proof using Type. intros H s G a s' Hh R. exists G. rewrite (H _ _ _ R). split; [done|lia]. Qed.

Lemma spends_bind {A B} n k (m : PM A) (K : A → PM B) : spends n m → (∀ a, spends k (K a)) → spends (n + k) (m ≫= K).
Proof using Type.
  intros Hm HK s H b s' Hh R. unfold mbind, M_bind in R. destruct (m s) as [[a|e|] s1] eqn:E; try done.
  destruct (Hm s H a s1 Hh E) as (H1 & Hh1 & Hc1). destruct (HK a s1 H1 b s' Hh1 R) as (H2 & Hh2 & Hc2). exists H2. split; [done|lia].
Qed.

Lemma spends_le {A} n k (m : PM A) : n ≤ k → spends n m → spends k m.
Proof using Type. intros Hn Hm s H a s' Hh R. destruct (Hm s H a s' Hh R) as (H' & ? & ?). exists H'. split; [done|lia]. Qed.

Lemma spends_ret {A} (a : A) : spends 0 (mret a).
Proof using Type. apply spends_frames. by intros s b s' [= _ <-]. Qed.

Lemma spends_lift {A} (r : res Empty_set A) : spends 0 (lift r).
Proof using Type. apply spends_frames. by intros s b s' [= _ <-]. Qed.

Lemma spends_panic {A} : spends 0 (panic (A := A)).
Proof using Type. apply spends_frames. by intros s b s' [=]. Qed.

Lemma spends_get : spends 0 get.
Proof using Type. apply spends_frames. by intros s b s' [= _ <-]. Qed.

Lemma spends_mfor {X} n (l : list X) (body : X → PM unit) : (∀ x, spends n (body x)) → spends (length l * n) (mfor l body).
Proof using Type.
  intros H. induction l as [|x l IH]; [apply spends_ret|]. cbn [mfor length]. change (S (length l) * n) with (n + length l * n).
  apply spends_bind; [apply H|]. intros _. exact IH.
Qed.

Lemma spends_modify f : (∀ s, fr (f s) = fr s) → spends 0 (modify f).
Proof using Type. intros H. apply spends_frames. intros s b s' [= _ <-]. apply H. Qed.
End spends.

(** One call that may take a frame, and any number that take none. *)
Create HintDb spends.
#[export] Hint Resolve spends_ret spends_lift spends_panic spends_get : spends.

Ltac spend :=
  lazymatch goal with
  | |- spends 0 (_ ≫= _) => apply (spends_bind 0 0); [|intro]
  | |- spends _ (if _ then _ else _) => case_match
  | |- spends _ (match _ with _ => _ end) => case_match
  | |- spends _ (let _ := _ in _) => cbv zeta
  | |- spends 0 (modify _) => apply spends_modify; intros; reflexivity
  | |- spends 0 (set_mem _) => apply spends_modify; intros; reflexivity
  end.

Section calls.
Context {F : Type} {FS : FrameSource F}.
Variable HHDM_OFFSET : Z.

Lemma write_spends t i v : spends 0 (write_entry HHDM_OFFSET t i v).
Proof using Type. unfold write_entry. repeat first [spend | solve [auto with spends]]. Qed.

Lemma read_spends t i : spends 0 (read_entry HHDM_OFFSET t i).
Proof using Type. unfold read_entry. repeat first [spend | solve [auto with spends]]. Qed.

Lemma assert_spends b : spends 0 (assert b).
Proof using Type. unfold assert. repeat first [spend | solve [auto with spends]]. Qed.

Lemma alloc_spends : spends 1 (alloc_zeroed_frame HHDM_OFFSET).
Proof using Type.
  unfold alloc_zeroed_frame. apply (spends_bind 1 0).
  - intros s H a s' Hh R. unfold on_frames in R. pose proof (fs_alloc_spec (fr s) H Hh) as Ha.
    destruct (fs_alloc (fr s)) as [[[pa|]|e|] f]; try done; injection R as _ <-; cbn [fr].
    + destruct Ha as (_ & Hh' & Hc). exists ({[pa]} ∪ H). split; [done|lia].
    + destruct Ha as [-> _]. exists H. split; [done|lia].
  - intros [pa|]; repeat first [spend | solve [auto with spends]].
Qed.
End calls.
#[export] Hint Resolve write_spends read_spends assert_spends alloc_spends : spends.

Ltac spends_none := repeat first [solve [auto with spends] | spend].

Section costs.
Context {F : Type} {FS : FrameSource F}.
Variable HHDM_OFFSET : Z.

Lemma alloc_table_spends : spends 1 (alloc_table HHDM_OFFSET).
Proof using Type. unfold alloc_table. apply (spends_bind 1 0); [auto with spends|]. intro. spends_none. Qed.

Lemma clone_spends t : spends 1 (clone_table HHDM_OFFSET t).
Proof using Type.
  unfold clone_table. apply (spends_bind 1 0); [apply alloc_table_spends|]. intro n. apply (spends_bind 0 0); [|intro; spends_none].
  apply (spends_le (length (seq 0 512) * 0)); [lia|]. apply spends_mfor. intro. spends_none.
Qed.

Lemma split_spends e : spends 1 (split_huge HHDM_OFFSET e).
Proof using Type.
  unfold split_huge. cbv zeta. apply (spends_bind 1 0); [apply alloc_table_spends|]. intro n. apply (spends_bind 0 0); [|intro; spends_none].
  apply (spends_le (length (seq 0 512) * 0)); [lia|]. apply spends_mfor. intro. spends_none.
Qed.

Lemma privatise_spends pd i : spends 1 (privatise HHDM_OFFSET pd i).
Proof using Type.
  unfold privatise. apply (spends_bind 0 1); [auto with spends|]. intro e. case_match; [|by apply (spends_le 0); [lia|spends_none]].
  apply (spends_bind 1 0); [apply clone_spends|]. intro. spends_none.
Qed.

Lemma new_space_spends : spends 515 (new_process_space HHDM_OFFSET).
Proof using Type.
  unfold new_process_space. apply (spends_bind 0 515); [auto with spends|]. intro s. cbv zeta.
  apply (spends_bind 1 514); [apply clone_spends|]. intro t4. apply (spends_bind 0 514); [auto with spends|]. intro e0.
  apply (spends_bind 1 513); [apply clone_spends|]. intro t3. apply (spends_bind 0 513); [auto with spends|]. intro.
  apply (spends_bind 0 513); [auto with spends|]. intro e1. apply (spends_bind 1 512); [apply clone_spends|]. intro t2.
  apply (spends_bind 0 512); [auto with spends|]. intro. apply (spends_bind 512 0); [|intro; spends_none].
  apply (spends_le (length (seq 0 512) * 1)); [rewrite length_seq; lia|]. apply spends_mfor. intro. apply privatise_spends.
Qed.

Lemma map_user_spends v pa prot d : spends 1 (map_user_page HHDM_OFFSET v pa prot d).
Proof using Type.
  unfold map_user_page. cbv zeta. apply (spends_bind 1 0); [|intro; unfold invlpg; spends_none].
  unfold ensure_pt_user, current_pml4, set_user. apply (spends_bind 0 1); [spends_none|]. intro t4. apply (spends_bind 0 1); [spends_none|]. intro e4.
  do 2 (apply (spends_bind 0 1); [spends_none|]; intro). cbv zeta. apply (spends_bind 0 1); [spends_none|]. intro e3.
  do 2 (apply (spends_bind 0 1); [spends_none|]; intro). cbv zeta. apply (spends_bind 0 1); [spends_none|]. intro e2.
  apply (spends_bind 0 1); [spends_none|]. intro. case_match.
  - apply (spends_bind 1 0); [apply split_spends|]. intro. spends_none.
  - apply (spends_le 0); [lia|]. spends_none.
Qed.
End costs.
