(* ===== verification/Process.v ===== *)
(** * Processes: loading, sharing, reaping ([kernel/src/user/mod.rs])

    Here the loader, the page tables, the frame allocator and the capability
    spaces of the processes act together.  [load_process] builds a page table,
    runs the loader on it, maps a stack and registers the capability space;
    [setup_shared_region] maps one frame into two processes.  The effects the
    loader logs ([Loader.event]) are carried out on the machine, in order, by
    [perform].  A [fatal] halt is a [Panic]; [preempt_disable] and
    [preempt_restore] mask the timer around these calls and have no other effect.

    [ram] is what physical memory holds where nobody has written yet. *)

From S2P Require Import Prelude Rights Cap CSpace Buddy Pex Arch Loader Userland MemInit Frames Paging.

(** ** Constants *)

Definition SHARED_VA : Z := 0x40700000.
Definition SHARED_SLOT : nat := 4.
Definition SHARED_DOMAIN : Z := 0.
Definition PING : nat := 0.
Definition PONG : nat := 1.
Definition PING_STACK_VA : Z := 0x40200000.
Definition PONG_STACK_VA : Z := 0x40400000.

(** The machine, the statics of [user], and the two values every load of a
    session is passed by reference: the loader's authority and its scratch cursor. *)
Record Sys (F : Type) := mkSys {
  mach_of : Mach F;
  user : User;
  auth : CSpace;
  cursor : nat
}.
Arguments mkSys {F} _ _ _ _.
Arguments mach_of {F} _.
Arguments user {F} _.
Arguments auth {F} _.
Arguments cursor {F} _.

Section process.
Context {BF : Bitflags} {F : Type} {FS : FrameSource F}.
Variables HHDM_OFFSET PEX_ARCH : Z.
Variable ram : Z → list Z.
Abbreviation PM := (M (Mach F) Empty_set).
Abbreviation SM := (M (Sys F) Empty_set).

Definition on_mach {A} (m : PM A) : SM A := λ s,
  let '(r, k) := m (mach_of s) in (r, mkSys k (user s) (auth s) (cursor s)).

(** [opt.unwrap_or_else(|| fatal(..))] *)
Definition unwrap {A} (o : option A) : SM A :=
  match o with
  | Some a => mret a
  | None => panic
  end.

(** ** The effects of the loader *)

(** [memory::zero_frame] *)
Definition zero_frame (pa : Z) : PM unit :=
  lift (phys_to_virt HHDM_OFFSET pa);;
  s ← get;
  set_mem (<[pa:=replicate 512 0%Z]> (mem s)).

(** Frame [pa] with [d] written over its first bytes. *)
Definition fill_frame (pa : Z) (d : bytes) : PM unit :=
  s ← get;
  set_mem (<[pa:=frame_words 512 (d ++ drop (length d) (frame_bytes (contents ram s pa)))]> (mem s)).

(** [core::ptr::copy_nonoverlapping] to the direct map of a run of frames. *)
Definition copy_nonoverlapping (hhdm : Z) (d : bytes) : PM unit :=
  mfor (seq 0 (Z.to_nat (div_ceil (blen d) 4096))) (λ k,
    fill_frame (hhdm - HHDM_OFFSET + Z.of_nat k * 4096) (take 4096 (drop (k * 4096) d))).

Definition perform (e : event) : PM unit :=
  match e with
  | EZero f n =>
      match zero_frames f n with
      | Ok pas => mfor pas zero_frame
      | _ => panic
      end
  | ECopy h d => copy_nonoverlapping h d
  | ESync _ _ => mret ()
  | EMap va pa prot => map_page HHDM_OFFSET va pa prot
  | EMapUser va pa prot dom => map_user_page HHDM_OFFSET va pa prot dom
  end.

(** [crate::loader::load] into a new capability space. *)
Definition load_image (pex : bytes) (domain : Z) : SM (Loaded * CSpace) := λ s,
  match load HHDM_OFFSET PEX_ARCH pex domain true (mkLState (auth s) (cspace_new PROC_SLOTS) (cursor s) [] 0 []) with
  | (Ok out, l) =>
      match mfor (events l) perform (mach_of s) with
      | (Ok _, m) => (Ok (out, pr l), mkSys m (user s) (ld l) (scratch l))
      | (_, m) => (Panic, mkSys m (user s) (ld l) (scratch l))
      end
  | _ => (Panic, s)
  end.

(** [PROC_CSPACES.lock()[id] = Some(cs)] *)
Definition register (id : nat) (cs : CSpace) : SM unit := λ s,
  let u := user s in
  if decide (id < length (PROC_CSPACES u)) then
    (Ok (), mkSys (mach_of s) (mkUser (<[id:=Some cs]> (PROC_CSPACES u)) (PROC_DONE u) (PROC_EXITS u)
               (EP_RDV u) (NOTIFY u) (console u)) (auth s) (cursor s))
  else (Panic, s).

(** ** Loading *)

Definition load_process (pex : bytes) (domain : Z) (id : nat) (stack_va : Z) : SM (Z * Z * AddressSpace) :=
  space ← on_mach (new_process_space HHDM_OFFSET);
  on_mach (activate_address_space space);;
  lc ← load_image pex domain;
  o ← on_mach (on_frames fs_alloc);
  stack_phys ← unwrap o;
  on_mach (map_user_page HHDM_OFFSET stack_va stack_phys Rw domain);;
  s ← get;
  on_mach (activate_address_space (kernel_space (mach_of s)));;
  register id lc.2;;
  stack_top ← lift (arith 64 (stack_va + PAGE));
  mret (l_entry lc.1, stack_top, space).

(** ** The shared region *)

Definition map_shared_into (space : AddressSpace) (phys : Z) (prot : Prot) : SM unit :=
  on_mach (activate_address_space space);;
  on_mach (map_user_page HHDM_OFFSET SHARED_VA phys prot SHARED_DOMAIN);;
  s ← get;
  on_mach (activate_address_space (kernel_space (mach_of s))).

Definition assert_shared_ro (space : AddressSpace) : SM unit :=
  on_mach (activate_address_space space);;
  prot ← on_mach (page_prot HHDM_OFFSET SHARED_VA);
  s ← get;
  on_mach (activate_address_space (kernel_space (mach_of s)));;
  match prot with
  | Some (false, _) => mret ()
  | _ => panic
  end.

(** [g[id].as_mut().unwrap_or_else(|| fatal(..)).<install>] *)
Definition install_at (id : nat) (m : CM unit) : SM unit := λ s,
  match with_cspace id m (user s) with
  | (Ok (Ok _), u) => (Ok (), mkSys (mach_of s) u (auth s) (cursor s))
  | (_, u) => (Panic, mkSys (mach_of s) u (auth s) (cursor s))
  end.

Definition setup_shared_region (owner_space peer_space : AddressSpace) : SM Z :=
  o ← on_mach (on_frames fs_alloc);
  phys ← unwrap o;
  on_mach (zero_frame phys);;
  let pfn := phys_to_pfn phys in
  map_shared_into owner_space phys Rw;;
  map_shared_into peer_space phys Ro;;
  assert_shared_ro peer_space;;
  install_at PING (install_frame SHARED_SLOT pfn 1 (bf_union READ WRITE));;
  install_at PONG (install_shared_ro SHARED_SLOT pfn 1 SHARED_VA);;
  mret pfn.

(** The red-team peer of [run_redteam]: the same frame, read-only. *)
Definition share_with (id : nat) (space : AddressSpace) (pfn : Z) : SM unit :=
  map_shared_into space (pfn_to_phys (wrap 32 pfn)) Ro;;
  install_at id (install_shared_ro SHARED_SLOT pfn 1 SHARED_VA).

End process.
