(* ===== verification/ProcessMem.v ===== *)
(** * Loading a process: the contents of its frames

    What the zeroing and copying effects of a load leave in physical memory, and
    that they disturb no page table: the frames they write are frames handed out,
    and those are never tables ([PagingHistory.h_apart]). *)

From stdpp Require Import sets.
From S2P Require Import Prelude Rights Cap CSpace Buddy Pex Arch Loader LoaderTrace Userland MemInit Frames.
From S2P Require Import Paging PagingInv PagingOps PagingClone PagingWorld PagingBuild PagingBoot PagingHistory Process.

(** ** Frames as bytes *)

Lemma to_from_le b : byte_list b → to_le (length b) (from_le b) = b.
Proof.
  induction b as [|x b IH]; intros Hb; [done|]. apply Forall_cons in Hb as [Hx Hb]. cbn [length to_le from_le].
  replace (x + 256 * from_le b)%Z with (x + from_le b * 256)%Z by lia. rewrite Z.mod_add, Z.div_add by lia.
  rewrite Z.mod_small, Z.div_small by lia. rewrite Z.add_0_l. by rewrite IH.
Qed.

Lemma frame_bytes_length T : length (frame_bytes T) = 8 * length T.
Proof. induction T as [|x T IH]; [done|]. change (frame_bytes (x :: T)) with (to_le 8 x ++ frame_bytes T). rewrite length_app, IH, to_le_length. cbn [length]. lia. Qed.

Lemma frame_words_size n b : length (frame_words n b) = n.
Proof. revert b. induction n as [|n IH]; intros b; [done|]. cbn [frame_words length]. by rewrite IH. Qed.

Lemma frame_bytes_words n b : length b = 8 * n → byte_list b → frame_bytes (frame_words n b) = b.
Proof.
  revert b. induction n as [|n IH]; intros b Hl Hb; [by apply nil_length_inv in Hl|].
  change (frame_bytes (frame_words (S n) b)) with (to_le 8 (from_le (take 8 b)) ++ frame_bytes (frame_words n (drop 8 b))).
  rewrite IH; [|rewrite length_drop; lia|by apply Forall_drop].
  replace 8 with (length (take 8 b)) at 1 by (rewrite length_take; lia). rewrite to_from_le by (by apply Forall_take). apply take_drop.
Qed.

Lemma frame_bytes_zeros n : frame_bytes (replicate n 0%Z) = replicate (8 * n) 0%Z.
Proof.
  induction n as [|n IH]; [done|]. change (frame_bytes (replicate (S n) 0%Z)) with (to_le 8 0 ++ frame_bytes (replicate n 0%Z)).
  rewrite IH. replace (8 * S n) with (8 + 8 * n) by lia. by rewrite replicate_add.
Qed.

(** The byte at offset [j] of a segment in memory: the image, then zeros. *)
Definition seg_byte (d : bytes) (j : nat) : Z := default 0%Z (d !! j).

(** A zeroed frame with the [k]-th page of [d] written over it. *)
Lemma filled_frame d k i : byte_list d → i < 4096 → let c := take 4096 (drop (k * 4096) d) in
  frame_bytes (frame_words 512 (c ++ drop (length c) (frame_bytes (replicate 512 0%Z)))) !! i = Some (seg_byte d (k * 4096 + i)).
Proof.
  intros Hd Hi c. rewrite frame_bytes_zeros. change (8 * 512) with 4096. assert (length c ≤ 4096) as Hc by (unfold c; rewrite length_take; lia).
  rewrite frame_bytes_words.
  - unfold seg_byte. destruct (decide (i < length c)) as [Hlt|Hge].
    + rewrite lookup_app_l by done. unfold c in *. rewrite lookup_take_lt by lia. rewrite lookup_drop.
      rewrite length_take, length_drop in Hlt. destruct (lookup_lt_is_Some_2 d (k * 4096 + i)) as [x ->]; [lia|done].
    + rewrite lookup_app_r by lia. rewrite lookup_drop, lookup_replicate_2 by lia. f_equal.
      rewrite (lookup_ge_None_2 d); [done|]. unfold c in Hge. rewrite length_take, length_drop in Hge. lia.
  - rewrite length_app, length_drop, length_replicate. lia.
  - apply Forall_app. split; [by apply Forall_take, Forall_drop|]. apply Forall_drop, Forall_replicate. lia.
Qed.

Section data.
Context {F : Type} {FS : FrameSource F}.
Variable HHDM_OFFSET : Z.
Variable km : KernelMap.
Hypothesis HHDM_room : (0 <= HHDM_OFFSET <= 2 ^ 64 - 2 ^ 44)%Z.
Implicit Types s : Mach F.

(** Only the contents of frames handed out differ. *)
Definition data_step (D : gset Z) s s' : Prop :=
  s' = upd s (mem s') (fr s) ∧ (∀ t, t ∉ D → mem s' !! t = mem s !! t) ∧
  ∀ B U H, hinv km B (mkPstate s U D) H → hinv km B (mkPstate s' U D) H ∧ ∀ r, root s U r → keeps (mem s) (mem s') r.

Lemma data_refl D s : data_step D s s.
Proof using Type. split; [by destruct s|]. done. Qed.

Lemma data_trans D s1 s2 s3 : data_step D s1 s2 → data_step D s2 s3 → data_step D s1 s3.
Proof using Type.
  intros (E1 & N1 & H1) (E2 & N2 & H2). split; [rewrite E2, E1; done|]. split; [intros t Ht; by rewrite N2, N1|].
  intros B U H I. destruct (H1 B U H I) as [I1 K1]. destruct (H2 B U H I1) as [I2 K2]. split; [done|]. intros r Hr.
  assert (root s2 U r) as Hr2 by (rewrite E1; exact Hr). eapply keeps_trans; [by apply K1|by apply K2].
Qed.

Lemma data_write D s pa T : pa ∈ D → length T = 512 → data_step D s (upd s (<[pa:=T]> (mem s)) (fr s)).
Proof using Type.
  intros Hpa HT. split; [done|]. split; [intros t Ht; cbn [upd mem]; apply lookup_insert_ne; by intros ->|].
  intros B U H I. by apply (write_hinv km B s U D pa T (upd s (<[pa:=T]> (mem s)) (fr s)) H I Hpa HT).
Qed.

Lemma zeros_run D pas s : (∀ pa, pa ∈ pas → pa ∈ D ∧ frame_ok pa) →
  ∃ s', mfor pas (zero_frame HHDM_OFFSET) s = (Ok (), s') ∧ data_step D s s' ∧
    ∀ t, mem s' !! t = if decide (t ∈ pas) then Some (replicate 512 0%Z) else mem s !! t.
Proof using HHDM_room.
  revert s. induction pas as [|pa pas IH]; intros s Hpa; [exists s; split; [done|]; split; [apply data_refl|done]|].
  destruct (Hpa pa) as [Hin [Hb _]]; [by left|]. set (s1 := upd s (<[pa:=replicate 512 0%Z]> (mem s)) (fr s)).
  destruct (IH s1) as (s' & R & Hd & Hm); [intros p Hp; apply Hpa; by right|]. exists s'. split; [|split].
  - cbn [mfor]. rewrite (bind_run _ _ _ () s1); [done|]. unfold zero_frame, phys_to_virt. by rewrite arith_in by (unfold in_u; lia).
  - eapply data_trans; [|exact Hd]. apply data_write; [done|apply length_replicate].
  - intros t. rewrite Hm. cbn [s1 upd mem]. destruct (decide (t ∈ pas)) as [Ht|Ht].
    + rewrite decide_True; [done|by right].
    + destruct (decide (t = pa)) as [->|Hne]; [rewrite decide_True by (by left); apply lookup_insert_eq|].
      rewrite decide_False by (rewrite elem_of_cons; tauto). by apply lookup_insert_ne.
Qed.

Variable ram : Z → list Z.

(** Frame [k] of the run with its page of [d] written over it. *)
Definition filled s (f : Z) (d : bytes) (k : nat) : list Z := frame_words 512 (take 4096 (drop (k * 4096) d) ++
  drop (length (take 4096 (drop (k * 4096) d))) (frame_bytes (contents ram s ((f + Z.of_nat k) * 4096)))).

Lemma fills_run D f d n s : (∀ k, k < n → ((f + Z.of_nat k) * 4096)%Z ∈ D) →
  ∃ s', mfor (seq 0 n) (λ k, fill_frame ram (f * 4096 + HHDM_OFFSET - HHDM_OFFSET + Z.of_nat k * 4096) (take 4096 (drop (k * 4096) d))) s = (Ok (), s') ∧
    data_step D s s' ∧ (∀ k, k < n → mem s' !! ((f + Z.of_nat k) * 4096)%Z = Some (filled s f d k)) ∧
    (∀ t, (∀ k, k < n → t ≠ ((f + Z.of_nat k) * 4096)%Z) → mem s' !! t = mem s !! t).
Proof using Type.
  clear HHDM_room.
  induction n as [|n IH]; intros HD.
  { exists s. split; [done|]. split; [apply data_refl|]. split; [intros; lia|done]. }
  destruct IH as (s1 & R & Hd & Hm & Ho); [intros k Hk; apply HD; clear -Hk; lia|].
  set (pa := ((f + Z.of_nat n) * 4096)%Z). assert (mem s1 !! pa = mem s !! pa) as Hpa by (apply Ho; unfold pa; intros k Hk; lia).
  set (s2 := upd s1 (<[pa:=filled s f d n]> (mem s1)) (fr s1)). exists s2. split; [|split; [|split]].
  - rewrite seq_S, (mfor_app_run _ _ _ _ _ R). cbn [mfor Nat.add]. rewrite (bind_run _ _ _ () s2); [done|].
    unfold fill_frame. replace (f * 4096 + HHDM_OFFSET - HHDM_OFFSET + Z.of_nat n * 4096)%Z with pa by (unfold pa; lia).
    unfold s2, filled, contents. fold pa. rewrite <- Hpa. done.
  - eapply data_trans; [exact Hd|]. apply data_write; [apply HD; lia|apply frame_words_size].
  - intros k Hk. cbn [s2 upd mem]. destruct (decide (k = n)) as [->|]; [apply lookup_insert_eq|].
    rewrite lookup_insert_ne by (unfold pa; lia). apply Hm. lia.
  - intros t Ht. cbn [s2 upd mem]. rewrite lookup_insert_ne by (apply not_eq_sym, Ht; lia). apply Ho. intros k Hk. apply Ht. lia.
Qed.
End data.
