(* ===== verification/ProcessLoad.v ===== *)
(** * Loading a process: the run

    The effects of a load, carried out on the machine: the segments end up in
    their frames, the frames in the new process's page table, and nothing else
    changes.  From this the whole of [load_process] is computed. *)

From stdpp Require Import sets.
From S2P Require Import Prelude Rights Cap CSpace CSpaceReach Buddy Pex Arch Loader LoaderTheorems LoaderTrace Userland MemInit Frames.
From S2P Require Import Paging PagingInv PagingOps PagingClone PagingWorld PagingBuild PagingBoot PagingHistory PagingCount Process ProcessMem.

#[local] Opaque idx.

(** ** The specification *)

(** A frame number in a run of frames. *)
Definition in_run (f : Z) (n : nat) (t : Z) : Prop := ∃ k, k < n ∧ t = ((f + Z.of_nat k) * 4096)%Z.

(** The pages of a process after one segment, after all of them. *)
Definition seg_map (f : Z) (sd : Segment * bytes) (P : pages) (n : nat) : pages :=
  foldl (λ P k, <[page (vaddr sd.1 + Z.of_nat k * 4096) := (((f + Z.of_nat k) * 4096)%Z, perm_to_prot (perm sd.1))]> P) P (seq 0 n).
Fixpoint load_pages (f : Z) (sds : list (Segment * bytes)) (P : pages) : pages :=
  match sds with
  | [] => P
  | sd :: sds' => load_pages (f + Z.of_nat (seg_pages sd)) sds' (seg_map f sd P (seg_pages sd))
  end.

(** The frames of a segment hold its bytes. *)
Definition seg_loaded (m : memory) (f : Z) (sd : Segment * bytes) : Prop := ∀ k i, k < seg_pages sd → i < 4096 →
  ∃ T, m !! ((f + Z.of_nat k) * 4096)%Z = Some T ∧ frame_bytes T !! i = Some (seg_byte sd.2 (k * 4096 + i)).
Fixpoint loaded (m : memory) (f : Z) (sds : list (Segment * bytes)) : Prop :=
  match sds with
  | [] => True
  | sd :: sds' => seg_loaded m f sd ∧ loaded m (f + Z.of_nat (seg_pages sd)) sds'
  end.

(** What the parser guarantees of a segment, and the loader's window check. *)
Record seg_wf (sd : Segment * bytes) : Prop := {
  sw_bytes : byte_list sd.2;
  sw_fits : (blen sd.2 <= mem_size sd.1)%Z;
  sw_size : (mem_size sd.1 = Z.of_nat (seg_pages sd) * 4096)%Z;
  sw_align : (vaddr sd.1 mod 4096 = 0)%Z;
  sw_window : in_window sd
}.

Lemma loaded_keep m m' f sds : (∀ t, in_run f (total_pages sds) t → m' !! t = m !! t) → loaded m f sds → loaded m' f sds.
Proof.
  revert f. induction sds as [|sd sds IH]; intros f Hm; [done|]. unfold total_pages in *. cbn [sum_list_with loaded] in *. intros [Hs Hl]. split.
  - intros k i Hk Hi. rewrite Hm; [by apply Hs|]. exists k. split; [lia|done].
  - apply IH; [|done]. intros t (k & Hk & ->). apply Hm. exists (seg_pages sd + k). split; [lia|]. f_equal. lia.
Qed.

Lemma zero_frames_eq f n : (0 <= f)%Z → (f + Z.of_nat n <= 2 ^ 32)%Z →
  zero_frames f (Z.of_nat n) = Ok ((λ k, ((f + Z.of_nat k) * 4096)%Z) <$> seq 0 n).
Proof.
  intros Hf Hn. unfold zero_frames. rewrite Nat2Z.id.
  assert (∀ j, j ≤ n → (fix go (n : nat) (i : Z) : res CapError (list Z) :=
     match n with
     | O => Ok []
     | S n' => f ← arith 64 (f + i); l ← go n' (i + 1)%Z; Ok (pfn_to_phys (wrap 32 f) :: l)
     end) j (Z.of_nat (n - j)) = Ok ((λ k, ((f + Z.of_nat k) * 4096)%Z) <$> seq (n - j) j)) as H.
  { induction j as [|j IH]; intros Hj; [done|]. rewrite arith_in by (unfold in_u; lia). munfold.
    replace (Z.of_nat (n - S j) + 1)%Z with (Z.of_nat (n - j)) by lia. rewrite IH by lia. munfold.
    rewrite wrap_small by (unfold in_u; lia). rewrite pfn_to_phys_eq by lia. cbn [seq fmap list_fmap].
    replace (S (n - S j)) with (n - j) by lia. done. }
  specialize (H n (le_n n)). by rewrite Nat.sub_diag in H.
Qed.

Section load.
Context {BF : Bitflags} {F : Type} {FS : FrameSource F}.
Variables HHDM_OFFSET PEX_ARCH : Z.
Variable km : KernelMap.
Variable ram : Z → list Z.
Hypothesis HHDM_room : (0 <= HHDM_OFFSET <= 2 ^ 64 - 2 ^ 44)%Z.
Implicit Types s : Mach F.

Lemma div_ceil_pages sd : seg_wf sd → Z.to_nat (div_ceil (blen sd.2) 4096) ≤ seg_pages sd ∧
  ∀ k, Z.to_nat (div_ceil (blen sd.2) 4096) ≤ k → length sd.2 ≤ k * 4096.
Proof using Type.
  clear HHDM_room. intros [_ Hf Hs _ _]. unfold blen in *. rewrite Hs in Hf. unfold div_ceil.
  pose proof (Z.div_mod (Z.of_nat (length sd.2) + 4096 - 1) 4096 ltac:(lia)) as E.
  pose proof (Z.mod_pos_bound (Z.of_nat (length sd.2) + 4096 - 1) 4096 ltac:(lia)). split; [lia|]. intros k Hk. lia.
Qed.

(** Zeroing and copying one segment. *)
Lemma contents_run D sd f s : seg_wf sd → (0 <= f)%Z → (f + Z.of_nat (seg_pages sd) <= 2 ^ 32)%Z →
  (∀ t, in_run f (seg_pages sd) t → t ∈ D ∧ frame_ok t) →
  ∃ s1 s2, perform HHDM_OFFSET ram (EZero f (Z.of_nat (seg_pages sd))) s = (Ok (), s1) ∧
    perform HHDM_OFFSET ram (ECopy (f * 4096 + HHDM_OFFSET) sd.2) s1 = (Ok (), s2) ∧
    data_step km D s s2 ∧ seg_loaded (mem s2) f sd ∧ ∀ t, ¬ in_run f (seg_pages sd) t → mem s2 !! t = mem s !! t.
Proof using HHDM_room.
  intros W Hf Hfn HD. set (n := seg_pages sd) in *. destruct (div_ceil_pages sd W) as [Hc Hk]. fold n in Hc.
  set (c := Z.to_nat (div_ceil (blen sd.2) 4096)) in *. set (pas := (λ k, ((f + Z.of_nat k) * 4096)%Z) <$> seq 0 n).
  assert (∀ t, t ∈ pas ↔ in_run f n t) as Hpas.
  { intros t. unfold pas. rewrite list_elem_of_fmap. split.
    - intros (k & -> & Hin%elem_of_seq). exists k. split; [lia|done].
    - intros (k & Hin & ->). exists k. split; [done|]. apply elem_of_seq. lia. }
  destruct (zeros_run HHDM_OFFSET km HHDM_room D pas s) as (s1 & R1 & D1 & M1); [intros pa Hpa; by apply HD, Hpas|].
  destruct (fills_run HHDM_OFFSET km ram D f sd.2 c s1) as (s2 & R2 & D2 & M2 & O2).
  { intros k Hkc. apply HD. exists k. split; [lia|done]. }
  exists s1, s2. split; [|split; [exact R2|split; [by eapply data_trans|split]]].
  - unfold perform. rewrite zero_frames_eq by done. exact R1.
  - intros k i Hkn Hi. assert (mem s1 !! ((f + Z.of_nat k) * 4096)%Z = Some (replicate 512 0%Z)) as Z1.
    { rewrite M1, decide_True; [done|]. apply Hpas. by exists k. }
    destruct (decide (k < c)) as [Hlt|Hge].
    + rewrite M2 by done. eexists. split; [done|]. unfold filled, contents. rewrite Z1. cbn [default].
      apply filled_frame; [apply W|done].
    + rewrite O2 by (intros j Hj; lia). rewrite Z1. eexists. split; [done|]. rewrite frame_bytes_zeros.
      rewrite lookup_replicate_2 by lia. f_equal. unfold seg_byte. rewrite lookup_ge_None_2; [done|]. specialize (Hk k ltac:(lia)). lia.
  - intros t Ht. rewrite O2.
    + rewrite M1, decide_False; [done|]. by rewrite Hpas.
    + intros k Hkc ->. apply Ht. exists k. split; [lia|done].
Qed.

(** ** Steps into the table of [r] *)

Variables (B D : gset Z) (U : gmap Z pages) (r : Z).

(** From pages [P] of [r] to pages [P']: at most [n] frames were taken, of the
    frames handed out only those in [W] changed, and no other space did. *)
Record moves s (P : pages) s' (P' : pages) (n : nat) (W : Z → Prop) : Prop := {
  mv_inv : ∃ H', hinv km B (mkPstate s' (<[r:=P']> U) D) H';
  mv_cr3 : cr3 s' = cr3 s;
  mv_kernel : KERNEL_PML4 s' = KERNEL_PML4 s;
  mv_keeps q : root s (<[r:=P]> U) q → q ≠ r → keeps (mem s) (mem s') q;
  mv_data t : t ∈ D → ¬ W t → mem s' !! t = mem s !! t;
  mv_nodes q t : length q ≤ 3 → node (mem s) r q = Some t → node (mem s') r q = Some t;
  mv_count : (fs_count (fr s) <= fs_count (fr s') + Z.of_nat n)%Z
}.

Lemma moves_refl s P W : (∃ H, hinv km B (mkPstate s (<[r:=P]> U) D) H) → moves s P s P 0 W.
Proof using Type. intros HI. split; try done. lia. Qed.

Lemma moves_trans s1 P1 s2 P2 s3 P3 n1 n2 W1 W2 : moves s1 P1 s2 P2 n1 W1 → moves s2 P2 s3 P3 n2 W2 →
  moves s1 P1 s3 P3 (n1 + n2) (λ t, W1 t ∨ W2 t).
Proof using Type.
  clear HHDM_room. intros [A1 A2 A3 A4 A5 A6 A7] [B1 B2 B3 B4 B5 B6 B7]. split; try done.
  - by rewrite B2.
  - by rewrite B3.
  - intros q Hq Hne. eapply keeps_trans; [by apply A4|]. apply B4; [|done]. unfold root in *. rewrite A3.
    destruct Hq as [|Hq]; [by left|right]. by rewrite lookup_insert_ne in Hq |- * by done.
  - intros t Ht Hn. rewrite B5; [apply A5| |]; auto.
  - intros q t Lq Nq. by apply B6, A6.
  - lia.
Qed.

Lemma moves_weaken s P s' P' n n' W W' : moves s P s' P' n W → n ≤ n' → (∀ t, W t → W' t) → moves s P s' P' n' W'.
Proof using Type. clear HHDM_room. intros [A1 A2 A3 A4 A5 A6 A7] Hn HW. split; try done; [|lia]. intros t Ht Hw. apply A5; auto. Qed.

Lemma data_moves s P s' W : data_step km D s s' → (∃ H, hinv km B (mkPstate s (<[r:=P]> U) D) H) →
  (∀ t, ¬ W t → mem s' !! t = mem s !! t) → moves s P s' P 0 W.
Proof using Type.
  clear HHDM_room. intros (E & _ & Hd) [H I] HW. destruct (Hd _ _ _ I) as [I' K].
  assert (cr3 s' = cr3 s ∧ KERNEL_PML4 s' = KERNEL_PML4 s ∧ fr s' = fr s) as (E1 & E2 & E3) by (rewrite E; done).
  split; [by exists H|done|done|..].
  - intros q Hq _. by apply K.
  - intros t _ Ht. by apply HW.
  - intros q t Lq Nq. rewrite (keeps_node (mem s)); [done| |lia]. apply K. right. rewrite lookup_insert_eq. by eexists.
  - rewrite E3. lia.
Qed.

Lemma page_moves s P vaddr phys prot dom : (∃ H, hinv km B (mkPstate s (<[r:=P]> U) D) H) → cr3 s = r → window vaddr →
  (0 <= phys < 2 ^ 52)%Z → (phys mod 4096 = 0)%Z → (1 <= fs_count (fr s))%Z →
  ∃ s', map_user_page HHDM_OFFSET vaddr phys prot dom s = (Ok (), s') ∧
    moves s P s' (<[page vaddr:=(phys, prot)]> P) 1 (λ _, False) ∧ is_Some (node (mem s') r (page vaddr).1).
Proof using HHDM_room.
  intros [H I] Hr Hv Hp Ha Hc.
  destruct (map_run HHDM_OFFSET km HHDM_room B s (<[r:=P]> U) D P vaddr phys prot dom H I) as (s' & H' & R & I' & K & Ek & Ec & Kd & Kn & Kp); try done.
  { rewrite Hr. apply lookup_insert_eq. }
  rewrite Hr in *. rewrite insert_insert_eq in I'. exists s'. split; [done|]. split; [|done].
  pose proof (ok_held _ _ _ (w_okay _ _ _ _ (h_world _ _ _ _ I))) as Hh.
  destruct (map_user_spends HHDM_OFFSET vaddr phys prot dom s H () s' Hh R) as (H2 & _ & Hcount).
  split; try done; [by exists H'|congruence|]. intros t Ht _. by apply Kd.
Qed.

Lemma maps_run f sd dom n s P : (∃ H, hinv km B (mkPstate s (<[r:=P]> U) D) H) → cr3 s = r → seg_wf sd → n ≤ seg_pages sd →
  (0 <= f)%Z → (f + Z.of_nat (seg_pages sd) <= 2 ^ 32)%Z → (Z.of_nat n <= fs_count (fr s))%Z →
  ∃ s', mfor ((λ k, EMapUser (vaddr sd.1 + Z.of_nat k * 4096) ((f + Z.of_nat k) * 4096) (perm_to_prot (perm sd.1)) dom) <$> seq 0 n)
      (perform HHDM_OFFSET ram) s = (Ok (), s') ∧ moves s P s' (seg_map f sd P n) n (λ _, False).
Proof using HHDM_room.
  intros I Hr W Hn Hf Hfn Hc. induction n as [|n IH]; [exists s; split; [done|by apply moves_refl]|].
  destruct IH as (s1 & R1 & M1); [lia|lia|]. destruct W as [_ _ Hs Ha [Hw1 Hw2]]. unfold PROC_VA_BASE, PROC_VA_END in *.
  destruct (page_moves s1 (seg_map f sd P n) (vaddr sd.1 + Z.of_nat n * 4096) ((f + Z.of_nat n) * 4096) (perm_to_prot (perm sd.1)) dom)
    as (s2 & R2 & M2 & _).
  - apply (mv_inv _ _ _ _ _ _ M1).
  - by rewrite (mv_cr3 _ _ _ _ _ _ M1).
  - unfold window. lia.
  - lia.
  - by apply Z.mod_mul.
  - pose proof (mv_count _ _ _ _ _ _ M1). lia.
  - exists s2. split.
    + rewrite seq_S, fmap_app, (mfor_app_run _ _ _ _ _ R1). cbn [fmap list_fmap mfor Nat.add]. by rewrite (bind_run _ _ _ _ _ R2).
    + unfold seg_map. rewrite seq_S, foldl_app. cbn [foldl Nat.add].
      eapply moves_weaken; [eapply moves_trans; [exact M1|exact M2]|lia|tauto].
Qed.

Lemma segment_moves f sd dom s P : (∃ H, hinv km B (mkPstate s (<[r:=P]> U) D) H) → cr3 s = r → seg_wf sd →
  (0 <= f)%Z → (f + Z.of_nat (seg_pages sd) <= 2 ^ 32)%Z → (Z.of_nat (seg_pages sd) <= fs_count (fr s))%Z →
  (∀ t, in_run f (seg_pages sd) t → t ∈ D) →
  ∃ s', mfor (seg_trace HHDM_OFFSET dom true f sd) (perform HHDM_OFFSET ram) s = (Ok (), s') ∧
    moves s P s' (seg_map f sd P (seg_pages sd)) (seg_pages sd) (in_run f (seg_pages sd)) ∧ seg_loaded (mem s') f sd.
Proof using HHDM_room.
  intros I Hr W Hf Hfn Hc HD. assert (∀ t, in_run f (seg_pages sd) t → t ∈ D ∧ frame_ok t) as HD'.
  { intros t Ht. split; [by apply HD|]. destruct Ht as (k & Hk & ->). split; [lia|]. by apply Z.mod_mul. }
  destruct (contents_run D sd f s W Hf Hfn HD') as (s1 & s2 & R1 & R2 & Hd & Hl & Ho).
  pose proof (data_moves s P s2 (in_run f (seg_pages sd)) Hd I Ho) as M1.
  destruct (maps_run f sd dom (seg_pages sd) s2 P) as (s3 & R3 & M2); try done.
  - apply (mv_inv _ _ _ _ _ _ M1).
  - by rewrite (mv_cr3 _ _ _ _ _ _ M1).
  - pose proof (mv_count _ _ _ _ _ _ M1). lia.
  - exists s3. split; [|split].
    + unfold seg_trace. cbn [mfor]. rewrite (bind_run _ _ _ _ _ R1), (bind_run _ _ _ _ _ R2). destruct (is_exec sd.1); exact R3.
    + eapply moves_weaken; [eapply moves_trans; [exact M1|exact M2]|lia|tauto].
    + intros k i Hk Hi. rewrite (mv_data _ _ _ _ _ _ M2) by (try tauto; apply HD; by exists k). by apply Hl.
Qed.

Lemma trace_moves sds f dom s P : (∃ H, hinv km B (mkPstate s (<[r:=P]> U) D) H) → cr3 s = r → Forall seg_wf sds →
  (0 <= f)%Z → (f + Z.of_nat (total_pages sds) <= 2 ^ 32)%Z → (Z.of_nat (total_pages sds) <= fs_count (fr s))%Z →
  (∀ t, in_run f (total_pages sds) t → t ∈ D) →
  ∃ s', mfor (load_trace HHDM_OFFSET dom true f sds) (perform HHDM_OFFSET ram) s = (Ok (), s') ∧
    moves s P s' (load_pages f sds P) (total_pages sds) (in_run f (total_pages sds)) ∧ loaded (mem s') f sds.
Proof using HHDM_room.
  revert f s P. induction sds as [|sd sds IH]; intros f s P I Hr Hw Hf Hfn Hc HD.
  { exists s. split; [done|]. split; [by apply moves_refl|done]. }
  apply Forall_cons in Hw as [W Hw]. unfold total_pages in *. cbn [sum_list_with] in *. fold (total_pages sds) in *.
  assert (∀ t, in_run (f + Z.of_nat (seg_pages sd)) (total_pages sds) t → in_run f (seg_pages sd + total_pages sds) t ∧ ¬ in_run f (seg_pages sd) t) as Hrun.
  { intros t (k & Hk & ->). split; [exists (seg_pages sd + k); split; [lia|f_equal; lia]|]. intros (j & Hj & E). lia. }
  destruct (segment_moves f sd dom s P) as (s1 & R1 & M1 & L1); try done; try lia.
  { intros t (k & Hk & ->). apply HD. exists k. split; [lia|done]. }
  pose proof (mv_count _ _ _ _ _ _ M1).
  destruct (IH (f + Z.of_nat (seg_pages sd))%Z s1 (seg_map f sd P (seg_pages sd))) as (s2 & R2 & M2 & L2); try done; try lia.
  { apply (mv_inv _ _ _ _ _ _ M1). }
  { by rewrite (mv_cr3 _ _ _ _ _ _ M1). }
  { intros t Ht. by apply HD, Hrun. }
  exists s2. split; [|split].
  - cbn [load_trace]. by rewrite (mfor_app_run _ _ _ _ _ R1).
  - cbn [load_pages]. eapply moves_weaken; [eapply moves_trans; [exact M1|exact M2]|lia|].
    intros t [(k & Hk & ->)|Ht]; [exists k; split; [lia|done]|by apply Hrun].
  - cbn [loaded]. split; [|exact L2]. intros k i Hk Hi. rewrite (mv_data _ _ _ _ _ _ M2); [by apply L1|apply HD; exists k; split; [lia|done]|].
    intros Hin. apply Hrun in Hin as [_ Hn]. apply Hn. by exists k.
Qed.
End load.

(** ** The whole of [load_process] *)

Section process.
Context {BF : Bitflags} {F : Type} {FS : FrameSource F}.
Variables HHDM_OFFSET PEX_ARCH : Z.
Variable km : KernelMap.
Variable ram : Z → list Z.
Hypothesis HHDM_room : (0 <= HHDM_OFFSET <= 2 ^ 64 - 2 ^ 44)%Z.

Lemma on_mach_run {A C} (m : M (Mach F) Empty_set A) (K : A → M (Sys F) Empty_set C) k u c n a k' : m k = (Ok a, k') →
  (on_mach m ≫= K) (mkSys k u c n) = K a (mkSys k' u c n).
Proof using Type. intros R. unfold mbind, M_bind, on_mach. cbn [mach_of user auth cursor]. by rewrite R. Qed.

(** What the loader starts from. *)
Definition start (sy : Sys F) : LState := mkLState (auth sy) (cspace_new PROC_SLOTS) (cursor sy) [] 0 [].

(** The loader's authority over the block of [z] frames from [b], [w] of them used. *)
Record loader_ok (sy : Sys F) (D : gset Z) (b z w : Z) : Prop := {
  lo_reach : reachable (auth sy);
  lo_bank : bank (auth sy) b z w;
  lo_cursor : 0 < cursor sy;
  lo_block : (0 <= b)%Z ∧ (b + z <= 2 ^ 32)%Z;
  lo_used : (0 <= w <= z)%Z;
  lo_frames t : in_run b (Z.to_nat z) t → t ∈ D
}.

Lemma loader_pre sy D b z w image : loader_ok sy D b z w → byte_list image → (blen image < 2 ^ 64)%Z →
  (next_obj (auth sy) + MAX_MANIFEST < 2 ^ 64 - 1)%Z → load_pre HHDM_OFFSET image (start sy).
Proof using HHDM_room.
  intros [Hr (u & Hu & Ht & Hb & Hz & _) _ Hbz _ _] Hi Hl Hn. split; try done.
  - apply R_new.
  - intros e He _. cbn [start ld] in He. rewrite Hu in He. injection He as <-. lia.
Qed.

(** The pages of a process: its segments, and its stack. *)
Definition proc_pages (f : Z) (p : Pex) (stack_va stack : Z) : pages :=
  <[page stack_va:=(stack, Rw)]> (load_pages f (seg_list p) ∅).

Lemma segs_wf p image n : valid p image → byte_list image → Forall in_window (take n (seg_list p)) → length (seg_list p) ≤ n →
  Forall seg_wf (seg_list p).
Proof using Type.
  clear HHDM_room. intros V Hb Hw Hn. rewrite take_ge in Hw by done. apply Forall_lookup. intros i [s d] Hi.
  assert (i < Z.to_nat (seg_count p)) as Hlt by (rewrite <- (seg_list_length p image V); by eapply lookup_lt_Some).
  destruct (seg_list_lookup p image i V Hlt) as (s' & d' & Hi' & Hs & Hd & Hok & Hlen). rewrite Hi in Hi'. injection Hi' as <- <-.
  pose proof (LoaderProps.shift_pages image s Hok) as [Hpg Hpb]. destruct Hok as (_&_&_&Hal&_&?&?&?&?&?&?).
  split; cbn [fst snd]; [|lia| |done|by apply (Forall_lookup_1 _ _ _ _ Hw Hi)].
  - revert Hd. unfold segment_data. rewrite Hs. munfold. destruct (arith 64 _) as [e|e|]; [|done..]. case_match; [|done].
    intros [= <-]. apply Forall_take, Forall_drop. apply (ti_bytes _ (va_tables _ _ V)).
  - unfold seg_pages. cbn [fst]. rewrite Z2Nat.id by (apply Z.div_pos; lia). rewrite Z.shiftr_div_pow2 in Hpg by lia.
    change (2 ^ 12)%Z with 4096%Z in Hpg. by rewrite Hpg.
Qed.

(** The frame of the stack: a frame nobody held. *)
Lemma stack_frame B (s : Mach F) U D H : hinv km B (mkPstate s U D) H → (1 <= fs_count (fr s))%Z →
  ∃ pa s', on_frames fs_alloc s = (Ok (Some pa), s') ∧ hinv km B (mkPstate s' U ({[pa]} ∪ D)) ({[pa]} ∪ H) ∧ mem s' = mem s ∧
    cr3 s' = cr3 s ∧ KERNEL_PML4 s' = KERNEL_PML4 s ∧ (pa ∉ D) ∧ (pa ∉ fs_kept) ∧ (fs_count (fr s) = fs_count (fr s') + 1)%Z.
Proof using Type.
  clear HHDM_room. intros I Hc. pose proof (ok_held _ _ _ (w_okay _ _ _ _ (h_world _ _ _ _ I))) as Hh. cbn [mach] in Hh.
  pose proof (fs_alloc_spec _ _ Hh) as Ha. destruct (on_frames fs_alloc s) as [o s'] eqn:R. pose proof R as R'. unfold on_frames in R'.
  destruct (fs_alloc (fr s)) as [[[pa|]|e|] f] eqn:Ef; [|destruct Ha; lia|done..]. injection R' as <- <-. destruct Ha as (Hn & _ & Hcount).
  exists pa. eexists. split; [reflexivity|]. split; [by eapply raw_hinv|]. do 3 (split; [done|]).
  split; [intros Hin; by apply Hn, (h_handed _ _ _ _ I)|]. split; [|done]. intros Hk. by apply Hn, (fs_kept_held _ _ Hh).
Qed.

(** Everything [load_process] does, on a machine with enough frames left. *)
Lemma load_process_run B U D H sy b z w image dom id stack_va out l :
  hinv km B (mkPstate (mach_of sy) U D) H → loader_ok sy D b z w → load_pre HHDM_OFFSET image (start sy) →
  load HHDM_OFFSET PEX_ARCH image dom true (start sy) = (Ok out, l) →
  id < length (PROC_CSPACES (user sy)) → window stack_va → (517 + (z - w) <= fs_count (fr (mach_of sy)))%Z →
  ∃ p r stack k H', parse image PEX_ARCH = Ok p ∧
    load_process HHDM_OFFSET PEX_ARCH ram image dom id stack_va sy = (Ok (l_entry out, (stack_va + 4096)%Z, mkSpace r 0),
      mkSys k (mkUser (<[id:=Some (pr l)]> (PROC_CSPACES (user sy))) (PROC_DONE (user sy)) (PROC_EXITS (user sy))
                 (EP_RDV (user sy)) (NOTIFY (user sy)) (console (user sy))) (ld l) (scratch l)) ∧
    hinv km B (mkPstate k (<[r:=proc_pages (b + w) p stack_va stack]> U) ({[stack]} ∪ D)) H' ∧
    U !! r = None ∧ (stack ∉ D) ∧ (stack ∉ fs_kept) ∧ KERNEL_PML4 k = KERNEL_PML4 (mach_of sy) ∧ cr3 k = KERNEL_PML4 k ∧
    (∀ q, root (mach_of sy) U q → keeps (mem (mach_of sy)) (mem k) q) ∧
    (∀ t, t ∈ D → ¬ in_run (b + w) (total_pages (seg_list p)) t → mem k !! t = mem (mach_of sy) !! t) ∧
    (Forall seg_wf (seg_list p) ∧ loaded (mem k) (b + w) (seg_list p)) ∧ is_Some (node (mem k) r (page stack_va).1) ∧
    loader_ok (mkSys k (user sy) (ld l) (scratch l)) ({[stack]} ∪ D) b z (w + Z.of_nat (total_pages (seg_list p))).
Proof using HHDM_room.
  intros I LO LP Hload Hid Hva Hc. destruct sy as [s0 u au cu]. cbn [mach_of user auth cursor] in *.
  destruct (load_traced HHDM_OFFSET PEX_ARCH image dom true _ out l b z w LP (lo_bank _ _ _ _ _ LO) (lo_cursor _ _ _ _ _ LO) Hload)
    as (p & Hp & V & Hcur & Hbank & Hw & Hwin & Hev). cbn [start events] in Hev. rewrite take_ge in Hbank, Hw, Hwin, Hev by done. rewrite app_nil_l in Hev.
  pose proof (load_run HHDM_OFFSET PEX_ARCH image dom true _ LP) as LR. cbn zeta in LR. rewrite Hload in LR.
  destruct LR as (p' & Hp' & _ & ([Hreach _ _ _ _ _ _] & _) & _). rewrite Hp in Hp'. injection Hp' as <-.
  pose proof (segs_wf p image (length (seg_list p)) V (proj1 (lp_image _ _ _ LP))) as Hsegs.
  rewrite take_ge in Hsegs by done. specialize (Hsegs Hwin (le_n _)). pose proof LO as [_ _ _ Hb Hu Hfr]. set (n := total_pages (seg_list p)) in *.
  destruct (new_run HHDM_OFFSET km HHDM_room B s0 U D H I) as (r & s1 & H1 & R1 & I1 & K1 & E1 & C1 & Hr & Kd1); [lia|].
  pose proof (new_space_spends HHDM_OFFSET s0 H (mkSpace r 0) s1 (ok_held _ _ _ (w_okay _ _ _ _ (h_world _ _ _ _ I))) R1) as (_ & _ & Sp1).
  set (s2 := mkMach (mem s1) (fr s1) r (KERNEL_PML4 s1) (flushed s1)).
  pose proof (switch_hinv km B s1 (<[r:=∅]> U) D r s2 H1 I1 eq_refl) as I2.
  assert (∀ t, in_run (b + w) n t → t ∈ D) as HD.
  { intros t (k & Hk & ->). apply Hfr. exists (Z.to_nat w + k). split; [lia|]. f_equal. lia. }
  destruct (trace_moves HHDM_OFFSET km ram HHDM_room B D U r (seg_list p) (b + w) dom s2 ∅) as (s3 & R3 & M3 & L3); fold n; try done; try lia.
  { by exists H1. }
  { cbn [s2 fr]. lia. }
  fold n in M3. pose proof (mv_inv _ _ _ _ _ _ _ _ _ _ _ M3) as [H3 I3]. pose proof (mv_count _ _ _ _ _ _ _ _ _ _ _ M3) as Sp3. cbn [s2 fr] in Sp3.
  destruct (stack_frame B s3 (<[r:=load_pages (b + w) (seg_list p) ∅]> U) D H3 I3) as (st & s4 & R4 & I4 & Em & E4 & E4' & Hst & Hk & Sp4); [lia|].
  destruct (page_moves HHDM_OFFSET km HHDM_room B ({[st]} ∪ D) U r s4 (load_pages (b + w) (seg_list p) ∅) stack_va st Rw dom)
    as (s5 & R5 & M5 & N5).
  { by exists ({[st]} ∪ H3). }
  { by rewrite E4, (mv_cr3 _ _ _ _ _ _ _ _ _ _ _ M3). }
  { done. }
  { pose proof (fs_held_ok _ _ st (ok_held _ _ _ (w_okay _ _ _ _ (h_world _ _ _ _ I4))) ltac:(set_solver)) as [? _]. lia. }
  { by apply (fs_held_ok _ _ st (ok_held _ _ _ (w_okay _ _ _ _ (h_world _ _ _ _ I4))) ltac:(set_solver)). }
  { lia. }
  pose proof (mv_inv _ _ _ _ _ _ _ _ _ _ _ M5) as [H5 I5].
  assert (KERNEL_PML4 s5 = KERNEL_PML4 s0) as Ek.
  { by rewrite (mv_kernel _ _ _ _ _ _ _ _ _ _ _ M5), E4', (mv_kernel _ _ _ _ _ _ _ _ _ _ _ M3). }
  set (k := mkMach (mem s5) (fr s5) (KERNEL_PML4 s5) (KERNEL_PML4 s5) (flushed s5)).
  assert (∀ q, root s0 U q → q ≠ r) as Hne.
  { intros q [->|[P HP]] E; [|congruence]. pose proof (w_apart _ _ _ _ (h_world _ _ _ _ I1)) as Ha. cbn [mach procs] in Ha.
    by rewrite E1, E, lookup_insert_eq in Ha. }
  exists p, r, st, k, H5. split; [done|]. split; [|split; [|split; [done|split; [done|split; [done|split; [done|split; [done|split; [|split; [|split; [|split; [done|]]]]]]]]]]].
  - unfold load_process. rewrite (on_mach_run _ _ _ _ _ _ _ _ R1). rewrite (on_mach_run _ _ _ _ _ _ () s2) by done.
    rewrite (bind_run _ _ _ (out, pr l) (mkSys s3 u (ld l) (scratch l))).
    2:{ unfold load_image. cbn [mach_of user auth cursor]. unfold start in Hload. cbn [auth cursor] in Hload. rewrite Hload, Hev, R3. done. }
    rewrite (on_mach_run _ _ _ _ _ _ _ _ R4). rewrite (bind_run _ _ _ st (mkSys s4 u (ld l) (scratch l))) by done.
    rewrite (on_mach_run _ _ _ _ _ _ _ _ R5). rewrite (bind_run _ _ _ (mkSys s5 u (ld l) (scratch l)) (mkSys s5 u (ld l) (scratch l))) by done.
    rewrite (on_mach_run _ _ _ _ _ _ () k) by done. unfold register, window in *. munfold. cbn [user mach_of auth cursor snd fst].
    rewrite decide_True by done. unfold PAGE. rewrite arith_in by (unfold in_u; lia). done.
  - eapply (switch_hinv km B s5 _ _ (KERNEL_PML4 s5) k H5 I5). done.
  - intros q Hq. specialize (Hne q Hq). cbn [k mem]. eapply keeps_trans; [by apply K1|].
    assert (∀ P, root s0 U q → root s2 (<[r:=P]> U) q) as Hroot.
    { intros P [->|Hx]; [left; cbn [s2 KERNEL_PML4]; by rewrite E1|right]. by rewrite lookup_insert_ne. }
    eapply keeps_trans; [apply (mv_keeps _ _ _ _ _ _ _ _ _ _ _ M3); [by apply Hroot|done]|]. rewrite <- Em.
    apply (mv_keeps _ _ _ _ _ _ _ _ _ _ _ M5); [|done]. destruct Hq as [->|Hx]; [left; rewrite E4', (mv_kernel _ _ _ _ _ _ _ _ _ _ _ M3); cbn [s2 KERNEL_PML4]; by rewrite E1|right; by rewrite lookup_insert_ne].
  - intros t Ht Hn. cbn [k mem]. rewrite (mv_data _ _ _ _ _ _ _ _ _ _ _ M5) by (set_solver || tauto). rewrite Em.
    rewrite (mv_data _ _ _ _ _ _ _ _ _ _ _ M3) by done. by apply Kd1.
  - split; [exact Hsegs|]. cbn [k mem]. eapply loaded_keep; [|exact L3]. intros t Ht. rewrite (mv_data _ _ _ _ _ _ _ _ _ _ _ M5) by (tauto || (apply elem_of_union_r; by apply HD)).
    by rewrite Em.
  - split; cbn [auth cursor]; try done; [lia|]. intros t Ht. apply elem_of_union_r. by apply Hfr.
Qed.
End process.
