(* ===== verification/ProcessSys.v ===== *)
(** * The system of processes

    A session of the kernel after boot: processes are loaded from images, given
    shared regions, run, and reaped, while the kernel takes and returns frames of
    its own.  A running process may store anything into any page it can write.
    [pinv] is the invariant of every history: it says which frame belongs to whom. *)

From stdpp Require Import sets relations.
From S2P Require Import Prelude Rights Cap CSpace CSpaceReach Buddy Pex Arch Loader LoaderTheorems LoaderTrace Userland MemInit Frames.
From S2P Require Import Paging PagingInv PagingOps PagingClone PagingWorld PagingBuild PagingBoot PagingHistory PagingCount Process ProcessMem ProcessLoad.

#[local] Opaque idx leaf_tables.

(** What the supervisor knows of a live process: where its stack is, what loading
    it took from the allocator, and whether nothing was mapped into it since. *)
Record pinfo := mkInfo { stack_va : Z; cost : Z; alone : bool }.

(** [alive] is indexed by the root of the space; [shared] maps each shared frame to
    its owner, while the owner lives; [kern] are frames the kernel took for itself. *)
Record psys (F : Type) := mkPsys {
  sys : Sys F;
  alive : gmap Z pinfo;
  shared : gmap Z (option Z);
  kern : gset Z
}.
Arguments mkPsys {F} _ _ _ _.
Arguments sys {F} _.
Arguments alive {F} _.
Arguments shared {F} _.
Arguments kern {F} _.

Definition crowded (i : pinfo) : pinfo := mkInfo (stack_va i) (cost i) false.
Definition orphan (r : Z) (o : option Z) : option Z := if decide (o = Some r) then None else o.

Section steps.
Context {BF : Bitflags} {F : Type} {FS : FrameSource F}.
Variables HHDM_OFFSET PEX_ARCH : Z.
Variable ram : Z → list Z.
Abbreviation machine st := (mach_of (sys st)).
Abbreviation with_machine st k := (mkSys k (user (sys st)) (auth (sys st)) (cursor (sys st))).

(** [pstep a]: a step of [a], the kernel or the process with root [r]. *)
Inductive pstep : option Z → psys F → psys F → Prop :=
  | ps_load st pex dom id va e top sp sy :
      byte_list pex → (blen pex < 2 ^ 64)%Z → window va → page va ≠ page SHARED_VA → id < length (PROC_CSPACES (user (sys st))) →
      (next_obj (auth (sys st)) + MAX_MANIFEST < 2 ^ 64 - 1)%Z → (581 <= fs_count (fr (machine st)))%Z →
      load_process HHDM_OFFSET PEX_ARCH ram pex dom id va (sys st) = (Ok (e, top, sp), sy) →
      pstep None st (mkPsys sy (<[primary sp:=mkInfo va (fs_count (fr (machine st)) - fs_count (fr (mach_of sy))) true]> (alive st)) (shared st) (kern st))
  | ps_share st o p pfn sy io ip :
      alive st !! o = Some io → alive st !! p = Some ip → o ≠ p → (3 <= fs_count (fr (machine st)))%Z →
      setup_shared_region HHDM_OFFSET (mkSpace o 0) (mkSpace p 0) (sys st) = (Ok pfn, sy) →
      pstep None st (mkPsys sy (<[p:=crowded ip]> (<[o:=crowded io]> (alive st))) (<[pfn_to_phys pfn:=Some o]> (shared st)) (kern st))
  | ps_join st id p pfn sy ip :
      alive st !! p = Some ip → (0 <= pfn < 2 ^ 32)%Z → is_Some (shared st !! pfn_to_phys pfn) → (1 <= fs_count (fr (machine st)))%Z →
      share_with HHDM_OFFSET id (mkSpace p 0) pfn (sys st) = (Ok (), sy) →
      pstep None st (mkPsys sy (<[p:=crowded ip]> (alive st)) (shared st) (kern st))
  | ps_reap st r i n sy :
      alive st !! r = Some i → cr3 (machine st) ≠ r →
      on_mach (reap_process_space HHDM_OFFSET (mkSpace r 0) [stack_va i]) (sys st) = (Ok n, sy) →
      pstep None st (mkPsys sy (base.delete r (alive st)) (orphan r <$> shared st) (kern st))
  | ps_switch st r :
      r = KERNEL_PML4 (machine st) ∨ is_Some (alive st !! r) →
      pstep None st (mkPsys (with_machine st (mkMach (mem (machine st)) (fr (machine st)) r (KERNEL_PML4 (machine st)) (flushed (machine st))))
        (alive st) (shared st) (kern st))
  | ps_take st pa sy :
      on_mach (on_frames fs_alloc) (sys st) = (Ok (Some pa), sy) →
      pstep None st (mkPsys sy (alive st) (shared st) ({[pa]} ∪ kern st))
  | ps_give st pa sy :
      pa ∈ kern st → on_mach (free_table pa) (sys st) = (Ok (), sy) →
      pstep None st (mkPsys sy (alive st) (shared st) (kern st ∖ {[pa]}))
  | ps_kernel_store st pa T :
      pa ∈ kern st → length T = 512 →
      pstep None st (mkPsys (with_machine st (upd (machine st) (<[pa:=T]> (mem (machine st))) (fr (machine st)))) (alive st) (shared st) (kern st))
  | ps_store st r v q x T :
      is_Some (alive st !! r) → user_view (mem (machine st)) r v = Some (q, (true, x)) → length T = 512 →
      pstep (Some r) st (mkPsys (with_machine st (upd (machine st) (<[(q - v mod 4096)%Z:=T]> (mem (machine st))) (fr (machine st)))) (alive st) (shared st) (kern st))
  | ps_user st u :
      pstep None st (mkPsys (mkSys (machine st) u (auth (sys st)) (cursor (sys st))) (alive st) (shared st) (kern st)).

Definition pany (st st' : psys F) : Prop := ∃ a, pstep a st st'.
End steps.

(** ** Tables of a process *)

(** How many tables of its own the space [r] has. *)
Definition own_count (m : memory) (r : Z) : nat :=
  match node m r [0; 1] with
  | Some pd => length (leaf_tables m pd) + 3
  | None => 0
  end.

Lemma keeps_own_count m m' r : keeps m m' r → own_count m' r = own_count m r.
Proof.
  intros K. unfold own_count. rewrite (keeps_node m) by (done || (simpl; lia)). destruct (node m r [0; 1]) as [pd|] eqn:N; [|done].
  rewrite !leaf_tables_eq. unfold ent. by rewrite (K [0; 1] pd) by (done || (simpl; lia)).
Qed.

Section tables.
Context {F : Type} {FS : FrameSource F}.
Variable HHDM_OFFSET : Z.
Variable km : KernelMap.
Hypothesis HHDM_room : (0 <= HHDM_OFFSET <= 2 ^ 64 - 2 ^ 44)%Z.

(** The frame behind a page given to the process, once its last-level table is its own. *)
Lemma page_leaf B (s : Mach F) U D H r P v f prot : hinv km B (mkPstate s U D) H → U !! r = Some P → window v →
  P !! page v = Some (f, prot) → is_Some (node (mem s) r (page v).1) → window_leaves (mem s) r [v] = [f].
Proof using Type.
  clear HHDM_room. intros I HP Hv Hf [pt Npt]. pose proof (h_full _ _ _ _ I r P v HP) as Hm. cbn [mach] in Hm. unfold full_view in Hm. rewrite Hf in Hm.
  pose proof (h_world _ _ _ _ I) as W. cbn [mach procs handed] in W. pose proof (w_space _ _ _ _ W r ltac:(by eexists)) as SP.
  destruct (own_window _ s H U r W ltac:(by eexists)) as (e0 & pdpt & e1 & pd & _ & _ & _ & _ & _ & N1 & Hn).
  destruct (window_idx v Hv) as [I3 I2]. unfold page in Npt. cbn [fst] in Npt. rewrite I3, I2, Hn in Npt.
  unfold window_leaves. rewrite N1. cbn [omap list_omap]. unfold leaf_frame. rewrite Npt. cbn [mbind option_bind].
  unfold maps, leaf_of in Hm. rewrite I3, I2 in Hm. unfold entry at 1 in Hm. rewrite Hn, Npt in Hm. cbn [mbind option_bind] in Hm.
  destruct (sp_held _ _ _ SP [0; 1; idx v 1] pt) as [_ [T HT]]; [simpl; lia|by rewrite Hn|].
  destruct (ok_tabs _ _ _ (w_okay _ _ _ _ W) pt T HT) as [_ HL].
  destruct (lookup_lt_is_Some_2 T (idx v 0)) as [e He]; [rewrite HL; apply idx_lt|].
  assert (ent (mem s) pt (idx v 0) = Some e) as Ee by (unfold ent; by rewrite HT). rewrite Ee in Hm |- *. cbn [mbind option_bind].
  destruct (has e PRESENT); [|done]. cbn [fmap option_fmap option_map] in Hm. injection Hm as Hm _ _ _. unfold meaning in Hm. cbn [fst snd] in Hm.
  destruct (land_bound e) as [_ Ha]. set (a := Z.land e ADDR_MASK) in *. f_equal. revert Hm.
  change 0xfff%Z with (Z.ones 12). rewrite Z.land_ones, Z.ldiff_ones_r, Z.shiftl_mul_pow2, Z.shiftr_div_pow2 by lia. change (2 ^ 12)%Z with 4096%Z.
  pose proof (Z.div_mod a 4096 ltac:(lia)). lia.
Qed.

(** The tables of a space, as a set. *)
Lemma own_set B (s : Mach F) U D H r : hinv km B (mkPstate s U D) H → is_Some (U !! r) →
  ∃ L : gset Z, base.size L = own_count (mem s) r ∧ ∀ t, t ∈ L ↔ ∃ q, own_path q ∧ node (mem s) r q = Some t.
Proof using Type.
  clear HHDM_room. intros I Hr. pose proof (h_world _ _ _ _ I) as W. cbn [mach procs handed] in W.
  destruct (own_window _ s H U r W Hr) as (e0 & pdpt & e1 & pd & _ & _ & N0 & _ & _ & N1 & Hn).
  exists (list_to_set (leaf_tables (mem s) pd ++ [pd; pdpt; r])). split.
  - rewrite size_list_to_set by (by eapply own_tables_NoDup). unfold own_count. rewrite N1, length_app. cbn [length]. lia.
  - intros t. rewrite elem_of_list_to_set. by eapply own_tables.
Qed.

(** The frames held are those held since boot, those handed out, and the tables. *)
Lemma held_union B (s k : Mach F) U D H H' r P st : hinv km B (mkPstate s U D) H → hinv km B (mkPstate k (<[r:=P]> U) ({[st]} ∪ D)) H' →
  U !! r = None → st ∉ D → (∀ q, root s U q → keeps (mem s) (mem k) q) → KERNEL_PML4 k = KERNEL_PML4 s →
  ∃ L : gset Z, base.size L = own_count (mem k) r ∧ H' = {[st]} ∪ L ∪ H ∧ (st ∉ L) ∧ (st ∉ H) ∧ L ## H.
Proof using Type.
  clear HHDM_room. intros I I' Hr Hst K Ek. destruct (own_set B k _ _ H' r I') as (L & HLs & HL); [rewrite lookup_insert_eq; by eexists|].
  pose proof (h_world _ _ _ _ I) as W. pose proof (h_world _ _ _ _ I') as W'. cbn [mach procs handed] in W, W'.
  assert (∀ r' q, is_Some (U !! r') → own_path q → node (mem k) r' q = node (mem s) r' q) as KN.
  { intros r' q Hr' Hq. pose proof (own_path_len q Hq). apply keeps_node; [apply K; by right|lia]. }
  assert (∀ r', is_Some (U !! r') → r' ≠ r ∧ is_Some (<[r:=P]> U !! r')) as HU.
  { intros r' [P' HP]. assert (r' ≠ r) by congruence. split; [done|]. rewrite lookup_insert_ne by done. by eexists. }
  assert (st ∉ H) as Hst'.
  { intros Ht. destruct (w_frames _ _ _ _ W st Ht) as [[?|?]%elem_of_union|(r' & q & Hr' & Hq & Nq)]; [|done|].
    - apply (h_fresh _ _ _ _ I' st); [cbn; set_solver|done].
    - rewrite <- KN in Nq by done. pose proof (own_path_len q Hq). eapply (h_apart _ _ _ _ I' st r' q); [cbn; set_solver|right; by apply HU|done|done]. }
  assert (st ∉ L) as HstL.
  { intros (q & Hq & Nq)%HL. pose proof (own_path_len q Hq). eapply (h_apart _ _ _ _ I' st r q); [cbn; set_solver|right; cbn; rewrite lookup_insert_eq; by eexists|done|done]. }
  exists L. split; [done|]. split; [|split; [done|split; [done|]]].
  - apply set_eq. intros t. split.
    + intros Ht. destruct (w_frames _ _ _ _ W' t Ht) as [[HtB|[?|HtD]%elem_of_union]%elem_of_union|(r' & q & Hr' & Hq & Nq)]; [|set_solver|..].
      * apply (h_boot _ _ _ _ I) in HtB. set_solver.
      * apply (h_handed _ _ _ _ I) in HtD. set_solver.
      * destruct (decide (r' = r)) as [->|Hne]; [apply elem_of_union_l, elem_of_union_r, HL; by exists q|].
        rewrite lookup_insert_ne in Hr' by done. rewrite KN in Nq by done. pose proof (own_path_len q Hq).
        apply (sp_held _ _ _ (w_space _ _ _ _ W r' Hr')) in Nq as [? _]; [set_solver|done].
    + intros [[->%elem_of_singleton|(q & Hq & Nq)%HL]%elem_of_union|Ht]%elem_of_union.
      * apply (h_handed _ _ _ _ I'). cbn. set_solver.
      * pose proof (own_path_len q Hq). apply (sp_held _ _ _ (w_space _ _ _ _ W' r ltac:(rewrite lookup_insert_eq; by eexists))) in Nq as [? _]; done.
      * destruct (w_frames _ _ _ _ W t Ht) as [[HtB|HtD]%elem_of_union|(r' & q & Hr' & Hq & Nq)].
        { by apply (h_boot _ _ _ _ I'). } { apply (h_handed _ _ _ _ I'). cbn. set_solver. }
        rewrite <- KN in Nq by done. pose proof (own_path_len q Hq).
        apply (sp_held _ _ _ (w_space _ _ _ _ W' r' ltac:(by apply HU))) in Nq as [? _]; done.
  - intros t (q & Hq & Nq)%HL Ht. pose proof (own_path_len q Hq).
    assert (is_Some (<[r:=P]> U !! r)) as Hr' by (rewrite lookup_insert_eq; by eexists).
    destruct (w_frames _ _ _ _ W t Ht) as [[HtB|HtD]%elem_of_union|(r' & q' & Hr2 & Hq' & Nq')].
    + by apply (h_own _ _ _ _ I' r q t).
    + eapply (h_apart _ _ _ _ I' t r q); [cbn; set_solver|by right|done|done].
    + rewrite <- KN in Nq' by done. pose proof (own_path_len q' Hq'). destruct (HU r' Hr2) as [Hne Hr3].
      eapply (w_own _ _ _ _ W' r r' q q' t); try done. by right.
Qed.
End tables.

(** What a load takes from the allocator: the tables of the new space and the stack. *)
Lemma load_cost {F} (FS : FrameSource F) N km B (s k : Mach F) U D H H' r P st :
  hinv (FS := counted FS N) km B (mkPstate s U D) H → hinv (FS := counted FS N) km B (mkPstate k (<[r:=P]> U) ({[st]} ∪ D)) H' →
  U !! r = None → st ∉ D → (∀ q, root s U q → keeps (mem s) (mem k) q) → KERNEL_PML4 k = KERNEL_PML4 s →
  (fs_count (fr s) - fs_count (fr k) = Z.of_nat (own_count (mem k) r) + 1)%Z.
Proof.
  intros I I' Hr Hst K Ek. destruct (held_union (FS := counted FS N) km B s k U D H H' r P st I I' Hr Hst K Ek) as (L & HL & -> & H1 & H2 & H3).
  destruct (ok_held _ _ _ (w_okay _ _ _ _ (h_world _ _ _ _ I))) as [_ C1].
  destruct (ok_held _ _ _ (w_okay _ _ _ _ (h_world _ _ _ _ I'))) as [_ C2]. cbn [mach] in C1, C2.
  rewrite !size_union in C2 by set_solver. rewrite size_singleton in C2. lia.
Qed.
