(* ===== verification/ProcessInv.v ===== *)
(** * The system of processes: invariant

    [pinv] ties the machine to the owners of its frames: the segments of a process
    are a run of the loader's block that is its own, its stack is a frame of its
    own, and everything else it can reach is shared.  Every step of the system
    keeps it. *)

From stdpp Require Import sets relations.
From S2P Require Import Prelude Rights Cap CSpace CSpaceReach Buddy Pex Arch Loader LoaderTheorems LoaderTrace Userland MemInit Frames.
From S2P Require Import Paging PagingInv PagingOps PagingClone PagingWorld PagingBuild PagingBoot PagingHistory PagingCount.
From S2P Require Import Process ProcessMem ProcessLoad ProcessSys.

#[local] Opaque idx leaf_tables.

(** ** Mapping a shared frame *)

Section share.
Context {BF : Bitflags} {F : Type} {FS : FrameSource F}.
Variable HHDM_OFFSET : Z.
Variable km : KernelMap.
Hypothesis HHDM_room : (0 <= HHDM_OFFSET <= 2 ^ 64 - 2 ^ 44)%Z.

Lemma shared_window : window SHARED_VA.
Proof using Type. unfold window, SHARED_VA. lia. Qed.

(** [s] with the kernel's tables active. *)
Definition at_kernel (s : Mach F) : Mach F := mkMach (mem s) (fr s) (KERNEL_PML4 s) (KERNEL_PML4 s) (flushed s).

(** From [s] to [k], a page went into the table of [q] and the kernel's tables are
    active again. *)
Record joined (B : gset Z) (U : gmap Z pages) (D : gset Z) (q : Z) (P : pages) (s k : Mach F) : Prop := {
  jn_inv : ∃ H, hinv km B (mkPstate k (<[q:=P]> U) D) H;
  jn_kernel : KERNEL_PML4 k = KERNEL_PML4 s;
  jn_cr3 : cr3 k = KERNEL_PML4 k;
  jn_keeps x : root s U x → x ≠ q → keeps (mem s) (mem k) x;
  jn_data t : t ∈ D → mem k !! t = mem s !! t;
  jn_nodes p t : length p ≤ 3 → node (mem s) q p = Some t → node (mem k) q p = Some t;
  jn_count : (fs_count (fr s) <= fs_count (fr k) + 1)%Z
}.

Lemma map_shared_run {C} B s U D H q P phys prot u a c (K : unit → M (Sys F) Empty_set C) :
  hinv km B (mkPstate s U D) H → U !! q = Some P → (0 <= phys < 2 ^ 52)%Z → (phys mod 4096 = 0)%Z → (1 <= fs_count (fr s))%Z →
  ∃ k, (map_shared_into HHDM_OFFSET (mkSpace q 0) phys prot ≫= K) (mkSys s u a c) = K () (mkSys k u a c) ∧
    joined B U D q (<[page SHARED_VA:=(phys, prot)]> P) s k.
Proof using HHDM_room.
  intros I HP Hp Ha Hc. set (s1 := mkMach (mem s) (fr s) q (KERNEL_PML4 s) (flushed s)).
  pose proof (switch_hinv km B s U D q s1 H I eq_refl) as I1.
  assert (<[q:=P]> U = U) as EU by (by apply insert_id).
  destruct (page_moves HHDM_OFFSET km HHDM_room B D U q s1 P SHARED_VA phys prot SHARED_DOMAIN) as (s2 & R & M & _); try done.
  { exists H. by rewrite EU. }
  exists (at_kernel s2). split.
  - unfold map_shared_into. rewrite (bind_run _ _ _ () (mkSys (at_kernel s2) u a c)); [done|].
    rewrite (on_mach_run _ _ _ _ _ _ () s1) by done. rewrite (on_mach_run _ _ _ _ _ _ _ _ R). done.
  - destruct M as [[H2 I2] A2 A3 A4 A5 A6 A7]. rewrite EU in A4. split; try done.
    + exists H2. by eapply (switch_hinv km B s2 _ _ (KERNEL_PML4 s2) (at_kernel s2) H2 I2).
    + intros t Ht. cbn [at_kernel mem]. rewrite A5; auto.
Qed.

(** The check that the peer's window is read-only passes. *)
Lemma assert_shared_run {C} B s U D H q P f u a c (K : unit → M (Sys F) Empty_set C) :
  hinv km B (mkPstate s U D) H → U !! q = Some P → P !! page SHARED_VA = Some (f, Ro) →
  (assert_shared_ro HHDM_OFFSET (mkSpace q 0) ≫= K) (mkSys s u a c) = K () (mkSys (at_kernel s) u a c).
Proof using HHDM_room.
  intros I HP Hf. set (s1 := mkMach (mem s) (fr s) q (KERNEL_PML4 s) (flushed s)). pose proof (h_world _ _ _ _ I) as W. cbn [mach procs handed] in W.
  pose proof (walk_eq HHDM_OFFSET HHDM_room s1 H SHARED_VA (ok_tabs _ _ _ (w_okay _ _ _ _ W)) (w_space _ _ _ _ W q ltac:(by exists P))) as Hw.
  assert (page_prot HHDM_OFFSET SHARED_VA s1 = (Ok (Some (false, false)), s1)) as R.
  { unfold page_prot. rewrite (bind_run _ _ _ _ _ Hw). cbn [s1 cr3 mem].
    pose proof (h_full _ _ _ _ I q P SHARED_VA HP) as Hm. cbn [mach] in Hm. unfold full_view in Hm. rewrite Hf in Hm. unfold maps in Hm.
    destruct (leaf_of (mem s) q SHARED_VA) as [[e k]|]; [|done]. cbn [fmap option_fmap option_map] in Hm |- *. unfold meaning in Hm. injection Hm as _ H1 H2 _.
    cbn [fst] in *. rewrite H1, H2. done. }
  unfold assert_shared_ro. rewrite (bind_run _ _ _ () (mkSys (at_kernel s) u a c)); [done|].
  rewrite (on_mach_run _ _ _ _ _ _ () s1) by done. rewrite (on_mach_run _ _ _ _ _ _ _ _ R). done.
Qed.

Lemma ret_run {A} (m : M (Sys F) Empty_set A) sy a sy' : (m ≫= mret) sy = (Ok a, sy') → m sy = (Ok a, sy').
Proof using Type. clear HHDM_room. unfold mbind, M_bind. destruct (m sy) as [[x|e|] y]; [|done..]. by intros [= -> ->]. Qed.

(** Capabilities go into a space without touching the machine. *)
Lemma install_same id m s u a c sy : install_at (F := F) id m (mkSys s u a c) = (Ok (), sy) → ∃ u', sy = mkSys s u' a c.
Proof using Type.
  clear HHDM_room. unfold install_at. cbn [mach_of user auth cursor]. destruct (with_cspace id m u) as [[[x|e|]|e|] u'].
  1:{ intros [= <-]. by exists u'. } all: intros [=].
Qed.
End share.

(** ** Who owns which frame *)

(** The run of the block a process's segments take, and the frame of its stack. *)
Record room := mkRoom { seg_first : Z; seg_frames_n : nat; stack_frame_of : Z }.
Abbreviation in_segs g := (in_run (seg_first g) (seg_frames_n g)).

(** One process: its pages [P] are its segments, its stack and shared frames,
    mapped in one place and writable only by their owner. *)
Record pok (m : memory) (P : pages) (sh : gmap Z (option Z)) (r : Z) (i : pinfo) (g : room) : Prop := {
  pk_va : window (stack_va i) ∧ page (stack_va i) ≠ page SHARED_VA;
  pk_stack : P !! page (stack_va i) = Some (stack_frame_of g, Rw);
  pk_node : is_Some (node m r (page (stack_va i)).1);
  pk_pages k q prot : P !! k = Some (q, prot) →
    in_segs g q ∨ q = stack_frame_of g ∨ k = page SHARED_VA ∧ ∃ o, sh !! q = Some o ∧ (prot = Rw → o = Some r);
  pk_cost : alone i = true → cost i = (Z.of_nat (own_count m r) + 1)%Z
}.

(** The loader's block has [z] frames from [b], [w] of them used. *)
Record layout (kept D kr : gset Z) (sh : gmap Z (option Z)) (G : gmap Z room) (b z w : Z) : Prop := {
  ly_segs r g : G !! r = Some g → (b <= seg_first g)%Z ∧ (seg_first g + Z.of_nat (seg_frames_n g) <= b + w)%Z;
  ly_stack r g : G !! r = Some g → let t := stack_frame_of g in t ∈ D ∧ (t ∉ kept) ∧ (t ∉ kr) ∧ sh !! t = None ∧ ¬ in_run b (Z.to_nat z) t;
  ly_apart r r' g g' : G !! r = Some g → G !! r' = Some g' → r ≠ r' →
    stack_frame_of g ≠ stack_frame_of g' ∧ ∀ t, in_segs g t → ¬ in_segs g' t;
  ly_shared q : is_Some (sh !! q) → q ∈ D ∧ (q ∉ kr) ∧ ¬ in_run b (Z.to_nat z) q;
  ly_kern q : q ∈ kr → q ∈ D ∧ (q ∉ kept) ∧ ¬ in_run b (Z.to_nat z) q;
  ly_used : (w <= z)%Z
}.

Lemma in_segs_block kept D kr sh G b z w r g t : layout kept D kr sh G b z w → G !! r = Some g → in_segs g t → in_run b (Z.to_nat z) t.
Proof.
  intros L Hg (k & Hk & ->). destruct (ly_segs _ _ _ _ _ _ _ _ L r g Hg). pose proof (ly_used _ _ _ _ _ _ _ _ L).
  exists (Z.to_nat (seg_first g - b) + k). split; [lia|]. f_equal. lia.
Qed.

Lemma pok_keep m m' P sh r i g : keeps m m' r → pok m P sh r i g → pok m' P sh r i g.
Proof.
  intros K [A1 A2 A3 A4 A5]. split; try done.
  - rewrite (keeps_node m) by (done || (simpl; lia)). done.
  - intros Ha. rewrite (keeps_own_count m) by done. by apply A5.
Qed.

(** Pages only lead to shared frames that stay shared. *)
Lemma pok_shared m P sh sh' r i g : (∀ q o, sh !! q = Some o → ∃ o', sh' !! q = Some o' ∧ (o = Some r → o' = Some r)) →
  pok m P sh r i g → pok m P sh' r i g.
Proof.
  intros Hs [A1 A2 A3 A4 A5]. split; try done. intros k q prot Hk. destruct (A4 k q prot Hk) as [|[|(Hkv & o & Ho & Hw)]]; [by left|by right; left|].
  destruct (Hs q o Ho) as (o' & Ho' & Hr). right; right. split; [done|]. exists o'. auto.
Qed.

(** A shared page is mapped into the process. *)
Lemma pok_join m m' P sh r i g phys prot o : pok m P sh r i g → (∀ p t, length p ≤ 3 → node m r p = Some t → node m' r p = Some t) →
  sh !! phys = Some o → (prot = Rw → o = Some r) →
  pok m' (<[page SHARED_VA:=(phys, prot)]> P) sh r (crowded i) g.
Proof.
  intros [[A0 A1] A2 [t A3] A4 A5] Hn Ho Hw. split; cbn [crowded stack_va cost alone]; try done.
  - by rewrite lookup_insert_ne by (by apply not_eq_sym).
  - exists t. apply Hn; [simpl; lia|done].
  - intros k q pr Hk. apply lookup_insert_Some in Hk as [[<- [= <- <-]]|[_ Hk]]; [right; right; split; [done|]; by exists o|]. by apply (A4 k).
Qed.

Lemma layout_grow kept D kr sh G b z w pa : layout kept D kr sh G b z w → pa ∉ D → pa ∉ kept → (∀ t, in_run b (Z.to_nat z) t → t ∈ D) →
  layout kept ({[pa]} ∪ D) ({[pa]} ∪ kr) sh G b z w.
Proof.
  intros [A1 A2 A3 A4 A5 A6] Hpa Hk Hb. split; try done.
  - intros r g Hg. cbv zeta. specialize (A2 r g Hg). cbv zeta in A2. assert (stack_frame_of g ≠ pa) by (intros <-; tauto). set_solver.
  - intros q Hq. specialize (A4 q Hq). assert (q ≠ pa) by (intros <-; tauto). set_solver.
  - intros q [->%elem_of_singleton|Hq]%elem_of_union; [|specialize (A5 q Hq); set_solver].
    split; [set_solver|]. split; [done|]. intros Hr. by apply Hb in Hr.
Qed.

Lemma layout_shrink kept D kr sh G b z w pa : layout kept D kr sh G b z w → pa ∈ kr → layout kept (D ∖ {[pa]}) (kr ∖ {[pa]}) sh G b z w.
Proof.
  intros [A1 A2 A3 A4 A5 A6] Hpa. split; try done.
  - intros r g Hg. cbv zeta. specialize (A2 r g Hg). cbv zeta in A2. assert (stack_frame_of g ≠ pa) by (intros <-; tauto). set_solver.
  - intros q Hq. specialize (A4 q Hq). assert (q ≠ pa) by (intros <-; tauto). set_solver.
  - intros q [Hq Hne]%elem_of_difference. specialize (A5 q Hq). set_solver.
Qed.
(** The segments of a load are in its run of the block. *)
Lemma seg_map_in f sd P n k q prot : seg_map f sd P n !! k = Some (q, prot) → P !! k = Some (q, prot) ∨ in_run f n q.
Proof.
  unfold seg_map. induction n as [|n IH]; [by left|]. rewrite seq_S, foldl_app. cbn [foldl Nat.add].
  intros [[_ [= <- _]]|[_ Hk]]%lookup_insert_Some; [right; exists n; split; [lia|done]|].
  destruct (IH Hk) as [|(j & Hj & ->)]; [by left|right]. exists j. split; [lia|done].
Qed.

Lemma load_pages_in f sds P k q prot : load_pages f sds P !! k = Some (q, prot) → P !! k = Some (q, prot) ∨ in_run f (total_pages sds) q.
Proof.
  revert f P. induction sds as [|sd sds IH]; intros f P; cbn [load_pages]; [by left|]. intros Hk. unfold total_pages. cbn [sum_list_with].
  destruct (IH _ _ Hk) as [Hk'|(j & Hj & ->)].
  - apply seg_map_in in Hk' as [|(j & Hj & ->)]; [by left|right]. exists j. split; [lia|done].
  - right. exists (seg_pages sd + j). unfold total_pages in Hj. split; [lia|f_equal; lia].
Qed.

Section inv.
Context {BF : Bitflags} {F : Type} (FS0 : FrameSource F).
Variables HHDM_OFFSET PEX_ARCH N : Z.
Variable km : KernelMap.
Variable ram : Z → list Z.
Hypothesis HHDM_room : (0 <= HHDM_OFFSET <= 2 ^ 64 - 2 ^ 44)%Z.
#[local] Instance CS : FrameSource F := counted FS0 N.
Variables (B : gset Z) (b z : Z).
Hypothesis Hz : (z <= 64)%Z.

Record pinv_with (st : psys F) (U : gmap Z pages) (D H : gset Z) (G : gmap Z room) (w : Z) : Prop := {
  pi_hinv : hinv km B (mkPstate (mach_of (sys st)) U D) H;
  pi_loader : loader_ok (sys st) D b z w;
  pi_layout : layout fs_kept D (kern st) (shared st) G b z w;
  pi_live r : is_Some (U !! r) → is_Some (alive st !! r);
  pi_room r : is_Some (G !! r) → is_Some (alive st !! r);
  pi_proc r i : alive st !! r = Some i → ∃ P g, U !! r = Some P ∧ G !! r = Some g ∧ pok (mem (mach_of (sys st))) P (shared st) r i g
}.
Definition pinv (st : psys F) : Prop := ∃ U D H G w, pinv_with st U D H G w.

(** Steps that map nothing and share nothing. *)
Lemma pinv_quiet st U D H G w k u D' H' kr' : pinv_with st U D H G w →
  hinv km B (mkPstate k U D') H' → (∀ r, is_Some (U !! r) → keeps (mem (mach_of (sys st))) (mem k) r) →
  layout fs_kept D' kr' (shared st) G b z w → (∀ t, in_run b (Z.to_nat z) t → t ∈ D') →
  pinv (mkPsys (mkSys k u (auth (sys st)) (cursor (sys st))) (alive st) (shared st) kr').
Proof using Type.
  clear HHDM_room. intros [I L Ly Hl Hr Hp] I' K Ly' Hb. exists U, D', H', G, w. split; cbn [sys alive shared kern mach_of]; try done.
  - destruct L as [L1 L2 L3 L4 L5 L6]. split; try done.
  - intros r i Hi. destruct (Hp r i Hi) as (P & g & HP & Hg & Hk). exists P, g. split; [done|]. split; [done|].
    eapply pok_keep; [|done]. apply K. by eexists.
Qed.


Lemma load_process_needs sy image dom id va x sy' : load_process HHDM_OFFSET PEX_ARCH ram image dom id va sy = (Ok x, sy') →
  ∃ out l, load HHDM_OFFSET PEX_ARCH image dom true (start sy) = (Ok out, l).
Proof using Type.
  clear HHDM_room. destruct sy as [s u a c]. unfold load_process. unfold mbind, M_bind. unfold on_mach at 1. cbn [mach_of user auth cursor].
  destruct (new_process_space HHDM_OFFSET s) as [[sp|e|] s1]; [|done..]. cbn. unfold load_image. cbn [auth cursor]. unfold start. cbn [auth cursor].
  destruct (load HHDM_OFFSET PEX_ARCH image dom true _) as [[out|e|] l]; [|done..]. intros _. by exists out, l.
Qed.

Lemma load_pinv st U D H G w pex dom id va e top sp sy : pinv_with st U D H G w → byte_list pex → (blen pex < 2 ^ 64)%Z → window va →
  page va ≠ page SHARED_VA → id < length (PROC_CSPACES (user (sys st))) → (next_obj (auth (sys st)) + MAX_MANIFEST < 2 ^ 64 - 1)%Z → (581 <= fs_count (fr (mach_of (sys st))))%Z →
  load_process HHDM_OFFSET PEX_ARCH ram pex dom id va (sys st) = (Ok (e, top, sp), sy) →
  pinv (mkPsys sy (<[primary sp:=mkInfo va (fs_count (fr (mach_of (sys st))) - fs_count (fr (mach_of sy))) true]> (alive st)) (shared st) (kern st)).
Proof using HHDM_room Hz.
  intros [I L Ly Hl Hr Hp] Hb Hlen Hva Hne Hid Hn Hc R. destruct (load_process_needs _ _ _ _ _ _ _ R) as (out & l & Hload).
  pose proof (loader_pre HHDM_OFFSET HHDM_room _ _ _ _ _ pex L Hb Hlen Hn) as LP. pose proof (lo_used _ _ _ _ _ L) as Hw.
  destruct (load_process_run HHDM_OFFSET PEX_ARCH km ram HHDM_room B U D H (sys st) b z w pex dom id va out l I L LP Hload Hid Hva)
    as (p & r & t & k & H' & _ & R' & I' & Ur & HtD & HtK & Ek & Ec & K & _ & _ & Nr & L'); [lia|].
  rewrite R in R'. injection R' as -> -> -> ->. cbn [primary mach_of] in *.
  set (n := total_pages (seg_list p)) in *. set (f := (b + w)%Z) in *.
  assert (alive st !! r = None) as Ar.
  { destruct (alive st !! r) as [i|] eqn:E; [|done]. destruct (Hp r i E) as (P & _ & HP & _). congruence. }
  assert (G !! r = None) as Gr.
  { destruct (G !! r) as [g|] eqn:E; [|done]. destruct (Hr r) as [i Hi]; [by eexists|]. congruence. }
  assert (¬ in_run b (Z.to_nat z) t) as Htb by (intros Hx; by apply HtD, (lo_frames _ _ _ _ _ L)).
  pose proof (lo_used _ _ _ _ _ L') as Hw'.
  exists (<[r:=proc_pages f p va t]> U), ({[t]} ∪ D), H', (<[r:=mkRoom f n t]> G), (w + Z.of_nat n)%Z.
  split; cbn [sys alive shared kern mach_of]; try done.
  - destruct L'. by split.
  - destruct Ly as [A1 A2 A3 A4 A5 A6]. split; [..|lia].
    + intros r' g. rewrite lookup_insert_Some. intros [[_ <-]|[_ Hg]]; cbn [seg_first seg_frames_n]; [unfold f; lia|]. destruct (A1 r' g Hg). lia.
    + intros r' g. rewrite lookup_insert_Some. intros [[_ <-]|[_ Hg]]; cbn [stack_frame_of].
      * split; [set_solver|]. split; [done|]. split; [intros Hx; by apply HtD, A5|]. split; [|done].
        destruct (shared st !! t) as [o|] eqn:Eo; [|done]. exfalso. apply HtD, A4. by eexists.
      * specialize (A2 r' g Hg). cbv zeta in *. set_solver.
    + assert (∀ r' g', G !! r' = Some g' → t ≠ stack_frame_of g' ∧ ∀ x, in_run f n x → ¬ in_segs g' x) as Hnew.
      { intros r' g' Hg. split; [intros ->; apply HtD; apply (A2 r' g' Hg)|]. intros x (j & Hj & ->) (j' & Hj' & E). destruct (A1 r' g' Hg). unfold f in E. lia. }
      intros r1 r2 g1 g2. rewrite !lookup_insert_Some. intros [[<- <-]|[N1 G1]] [[<- <-]|[N2 G2]] Hne'; cbn [seg_first seg_frames_n stack_frame_of]; [done|..].
      * by apply (Hnew r2).
      * destruct (Hnew r1 g1 G1) as [Hx Hy]. split; [by apply not_eq_sym|]. intros x Hx1 Hx2. by apply (Hy x).
      * by apply (A3 r1 r2).
    + intros q Hq. specialize (A4 q Hq). set_solver.
    + intros q Hq. specialize (A5 q Hq). set_solver.
  - intros r'. destruct (decide (r' = r)) as [->|]; [rewrite !lookup_insert_eq; by eexists|]. rewrite !lookup_insert_ne by done. apply Hl.
  - intros r'. destruct (decide (r' = r)) as [->|]; [rewrite !lookup_insert_eq; by eexists|]. rewrite !lookup_insert_ne by done. apply Hr.
  - intros r' i. rewrite lookup_insert_Some. intros [[<- <-]|[Hne' Hi]].
    + exists (proc_pages f p va t), (mkRoom f n t). rewrite !lookup_insert_eq. split; [done|]. split; [done|].
      split; cbn [stack_va cost alone stack_frame_of seg_first seg_frames_n]; try done.
      * unfold proc_pages. apply lookup_insert_eq.
      * intros y q prot. unfold proc_pages. rewrite lookup_insert_Some. intros [[_ [= <- <-]]|[_ Hy]]; [by right; left|].
        apply load_pages_in in Hy as [Hy|Hy]; [by rewrite lookup_empty in Hy|by left].
      * intros _. eapply (load_cost FS0 N km B _ _ U D H H' r _ t I I'); done.
    + destruct (Hp r' i Hi) as (P & g & HP & Hg & Hk). exists P, g. rewrite !lookup_insert_ne by done. split; [done|]. split; [done|].
      eapply pok_keep; [|done]. apply K. right. by eexists.
Qed.

(** A page of shared memory goes into a process. *)
Lemma join_pinv st U D H G w q i P phys prot o k u : pinv_with st U D H G w → alive st !! q = Some i → U !! q = Some P →
  joined km B U D q (<[page SHARED_VA:=(phys, prot)]> P) (mach_of (sys st)) k → shared st !! phys = Some o → (prot = Rw → o = Some q) →
  ∃ H', pinv_with (mkPsys (mkSys k u (auth (sys st)) (cursor (sys st))) (<[q:=crowded i]> (alive st)) (shared st) (kern st))
    (<[q:=<[page SHARED_VA:=(phys, prot)]> P]> U) D H' G w.
Proof using Type.
  clear HHDM_room Hz ram. intros [I L Ly Hl Hr Hp] Hi HP [[H' I'] J2 J3 J4 J5 J6 J7] Ho Hw. exists H'. split; cbn [sys alive shared kern mach_of]; try done.
  - destruct L. by split.
  - intros r. destruct (decide (r = q)) as [->|]; [rewrite !lookup_insert_eq; by eexists|]. rewrite !lookup_insert_ne by done. apply Hl.
  - intros r Hg. destruct (decide (r = q)) as [->|]; [rewrite !lookup_insert_eq; by eexists|]. rewrite lookup_insert_ne by done. by apply Hr.
  - intros r j. rewrite lookup_insert_Some. intros [[<- <-]|[Hne Hj]].
    + destruct (Hp q i Hi) as (P' & g & HP' & Hg & Hk). rewrite HP in HP'. injection HP' as <-. exists (<[page SHARED_VA:=(phys, prot)]> P), g.
      rewrite lookup_insert_eq. split; [done|]. split; [done|]. eapply (pok_join (mem (mach_of (sys st)))); try done.
    + destruct (Hp r j Hj) as (P' & g & HP' & Hg & Hk). exists P', g. rewrite lookup_insert_ne by done. split; [done|]. split; [done|].
      eapply pok_keep; [|done]. apply J4; [right; by eexists|by apply not_eq_sym].
Qed.

(** A fresh frame becomes shared. *)
Lemma fresh_pinv st U D H G w pa k H' o : pinv_with st U D H G w → hinv km B (mkPstate k U ({[pa]} ∪ D)) H' →
  (∀ r, is_Some (U !! r) → keeps (mem (mach_of (sys st))) (mem k) r) → pa ∉ D →
  pinv_with (mkPsys (mkSys k (user (sys st)) (auth (sys st)) (cursor (sys st))) (alive st) (<[pa:=o]> (shared st)) (kern st)) U ({[pa]} ∪ D) H' G w.
Proof using Type.
  clear HHDM_room Hz ram. intros [I L Ly Hl Hr Hp] I' K Hpa. pose proof (lo_frames _ _ _ _ _ L) as Hb.
  split; cbn [sys alive shared kern mach_of]; try done.
  - destruct L as [L1 L2 L3 L4 L5 L6]. split; try done. intros t Ht. apply elem_of_union_r. by apply Hb.
  - destruct Ly as [A1 A2 A3 A4 A5 A6]. split; try done.
    + intros r g Hg. cbv zeta. destruct (A2 r g Hg) as (B1 & B2 & B3 & B4 & B5). split; [set_solver|]. do 2 (split; [done|]). split; [|done].
      rewrite lookup_insert_ne; [done|]. by intros ->.
    + intros q. destruct (decide (q = pa)) as [->|Hne].
      * intros _. split; [set_solver|]. split; [intros Hk; by apply Hpa, A5|]. intros Hx. by apply Hpa, Hb.
      * rewrite lookup_insert_ne by (by apply not_eq_sym). intros Hq. destruct (A4 q Hq) as (B1 & B2 & B3). split; [set_solver|done].
    + intros q Hq. destruct (A5 q Hq) as (B1 & B2 & B3). split; [set_solver|done].
  - intros r i Hi. destruct (Hp r i Hi) as (P & g & HP & Hg & Hk). exists P, g. split; [done|]. split; [done|].
    eapply pok_keep; [apply K; by eexists|]. eapply pok_shared; [|exact Hk]. intros q x Hx. exists x. split; [|done].
    rewrite lookup_insert_ne; [done|]. intros ->. apply Hpa, (ly_shared _ _ _ _ _ _ _ _ Ly). by eexists.
Qed.

Lemma pfn_round pa : frame_ok pa → pfn_to_phys (phys_to_pfn pa) = pa ∧ (0 <= phys_to_pfn pa < 2 ^ 32)%Z.
Proof using Type.
  clear HHDM_room Hz ram. intros [Hb Ha]. pose proof (Z.div_mod pa 4096 ltac:(lia)) as E. rewrite Ha, Z.add_0_r in E.
  assert (0 <= pa / 4096 < 2 ^ 32)%Z by (split; [apply Z.div_pos; lia|apply Z.div_lt_upper_bound; lia]).
  assert (phys_to_pfn pa = pa / 4096)%Z as Ep by (rewrite E at 1; rewrite Z.mul_comm; by apply phys_pfn).
  rewrite Ep. split; [|done]. rewrite pfn_to_phys_eq by done. lia.
Qed.

(** What a step leaves of the memory of the processes: everything outside the
    page the shared region goes to. *)
Definition undisturbed (U : gmap Z pages) (D : gset Z) (s k : Mach F) : Prop :=
  (∀ r v, is_Some (U !! r) → page v ≠ page SHARED_VA → user_view (mem k) r v = user_view (mem s) r v) ∧
  (∀ t, t ∈ D → mem k !! t = mem s !! t).

Lemma joined_undisturbed U D H s q P phys prot k : hinv km B (mkPstate s U D) H → U !! q = Some P →
  joined km B U D q (<[page SHARED_VA:=(phys, prot)]> P) s k → undisturbed U D s k.
Proof using Type.
  clear HHDM_room Hz ram. intros I HP [[H' I'] J2 J3 J4 J5 J6 J7]. split; [|done]. intros r v Hr Hv.
  destruct (decide (r = q)) as [->|Hne]; [|apply keeps_view, J4; [by right|done]].
  pose proof (w_view _ _ _ _ (h_world _ _ _ _ I) q P v HP) as E. pose proof (w_view _ _ _ _ (h_world _ _ _ _ I') q _ v (lookup_insert_eq _ _ _)) as E'.
  cbn [mach] in E, E'. rewrite E, E'. unfold given. by rewrite lookup_insert_ne by (by apply not_eq_sym).
Qed.

(** The machine's part of setting up a shared region. *)
Lemma share_run st U D H G w o p io ip : pinv_with st U D H G w → alive st !! o = Some io → alive st !! p = Some ip → o ≠ p →
  (3 <= fs_count (fr (mach_of (sys st))))%Z →
  ∃ pa k U' H', setup_shared_region HHDM_OFFSET (mkSpace o 0) (mkSpace p 0) (sys st) =
      (install_at PING (install_frame SHARED_SLOT (phys_to_pfn pa) 1 (bf_union READ WRITE));;
       install_at PONG (install_shared_ro SHARED_SLOT (phys_to_pfn pa) 1 SHARED_VA);;
       mret (phys_to_pfn pa)) (mkSys k (user (sys st)) (auth (sys st)) (cursor (sys st))) ∧
    pfn_to_phys (phys_to_pfn pa) = pa ∧ (shared st !! pa = None ∧ mem k !! pa = Some (replicate 512 0%Z)) ∧
    pinv_with (mkPsys (mkSys k (user (sys st)) (auth (sys st)) (cursor (sys st))) (<[p:=crowded ip]> (<[o:=crowded io]> (alive st)))
      (<[pa:=Some o]> (shared st)) (kern st)) U' ({[pa]} ∪ D) H' G w ∧
    (∃ P, U' !! o = Some P ∧ P !! page SHARED_VA = Some (pa, Rw)) ∧ (∃ P, U' !! p = Some P ∧ P !! page SHARED_VA = Some (pa, Ro)) ∧
    undisturbed U D (mach_of (sys st)) k.
Proof using HHDM_room.
  clear Hz ram. intros PI Ho Hpp Hne Hc. pose proof PI as [I L Ly Hl Hr Hp]. destruct st as [[s u a c] al sh kr]. cbn [sys mach_of alive shared kern user auth cursor] in *.
  destruct (Hp o io Ho) as (Po & _ & HPo & _). destruct (Hp p ip Hpp) as (Pp & _ & HPp & _).
  destruct (stack_frame km B s U D H I) as (pa & s1 & R1 & I1 & Em & E1 & E1' & Hpa & _ & C1); [lia|].
  pose proof (fs_held_ok _ _ pa (ok_held _ _ _ (w_okay _ _ _ _ (h_world _ _ _ _ I1))) ltac:(set_solver)) as Hok. pose proof Hok as [Hb Hal].
  set (s2 := upd s1 (<[pa:=replicate 512 0%Z]> (mem s1)) (fr s1)).
  destruct (write_hinv km B s1 U ({[pa]} ∪ D) pa (replicate 512 0%Z) s2 _ I1) as [I2 K2]; [set_solver|apply length_replicate|done|].
  assert (∀ r, is_Some (U !! r) → keeps (mem s) (mem s2) r) as K by (intros r Hx; rewrite <- Em; apply K2; by right).
  pose proof (fresh_pinv (mkPsys (mkSys s u a c) al sh kr) U D H G w pa s2 _ (Some o) PI I2 K Hpa) as PI2. cbn [sys user auth cursor alive shared kern] in PI2.
  destruct (pfn_round pa Hok) as [Epa _].
  destruct (map_shared_run HHDM_OFFSET km HHDM_room B s2 U _ _ o Po pa Rw u a c (mret (M := M (Sys F) Empty_set)) I2 HPo) as (s3 & R3 & J3); [lia|done|cbn [s2 upd fr]; lia|].
  pose proof (jn_count _ _ _ _ _ _ _ _ J3) as C3. cbn [s2 upd fr] in C3.
  destruct (join_pinv _ _ _ _ _ _ o io Po pa Rw (Some o) s3 u PI2 Ho HPo J3) as [H3 PI3]; [apply lookup_insert_eq|done|].
  cbn [sys user auth cursor alive shared kern] in PI3. pose proof (pi_hinv _ _ _ _ _ _ PI3) as I3. cbn [sys mach_of] in I3.
  destruct (map_shared_run HHDM_OFFSET km HHDM_room B s3 _ _ _ p Pp pa Ro u a c (mret (M := M (Sys F) Empty_set)) I3) as (s4 & R4 & J4); [by rewrite lookup_insert_ne|lia|done|lia|].
  destruct (join_pinv _ _ _ _ _ _ p ip Pp pa Ro (Some o) s4 u PI3) as [H4 PI4]; [cbn; by rewrite lookup_insert_ne|by rewrite lookup_insert_ne|exact J4|apply lookup_insert_eq|done|].
  cbn [sys user auth cursor alive shared kern] in PI4. pose proof (pi_hinv _ _ _ _ _ _ PI4) as I4. cbn [sys mach_of] in I4.
  pose proof (switch_hinv km B s4 _ _ (KERNEL_PML4 s4) (at_kernel s4) H4 I4 eq_refl) as I5.
  exists pa, (at_kernel s4). eexists. exists H4. split; [|split; [done|split; [|split; [|split; [|split]]]]].
  - unfold setup_shared_region. rewrite (on_mach_run _ _ _ _ _ _ _ _ R1). rewrite (bind_run _ _ _ pa (mkSys s1 u a c)) by done.
    rewrite (on_mach_run _ _ _ _ _ _ () s2) by (unfold zero_frame, phys_to_virt; by rewrite arith_in by (unfold in_u; lia)). cbv zeta.
    rewrite (bind_run _ _ _ _ _ (ret_run _ _ _ _ R3)), (bind_run _ _ _ _ _ (ret_run _ _ _ _ R4)).
    by rewrite (assert_shared_run HHDM_OFFSET km HHDM_room B s4 _ _ _ p _ pa u a c _ I4 (lookup_insert_eq _ _ _) (lookup_insert_eq _ _ _)).
  - split; [destruct (sh !! pa) eqn:Es; [exfalso; apply Hpa, (ly_shared _ _ _ _ _ _ _ _ Ly); by eexists|done]|].
    cbn [at_kernel mem]. rewrite (jn_data _ _ _ _ _ _ _ _ J4), (jn_data _ _ _ _ _ _ _ _ J3) by (by apply elem_of_union_l, elem_of_singleton). apply lookup_insert_eq.
  - destruct PI4 as [_ L4 Ly4 Hl4 Hr4 Hp4]. split; cbn [sys mach_of alive shared kern] in *; [exact I5|destruct L4; by split|done..].
  - eexists. split; [by rewrite lookup_insert_ne, lookup_insert_eq by done|apply lookup_insert_eq].
  - eexists. split; apply lookup_insert_eq.
  - pose proof (joined_undisturbed _ _ _ _ _ _ _ _ _ I2 HPo J3) as [V3 D3].
    pose proof (joined_undisturbed _ _ _ _ _ _ _ _ _ I3 ltac:(by rewrite lookup_insert_ne) J4) as [V4 D4]. split.
    + intros r v Hx Hv. cbn [at_kernel mem]. rewrite V4, V3; [by apply keeps_view, K|done|done| |done].
      destruct (decide (r = o)) as [->|]; [rewrite lookup_insert_eq; by eexists|by rewrite lookup_insert_ne].
    + intros t Ht. cbn [at_kernel mem]. rewrite D4, D3 by (by apply elem_of_union_r). cbn [s2 upd mem]. rewrite lookup_insert_ne by (by intros ->). by rewrite Em.
Qed.

Lemma share_pinv st U D H G w o p io ip pfn sy : pinv_with st U D H G w → alive st !! o = Some io → alive st !! p = Some ip → o ≠ p →
  (3 <= fs_count (fr (mach_of (sys st))))%Z →
  setup_shared_region HHDM_OFFSET (mkSpace o 0) (mkSpace p 0) (sys st) = (Ok pfn, sy) →
  pinv (mkPsys sy (<[p:=crowded ip]> (<[o:=crowded io]> (alive st))) (<[pfn_to_phys pfn:=Some o]> (shared st)) (kern st)) ∧
  undisturbed U D (mach_of (sys st)) (mach_of sy).
Proof using HHDM_room.
  clear Hz ram. intros PI Ho Hpp Hne Hc R.
  destruct (share_run st U D H G w o p io ip PI Ho Hpp Hne Hc) as (pa & k & U' & H' & E & Epa & _ & PI' & _ & _ & Und). rewrite E in R.
  unfold mbind at 1, M_bind at 1 in R. destruct (install_at PING _ _) as [[[]|e|] y1] eqn:Y1; [|done..]. apply install_same in Y1 as [u1 ->].
  unfold mbind at 1, M_bind at 1 in R. destruct (install_at PONG _ _) as [[[]|e|] y2] eqn:Y2; [|done..]. apply install_same in Y2 as [u2 ->].
  injection R as <- <-. rewrite Epa. split; [|exact Und]. pose proof PI' as [I5 L5 Ly5 _ _ _].
  eapply (pinv_quiet _ _ _ _ _ _ k u2 _ H' (kern st) PI'); [exact I5|done|exact Ly5|apply (lo_frames _ _ _ _ _ L5)].
Qed.

Lemma share_with_pinv st U D H G w id p ip pfn sy : pinv_with st U D H G w → alive st !! p = Some ip → (0 <= pfn < 2 ^ 32)%Z →
  is_Some (shared st !! pfn_to_phys pfn) → (1 <= fs_count (fr (mach_of (sys st))))%Z →
  share_with HHDM_OFFSET id (mkSpace p 0) pfn (sys st) = (Ok (), sy) →
  pinv (mkPsys sy (<[p:=crowded ip]> (alive st)) (shared st) (kern st)) ∧ undisturbed U D (mach_of (sys st)) (mach_of sy).
Proof using HHDM_room.
  clear Hz ram. intros PI Hi Hpfn [o Ho] Hc R. pose proof PI as [I L Ly Hl Hr Hp]. destruct st as [[s u a c] al sh kr]. cbn [sys mach_of alive shared kern user auth cursor] in *.
  destruct (Hp p ip Hi) as (P & _ & HP & _). unfold share_with in R. rewrite (wrap_small 32) in R by (unfold in_u; lia).
  rewrite pfn_to_phys_eq in R, Ho by done.
  match type of R with (_ ≫= ?K0) _ = _ =>
    destruct (map_shared_run HHDM_OFFSET km HHDM_room B s U D H p P (pfn * 4096) Ro u a c K0 I HP) as (k & R1 & J); [lia|by apply Z.mod_mul|done|] end.
  rewrite R1 in R. apply install_same in R as [u' ->].
  destruct (join_pinv _ _ _ _ _ _ p ip P (pfn * 4096) Ro o k u' PI Hi HP J Ho) as [H' PI']; [done|].
  split; [do 5 eexists; exact PI'|]. by eapply joined_undisturbed.
Qed.

Lemma reap_pinv st U D H G w r i n sy : pinv_with st U D H G w → alive st !! r = Some i →
  on_mach (reap_process_space HHDM_OFFSET (mkSpace r 0) [stack_va i]) (sys st) = (Ok n, sy) →
  pinv (mkPsys sy (base.delete r (alive st)) (orphan r <$> shared st) (kern st)) ∧
  mem (mach_of sy) = mem (mach_of (sys st)) ∧
  (alone i = true → fs_count (fr (mach_of sy)) = (fs_count (fr (mach_of (sys st))) + cost i)%Z ∧ n = cost i).
Proof using HHDM_room.
  clear Hz ram. intros [I L Ly Hl Hr Hp] Hi R. destruct st as [[s u a c] al sh kr]. cbn [sys mach_of alive shared kern user auth cursor] in *.
  destruct (Hp r i Hi) as (P & g & HP & Hg & Hk). pose proof Hk as [[Hv Hvs] Hst Hnode Hpages Hcost].
  destruct (ly_stack _ _ _ _ _ _ _ _ Ly r g Hg) as (T1 & T2 & T3 & T4 & T5).
  pose proof (page_leaf km B s U D H r P (stack_va i) _ Rw I HP Hv Hst Hnode) as Hleaf.
  destruct (reap_run HHDM_OFFSET km HHDM_room B s U D r [stack_va i] H I) as (Lf & s' & R' & HLnd & HL & Em & Ek & Ec & I').
  { by eexists. } { rewrite Hleaf. apply NoDup_singleton. }
  { rewrite Hleaf. intros t ->%list_elem_of_singleton. set_solver. } { cbn [length]. lia. }
  unfold on_mach in R. cbn [mach_of user auth cursor] in R. rewrite R' in R. injection R as <- <-. rewrite Hleaf in HL, I'.
  split; [|split; [exact Em|]].
  - exists (base.delete r U), (D ∖ list_to_set [stack_frame_of g]), (H ∖ list_to_set Lf), (base.delete r G), w.
    split; cbn [sys alive shared kern mach_of]; try done.
    + destruct L as [L1 L2 L3 L4 L5 L6]. split; try done. intros t Ht. specialize (L6 t Ht). assert (t ≠ stack_frame_of g) by (intros ->; done). set_solver.
    + destruct Ly as [A1 A2 A3 A4 A5 A6]. split; try done.
      * intros r' g'. rewrite lookup_delete_Some. intros [_ Hg']. by apply (A1 r').
      * intros r' g'. rewrite lookup_delete_Some. intros [Hne Hg']. cbv zeta. destruct (A2 r' g' Hg') as (B1 & B2 & B3 & B4 & B5).
        destruct (A3 r r' g g' Hg Hg') as [B6 _]; [done|]. split; [set_solver|]. do 2 (split; [done|]). split; [by rewrite lookup_fmap, B4|done].
      * intros r1 r2 g1 g2. rewrite !lookup_delete_Some. intros [_ ?] [_ ?]. by apply (A3 r1 r2).
      * intros q. rewrite lookup_fmap, fmap_is_Some. intros Hq. destruct (A4 q Hq) as (B1 & B2 & B3). assert (q ≠ stack_frame_of g) by (intros ->; by rewrite T4 in Hq; destruct Hq). set_solver.
      * intros q Hq. destruct (A5 q Hq) as (B1 & B2 & B3). assert (q ≠ stack_frame_of g) by (intros ->; done). set_solver.
    + intros r' [P' HP']. apply lookup_delete_Some in HP' as [Hne HP']. rewrite lookup_delete_ne by done. apply Hl. by eexists.
    + intros r' [P' HP']. apply lookup_delete_Some in HP' as [Hne HP']. rewrite lookup_delete_ne by done. apply Hr. by eexists.
    + intros r' j. rewrite lookup_delete_Some. intros [Hne Hj]. destruct (Hp r' j Hj) as (P' & g' & HP' & Hg' & Hk'). exists P', g'.
      rewrite !lookup_delete_ne by done. split; [done|]. split; [done|]. rewrite Em. eapply pok_shared; [|exact Hk'].
      intros q x Hx. rewrite lookup_fmap, Hx. eexists. split; [done|]. intros ->. unfold orphan. rewrite decide_False by congruence. done.
  - intros Ha. specialize (Hcost Ha). cbn [mach_of].
    destruct (ok_held _ _ _ (w_okay _ _ _ _ (h_world _ _ _ _ I))) as [_ C1]. destruct (ok_held _ _ _ (w_okay _ _ _ _ (h_world _ _ _ _ I'))) as [_ C2]. cbn [mach] in C1, C2.
    destruct (own_set km B s U D H r I) as (Lo & HLs & HLo); [by eexists|].
    assert (stack_frame_of g ∉ Lo) as Hnin.
    { intros (q & Hq & Nq)%HLo. pose proof (own_path_len q Hq). eapply (h_apart _ _ _ _ I _ r q); [done|right; by eexists|done|done]. }
    assert ((list_to_set Lf : gset Z) = {[stack_frame_of g]} ∪ Lo) as ELf.
    { apply set_eq. intros t. rewrite elem_of_list_to_set, HL, list_elem_of_singleton, elem_of_union, elem_of_singleton, HLo. done. }
    assert (Z.of_nat (length Lf) = cost i) as Hlen.
    { rewrite Hcost, <- HLs. rewrite <- (size_list_to_set (C := gset Z)) by done. rewrite ELf, size_union, size_singleton by set_solver. lia. }
    split; [|done]. pose proof (size_minus_list H Lf HLnd) as Hsz. unfold CS. cbn [counted fs_count].
    assert (∀ t, t ∈ Lf → t ∈ H) as HLH; [|specialize (Hsz HLH); lia].
    intros t Ht. apply HL in Ht as [->%list_elem_of_singleton|(q & Hq & Nq)]; [by apply (h_handed _ _ _ _ I)|].
    pose proof (own_path_len q Hq). apply (sp_held _ _ _ (w_space _ _ _ _ (h_world _ _ _ _ I) r ltac:(by eexists))) in Nq as [? _]; done.
Qed.

(** What user mode of a live process reaches is a page it was given. *)
Lemma view_page st U D H G w r v q wx : pinv_with st U D H G w → is_Some (alive st !! r) →
  user_view (mem (mach_of (sys st))) r v = Some (q, wx) →
  ∃ i P g f prot, alive st !! r = Some i ∧ U !! r = Some P ∧ G !! r = Some g ∧ pok (mem (mach_of (sys st))) P (shared st) r i g ∧
    P !! page v = Some (f, prot) ∧ q = (f + v mod 4096)%Z ∧ wx = (writable prot, executable prot) ∧ f ∈ D ∧
    (in_segs g f ∨ f = stack_frame_of g ∨ page v = page SHARED_VA ∧ ∃ o, shared st !! f = Some o ∧ (prot = Rw → o = Some r)).
Proof using Type.
  clear HHDM_room Hz ram. intros [I L Ly Hl Hr Hp] [i Hi] Hv. destruct (Hp r i Hi) as (P & g & HP & Hg & Hk).
  pose proof (w_view _ _ _ _ (h_world _ _ _ _ I) r P v HP) as E. cbn [mach] in E. rewrite E in Hv. unfold given in Hv. destruct (P !! page v) as [[f prot]|] eqn:Hf; [|done].
  cbn [fmap option_fmap option_map fst snd] in Hv. injection Hv as <- <-. exists i, P, g, f, prot. do 7 (split; [done|]).
  pose proof (pk_pages _ _ _ _ _ _ Hk _ _ _ Hf) as Hown. split; [|done]. destruct Hown as [Hs|[->|(_ & o & Ho & _)]].
  - apply (lo_frames _ _ _ _ _ L). by eapply in_segs_block.
  - apply (ly_stack _ _ _ _ _ _ _ _ Ly r g Hg).
  - apply (ly_shared _ _ _ _ _ _ _ _ Ly). by eexists.
Qed.

(** Any contents may go into a frame handed out. *)
Lemma write_pinv st U D H G w pa T : pinv_with st U D H G w → pa ∈ D → length T = 512 →
  pinv (mkPsys (mkSys (upd (mach_of (sys st)) (<[pa:=T]> (mem (mach_of (sys st)))) (fr (mach_of (sys st)))) (user (sys st)) (auth (sys st)) (cursor (sys st)))
    (alive st) (shared st) (kern st)).
Proof using Type.
  clear HHDM_room Hz ram. intros PI Hpa HT. pose proof PI as [I L Ly _ _ _].
  destruct (write_hinv km B (mach_of (sys st)) U D pa T (upd (mach_of (sys st)) (<[pa:=T]> (mem (mach_of (sys st)))) (fr (mach_of (sys st)))) H I Hpa HT eq_refl) as [I' K].
  eapply pinv_quiet; [exact PI|exact I'| |exact Ly|apply (lo_frames _ _ _ _ _ L)]. intros r Hr. apply K. by right.
Qed.

Lemma pstep_pinv a st st' : pinv st → pstep HHDM_OFFSET PEX_ARCH ram a st st' → pinv st'.
Proof using HHDM_room Hz.
  intros (U & D & H & G & w & PI) Hst. pose proof PI as [I L Ly Hl Hr Hp].
  destruct Hst as [st pex dom id va e top sp sy H1 H2 H3 H4 H5 H6 H7 R|st o p pfn sy io ip H1 H2 H3 H4 R|st id p pfn sy ip H1 H2 H3 H4 R
    |st r i n sy H1 H2 R|st r Hroot|st pa sy R|st pa sy Hpa R|st pa T Hpa HT|st r v q x T Hlive Hv HT|st u].
  - by eapply load_pinv.
  - by eapply share_pinv.
  - by eapply share_with_pinv.
  - by eapply reap_pinv.
  - eapply pinv_quiet; [exact PI| | |exact Ly|apply (lo_frames _ _ _ _ _ L)]; [|done]. by eapply (switch_hinv km B (mach_of (sys st)) U D r _ H I).
  - unfold on_mach in R. destruct (on_frames fs_alloc (mach_of (sys st))) as [o k] eqn:Rk. injection R as -> <-.
    pose proof (raw_hinv km B _ U D pa k H I Rk) as I'. unfold on_frames in Rk.
    pose proof (fs_alloc_spec _ _ (ok_held _ _ _ (w_okay _ _ _ _ (h_world _ _ _ _ I)))) as Ha. cbn [mach] in Ha.
    destruct (fs_alloc (fr (mach_of (sys st)))) as [[[pa'|]|e|] f]; try done. injection Rk as -> <-. destruct Ha as (Hn & _).
    pose proof (lo_frames _ _ _ _ _ L) as Hb. assert (pa ∉ D) as HnD by (intros Hin; by apply Hn, (h_handed _ _ _ _ I)).
    assert (pa ∉ fs_kept) as HnK by (intros Hin; by apply Hn, (fs_kept_held _ _ (ok_held _ _ _ (w_okay _ _ _ _ (h_world _ _ _ _ I))))).
    eapply (pinv_quiet st U D H G w); [exact PI|exact I'|done|by apply layout_grow|]. intros t Ht. apply elem_of_union_r. by apply Hb.
  - unfold on_mach in R. destruct (free_table pa (mach_of (sys st))) as [o k] eqn:Rk. injection R as -> <-.
    destruct (ly_kern _ _ _ _ _ _ _ _ Ly pa Hpa) as (B1 & B2 & B3).
    pose proof (free_hinv km B _ U D pa k H I ltac:(set_solver) Rk) as I'.
    assert (mem k = mem (mach_of (sys st))) as Em by (unfold free_table, on_frames in Rk; destruct (fs_free pa _); by injection Rk as _ <-).
    eapply (pinv_quiet st U D H G w); [exact PI|exact I'|by rewrite Em|by apply layout_shrink|]. intros t Ht.
    pose proof (lo_frames _ _ _ _ _ L t Ht). assert (t ≠ pa) by (intros ->; done). set_solver.
  - eapply write_pinv; [exact PI| |done]. by apply (ly_kern _ _ _ _ _ _ _ _ Ly).
  - destruct (view_page st U D H G w r v q (true, x) PI Hlive Hv) as (i & P & g & f & prot & _ & _ & _ & _ & _ & -> & _ & Hf & _).
    replace (f + v mod 4096 - v mod 4096)%Z with f by lia. by eapply write_pinv.
  - eapply (pinv_quiet st U D H G w); [exact PI|exact I|done|exact Ly|apply (lo_frames _ _ _ _ _ L)].
Qed.

Lemma psteps_pinv st st' : pinv st → rtc (pany HHDM_OFFSET PEX_ARCH ram) st st' → pinv st'.
Proof using HHDM_room Hz. intros I Hst. induction Hst as [|x y y' [a H1] _ IH]; [done|]. apply IH. by eapply pstep_pinv. Qed.
End inv.
