(* ===== verification/ProcessView.v ===== *)
(** * What a process reads

    The user half of memory as a process sees it: the byte at each address and
    whether it may write or execute there.  After a load it is the image. *)

From stdpp Require Import sets relations.
From S2P Require Import Prelude Rights Cap CSpace CSpaceReach Buddy Pex Arch Loader LoaderTheorems LoaderTrace Userland MemInit Frames.
From S2P Require Import Paging PagingInv PagingOps PagingClone PagingWorld PagingBuild PagingBoot PagingHistory PagingCount.
From S2P Require Import Process ProcessMem ProcessLoad ProcessSys ProcessInv.

#[local] Opaque idx leaf_tables.

(** The byte user mode reads at [v] in the space [r], and its rights there. *)
Definition user_read {F} (ram : Z → list Z) (s : Mach F) (r v : Z) : option (Z * (bool * bool)) :=
  qw ← user_view (mem s) r v;
  x ← frame_bytes (contents ram s (qw.1 - v mod 4096)) !! Z.to_nat (v mod 4096);
  Some (x, qw.2).

(** What an image puts at [v]: a later segment covers an earlier one. *)
Definition segment_at (sd : Segment * bytes) (v : Z) : option (Z * (bool * bool)) :=
  if decide (vaddr sd.1 <= v < vaddr sd.1 + mem_size sd.1)%Z then
    Some (seg_byte sd.2 (Z.to_nat (v - vaddr sd.1)), (writable (perm_to_prot (perm sd.1)), executable (perm_to_prot (perm sd.1))))
  else None.
Fixpoint image_at (sds : list (Segment * bytes)) (v : Z) : option (Z * (bool * bool)) :=
  match sds with
  | [] => None
  | sd :: sds' =>
      match image_at sds' v with
      | Some x => Some x
      | None => segment_at sd v
      end
  end.

(** ** Pages *)

(** Of the addresses of the lower half only the window has the pages of the window. *)
Lemma page_window v v' : (0 <= v < 2 ^ 48)%Z → window v' → page v = page v' → window v.
Proof.
  intros Hv Hw Hp. destruct (window_idx v' Hw) as [I3 I2]. unfold page in Hp. injection Hp as H3 H2 _ _.
  rewrite I3 in H3. rewrite I2 in H2. apply (f_equal Z.of_nat) in H3, H2. rewrite idx_eq in H3, H2 by lia.
  change (2 ^ (12 + 9 * 3))%Z with (2 ^ 39)%Z in H3. change (2 ^ (12 + 9 * 2))%Z with (2 ^ 30)%Z in H2.
  pose proof (Z.div_mod v (2 ^ 39) ltac:(lia)) as E3. pose proof (Z.mod_pos_bound v (2 ^ 39) ltac:(lia)).
  assert (0 <= v / 2 ^ 39 < 512)%Z by (split; [apply Z.div_pos; lia|apply Z.div_lt_upper_bound; lia]).
  rewrite Z.mod_small in H3 by done. assert (v < 2 ^ 39)%Z by lia.
  pose proof (Z.div_mod v (2 ^ 30) ltac:(lia)) as E2. pose proof (Z.mod_pos_bound v (2 ^ 30) ltac:(lia)).
  assert (0 <= v / 2 ^ 30 < 512)%Z by (split; [apply Z.div_pos; lia|apply Z.div_lt_upper_bound; lia]).
  rewrite Z.mod_small in H2 by done. unfold window. lia.
Qed.

Lemma same_page v v' : (0 <= v < 2 ^ 48)%Z → window v' → page v = page v' → (v / 4096 = v' / 4096)%Z.
Proof. intros Hv Hw Hp. apply window_page; [by eapply page_window|done|done]. Qed.

(** The page of the [k]-th frame of a segment. *)
Lemma segment_page sd v k : seg_wf sd → k < seg_pages sd → (0 <= v < 2 ^ 48)%Z →
  page v = page (vaddr sd.1 + Z.of_nat k * 4096) ↔ (vaddr sd.1 + Z.of_nat k * 4096 <= v < vaddr sd.1 + Z.of_nat k * 4096 + 4096)%Z.
Proof.
  intros [_ _ Hs Ha [Hw1 Hw2]] Hk Hv. unfold PROC_VA_BASE, PROC_VA_END in *. set (u := (vaddr sd.1 + Z.of_nat k * 4096)%Z).
  assert (window u) as Hu by (unfold window, u; lia). assert (u mod 4096 = 0)%Z as Hm by (unfold u; rewrite Z.mod_add by lia; done).
  pose proof (Z.div_mod u 4096 ltac:(lia)) as Eu. pose proof (Z.div_mod v 4096 ltac:(lia)) as Ev. pose proof (Z.mod_pos_bound v 4096 ltac:(lia)). split.
  - intros Hp. apply same_page in Hp; [lia|done|done].
  - intros Hr. assert (window v) as Hwv by (unfold window, u in *; lia). apply window_page; [done|done|]. rewrite Hm in Eu. lia.
Qed.

Lemma seg_map_at f sd P n v : seg_wf sd → n ≤ seg_pages sd → (0 <= v < 2 ^ 48)%Z →
  seg_map f sd P n !! page v =
    if decide (vaddr sd.1 <= v < vaddr sd.1 + Z.of_nat n * 4096)%Z
    then Some (((f + (v - vaddr sd.1) / 4096) * 4096)%Z, perm_to_prot (perm sd.1)) else P !! page v.
Proof.
  intros W Hn Hv. unfold seg_map. induction n as [|n IH]; [rewrite decide_False by lia; done|]. rewrite seq_S, foldl_app. cbn [foldl Nat.add].
  pose proof (segment_page sd v n W ltac:(lia) Hv) as Hp. destruct (decide (page v = page (vaddr sd.1 + Z.of_nat n * 4096))) as [E|E].
  - rewrite <- E, lookup_insert_eq. apply Hp in E. rewrite decide_True by lia. do 4 f_equal. apply (Z.div_unique _ _ _ (v - vaddr sd.1 - Z.of_nat n * 4096)); lia.
  - rewrite lookup_insert_ne by (by apply not_eq_sym). rewrite IH by lia.
    assert (¬ (vaddr sd.1 + Z.of_nat n * 4096 <= v < vaddr sd.1 + Z.of_nat n * 4096 + 4096)%Z) by tauto.
    destruct (decide (vaddr sd.1 <= v < vaddr sd.1 + Z.of_nat n * 4096)%Z); [rewrite decide_True by lia|rewrite decide_False by lia]; done.
Qed.

(** The pages of a load and the contents of their frames are the image. *)
Lemma load_pages_at m sds f P v : Forall seg_wf sds → loaded m f sds → (0 <= v < 2 ^ 48)%Z →
  match image_at sds v with
  | Some (x, wx) => ∃ q prot T, load_pages f sds P !! page v = Some (q, prot) ∧ m !! q = Some T ∧
      frame_bytes T !! Z.to_nat (v mod 4096) = Some x ∧ wx = (writable prot, executable prot)
  | None => load_pages f sds P !! page v = P !! page v
  end.
Proof.
  intros Hw Hl Hv. revert f P Hl. induction sds as [|sd sds IH]; intros f P Hl; [done|]. apply Forall_cons in Hw as [W Hw].
  cbn [image_at load_pages loaded] in *. destruct Hl as [Hs Hl].
  specialize (IH Hw (f + Z.of_nat (seg_pages sd))%Z (seg_map f sd P (seg_pages sd)) Hl). destruct (image_at sds v) as [[x wx]|]; [done|].
  rewrite IH, (seg_map_at f sd P _ v W (le_n _) Hv). unfold segment_at. pose proof W as [_ _ Hsz Ha _]. rewrite Hsz. case_decide as Hin; [|done].
  set (k := ((v - vaddr sd.1) / 4096)%Z). pose proof (Z.div_mod (v - vaddr sd.1) 4096 ltac:(lia)) as E. fold k in E.
  pose proof (Z.mod_pos_bound (v - vaddr sd.1) 4096 ltac:(lia)) as Hb.
  assert ((v - vaddr sd.1) mod 4096 = v mod 4096)%Z as Em by (rewrite Zminus_mod, Ha, Z.sub_0_r, Z.mod_mod by lia; done). rewrite Em in E, Hb.
  destruct (Hs (Z.to_nat k) (Z.to_nat (v mod 4096)) ltac:(lia) ltac:(lia)) as (T & HT & Hx). rewrite Z2Nat.id in HT by lia.
  do 3 eexists. split; [done|]. split; [exact HT|]. split; [|done]. rewrite Hx. do 2 f_equal. lia.
Qed.

(** ** Reads that stay the same *)

Section reads.
Context {F : Type}.
Variable ram : Z → list Z.
Implicit Types s : Mach F.

Lemma read_same s s' r v : user_view (mem s') r v = user_view (mem s) r v →
  (∀ q wx, user_view (mem s) r v = Some (q, wx) → mem s' !! (q - v mod 4096)%Z = mem s !! (q - v mod 4096)%Z) →
  user_read ram s' r v = user_read ram s r v.
Proof using Type.
  intros Hv Hm. unfold user_read. rewrite Hv. destruct (user_view (mem s) r v) as [[q wx]|]; [|done]. cbn [mbind option_bind fst snd].
  unfold contents. by rewrite (Hm q wx eq_refl).
Qed.
End reads.

(** ** Frames of different processes *)

Section private.
Context {BF : Bitflags} {F : Type} (FS0 : FrameSource F).
Variables HHDM_OFFSET PEX_ARCH N : Z.
Variable km : KernelMap.
Variable ram : Z → list Z.
Hypothesis HHDM_room : (0 <= HHDM_OFFSET <= 2 ^ 64 - 2 ^ 44)%Z.
Variables (B : gset Z) (b z : Z).
Hypothesis Hz : (z <= 64)%Z.
Abbreviation machine st := (mach_of (sys st)).
Abbreviation pinv_with := (pinv_with FS0 N km B b z).

(** Two processes meet only in a shared frame, and one of them at most writes it. *)
Lemma meet st U D H G w r r' v v' q q' wx wx' : pinv_with st U D H G w → is_Some (alive st !! r) → is_Some (alive st !! r') → r ≠ r' →
  user_view (mem (machine st)) r v = Some (q, wx) → user_view (mem (machine st)) r' v' = Some (q', wx') → (q - v mod 4096 = q' - v' mod 4096)%Z →
  is_Some (shared st !! (q - v mod 4096)%Z) ∧ page v = page SHARED_VA ∧ page v' = page SHARED_VA ∧ (wx.1 = true → wx'.1 = true → False).
Proof using Type.
  clear HHDM_room Hz ram. intros PI Ha Ha' Hne Hv Hv' E. pose proof PI as [_ _ Ly _ _ _].
  destruct (view_page _ _ _ _ _ _ st U D H G w r v q wx PI Ha Hv) as (i & P & g & f & prot & _ & _ & Hg & _ & _ & -> & -> & _ & Hown).
  destruct (view_page _ _ _ _ _ _ st U D H G w r' v' q' wx' PI Ha' Hv') as (i' & P' & g' & f' & prot' & _ & _ & Hg' & _ & _ & -> & -> & _ & Hown').
  replace (f + v mod 4096 - v mod 4096)%Z with f in * by lia. replace (f' + v' mod 4096 - v' mod 4096)%Z with f' in * by lia. subst f'.
  destruct (ly_apart _ _ _ _ _ _ _ _ Ly r r' g g' Hg Hg' Hne) as [Hst Hsg].
  destruct (ly_stack _ _ _ _ _ _ _ _ Ly r g Hg) as (_ & _ & _ & Hs1 & Hs2). destruct (ly_stack _ _ _ _ _ _ _ _ Ly r' g' Hg') as (_ & _ & _ & Hs1' & Hs2').
  assert (∀ r0 g0 t, G !! r0 = Some g0 → in_segs g0 t → shared st !! t = None) as Hsh.
  { intros r0 g0 t Hg0 Hin. destruct (shared st !! t) eqn:Et; [|done]. destruct (ly_shared _ _ _ _ _ _ _ _ Ly t) as (_ & _ & Hb); [by eexists|].
    destruct Hb. by eapply in_segs_block. }
  destruct Hown as [H1|[->|(Hp & o & Ho & Hw)]], Hown' as [H1'|[E'|(Hp' & o' & Ho' & Hw')]]; try congruence.
  - by destruct (Hsg f).
  - subst f. destruct Hs2'. exact (in_segs_block _ _ _ _ _ _ _ _ r g _ Ly Hg H1).
  - by rewrite (Hsh r g f) in Ho'.
  - destruct Hs2. exact (in_segs_block _ _ _ _ _ _ _ _ r' g' _ Ly Hg' H1').
  - by rewrite (Hsh r' g' f) in Ho.
  - split; [by eexists|]. split; [done|]. split; [done|]. cbn [fst]. unfold writable. intros W1%bool_decide_eq_true W2%bool_decide_eq_true.
    specialize (Hw W1). specialize (Hw' W2). congruence.
Qed.

(** A frame of a process outside the shared page is its own. *)
Lemma own_frame st U D H G w r v q wx : pinv_with st U D H G w → is_Some (alive st !! r) → page v ≠ page SHARED_VA →
  user_view (mem (machine st)) r v = Some (q, wx) → let f := (q - v mod 4096)%Z in
  f ∈ D ∧ (f ∉ kern st) ∧ ∀ n, (w + Z.of_nat n <= z)%Z → ¬ in_run (b + w) n f.
Proof using Type.
  clear HHDM_room Hz ram. intros PI Ha Hp Hv. pose proof PI as [_ _ Ly _ _ _].
  destruct (view_page _ _ _ _ _ _ st U D H G w r v q wx PI Ha Hv) as (i & P & g & f & prot & _ & _ & Hg & _ & _ & -> & -> & HD & Hown).
  replace (f + v mod 4096 - v mod 4096)%Z with f by lia. cbv zeta. split; [done|].
  destruct (ly_stack _ _ _ _ _ _ _ _ Ly r g Hg) as (_ & _ & Hk & _ & Hs2). destruct Hown as [Hin|[->|[? _]]]; [| |done].
  - split; [intros Hk'; destruct (ly_kern _ _ _ _ _ _ _ _ Ly f Hk') as (_ & _ & Hb); destruct Hb; by eapply in_segs_block|].
    intros n _ (k & Hkn & ->). destruct Hin as (j & Hj & E). destruct (ly_segs _ _ _ _ _ _ _ _ Ly r g Hg). lia.
  - split; [done|]. intros n Hn (k & Hkn & E). apply Hs2. pose proof (ly_segs _ _ _ _ _ _ _ _ Ly r g Hg) as [? ?].
    destruct (decide (0 <= w)%Z); [|lia]. exists (Z.to_nat w + k). split; [lia|]. rewrite E. f_equal. lia.
Qed.
(** A step of another leaves what [r] reads outside the shared page. *)
Lemma others_read st st' U D H G w a r v : pinv_with st U D H G w → pstep (FS := CS FS0 N) HHDM_OFFSET PEX_ARCH ram a st st' → a ≠ Some r →
  is_Some (alive st !! r) → is_Some (alive st' !! r) → page v ≠ page SHARED_VA →
  user_read ram (machine st') r v = user_read ram (machine st) r v.
Proof using HHDM_room Hz.
  intros PI Hst Hact Ha Ha' Hp. pose proof (own_frame st U D H G w r v) as Own. pose proof (meet st U D H G w) as Meet. pose proof PI as [I L Ly Hl Hr Hpr].
  assert (is_Some (U !! r)) as HU by (destruct Ha as [i Hi]; destruct (Hpr r i Hi) as (P & _ & HP & _); by eexists).
  destruct Hst as [st pex dom id va e top sp sy H1 H2 H3 H4 H5 H6 H7 R|st o p pfn sy io ip H1 H2 H3 H4 R|st id p pfn sy ip H1 H2 H3 H4 R
    |st r2 i n sy H1 H2 R|st r2 Hroot|st pa sy R|st pa sy Hpa R|st pa T Hpa HT|st r2 v2 q2 x T Hlive Hv HT|st u]; cbn [sys mach_of alive] in *.
  - destruct (load_process_needs FS0 HHDM_OFFSET PEX_ARCH N ram _ _ _ _ _ _ _ R) as (out & l & Hload).
    pose proof (loader_pre HHDM_OFFSET HHDM_room _ _ _ _ _ pex L H1 H2 H6) as LP. pose proof (lo_used _ _ _ _ _ L) as Hw.
    destruct (load_process_run HHDM_OFFSET PEX_ARCH km ram HHDM_room B U D H (sys st) b z w pex dom id va out l I L LP Hload H5 H3)
      as (p & r' & t & k & H' & _ & R' & _ & _ & _ & _ & _ & _ & K & Hd & _ & _ & L'); [lia|].
    rewrite R in R'. injection R' as _ _ _ ->. cbn [mach_of]. pose proof (lo_used _ _ _ _ _ L') as Hw'.
    apply read_same; [apply keeps_view, K; by right|]. intros q wx Hv. destruct (Own q wx PI Ha Hp Hv) as (Hf & _ & Hrun). apply Hd; [done|]. apply Hrun. lia.
  - destruct (share_pinv FS0 HHDM_OFFSET N km HHDM_room B b z st U D H G w o p io ip pfn sy PI H1 H2 H3 H4 R) as [_ [V Dt]].
    apply read_same; [by apply V|]. intros q wx Hv. apply Dt. by apply (Own q wx PI Ha Hp Hv).
  - destruct (share_with_pinv FS0 HHDM_OFFSET N km HHDM_room B b z st U D H G w id p ip pfn sy PI H1 H2 H3 H4 R) as [_ [V Dt]].
    apply read_same; [by apply V|]. intros q wx Hv. apply Dt. by apply (Own q wx PI Ha Hp Hv).
  - destruct (reap_pinv FS0 HHDM_OFFSET N km HHDM_room B b z st U D H G w r2 i n sy PI H1 R) as (_ & Em & _). apply read_same; by rewrite Em.
  - done.
  - unfold on_mach, on_frames in R. destruct (fs_alloc (fr (machine st))) as [o f]. injection R as _ <-. done.
  - unfold on_mach, free_table, on_frames in R. destruct (fs_free pa (fr (machine st))) as [o f]. injection R as _ <-. done.
  - destruct (ly_kern _ _ _ _ _ _ _ _ Ly pa Hpa) as (HD & _).
    destruct (write_hinv km B (machine st) U D pa T (upd (machine st) (<[pa:=T]> (mem (machine st))) (fr (machine st))) H I HD HT eq_refl) as [_ K].
    apply read_same; [apply keeps_view, K; by right|]. intros q wx Hv. cbn [upd mem]. apply lookup_insert_ne. intros ->.
    by apply (Own q wx PI Ha Hp Hv).
  - destruct (view_page _ _ _ _ _ _ st U D H G w r2 v2 q2 (true, x) PI Hlive Hv) as (i & P & g & f & prot & _ & _ & _ & _ & _ & Ef & _ & Hf & _).
    assert (q2 - v2 mod 4096 = f)%Z as Eq by lia.
    destruct (write_hinv km B (machine st) U D (q2 - v2 mod 4096) T (upd (machine st) (<[(q2 - v2 mod 4096)%Z:=T]> (mem (machine st))) (fr (machine st))) H I ltac:(by rewrite Eq) HT eq_refl) as [_ K].
    apply read_same; [apply keeps_view, K; by right|]. intros q wx Hv1. cbn [upd mem]. apply lookup_insert_ne. intros E.
    apply Hp. apply (Meet r2 r v2 v q2 q (true, x) wx PI Hlive Ha); [congruence|done|done|done].
  - done.
Qed.
End private.
