(* ===== verification/ProcessStart.v ===== *)
(** * The start of a session

    After boot the loader's authority is built over a block of 64 frames.  From then
    on the block is out: the allocator hands out no frame of it and takes none
    back one by one ([Frames.fenced]), and the invariant of the system of
    processes holds. *)

From stdpp Require Import sets relations.
From S2P Require Import Prelude Rights Cap CSpace CSpaceInv CSpaceReach Buddy BuddyInv BuddyProps Pex Arch Loader LoaderProps LoaderTheorems LoaderTrace Userland MemInit Frames.
From S2P Require Import Paging PagingInv PagingOps PagingClone PagingWorld PagingBuild PagingBoot PagingHistory PagingCount.
From S2P Require Import Process ProcessMem ProcessLoad ProcessSys ProcessInv.

Abbreviation FA := (option FrameAllocator).

(** A block leaves the allocator. *)
Lemma fence_held fa H order phys f : fa_held 0 [] (Some fa) H → alloc_frames order (Some fa) = (Ok (Some phys), f) →
  ∃ p, phys = ((base_pfn fa + Z.of_nat p) * 4096)%Z ∧ (base_pfn fa + Z.of_nat p + Z.of_nat (2 ^ order) <= 2 ^ 32)%Z ∧ (0 <= base_pfn fa)%Z ∧
    (blocks_frames (base_pfn fa) [(p, order)] ## H) ∧ fa_held (base_pfn fa) [(p, order)] f (blocks_frames (base_pfn fa) [(p, order)] ∪ H).
Proof.
  intros (Hb & Hn & _ & _ & A & I & _ & HH). unfold alloc_frames, fa_alloc, on_buddy. munfold. pose proof (alloc_spec (buddy fa) A order I) as Ha.
  destruct (Buddy.alloc order (buddy fa)) as [[[p|]|e|] b']; try done. destruct Ha as (I' & Hn' & _ & _ & _). cbn [base_pfn].
  pose proof (bi_alloc _ _ I' p order ltac:(left)) as [(_ & _ & Hp) _]. pose proof (pow2_pos order).
  rewrite arith_in by (unfold in_u; lia). rewrite pfn_to_phys_eq by lia. intros [= <- <-]. exists p. split; [done|]. split; [lia|]. split; [done|].
  assert (∀ pa, pa ∈ H → ∃ g, pa = ((base_pfn fa + Z.of_nat g) * 4096)%Z ∧ (g, 0) ∈ A) as HS.
  { intros pa Hpa. destruct (HH pa Hpa) as [Hx|(g & -> & Hg & _)]; [by apply blocks_frames_spec in Hx as (? & ? & ? & ?%elem_of_nil & _)|by exists g]. }
  assert (∀ g, (g, 0) ∈ A → ∀ k, k < 2 ^ order → g ≠ p + k) as Hsep.
  { intros g Hg k Hk ->. apply list_elem_of_lookup in Hg as [i Hi].
    pose proof (bi_pairs _ _ I' 0 (S i) p order (p + k) 0 eq_refl Hi ltac:(done)) as Hap. unfold apart in Hap. change (2 ^ 0) with 1 in Hap. lia. }
  assert (blocks_frames (base_pfn fa) [(p, order)] ## H) as Hdis.
  { intros pa (p' & o & k & [= -> ->]%list_elem_of_singleton & Hk & ->)%blocks_frames_spec Hin. destruct (HS _ Hin) as (g & E & Hg).
    apply (Hsep g Hg k Hk). lia. }
  split; [done|]. cbn [fa_held base_pfn buddy]. split; [done|]. split; [by rewrite Hn'|]. split; [done|]. split; [apply union_subseteq_l|].
  exists ((p, order) :: A). split; [done|]. split; [intros x ->%list_elem_of_singleton; left|].
  intros pa [Hx|Hin]%elem_of_union; [by left|right]. destruct (HS pa Hin) as (g & -> & Hg). exists g. split; [done|]. split; [by right|].
  intros E%list_elem_of_singleton. injection E as -> <-. apply (Hsep p Hg 0); [|lia]. change (2 ^ 0) with 1. lia.
Qed.

(** Nothing else notices. *)
Lemma fence_hinv km B (s : Mach FA) U D H order phys f : hinv km B (mkPstate s U D) H → alloc_frames order (fr s) = (Ok (Some phys), f) →
  ∃ base p, let X := blocks_frames base [(p, order)] in
    phys = ((base + Z.of_nat p) * 4096)%Z ∧ (0 <= base)%Z ∧ (base + Z.of_nat p + Z.of_nat (2 ^ order) <= 2 ^ 32)%Z ∧
    hinv (FS := fenced base [(p, order)]) km B (mkPstate (upd s (mem s) f) U (X ∪ D)) (X ∪ H).
Proof.
  intros [W HK HF HB HD Hfr Hap Ho Hke] R. cbn [mach procs handed] in *. pose proof (ok_held _ _ _ (w_okay _ _ _ _ W)) as Hh.
  destruct (fr s) as [fa|] eqn:Efa; [|done]. destruct (fence_held fa H order phys f Hh R) as (p & Hp & Hbd & Hb0 & Hdis & Hh').
  exists (base_pfn fa), p. cbv zeta. set (X := blocks_frames (base_pfn fa) [(p, order)]) in *. do 3 (split; [done|]).
  assert (∀ r p t, root s U r → length p ≤ 3 → node (mem s) r p = Some t → t ∉ X) as Hnode.
  { intros r q t Hr Lq Nq Hx. apply (sp_held _ _ _ (world_space _ _ _ _ _ W Hr)) in Nq as [Ht _]; [|done]. by apply (Hdis t). }
  destruct W as [W1 W2 W3 W4 W5 W6 W7 W8 W9 W10].
  split; cbn [mach procs handed mem KERNEL_PML4 upd fr]; try done.
  - split; cbn [mem KERNEL_PML4 fr]; try done.
    + apply okay_count; [exact Hh'|apply (ok_tabs _ _ _ W1)|apply fs_count_nonneg].
    + eapply is_space_mono; [|exact W2]. apply union_subseteq_r.
    + intros r Hr. eapply is_space_mono; [|by apply W3]. apply union_subseteq_r.
    + intros t [Hx|Ht]%elem_of_union; [left; by apply elem_of_union_r, elem_of_union_l|].
      destruct (W10 t Ht) as [[?|?]%elem_of_union|?]; [left; by apply elem_of_union_l|left; by do 2 apply elem_of_union_r|by right].
  - intros t Ht. by apply elem_of_union_r, HB.
  - intros t [?|?]%elem_of_union; [by apply elem_of_union_l|by apply elem_of_union_r, HD].
  - intros t [Hx|Ht]%elem_of_union; [|by apply Hfr]. intros HtB. apply (Hdis t Hx). by apply HB.
  - intros t r q [Hx|Ht]%elem_of_union Hr Lq; [|by apply Hap]. intros Nq. by apply (Hnode r q t).
  - intros t Ht. by apply elem_of_union_r, elem_of_union_l.
Qed.

(** The same invariant, with the frames counted. *)
Lemma counted_hinv {F} (FS : FrameSource F) km B (st : pstate F) H : hinv km B st H →
  hinv (FS := counted FS (fs_count (fr (mach st)) + Z.of_nat (base.size H))) km B st H.
Proof.
  intros [W HK HF HB HD Hfr Hap Ho Hke]. split; try done. destruct W as [W1 W2 W3 W4 W5 W6 W7 W8 W9 W10]. split; try done.
  destruct W1 as [A1 A2 A3]. apply okay_count; [by split|done|apply fs_count_nonneg].
Qed.

(** ** Sources with the same operations *)

Section same.
Context {BF : Bitflags} {F : Type} (S1 S2 : FrameSource F) (HHDM_OFFSET PEX_ARCH : Z) (ram : Z → list Z).
Hypothesis E : same_ops S1 S2.

Lemma same_on_mach {A} (m1 m2 : M (Mach F) Empty_set A) sy : (∀ s, m1 s = m2 s) → on_mach m1 sy = on_mach m2 sy.
Proof using Type. intros H. unfold on_mach. by rewrite H. Qed.

Lemma same_load_image pex dom sy :
  load_image (FS := S1) HHDM_OFFSET PEX_ARCH ram pex dom sy = load_image (FS := S2) HHDM_OFFSET PEX_ARCH ram pex dom sy.
Proof using E.
  unfold load_image. destruct (load _ _ _ _ _ _) as [[out|e|] l]; [|done..].
  rewrite (mfor_ext _ (perform (FS := S1) HHDM_OFFSET ram) (perform (FS := S2) HHDM_OFFSET ram)); [done|].
  intros [] t; [done..| |]; unfold perform; [by rewrite (same_map_page _ _ _ E)|by rewrite (same_map _ _ _ E)].
Qed.

Lemma same_load_process pex dom id va sy :
  load_process (FS := S1) HHDM_OFFSET PEX_ARCH ram pex dom id va sy = load_process (FS := S2) HHDM_OFFSET PEX_ARCH ram pex dom id va sy.
Proof using E.
  unfold load_process. rewrite (same_new _ _ _ E), (same_map _ _ _ E), (so_alloc _ _ E). apply bind_ext. intros sp s1. apply bind_ext. intros u s2.
  unfold mbind at 1 6, M_bind. rewrite same_load_image. done.
Qed.

Lemma same_share sp phys prot sy :
  map_shared_into (FS := S1) HHDM_OFFSET sp phys prot sy = map_shared_into (FS := S2) HHDM_OFFSET sp phys prot sy.
Proof using E. unfold map_shared_into. by rewrite (same_map _ _ _ E). Qed.

Lemma same_setup o p sy : setup_shared_region (FS := S1) HHDM_OFFSET o p sy = setup_shared_region (FS := S2) HHDM_OFFSET o p sy.
Proof using E. unfold setup_shared_region, map_shared_into. by rewrite (same_map _ _ _ E), (so_alloc _ _ E). Qed.

Lemma same_share_with id p pfn sy : share_with (FS := S1) HHDM_OFFSET id p pfn sy = share_with (FS := S2) HHDM_OFFSET id p pfn sy.
Proof using E. unfold share_with, map_shared_into. by rewrite (same_map _ _ _ E). Qed.

Lemma same_pstep a (st st' : psys F) : pstep (FS := S2) HHDM_OFFSET PEX_ARCH ram a st st' → pstep (FS := S1) HHDM_OFFSET PEX_ARCH ram a st st'.
Proof using E.
  pose proof (so_count _ _ E) as Ec.
  intros [x pex dom id va e top sp sy H1 H2 H3 H4 H5 H6 H7 R|x o q pfn sy io ip H1 H2 H3 H4 R|x id q pfn sy ip H1 H2 H3 H4 R
    |x r i n sy H1 H2 R|x r Hroot|x pa sy R|x pa sy Hpa R|x pa T Hpa HT|x r v q y T Hlive Hv HT|x u]; rewrite <- ?Ec in *.
  - exact (ps_load _ _ _ x pex dom id va e top sp sy H1 H2 H3 H4 H5 H6 H7 (eq_trans (same_load_process pex dom id va (sys x)) R)).
  - exact (ps_share _ _ _ x o q pfn sy io ip H1 H2 H3 H4 (eq_trans (same_setup _ _ (sys x)) R)).
  - exact (ps_join _ _ _ x id q pfn sy ip H1 H2 H3 H4 (eq_trans (same_share_with id _ pfn (sys x)) R)).
  - refine (ps_reap _ _ _ x r i n sy H1 H2 (eq_trans _ R)). apply same_on_mach. intros s. apply (same_reap _ _ _ E).
  - by apply ps_switch.
  - apply ps_take. by rewrite (so_alloc _ _ E).
  - apply ps_give; [done|]. by rewrite (same_free _ _ E).
  - by apply ps_kernel_store.
  - by eapply ps_store.
  - apply ps_user.
Qed.
End same.

Section session.
Context {BF : Bitflags}.
Variables HHDM_OFFSET PEX_ARCH : Z.
Variable km : KernelMap.
Variable ram : Z → list Z.
Hypothesis HHDM_room : (0 <= HHDM_OFFSET <= 2 ^ 64 - 2 ^ 44)%Z.

(** The kernel has booted ([s0] to [s]), run for a while, and built the authority
    over a fresh block. *)
Definition session (sy : Sys FA) : Prop := ∃ s0 s H0 s1 D phys f cs u,
  booted HHDM_OFFSET km s0 s H0 ∧ rtc (step HHDM_OFFSET) (mkPstate s ∅ ∅) (mkPstate s1 ∅ D) ∧
  alloc_frames 6 (fr s1) = (Ok (Some phys), f) ∧ authority (Some phys) = Ok cs ∧
  sy = mkSys (upd s1 (mem s1) f) u cs L_SCRATCH.

(** The histories of a session. *)
Definition runs (sy : Sys FA) (st : psys FA) : Prop := rtc (pany HHDM_OFFSET PEX_ARCH ram) (mkPsys sy ∅ ∅ ∅) st.

(** The source of frames of the invariant: the block is out, frames are counted. *)
Definition source (base : Z) (p : nat) (N : Z) : FrameSource FA := counted (fenced base [(p, 6)]) N.

Lemma source_same base p N : same_ops (source base p N) frame_allocator_source.
Proof using Type. done. Qed.

Lemma pstep_source base p N a (st st' : psys FA) : pstep HHDM_OFFSET PEX_ARCH ram a st st' →
  pstep (FS := source base p N) HHDM_OFFSET PEX_ARCH ram a st st'.
Proof using Type. apply same_pstep, source_same. Qed.

(** The invariant holds at the start. *)
Lemma session_pinv sy : session sy → ∃ base p N B b, pinv (fenced base [(p, 6)]) N km B b 64 (mkPsys sy ∅ ∅ ∅).
Proof using HHDM_room.
  intros (s0 & s & H0 & s1 & D & phys & f & cs & u & Hb & Hst & Ha & Hcs & ->).
  destruct (boot_hinv HHDM_OFFSET km HHDM_room s0 s H0 Hb) as (B & _ & I). destruct (steps_hinv HHDM_OFFSET km HHDM_room B _ _ _ I Hst) as [H I1].
  destruct (fence_hinv km B s1 ∅ D H 6 phys f I1 Ha) as (base & p & Hph & Hb0 & Hbd & I2). change (Z.of_nat (2 ^ 6)) with 64%Z in Hbd.
  set (X := blocks_frames base [(p, 6)]) in *. set (b := (base + Z.of_nat p)%Z) in *.
  exists base, p, (fs_count f + Z.of_nat (base.size (X ∪ H)))%Z, B, b.
  destruct (authority_ok HHDM_OFFSET phys []) as (cs' & Hcs' & _ & (e & [He _] & Ht & Ho & Hsz) & _ & LP); [lia|lia|done|by constructor|done|].
  rewrite Hcs in Hcs'. injection Hcs' as <-. rewrite Hph, Z.div_mul in Ho by lia.
  pose proof (lp_ld _ _ _ LP) as Hr. cbn [ld] in Hr. pose proof (reachable_inv _ Hr) as [W _].
  destruct (wf_caps _ W _ _ He) as [(_ & _ & _ & Hw & _) Hx]. specialize (Hx Ht). unfold in_u in Hw.
  exists ∅, (X ∪ D), (X ∪ H), ∅, (watermark (cap e)). split; cbn [sys alive shared kern mach_of].
  - apply (counted_hinv (fenced base [(p, 6)]) km B _ (X ∪ H) I2).
  - split; cbn [auth cursor]; [done|by exists e|unfold L_SCRATCH; lia|lia|lia|].
    intros t (k & Hk & ->). apply elem_of_union_l, blocks_frames_spec. exists p, 6, k. split; [by left|]. change (2 ^ 6) with 64.
    split; [lia|]. unfold b. f_equal. lia.
  - split; [..|lia].
    + intros r g Hg. by rewrite lookup_empty in Hg.
    + intros r g Hg. by rewrite lookup_empty in Hg.
    + intros r r' g g' Hg. by rewrite lookup_empty in Hg.
    + intros q [o Hq]. by rewrite lookup_empty in Hq.
    + intros q Hq. by apply not_elem_of_empty in Hq.
  - intros r [P HP]. by rewrite lookup_empty in HP.
  - intros r [P HP]. by rewrite lookup_empty in HP.
  - intros r i Hi. by rewrite lookup_empty in Hi.
Qed.

(** And in every history. *)
Lemma runs_pinv sy st : session sy → runs sy st → ∃ base p N B b, pinv (fenced base [(p, 6)]) N km B b 64 st.
Proof using HHDM_room.
  intros Hs Hst. destruct (session_pinv sy Hs) as (base & p & N & B & b & I). exists base, p, N, B, b.
  eapply (psteps_pinv (fenced base [(p, 6)]) HHDM_OFFSET PEX_ARCH N km ram HHDM_room B b 64); [done|exact I|].
  eapply rtc_congruence with (f := id); [|exact Hst]. intros x y [a Hx]. exists a. by apply pstep_source.
Qed.
End session.
