(* ===== verification/ProcessTheorems.v ===== *)
(** * Promises to the processes

    What holds in every history of a session ([ProcessStart.runs]): processes are
    isolated from one another and from the kernel, a loaded process reads its
    image, a shared region is shared as asked, and reaping gives back what loading took. *)

From stdpp Require Import sets relations.
From S2P Require Import Prelude Rights Cap CSpace CSpaceReach Buddy Pex Arch Loader LoaderTheorems LoaderTrace Userland MemInit Frames.
From S2P Require Import Paging PagingInv PagingOps PagingClone PagingWorld PagingBuild PagingBoot PagingHistory PagingCount PagingTheorems.
From S2P Require Import Process ProcessMem ProcessLoad ProcessSys ProcessInv ProcessView ProcessStart.

#[local] Opaque idx leaf_tables.

Section theorems.
Context {BF : Bitflags}.
Variables HHDM_OFFSET PEX_ARCH : Z.
Variable km : KernelMap.
Variable ram : Z → list Z.
Hypothesis HHDM_room : (0 <= HHDM_OFFSET <= 2 ^ 64 - 2 ^ 44)%Z.
Abbreviation machine st := (mach_of (sys st)).
Abbreviation runs := (runs HHDM_OFFSET PEX_ARCH ram).
Abbreviation session := (session HHDM_OFFSET km).

(** A step that is not of the process [r], which stays alive. *)
Definition others (r : Z) (st st' : psys FA) : Prop :=
  ∃ a, pstep HHDM_OFFSET PEX_ARCH ram a st st' ∧ a ≠ Some r ∧ is_Some (alive st' !! r).

(** Installing a capability at a slot that is there. *)
Lemma set_slot_run i e cs : i < length (CSpace.slots cs) → set_slot i e cs = (Ok (), mkCSpace (<[i:=e]> (CSpace.slots cs)) (next_obj cs) (zlog cs)).
Proof using Type. clear HHDM_room. intros Hi. unfold set_slot. by rewrite decide_True. Qed.

Lemma install_run {C} id m (k : Mach FA) u a c cs cs' (K : unit → M (Sys FA) Empty_set C) :
  PROC_CSPACES u !! id = Some (Some cs) → m cs = (Ok (), cs') →
  (install_at id m ≫= K) (mkSys k u a c) =
    K () (mkSys k (mkUser (<[id:=Some cs']> (PROC_CSPACES u)) (PROC_DONE u) (PROC_EXITS u) (EP_RDV u) (NOTIFY u) (console u)) a c).
Proof using Type. clear HHDM_room. intros Hid Hm. unfold mbind, M_bind, install_at, with_cspace. cbn [user mach_of auth cursor]. by rewrite Hid, Hm. Qed.

(** C4: In every history of a session what user mode of a live process
    reaches is never a page table nor a frame the kernel keeps, and never both
    writable and executable; two processes reach the same frame only if it is a
    shared one, in the shared page, and not both writable. *)
Theorem process_isolation sy st r v q wx : session sy → runs sy st → is_Some (alive st !! r) →
  user_view (mem (machine st)) r v = Some (q, wx) → let f := (q - v mod 4096)%Z in
  wx ≠ (true, true) ∧ (f ∉ kern st) ∧
  (∀ r' p, r' = KERNEL_PML4 (machine st) ∨ is_Some (alive st !! r') → length p ≤ 3 → node (mem (machine st)) r' p ≠ Some f) ∧
  (∀ r' v' q' wx', is_Some (alive st !! r') → r' ≠ r → user_view (mem (machine st)) r' v' = Some (q', wx') → (q' - v' mod 4096)%Z = f →
     is_Some (shared st !! f) ∧ page v = page SHARED_VA ∧ page v' = page SHARED_VA ∧ (wx.1 = true → wx'.1 = false)).
Proof using HHDM_room.
  intros Hs Hst Ha Hv. destruct (runs_pinv HHDM_OFFSET PEX_ARCH km ram HHDM_room sy st Hs Hst) as (base & p0 & N & B & b & U & D & H & G & w & PI).
  cbv zeta. pose proof PI as [I _ Ly _ _ Hp].
  destruct (view_page _ _ _ _ _ _ st U D H G w r v q wx PI Ha Hv) as (i & P & g & f & prot & _ & _ & Hg & _ & _ & Eq & Ewx & HD & Hown).
  assert (q - v mod 4096 = f)%Z as -> by lia. split; [subst wx; by destruct prot|]. split; [|split].
  - intros Hk. destruct (ly_kern _ _ _ _ _ _ _ _ Ly f Hk) as (_ & _ & Hb). destruct Hown as [Hin|[->|(_ & o & Ho & _)]].
    + apply Hb. exact (in_segs_block _ _ _ _ _ _ _ _ r g _ Ly Hg Hin).
    + by destruct (ly_stack _ _ _ _ _ _ _ _ Ly r g Hg) as (_ & _ & ? & _).
    + by destruct (ly_shared _ _ _ _ _ _ _ _ Ly f ltac:(by eexists)) as (_ & ? & _).
  - intros r' p Hr Lp Np. eapply (h_apart _ _ _ _ I f r' p); [done| |done|exact Np]. destruct Hr as [->|[j Hj]]; [by left|right].
    destruct (Hp r' j Hj) as (P' & _ & HP' & _). by eexists.
  - intros r' v' q' wx' Ha' Hne Hv' E.
    destruct (meet _ _ _ _ _ _ st U D H G w r r' v v' q q' wx wx' PI Ha Ha' (not_eq_sym Hne) Hv Hv') as (H1 & H2 & H3 & H4); [lia|].
    replace (q - v mod 4096)%Z with f in H1 by lia. do 3 (split; [done|]). intros Hw. destruct wx'.1; [by destruct (H4 Hw)|done].
Qed.

(** C5: Whatever the kernel and the other processes do, loading, sharing,
    reaping, switching, storing into every page they can write, a live process
    reads the same bytes with the same rights at every address outside the page
    of the shared region. *)
Theorem memory_private sy st st' r v : session sy → runs sy st → is_Some (alive st !! r) → rtc (others r) st st' → page v ≠ page SHARED_VA →
  user_read ram (machine st') r v = user_read ram (machine st) r v.
Proof using HHDM_room.
  intros Hs Hst Ha Hsteps Hv. destruct (runs_pinv HHDM_OFFSET PEX_ARCH km ram HHDM_room sy st Hs Hst) as (base & p0 & N & B & b & PI). clear Hst.
  induction Hsteps as [|x y t (a & H1 & H2 & H3) _ IH]; [done|]. apply (pstep_source HHDM_OFFSET PEX_ARCH ram base p0 N) in H1.
  rewrite IH; [|done|exact (pstep_pinv (fenced base [(p0, 6)]) HHDM_OFFSET PEX_ARCH N km ram HHDM_room B b 64 (Z.le_refl _) a x y PI H1)].
  destruct PI as (U & D & H & G & w & PI).
  exact (others_read (fenced base [(p0, 6)]) HHDM_OFFSET PEX_ARCH N km ram HHDM_room B b 64 (Z.le_refl _) x y U D H G w a r v PI H1 H2 Ha H3 Hv).
Qed.


(** C21: The kernel has one page to share: [setup_shared_region] between two live
    processes, with three frames left and both capability spaces registered,
    succeeds with a frame that was not shared before.  Every byte of the shared page
    reads zero for both; the owner may write it and the peer may not, and neither may
    execute it; the owner gets the frame capability with read and write, the
    peer the read-only one, each in the agreed slot; no process sees another page
    change. *)
Theorem shared_region sy st o p io ip c0 c1 : session sy → runs sy st → alive st !! o = Some io → alive st !! p = Some ip → o ≠ p →
  (3 <= fs_count (fr (machine st)))%Z →
  PROC_CSPACES (user (sys st)) !! PING = Some (Some c0) → PROC_CSPACES (user (sys st)) !! PONG = Some (Some c1) →
  SHARED_SLOT < length (CSpace.slots c0) → SHARED_SLOT < length (CSpace.slots c1) →
  ∃ pfn k u c0' c1', setup_shared_region HHDM_OFFSET (mkSpace o 0) (mkSpace p 0) (sys st) = (Ok pfn, mkSys k u (auth (sys st)) (cursor (sys st))) ∧
    shared st !! pfn_to_phys pfn = None ∧
    (∀ v, page v = page SHARED_VA → user_read ram k o v = Some (0%Z, (true, false)) ∧ user_read ram k p v = Some (0%Z, (false, false))) ∧
    (∀ r v, is_Some (alive st !! r) → page v ≠ page SHARED_VA → user_read ram k r v = user_read ram (machine st) r v) ∧
    PROC_CSPACES u !! PING = Some (Some c0') ∧ PROC_CSPACES u !! PONG = Some (Some c1') ∧
    CSpace.slots c0' = <[SHARED_SLOT:=mkCte (mkRawCap Frame (bf_union READ WRITE) pfn 1 0 0 0) None]> (CSpace.slots c0) ∧
    CSpace.slots c1' = <[SHARED_SLOT:=mkCte (mkRawCap SharedRo READ pfn 1 0 (SHARED_VA / 4096) 0) None]> (CSpace.slots c1).
Proof using HHDM_room.
  intros Hs Hst Ho Hp Hne Hc H0 H1 L0 L1.
  destruct (runs_pinv HHDM_OFFSET PEX_ARCH km ram HHDM_room sy st Hs Hst) as (base & p0 & N & B & b & U & D & H & G & w & PI).
  destruct (share_run (fenced base [(p0, 6)]) HHDM_OFFSET N km HHDM_room B b 64 st U D H G w o p io ip PI Ho Hp Hne Hc)
    as (pa & k & U' & H' & E & Epa & [Hsh Hz] & PI' & (Po & HPo & Ho') & (Pp & HPp & Hp') & [V Dt]).
  rewrite (same_setup _ _ HHDM_OFFSET (source_same base p0 N)) in E. exists (phys_to_pfn pa), k. do 3 eexists. split; [|split; [|split; [|split]]].
  - rewrite E. erewrite (install_run PING _ _ _ _ _ c0); [|exact H0|by apply set_slot_run].
    erewrite (install_run PONG _ _ _ _ _ c1); [reflexivity|cbn [PROC_CSPACES]; by rewrite list_lookup_insert_ne by done|by apply set_slot_run].
  - by rewrite Epa.
  - assert (∀ r P v prot, U' !! r = Some P → P !! page SHARED_VA = Some (pa, prot) → page v = page SHARED_VA →
      user_read ram k r v = Some (0%Z, (writable prot, executable prot))) as Hread.
    { intros r P v prot HP HPv Hv. pose proof (w_view _ _ _ _ (h_world _ _ _ _ (pi_hinv _ _ _ _ _ _ _ _ _ _ _ _ PI')) r P v) as Hview.
      cbn [mach procs sys mach_of] in Hview. unfold user_read. rewrite Hview by done. unfold given. rewrite Hv, HPv. cbn [fmap option_fmap option_map mbind option_bind fst snd].
      replace (pa + v mod 4096 - v mod 4096)%Z with pa by lia. unfold contents. rewrite Hz. change (default (ram pa) (Some (replicate 512 0%Z))) with (replicate 512 0%Z).
      rewrite frame_bytes_zeros. pose proof (Z.mod_pos_bound v 4096 ltac:(lia)). by rewrite lookup_replicate_2 by lia. }
    intros v Hv. split; [by apply (Hread o Po v Rw)|by apply (Hread p Pp v Ro)].
  - intros r v Ha Hv. apply read_same.
    + apply V; [|done]. destruct Ha as [i Hi]. destruct (pi_proc _ _ _ _ _ _ _ _ _ _ _ _ PI r i Hi) as (P' & _ & HP' & _). by eexists.
    + intros q wx Hq. apply Dt. by apply (own_frame _ _ _ _ _ _ st U D H G w r v q wx PI Ha Hv Hq).
  - cbn [PROC_CSPACES]. split; [rewrite list_lookup_insert_ne by done; apply list_lookup_insert_eq; by eapply lookup_lt_Some|].
    split; [apply list_lookup_insert_eq; rewrite length_insert; by eapply lookup_lt_Some|]. split; [done|]. cbn [CSpace.slots]. do 4 f_equal.
Qed.

(** C22: Reaping a live process that is not running and into which nothing was mapped
    since its load succeeds and gives back exactly the frames the load took: it
    answers that number and the free-frame counter rises by it, so a supervisor
    that restarts a crashed process loses no frame; no other process notices. *)
Theorem reap_conserves sy st r i : session sy → runs sy st → alive st !! r = Some i → alone i = true → cr3 (machine st) ≠ r →
  ∃ k, reap_process_space HHDM_OFFSET (mkSpace r 0) [stack_va i] (machine st) = (Ok (cost i), k) ∧
    fs_count (fr k) = (fs_count (fr (machine st)) + cost i)%Z ∧
    ∀ r' v, user_read ram k r' v = user_read ram (machine st) r' v.
Proof using HHDM_room.
  intros Hs Hst Hi Ha Hc.
  destruct (runs_pinv HHDM_OFFSET PEX_ARCH km ram HHDM_room sy st Hs Hst) as (base & p0 & N & B & b & U & D & H & G & w & PI). pose proof PI as [I L Ly _ _ Hp].
  destruct (Hp r i Hi) as (P & g & HP & Hg & [[Hv _] Hstk Hnode _ _]). destruct (ly_stack _ _ _ _ _ _ _ _ Ly r g Hg) as (T1 & T2 & _ & _ & _).
  pose proof (page_leaf km B _ U D H r P (stack_va i) _ Rw I HP Hv Hstk Hnode) as Hleaf.
  destruct (reap_run HHDM_OFFSET km HHDM_room B _ U D r [stack_va i] H I) as (Lf & k & R & _).
  { by eexists. } { rewrite Hleaf. apply NoDup_singleton. }
  { rewrite Hleaf. intros t ->%list_elem_of_singleton. set_solver. } { cbn [length]. lia. }
  destruct (reap_pinv (fenced base [(p0, 6)]) HHDM_OFFSET N km HHDM_room B b 64 st U D H G w r i (Z.of_nat (length Lf)) (mkSys k (user (sys st)) (auth (sys st)) (cursor (sys st))) PI Hi)
    as (_ & Em & Hcost).
  { unfold on_mach. by rewrite R. }
  cbn [mach_of] in Em, Hcost. destruct (Hcost Ha) as [Hcount En]. exists k. rewrite (same_reap _ _ _ (source_same base p0 N)) in R.
  split; [by rewrite <- En|]. split; [exact Hcount|]. intros r' v. apply read_same; by rewrite Em.
Qed.
End theorems.

(** ** A session on the small machine

    Two processes from the same image, with memory that holds [0xaa] where nobody
    has written. *)

Definition stale (pa : Z) : list Z := replicate 512 0xaaaaaaaaaaaaaaaa%Z.
Definition small_block := alloc_frames 6 (fr small_s).
Definition small_cs : CSpace := match authority (Some 327680%Z) with Ok cs => cs | _ => cspace_new 0 end.
Definition small_sy : Sys FA := mkSys (upd small_s (mem small_s) small_block.2) user_new small_cs L_SCRATCH.
Definition ping : Z := 135168.
Definition pong : Z := 159744.

(** The state after a load that made the space [r]. *)
Definition after_load (st : psys FA) (r va : Z) (sy : Sys FA) : psys FA :=
  mkPsys sy (<[r:=mkInfo va (fs_count (fr (mach_of (sys st))) - fs_count (fr (mach_of sy))) true]> (alive st)) (shared st) (kern st).
Definition small_0 : psys FA := mkPsys small_sy ∅ ∅ ∅.
Definition small_load dom id va (st : psys FA) := load_process small_hhdm 1 stale ld_image dom id va (sys st).
Definition sys_1 : Sys FA := Eval vm_compute in (small_load 5 PING PING_STACK_VA small_0).2.
Definition small_1 : psys FA := after_load small_0 ping PING_STACK_VA sys_1.
Definition sys_2 : Sys FA := Eval vm_compute in (small_load 6 PONG PONG_STACK_VA small_1).2.
Definition small_2 : psys FA := after_load small_1 pong PONG_STACK_VA sys_2.

Lemma small_session : session small_hhdm small_km small_sy.
Proof.
  exists small_boot, small_s, ∅, small_s, ∅, 327680%Z, small_block.2, small_cs, user_new. split; [exact small_booted|]. split; [apply rtc_refl|].
  split; [|split; [vm_compute; reflexivity|reflexivity]]. unfold small_block.
  assert ((alloc_frames 6 (fr small_s)).1 = Ok (Some 327680%Z)) as E by (vm_compute; reflexivity). revert E.
  destruct (alloc_frames 6 (fr small_s)) as [r f]. intros E. cbn [fst snd] in *. by rewrite E.
Qed.

Lemma image_bytes : byte_list ld_image ∧ (blen ld_image < 2 ^ 64)%Z.
Proof. split; [apply byte_list_check; vm_compute; reflexivity|vm_compute; reflexivity]. Qed.

(** A load of the image, once it has been seen to succeed. *)
Lemma small_loads st dom id va top r sy : small_load dom id va st = (Ok (1073741825%Z, top, mkSpace r 0), sy) → window va → page va ≠ page SHARED_VA →
  id < length (PROC_CSPACES (user (sys st))) → (next_obj (auth (sys st)) + MAX_MANIFEST < 2 ^ 64 - 1)%Z → (581 <= fs_count (fr (mach_of (sys st))))%Z →
  pstep small_hhdm 1 stale None st (after_load st r va sy).
Proof.
  intros R Hva Hne Hid Hn Hc. destruct image_bytes as [Hb Hl].
  apply (ps_load small_hhdm 1 stale st ld_image dom id va 1073741825 top (mkSpace r 0) sy Hb Hl Hva Hne Hid Hn Hc R).
Qed.

Lemma small_step_1 : pstep small_hhdm 1 stale None small_0 small_1.
Proof.
  apply (small_loads small_0 5 PING PING_STACK_VA (PING_STACK_VA + 4096) ping); [evaluated|..].
  - unfold window, PING_STACK_VA. lia.
  - vm_compute. discriminate.
  - vm_compute. lia.
  - vm_compute. reflexivity.
  - vm_compute. discriminate.
Qed.

Lemma small_step_2 : pstep small_hhdm 1 stale None small_1 small_2.
Proof.
  apply (small_loads small_1 6 PONG PONG_STACK_VA (PONG_STACK_VA + 4096) pong); [evaluated|..].
  - unfold window, PONG_STACK_VA. lia.
  - vm_compute. discriminate.
  - vm_compute. lia.
  - vm_compute. reflexivity.
  - vm_compute. discriminate.
Qed.

#[local] Opaque small_0 small_1 small_2.

Lemma small_runs_1 : runs small_hhdm 1 stale small_sy small_1.
Proof. eapply rtc_l; [exists None; exact small_step_1|apply rtc_refl]. Qed.

Lemma small_runs_2 : runs small_hhdm 1 stale small_sy small_2.
Proof. eapply rtc_r; [exact small_runs_1|exists None; exact small_step_2]. Qed.

Lemma small_alive_1 : is_Some (alive small_1 !! ping).
Proof. eexists. vm_compute. reflexivity. Qed.

Lemma ping_alive : is_Some (alive small_2 !! ping).
Proof. eexists. vm_compute. reflexivity. Qed.

Lemma pong_alive : is_Some (alive small_2 !! pong).
Proof. eexists. vm_compute. reflexivity. Qed.

(** The frame of ping's stack is out of pong's reach. *)
Lemma process_isolation_witness : (151552%Z ∉ kern small_2) ∧
  ∀ v q wx, user_view (mem (mach_of (sys small_2))) pong v = Some (q, wx) → (q - v mod 4096)%Z ≠ 151552%Z.
Proof.
  destruct (process_isolation small_hhdm 1 small_km stale small_room small_sy small_2 ping PING_STACK_VA 151552 (true, false)) as (_ & Hk & _ & Hm).
  - exact small_session.
  - exact small_runs_2.
  - exact ping_alive.
  - vm_compute. reflexivity.
  - change (151552 - PING_STACK_VA mod 4096)%Z with 151552%Z in *. split; [exact Hk|]. intros v q wx Hv E.
    destruct (Hm pong v q wx) as (_ & Hp & _); [exact pong_alive|discriminate|exact Hv|exact E|]. vm_compute in Hp. discriminate.
Defined.

(** pong is loaded and writes its stack; ping's memory stays. *)
Definition small_3 : psys FA :=
  mkPsys (mkSys (upd (mach_of (sys small_2)) (<[(176128 - PONG_STACK_VA mod 4096)%Z:=replicate 512 7%Z]> (mem (mach_of (sys small_2)))) (fr (mach_of (sys small_2))))
    (user (sys small_2)) (auth (sys small_2)) (cursor (sys small_2))) (alive small_2) (shared small_2) (kern small_2).

Lemma ping_survives : is_Some (alive small_3 !! ping).
Proof. eexists. vm_compute. reflexivity. Qed.

Lemma small_store : pstep small_hhdm 1 stale (Some pong) small_2 small_3.
Proof.
  apply (ps_store small_hhdm 1 stale small_2 pong PONG_STACK_VA 176128 false (replicate 512 7%Z)); [exact pong_alive|vm_compute; reflexivity|reflexivity].
Qed.
#[local] Opaque small_3.

Lemma memory_private_witness : user_read stale (mach_of (sys small_3)) ping PING_STACK_VA = Some (0xaa%Z, (true, false)) ∧
  user_read stale (mach_of (sys small_3)) pong PONG_STACK_VA = Some (7%Z, (true, false)).
Proof.
  split; [|vm_compute; reflexivity].
  rewrite (memory_private small_hhdm 1 small_km stale small_room small_sy small_1 small_3 ping PING_STACK_VA small_session small_runs_1 small_alive_1).
  - vm_compute. reflexivity.
  - eapply rtc_l; [exists None; split; [exact small_step_2|]; split; [discriminate|exact ping_alive]|].
    eapply rtc_l; [|apply rtc_refl]. exists (Some pong). split; [|split; [discriminate|exact ping_survives]].
    exact small_store.
  - vm_compute. discriminate.
Defined.

(** The second byte of the code segment, the first zero after the data of the second. *)
Lemma image_code p : parse ld_image 1 = Ok p → image_at (seg_list p) 1073741825 = Some (235%Z, (false, true)).
Proof.
  intros E. assert (match parse ld_image 1 with Ok p => image_at (seg_list p) 1073741825 | _ => None end = Some (235%Z, (false, true))) as H by (vm_compute; reflexivity).
  by rewrite E in H.
Qed.
Lemma image_zero p : parse ld_image 1 = Ok p → image_at (seg_list p) (1073745920 + 2) = Some (0%Z, (true, false)).
Proof.
  intros E. assert (match parse ld_image 1 with Ok p => image_at (seg_list p) (1073745920 + 2) | _ => None end = Some (0%Z, (true, false))) as H by (vm_compute; reflexivity).
  by rewrite E in H.
Qed.


Definition small_space (id : nat) : CSpace := default (cspace_new 0) (default None (PROC_CSPACES (user (sys small_2)) !! id)).
Lemma shared_region_witness : ∃ pfn k u a n, setup_shared_region small_hhdm (mkSpace ping 0) (mkSpace pong 0) (sys small_2) = (Ok pfn, mkSys k u a n) ∧
  user_read stale k ping (SHARED_VA + 8) = Some (0%Z, (true, false)) ∧ user_read stale k pong (SHARED_VA + 8) = Some (0%Z, (false, false)) ∧
  user_read stale k ping PING_STACK_VA = Some (0xaa%Z, (true, false)).
Proof.
  destruct ping_alive as [i Hi], pong_alive as [j Hj].
  destruct (shared_region small_hhdm 1 small_km stale small_room small_sy small_2 ping pong i j (small_space PING) (small_space PONG)) as (pfn & k & u & c0 & c1 & R & _ & Hs & Ho & _).
  - exact small_session.
  - exact small_runs_2.
  - exact Hi.
  - exact Hj.
  - discriminate.
  - vm_compute. discriminate.
  - vm_compute. reflexivity.
  - vm_compute. reflexivity.
  - vm_compute. lia.
  - vm_compute. lia.
  - exists pfn, k, u. do 2 eexists. split; [exact R|]. destruct (Hs (SHARED_VA + 8)%Z) as [H1 H2]; [vm_compute; reflexivity|].
    split; [exact H1|]. split; [exact H2|]. rewrite Ho; [vm_compute; reflexivity|exact ping_alive|vm_compute; discriminate].
Defined.

Lemma reap_conserves_witness : ∃ k, reap_process_space small_hhdm (mkSpace ping 0) [PING_STACK_VA] (mach_of (sys small_2)) = (Ok 6%Z, k) ∧
  free_frame_count (fr k) = (free_frame_count (fr (mach_of (sys small_2))) + 6)%Z.
Proof.
  destruct (reap_conserves small_hhdm 1 small_km stale small_room small_sy small_2 ping (mkInfo PING_STACK_VA 6 true)) as (k & R & Hc & _).
  - exact small_session.
  - exact small_runs_2.
  - vm_compute. reflexivity.
  - reflexivity.
  - vm_compute. discriminate.
  - exists k. split; [exact R|exact Hc].
Defined.

(** ** What a new stack holds

    ping writes its stack and is reaped, and a new process is loaded: its stack
    frame comes from the allocator as it was left. *)

Definition leak_1 : psys FA :=
  mkPsys (mkSys (upd (mach_of (sys small_1)) (<[(151552 - PING_STACK_VA mod 4096)%Z:=replicate 512 42%Z]> (mem (mach_of (sys small_1)))) (fr (mach_of (sys small_1))))
    (user (sys small_1)) (auth (sys small_1)) (cursor (sys small_1))) (alive small_1) (shared small_1) (kern small_1).
Definition leak_reap := on_mach (reap_process_space small_hhdm (mkSpace ping 0) [PING_STACK_VA]) (sys leak_1).
Definition leak_2 : psys FA := mkPsys leak_reap.2 (base.delete ping (alive leak_1)) (orphan ping <$> shared leak_1) (kern leak_1).
Definition leak_sys : Sys FA := Eval vm_compute in (small_load 6 PONG PONG_STACK_VA leak_2).2.
Definition leak_3 : psys FA := after_load leak_2 ping PONG_STACK_VA leak_sys.

Lemma leak_store : pstep small_hhdm 1 stale (Some ping) small_1 leak_1.
Proof.
  apply (ps_store small_hhdm 1 stale small_1 ping PING_STACK_VA 151552 false (replicate 512 42%Z)); [exact small_alive_1|vm_compute; reflexivity|reflexivity].
Qed.

Lemma leak_free : pstep small_hhdm 1 stale None leak_1 leak_2.
Proof.
  apply (ps_reap small_hhdm 1 stale leak_1 ping (mkInfo PING_STACK_VA 6 true) 6); [vm_compute; reflexivity|vm_compute; discriminate|].
  assert (leak_reap.1 = Ok 6%Z) as E by (vm_compute; reflexivity). cbn [stack_va]. fold leak_reap. by destruct leak_reap as [o y]; cbn [fst snd] in *; subst o.
Qed.

Lemma leak_load : pstep small_hhdm 1 stale None leak_2 leak_3.
Proof.
  apply (small_loads leak_2 6 PONG PONG_STACK_VA (PONG_STACK_VA + 4096) ping); [evaluated|..].
  - unfold window, PONG_STACK_VA. lia.
  - vm_compute. discriminate.
  - vm_compute. lia.
  - vm_compute. reflexivity.
  - vm_compute. discriminate.
Qed.
#[local] Opaque leak_1 leak_2 leak_3.

(** The new process reads what the dead one wrote. *)
Lemma stack_not_cleared : runs small_hhdm 1 stale small_sy leak_2 ∧ alive leak_2 = ∅ ∧ pstep small_hhdm 1 stale None leak_2 leak_3 ∧
  user_read stale (mach_of (sys leak_3)) ping PONG_STACK_VA = Some (42%Z, (true, false)).
Proof.
  split; [|split; [vm_compute; reflexivity|split; [exact leak_load|vm_compute; reflexivity]]].
  eapply rtc_r; [|exists None; exact leak_free]. eapply rtc_r; [exact small_runs_1|]. exists (Some ping). exact leak_store.
Qed.
