(* ===== verification/Refproc.v ===== *)
(** * The reference processes ([refproc/src])

    A process is a program of system calls, loads and stores; what it computes in
    between is its continuation.  [advance] runs one process for one turn: it is
    in user mode, about to act, or in the kernel, in the loop of a call that
    blocks.  A schedule is a list of processes, in the order they get their turns,
    so a theorem about every schedule is about every interleaving.

    Memory is an interface ([Memory]): a load or a store that the page tables
    refuse faults, and the kernel kills the process. *)

From S2P Require Import Prelude Rights Cap CSpace Syscall Userland UserTheorems.
Import Abi.

(** ** Programs *)

Inductive act :=
  | Invoke (cptr operation : Z) (args : list Z)
  | Load (va : Z)
  | Store (va val : Z)
  | Pause.

(** The entry of the program, and the loop after an exit that came back. *)
Inductive label := Start | Spin.

Inductive code :=
  | Do (a : act) (k : Z → code)
  | Goto (l : label).

Definition body (program : code) (l : label) : code :=
  match l with
  | Start => program
  | Spin => Do Pause (λ _, Goto Spin)
  end.

(** ** The runtime ([refproc/src/lib.rs]) *)

Definition EP : Z := 2.
Definition REPLY : Z := 3.
Definition SHARED : Z := 4.
Definition NOTIF : Z := 5.
Definition SHARED_VA : Z := 0x40700000.
Definition SHARED_SENTINEL : Z := 0x5EEDDA7AD00DF00D.

Definition debug (val : Z) (k : code) : code := Do (Invoke EP DEBUG_EMIT [val; 0; 0; 0]%Z) (λ _, k).
Definition exit (c : Z) : code := Do (Invoke EP PROC_EXIT [c; 0; 0; 0]%Z) (λ _, Goto Spin).
Definition call (m : Z) (k : Z → code) : code := Do (Invoke EP ENDPOINT_CALL [m; 0; 0; 0]%Z) k.
Definition recv (k : Z → code) : code := Do (Invoke EP ENDPOINT_RECV [0; 0; 0; 0]%Z) k.
Definition reply (m : Z) (k : code) : code := Do (Invoke REPLY ENDPOINT_REPLY [m; 0; 0; 0]%Z) (λ _, k).
Definition shared_region (k : Z → code) : code := Do (Invoke SHARED SHARED_QUERY [0; 0; 0; 0]%Z) k.
Definition shared_read (va : Z) (k : Z → code) : code := Do (Load va) k.
Definition shared_write (val : Z) (k : code) : code := Do (Store SHARED_VA val) (λ _, k).
Definition raw_read (va : Z) (k : Z → code) : code := Do (Load va) k.
Definition notify_wait (k : code) : code := Do (Invoke NOTIF NOTIFY_WAIT [0; 0; 0; 0]%Z) (λ _, k).

(** ** The processes *)

Definition ping : code :=
  call 0xCAFE (λ r, debug r (
  shared_write SHARED_SENTINEL (
  call 0xB01C (λ echo, debug echo (exit 0))))).

Definition pong : code :=
  recv (λ m, debug m (reply (wrap 64 (m + 1)) (
  recv (λ _, shared_region (λ va, shared_read va (λ bulk, debug bulk (reply bulk (exit 0)))))))).

Definition STOP : Z := 0xDEAD5709.
Definition CRASH : Z := 0xC7A5.
Definition BAD_VA : Z := 0x40900000.

Definition echod : code :=
  recv (λ m, reply (wrap 64 (m + 1)) (if (m =? STOP)%Z then exit 0 else Goto Start)).

Definition REQUESTS : nat := 4.
(** [n] requests are left, the next one is number [i]. *)
Fixpoint requests (n : nat) (i : Z) (k : code) : code :=
  match n with
  | O => k
  | S n' => call (0x100 + i) (λ r, debug r (requests n' (i + 1) k))
  end.
Definition echocli : code := requests REQUESTS 0 (call STOP (λ ack, debug ack (exit 0))).

Definition crashd : code :=
  recv (λ m, reply (wrap 64 (m + 1)) (
  let stop := if (m =? STOP)%Z then exit 0 else Goto Start in
  if (m =? CRASH)%Z then raw_read BAD_VA (λ _, stop) else stop)).

Definition restartcli : code :=
  call 0x100 (λ a, debug a (
  call CRASH (λ ack, debug ack (
  call 0x200 (λ b, debug b (
  call STOP (λ done, debug done (exit 0)))))))).

Definition waiter : code := debug 0x5A17 (notify_wait (debug 0x0A1E (exit 0))).

(** ** Running them *)

(** Loads and stores of a word by a process; [None] is a fault. *)
Class Memory (μ : Type) := {
  ld : nat → Z → μ → option Z;
  st : nat → Z → Z → μ → option μ
}.

Inductive status :=
  | Ready (c : code)
  | Waiting (t : turn) (k : Z → code)
  | Gone.

Record world (μ : Type) := mkWorld { kernel : User; memory : μ; procs : list status }.
Arguments mkWorld {μ} _ _ _.
Arguments kernel {μ} _.
Arguments memory {μ} _.
Arguments procs {μ} _.

Section run.
Context {BF : Bitflags} {μ : Type} {ME : Memory μ}.
Variable program : nat → code.

(** The loop a call blocks in. *)
Definition loop_of (o : Z) : turn :=
  if (o =? ENDPOINT_CALL)%Z then TCall else if (o =? ENDPOINT_RECV)%Z then TRecv else TWait.

(** What a turn in the kernel leaves of process [id]. *)
Definition resume (id : nat) (t : turn) (k : Z → code) (w : world μ) (r : res Empty_set outcome * User) : option (world μ) :=
  match r with
  | (Ok (Returned v), u) => Some (mkWorld u (memory w) (<[id:=Ready (k v)]> (procs w)))
  | (Ok Blocked, u) => Some (mkWorld u (memory w) (<[id:=Waiting t k]> (procs w)))
  | (Ok Retired, u) => Some (mkWorld u (memory w) (<[id:=Gone]> (procs w)))
  | _ => None
  end.

Definition advance (id : nat) (w : world μ) : option (world μ) :=
  match procs w !! id with
  | Some (Ready (Do a k)) =>
      match a with
      | Invoke c o l => resume id (loop_of o) k w (syscall (Some id) (mkInvocation c o l) (kernel w))
      | Load va =>
          match ld id va (memory w) with
          | Some v => Some (mkWorld (kernel w) (memory w) (<[id:=Ready (k v)]> (procs w)))
          | None => resume id TFault k w (fault (Some id) (kernel w))
          end
      | Store va x =>
          match st id va x (memory w) with
          | Some m => Some (mkWorld (kernel w) m (<[id:=Ready (k 0%Z)]> (procs w)))
          | None => resume id TFault k w (fault (Some id) (kernel w))
          end
      | Pause => Some (mkWorld (kernel w) (memory w) (<[id:=Ready (k 0%Z)]> (procs w)))
      end
  | Some (Ready (Goto l)) => Some (mkWorld (kernel w) (memory w) (<[id:=Ready (body (program id) l)]> (procs w)))
  | Some (Waiting t k) => resume id t k w (take_turn id t (kernel w))
  | Some Gone | None => Some w
  end.

(** [None] is a panic of the kernel. *)
Fixpoint run (sched : list nat) (w : world μ) : option (world μ) :=
  match sched with
  | [] => Some w
  | id :: sched' =>
      match advance id w with
      | Some w' => run sched' w'
      | None => None
      end
  end.

(** ** The supervisor ([run_restart_demo], the drive loop)

    [fresh] is the capability space [load_process] registers for the server in
    slot [id]; the flag is [restarted].  The loop halts on a server that exited
    before it crashed.  (What reaping and loading do to memory is in Process.) *)
Definition supervise (id : nat) (fresh : CSpace) (wf : world μ * bool) : option (world μ * bool) :=
  let '(w, restarted) := wf in
  let u := kernel w in
  if restarted then Some wf else
  match PROC_DONE u !! id, PROC_EXITS u !! id with
  | Some true, Some code =>
      if negb (code =? KILLED)%Z then None else
      Some (mkWorld (mkUser (<[id:=Some fresh]> (PROC_CSPACES u)) (<[id:=false]> (PROC_DONE u)) (<[id:=0%Z]> (PROC_EXITS u))
                       (EP_RDV u) (NOTIFY u) (console u))
              (memory w) (<[id:=Ready (program id)]> (procs w)), true)
  | Some false, Some _ => Some wf
  | _, _ => None
  end.

(** A turn of a process, or of the supervisor ([None]). *)
Definition turn_of (id : nat) (fresh : CSpace) (t : option nat) (wf : world μ * bool) : option (world μ * bool) :=
  match t with
  | Some p =>
      match advance p wf.1 with
      | Some w => Some (w, wf.2)
      | None => None
      end
  | None => supervise id fresh wf
  end.
Fixpoint supervised (id : nat) (fresh : CSpace) (sched : list (option nat)) (wf : world μ * bool) : option (world μ * bool) :=
  match sched with
  | [] => Some wf
  | t :: sched' =>
      match turn_of id fresh t wf with
      | Some wf' => supervised id fresh sched' wf'
      | None => None
      end
  end.
End run.
