(* ===== verification/RefprocServe.v ===== *)
(** * A client and its server, under every schedule

    The state of a client that makes a list of requests and of the server that
    answers them is one of a few phases; every turn either leaves the state as it
    is or lowers a rank, and while the rank is not zero some turn lowers it.  Safety
    and progress under every fair schedule follow. *)

From S2P Require Import Prelude Rights Cap CSpace CSpaceInv CSpaceOps CSpaceStep CSpaceTheorems Syscall Userland UserTheorems Refproc.
Import Abi.

(** A client that makes the requests [l] and prints the answers. *)
Fixpoint client (l : list Z) : code :=
  match l with
  | [] => exit 0
  | m :: l' => call m (λ r, debug r (client l'))
  end.
Definition echo (m : Z) : Z := wrap 64 (m + 1).

(** The server: [echod], or [crashd] when it [crashes]. *)
Definition stop (m : Z) : code := if (m =? STOP)%Z then exit 0 else Goto Start.
Definition after (crashes : bool) (m : Z) : code :=
  if crashes && (m =? CRASH)%Z then raw_read BAD_VA (λ _, stop m) else stop m.
Definition serve (crashes : bool) (m : Z) : code := Refproc.reply (echo m) (after crashes m).
Definition server (crashes : bool) : code := recv (serve crashes).

Lemma server_echod : server false = echod.
Proof. reflexivity. Qed.
Lemma server_crashd : server true = crashd.
Proof. reflexivity. Qed.
Lemma client_echocli : client [0x100; 0x101; 0x102; 0x103; STOP]%Z = echocli.
Proof. reflexivity. Qed.
Lemma client_restartcli : client [0x100; CRASH; 0x200; STOP]%Z = restartcli.
Proof. reflexivity. Qed.

Section spaces.
Context {BF : Bitflags}.

(** The space holds the endpoint at the agreed slot with right [r]. *)
Definition speaks (cs : CSpace) (r : Z) : Prop :=
  ∃ c, resolve cs (Z.to_nat EP) = Ok c ∧ cap_type c = Endpoint ∧ bf_contains (rights c) r = true.

Lemma speaks_invoke cs r o l : speaks cs r → requires o = Some (Some (Endpoint, r)) → length l = MSG_REGS → ∃ v, invoke cs (mkInvocation EP o l) = Ok v.
Proof.
  intros (c & Hc & Ht & Hr) Ho Hl. pose proof (invoke_resolved cs (mkInvocation EP o l) c Hl Hc) as H.
  assert (refusal o c = None) as E by (apply refusal_none; unfold authorises; by rewrite Ho). cbn [op] in H. by rewrite E in H.
Qed.

Lemma speaks_word cs o v l : speaks cs SEND → o = DEBUG_EMIT ∨ o = PROC_EXIT → invoke cs (mkInvocation EP o (v :: l)) = Ok v.
Proof.
  intros (c & Hc & Ht & Hr) Ho. unfold invoke, resolve_cptr. cbn [cptr op args]. rewrite Hc. munfold. unfold guard. rewrite Ht, Hr.
  destruct Ho as [->| ->]; reflexivity.
Qed.

Lemma speaks_slots cs cs' r : CSpace.slots cs' = CSpace.slots cs → speaks cs r → speaks cs' r.
Proof. intros E (c & Hc & H). exists c. split; [|done]. revert Hc. unfold resolve, live, slot. by rewrite E. Qed.

(** The server's space between two requests, and while it owes a reply. *)
Definition idle (cs : CSpace) : Prop := wf cs ∧ vacant cs REPLY_SLOT ∧ speaks cs SEND ∧ speaks cs RECV.
Definition armed (cs : CSpace) : Prop := ∃ cs0 k, idle cs0 ∧ in_u 64 (Z.of_nat k) ∧ mint_reply REPLY_SLOT (Z.of_nat k) 0 cs0 = (Ok (), cs).

Lemma idle_mint cs k : idle cs → in_u 64 (Z.of_nat k) → ∃ cs', mint_reply REPLY_SLOT (Z.of_nat k) 0 cs = (Ok (), cs') ∧ armed cs'.
Proof.
  intros I Hk. pose proof I as (_ & V & _). destruct (mint_reply_run cs REPLY_SLOT (Z.of_nat k) 0 V) as (cs' & H & _).
  exists cs'. split; [done|]. by exists cs, k.
Qed.

Lemma armed_consume cs : armed cs → ∃ cs' k, consume_reply REPLY_SLOT cs = (Ok k, cs') ∧ idle cs'.
Proof.
  intros (cs0 & k & (W & V & S1 & S2) & Hk & Hm). assert (in_u 64 0) as H0 by (unfold in_u; lia).
  destruct (reply_consumed cs0 REPLY_SLOT (Z.of_nat k) 0 cs W Hk H0 Hm) as (cs' & Hc & Es & _ & _).
  exists cs', (Z.of_nat k). split; [done|]. pose proof (mint_reply_good cs0 REPLY_SLOT (Z.of_nat k) 0 W Hk H0) as G. rewrite Hm in G.
  pose proof (consume_reply_good cs REPLY_SLOT G) as G'. rewrite Hc in G'. split; [exact G'|]. split; [unfold vacant; by rewrite Es|].
  split; by eapply speaks_slots.
Qed.
End spaces.

(** ** The kernel's side *)

Section serve.
Context {BF : Bitflags} {μ : Type} {ME : Memory μ}.
Variable program : nat → code.
Variables (c s : nat) (crashes : bool) (ccs fresh : CSpace) (mem0 : μ) (con0 : list Z).
Hypothesis ids : c < MAX_PROCS ∧ s < MAX_PROCS ∧ c ≠ s.
Hypothesis serves : program s = server crashes.
Hypothesis client_speaks : speaks ccs SEND.
Hypothesis fresh_idle : idle fresh.
Hypothesis bad_faults : crashes = true → ld s BAD_VA mem0 = None.

(** A process that runs, or one that is done with its exit code. *)
Definition exited (u : User) (id : nat) (o : option Z) : Prop :=
  match o with
  | None => PROC_DONE u !! id = Some false ∧ is_Some (PROC_EXITS u !! id)
  | Some e => PROC_DONE u !! id = Some true ∧ PROC_EXITS u !! id = Some e
  end.

Record kst (u : User) (scs : CSpace) (r : Rdv) (con : list Z) (dc ds : option Z) : Prop := {
  ks_len : length (PROC_CSPACES u) = MAX_PROCS ∧ length (PROC_DONE u) = MAX_PROCS ∧ length (PROC_EXITS u) = MAX_PROCS;
  ks_c : PROC_CSPACES u !! c = Some (Some ccs);
  ks_s : PROC_CSPACES u !! s = Some (Some scs);
  ks_rdv : EP_RDV u = r;
  ks_con : console u = con;
  ks_dc : exited u c dc;
  ks_ds : exited u s ds
}.

Lemma k_rdv u scs r con dc ds r' : kst u scs r con dc ds →
  kst (mkUser (PROC_CSPACES u) (PROC_DONE u) (PROC_EXITS u) r' (NOTIFY u) (console u)) scs r' con dc ds.
Proof using Type. intros []. by split. Qed.

Lemma k_call u scs r con dc ds m : kst u scs r con dc ds →
  ∃ u', syscall (Some c) (mkInvocation EP ENDPOINT_CALL [m; 0; 0; 0]%Z) u = (Ok Blocked, u') ∧ kst u' scs (mkRdv (Some c) m None) con dc ds.
Proof using client_speaks.
  intros K. destruct (speaks_invoke ccs SEND ENDPOINT_CALL [m; 0; 0; 0]%Z client_speaks eq_refl eq_refl) as [v Hv].
  eexists. split; [|apply (k_rdv u scs r con dc ds (mkRdv (Some c) m None) K)].
  change (ipc_call c (mkInvocation EP ENDPOINT_CALL [m; 0; 0; 0]%Z) u = (Ok Blocked, mkUser (PROC_CSPACES u) (PROC_DONE u) (PROC_EXITS u) (mkRdv (Some c) m None) (NOTIFY u) (console u))).
  unfold ipc_call. by rewrite (check_passes c ccs _ _ u v (ks_c _ _ _ _ _ _ K) Hv).
Qed.

Lemma k_poll u scs r con dc ds v : kst u scs r con dc ds → Userland.reply r = Some v →
  ∃ u', call_turn u = (Ok (Returned v), u') ∧ kst u' scs (mkRdv None (msg r) None) con dc ds.
Proof using Type.
  intros K Hr. eexists. split; [|apply (k_rdv u scs r con dc ds (mkRdv None (msg r) None) K)].
  unfold call_turn, mbind, M_bind, get. rewrite (ks_rdv _ _ _ _ _ _ K), Hr. reflexivity.
Qed.

Lemma k_debug u scs r con dc ds v : kst u scs r con dc ds →
  ∃ u', syscall (Some c) (mkInvocation EP DEBUG_EMIT [v; 0; 0; 0]%Z) u = (Ok (Returned 0%Z), u') ∧ kst u' scs r (con ++ [v]) dc ds.
Proof using client_speaks.
  intros K. eexists. split.
  - change (syscall (Some c) (mkInvocation EP DEBUG_EMIT [v; 0; 0; 0]%Z)) with
      (r ← invoke_as c (mkInvocation EP DEBUG_EMIT [v; 0; 0; 0]%Z); match r with Ok x => print x;; mret (Returned 0%Z) | _ => retire c KILLED end).
    unfold mbind, M_bind, invoke_as. rewrite (ks_c _ _ _ _ _ _ K), (speaks_word ccs DEBUG_EMIT v [0; 0; 0]%Z client_speaks (or_introl eq_refl)). reflexivity.
  - destruct K as [K1 K2 K3 K4 K5 K6 K7]. split; try done. cbn [console]. by rewrite K5.
Qed.

(** Process [id] leaves with code [e]. *)
Lemma k_retire u scs r con dc ds id e : kst u scs r con dc ds → id = c ∨ id = s →
  ∃ u', retire id e u = (Ok Retired, u') ∧ kst u' scs r con (if decide (id = c) then Some e else dc) (if decide (id = s) then Some e else ds).
Proof using ids.
  intros [(L1 & L2 & L3) K2 K3 K4 K5 K6 K7] Hid. destruct ids as (Hc & Hs & Hne). eexists. split.
  - unfold retire. rewrite !decide_True by (destruct Hid as [->| ->]; lia). reflexivity.
  - assert (∀ j o, j < MAX_PROCS → exited u j o →
      exited (mkUser (PROC_CSPACES u) (<[id:=true]> (PROC_DONE u)) (<[id:=e]> (PROC_EXITS u)) (EP_RDV u) (NOTIFY u) (console u)) j (if decide (id = j) then Some e else o)) as Hex.
    { intros j o Hj Ho. unfold exited in *. cbn [PROC_DONE PROC_EXITS]. destruct (decide (id = j)) as [->|Hn].
      - split; apply list_lookup_insert_eq; lia.
      - by rewrite !list_lookup_insert_ne. }
    split; cbn [PROC_CSPACES PROC_DONE PROC_EXITS EP_RDV console]; rewrite ?length_insert; try done; by apply Hex.
Qed.

Lemma k_exit u scs r con dc ds id cs : kst u scs r con dc ds → id = c ∨ id = s → PROC_CSPACES u !! id = Some (Some cs) → speaks cs SEND →
  ∃ u', syscall (Some id) (mkInvocation EP PROC_EXIT [0; 0; 0; 0]%Z) u = (Ok Retired, u') ∧
    kst u' scs r con (if decide (id = c) then Some 0%Z else dc) (if decide (id = s) then Some 0%Z else ds).
Proof using ids.
  intros K Hid Hcs Hsp. destruct (k_retire u scs r con dc ds id 0 K Hid) as (u' & R & K'). exists u'. split; [|exact K'].
  change (syscall (Some id) (mkInvocation EP PROC_EXIT [0; 0; 0; 0]%Z)) with
    (r ← invoke_as id (mkInvocation EP PROC_EXIT [0; 0; 0; 0]%Z); match r with Ok x => retire id x | _ => retire id KILLED end).
  unfold mbind, M_bind, invoke_as. rewrite Hcs, (speaks_word cs PROC_EXIT 0 [0; 0; 0]%Z Hsp (or_intror eq_refl)). exact R.
Qed.

(** A space of the server, put in place. *)
Lemma k_space u scs r con dc ds scs' r' : kst u scs r con dc ds →
  kst (mkUser (<[s:=Some scs']> (PROC_CSPACES u)) (PROC_DONE u) (PROC_EXITS u) r' (NOTIFY u) (console u)) scs' r' con dc ds.
Proof using ids.
  intros [(L1 & L2 & L3) K2 K3 K4 K5 K6 K7]. destruct ids as (Hc & Hs & Hne). split; cbn [PROC_CSPACES EP_RDV console]; try done.
  - by rewrite length_insert.
  - by rewrite list_lookup_insert_ne.
  - apply list_lookup_insert_eq. lia.
Qed.

Lemma k_recv u scs r con dc ds k : kst u scs r con dc ds → caller r = Some k → k < MAX_PROCS → idle scs →
  ∃ u' scs', recv_turn s u = (Ok (Returned (msg r)), u') ∧ armed scs' ∧ kst u' scs' (mkRdv None (msg r) (Userland.reply r)) con dc ds.
Proof using ids.
  intros K Hk Hlt Hi. destruct (idle_mint scs k Hi) as (scs' & Hm & Ha); [unfold in_u, MAX_PROCS in *; lia|].
  eexists. exists scs'. split; [|split; [done|apply (k_space u scs r con dc ds scs' (mkRdv None (msg r) (Userland.reply r)) K)]].
  unfold recv_turn, mbind, M_bind, get, set_rdv, modify, with_cspace. rewrite (ks_rdv _ _ _ _ _ _ K), Hk. cbn [PROC_CSPACES msg Userland.reply].
  rewrite (ks_s _ _ _ _ _ _ K), Hm. reflexivity.
Qed.

Lemma k_recv_call u scs r con dc ds : kst u scs r con dc ds → idle scs →
  syscall (Some s) (mkInvocation EP ENDPOINT_RECV [0; 0; 0; 0]%Z) u = recv_turn s u.
Proof using Type.
  intros K (_ & _ & _ & Hsp). destruct (speaks_invoke scs RECV ENDPOINT_RECV [0; 0; 0; 0]%Z Hsp eq_refl eq_refl) as [v Hv].
  change (ipc_recv s (mkInvocation EP ENDPOINT_RECV [0; 0; 0; 0]%Z) u = recv_turn s u). unfold ipc_recv.
  by rewrite (check_passes s scs _ _ u v (ks_s _ _ _ _ _ _ K) Hv).
Qed.

Lemma k_recv_none u scs r con dc ds : kst u scs r con dc ds → caller r = None → recv_turn s u = (Ok Blocked, u).
Proof using Type. intros K Hr. unfold recv_turn, mbind, M_bind, get. by rewrite (ks_rdv _ _ _ _ _ _ K), Hr. Qed.

Lemma k_reply u scs r con dc ds v : kst u scs r con dc ds → armed scs →
  ∃ u' scs', syscall (Some s) (mkInvocation REPLY ENDPOINT_REPLY [v; 0; 0; 0]%Z) u = (Ok (Returned 0%Z), u') ∧ idle scs' ∧
    kst u' scs' (mkRdv (caller r) (msg r) (Some v)) con dc ds.
Proof using ids.
  intros K Ha. destruct (armed_consume scs Ha) as (scs' & k & Hcons & Hi). eexists. exists scs'.
  split; [|split; [done|apply (k_space u scs r con dc ds scs' (mkRdv (caller r) (msg r) (Some v)) K)]].
  change (ipc_reply s (mkInvocation REPLY ENDPOINT_REPLY [v; 0; 0; 0]%Z) u = (Ok (Returned 0%Z), mkUser (<[s:=Some scs']> (PROC_CSPACES u)) (PROC_DONE u) (PROC_EXITS u) (mkRdv (caller r) (msg r) (Some v)) (NOTIFY u) (console u))).
  unfold ipc_reply, mbind, M_bind, with_cspace. rewrite (ks_s _ _ _ _ _ _ K). change (Z.to_nat (cptr (mkInvocation REPLY ENDPOINT_REPLY [v; 0; 0; 0]%Z))) with REPLY_SLOT.
  rewrite Hcons. unfold lift, get, set_rdv, modify. cbn. by rewrite (ks_rdv _ _ _ _ _ _ K).
Qed.

Lemma k_restart u scs r con dc : kst u scs r con dc (Some KILLED) →
  kst (mkUser (<[s:=Some fresh]> (PROC_CSPACES u)) (<[s:=false]> (PROC_DONE u)) (<[s:=0%Z]> (PROC_EXITS u)) (EP_RDV u) (NOTIFY u) (console u)) fresh r con dc None.
Proof using ids.
  intros [(L1 & L2 & L3) K2 K3 K4 K5 K6 K7]. destruct ids as (Hc & Hs & Hne). split; cbn [PROC_CSPACES PROC_DONE PROC_EXITS EP_RDV console]; rewrite ?length_insert; try done.
  - by rewrite list_lookup_insert_ne.
  - apply list_lookup_insert_eq. lia.
  - unfold exited in *. cbn [PROC_DONE PROC_EXITS]. by rewrite !list_lookup_insert_ne by done.
  - split; cbn [PROC_DONE PROC_EXITS]; [apply list_lookup_insert_eq; lia|]. eexists. apply list_lookup_insert_eq. lia.
Qed.
(** ** The phases of the two *)

Definition quota (restarted : bool) : nat := if restarted then 0 else 1.
Definition need (l : list Z) : nat := if crashes then length (filter (λ m, m = CRASH) l) else 0.
(** Requests that end in the one that stops the server. *)
Fixpoint ends (l : list Z) : Prop :=
  match l with
  | [] => True
  | m :: l' => (m = STOP ↔ l' = []) ∧ ends l'
  end.

Lemma ends_stop l : Forall (λ m, m ≠ STOP) l → ends (l ++ [STOP]).
Proof using Type.
  clear ids serves bad_faults. intros H. induction H as [|m l Hm _ IH]; [done|]. split; [|exact IH]. split; [done|]. by intros []%app_eq_nil.
Qed.

(** The server between two requests, [l] left to serve: its status, whether it is
    done, and a rank. *)
Inductive between (l : list Z) : bool → status → CSpace → option Z → nat → Prop :=
  | b_goto fl cs : l ≠ [] → need l = quota fl → idle cs → between l fl (Ready (Goto Start)) cs None 2
  | b_ready fl cs : l ≠ [] → need l = quota fl → idle cs → between l fl (Ready (server crashes)) cs None 1
  | b_wait fl cs : l ≠ [] → need l = quota fl → idle cs → between l fl (Waiting TRecv (serve crashes)) cs None 0
  | b_crash cs : l ≠ [] → need l = 0 → crashes = true → between l false (Ready (raw_read BAD_VA (λ _, stop CRASH))) cs None 4
  | b_down cs : l ≠ [] → need l = 0 → between l false Gone cs (Some KILLED) 3
  | b_exit cs : l = [] → idle cs → between l true (Ready (exit 0)) cs None 1
  | b_done cs : l = [] → between l true Gone cs (Some 0%Z) 0.

Definition looks (w : world μ) (cst sst : status) : Prop := procs w !! c = Some cst ∧ procs w !! s = Some sst ∧ memory w = mem0.
Abbreviation printed d := (con0 ++ (echo <$> d)).
Definition answered (l : list Z) (r : Z) : code := debug r (client l).

Inductive phase (reqs : list Z) (w : world μ) (fl : bool) : nat → Prop :=
  | P_call d l scs m ss ds k : reqs = d ++ l → ends l → looks w (Ready (client l)) ss →
      kst (kernel w) scs (mkRdv None m None) (printed d) None ds → between l fl ss scs ds k → phase reqs w fl (20 * length l + 15 + k)
  | P_gone scs m ss ds k : looks w Gone ss →
      kst (kernel w) scs (mkRdv None m None) (printed reqs) (Some 0%Z) ds → between [] fl ss scs ds k → phase reqs w fl k
  | P_wait d m l scs ss ds k : reqs = d ++ m :: l → ends (m :: l) → looks w (Waiting TCall (answered l)) ss →
      kst (kernel w) scs (mkRdv (Some c) m None) (printed d) None ds → between (m :: l) fl ss scs ds k → phase reqs w fl (20 * length (m :: l) + 14 + k)
  | P_serve d m l scs : reqs = d ++ m :: l → ends (m :: l) → looks w (Waiting TCall (answered l)) (Ready (serve crashes m)) →
      kst (kernel w) scs (mkRdv None m None) (printed d) None None → armed scs → need (m :: l) = quota fl → phase reqs w fl (20 * length (m :: l) + 13)
  | P_answer d m l scs ss ds k : reqs = d ++ m :: l → ends (m :: l) → looks w (Waiting TCall (answered l)) ss →
      kst (kernel w) scs (mkRdv None m (Some (echo m))) (printed d) None ds → between l fl ss scs ds k → phase reqs w fl (20 * length (m :: l) + 4 + k)
  | P_debug d m l scs x ss ds k : reqs = d ++ m :: l → ends (m :: l) → looks w (Ready (answered l (echo m))) ss →
      kst (kernel w) scs (mkRdv None x None) (printed d) None ds → between l fl ss scs ds k → phase reqs w fl (20 * length (m :: l) + 3 + k).

(** ** Turns *)

Lemma looks_client w cst sst u x : looks w cst sst → looks (mkWorld u (memory w) (<[c:=x]> (procs w))) x sst.
Proof using ids.
  intros (H1 & H2 & H3). destruct ids as (_ & _ & Hne). split; [apply list_lookup_insert_eq; by eapply lookup_lt_Some|]. split; [by cbn; rewrite list_lookup_insert_ne|done].
Qed.
Lemma looks_server w cst sst u x : looks w cst sst → looks (mkWorld u (memory w) (<[s:=x]> (procs w))) cst x.
Proof using ids.
  intros (H1 & H2 & H3). destruct ids as (_ & _ & Hne). split; [by cbn; rewrite list_lookup_insert_ne|]. split; [apply list_lookup_insert_eq; by eapply lookup_lt_Some|done].
Qed.

(** A turn that changes nothing. *)
Lemma same_world (w : world μ) id x : procs w !! id = Some x → mkWorld (kernel w) (memory w) (<[id:=x]> (procs w)) = w.
Proof using Type. intros H. rewrite list_insert_id by done. by destruct w. Qed.

(** What the server goes on to once it has answered. *)
Lemma after_between m l fl scs : ends (m :: l) → need (m :: l) = quota fl → idle scs → ∃ k, k ≤ 4 ∧ between l fl (Ready (after crashes m)) scs None k.
Proof using Type.
  clear serves bad_faults ids. intros [Hm _] Hn Hi. unfold after, stop, need in *. destruct crashes eqn:Ec; cbn [andb].
  - destruct (m =? CRASH)%Z eqn:Em.
    + apply Z.eqb_eq in Em. subst m. rewrite filter_cons_True in Hn by done. cbn [length] in Hn. destruct fl; [done|]. cbn [quota] in Hn. exists 4. split; [lia|].
      apply b_crash; [|unfold need; rewrite Ec; lia|done]. intros ->. assert (CRASH = STOP) by (by apply Hm). done.
    + apply Z.eqb_neq in Em. rewrite filter_cons_False in Hn by done. destruct (m =? STOP)%Z eqn:Es.
      * apply Z.eqb_eq in Es. assert (l = []) as -> by (by apply Hm). cbn in Hn. destruct fl; [|done]. exists 1. split; [lia|]. by apply b_exit.
      * apply Z.eqb_neq in Es. exists 2. split; [lia|]. apply b_goto; [intros ->; by apply Es, Hm|unfold need; by rewrite Ec|done].
  - destruct (m =? STOP)%Z eqn:Es.
    + apply Z.eqb_eq in Es. assert (l = []) as -> by (by apply Hm). destruct fl; [|done]. exists 1. split; [lia|]. by apply b_exit.
    + apply Z.eqb_neq in Es. exists 2. split; [lia|]. apply b_goto; [intros ->; by apply Es, Hm|unfold need; by rewrite Ec|done].
Qed.

(** A turn of the client: it waits, or the rank goes down. *)
Definition client_waits (w : world μ) : Prop :=
  procs w !! c = Some Gone ∨ (∃ k, procs w !! c = Some (Waiting TCall k)) ∧ Userland.reply (EP_RDV (kernel w)) = None.
Definition server_waits (w : world μ) : Prop :=
  procs w !! s = Some Gone ∨ (∃ k, procs w !! s = Some (Waiting TRecv k)) ∧ caller (EP_RDV (kernel w)) = None.
Definition supervisor_waits (w : world μ) (fl : bool) : Prop := fl = true ∨ PROC_DONE (kernel w) !! s = Some false.

Lemma client_turn reqs w fl n : phase reqs w fl n →
  client_waits w ∧ advance program c w = Some w ∨ ∃ w' n', advance program c w = Some w' ∧ n' < n ∧ phase reqs w' fl n'.
Proof using ids client_speaks.
  destruct ids as (_ & _ & Hne).
  intros [d l scs m ss ds k E He Hl K Hb|scs m ss ds k Hl K Hb|d m l scs ss ds k E He Hl K Hb|d m l scs E He Hl K Ha Hn
    |d m l scs ss ds k E He Hl K Hb|d m l scs x ss ds k E He Hl K Hb]; unfold advance; pose proof Hl as (Hc & _ & _); rewrite Hc.
  - right. destruct l as [|m' l]; cbn [client exit call].
    + destruct (k_exit (kernel w) scs _ _ _ _ c ccs K (or_introl eq_refl) (ks_c _ _ _ _ _ _ K) client_speaks) as (u & R & K'). rewrite R.
      rewrite decide_True, decide_False in K' by done. do 2 eexists. split; [reflexivity|]. split; [|eapply P_gone; [by eapply looks_client| |exact Hb]].
      * cbn [length]. lia.
      * rewrite app_nil_r in E. subst d. exact K'.
    + destruct (k_call (kernel w) scs _ _ _ _ m' K) as (u & R & K'). rewrite R. do 2 eexists. split; [reflexivity|].
      split; [|eapply P_wait; [exact E|exact He|by eapply looks_client|exact K'|exact Hb]]. lia.
  - left. split; [by left|done].
  - left. split; [right; split; [by eexists|by rewrite (ks_rdv _ _ _ _ _ _ K)]|].
    unfold take_turn. rewrite call_blocked by (by rewrite (ks_rdv _ _ _ _ _ _ K)). cbn [resume]. by rewrite same_world.
  - left. split; [right; split; [by eexists|by rewrite (ks_rdv _ _ _ _ _ _ K)]|].
    unfold take_turn. rewrite call_blocked by (by rewrite (ks_rdv _ _ _ _ _ _ K)). cbn [resume]. by rewrite same_world.
  - right. unfold take_turn. destruct (k_poll (kernel w) scs _ _ _ _ (echo m) K eq_refl) as (u & R & K'). rewrite R. do 2 eexists. split; [reflexivity|].
    split; [|eapply P_debug; [exact E|exact He|by eapply looks_client|exact K'|exact Hb]]. lia.
  - right. unfold answered, debug. destruct (k_debug (kernel w) scs _ _ _ _ (echo m) K) as (u & R & K'). rewrite R. do 2 eexists. split; [reflexivity|].
    split; [|eapply (P_call reqs _ fl (d ++ [m]) l); [by rewrite <- app_assoc|apply He|by eapply looks_client| |exact Hb]].
    + cbn [length]. lia.
    + rewrite fmap_app, app_assoc. exact K'.
Qed.
(** A turn of the server between two requests: it has something to accept, it
    waits, or its rank goes down. *)
Lemma rest_turn w l fl ss scs ds k r cst con dc : looks w cst ss → kst (kernel w) scs r con dc ds → between l fl ss scs ds k →
  (is_Some (caller r) ∧ idle scs ∧ ds = None ∧ need l = quota fl ∧ (ss = Ready (server crashes) ∨ ss = Waiting TRecv (serve crashes))) ∨
  server_waits w ∧ advance program s w = Some w ∨
  ∃ w' ss' ds' k', advance program s w = Some w' ∧ k' < k ∧ looks w' cst ss' ∧ kst (kernel w') scs r con dc ds' ∧ between l fl ss' scs ds' k'.
Proof using ids serves bad_faults.
  intros Hl K Hb. pose proof Hl as (_ & Hs & Hm). destruct ids as (_ & _ & Hne). unfold advance. rewrite Hs.
  destruct Hb as [fl cs Hne' Hn Hi|fl cs Hne' Hn Hi|fl cs Hne' Hn Hi|cs Hne' Hn Hc|cs Hne' Hn|cs E Hi|cs E].
  - right; right. rewrite serves. do 4 eexists. split; [reflexivity|]. split; [|split; [by eapply looks_server|split; [exact K|by apply b_ready]]]. lia.
  - destruct (caller r) as [x|] eqn:Er; [left; split; [by eexists|]; auto|right; right].
    cbn [server recv]. rewrite (k_recv_call (kernel w) cs _ _ _ _ K Hi), (k_recv_none (kernel w) cs _ _ _ _ K Er). do 4 eexists. split; [reflexivity|].
    split; [|split; [by eapply looks_server|split; [exact K|by apply b_wait]]]. lia.
  - destruct (caller r) as [x|] eqn:Er; [left; split; [by eexists|]; auto|right; left].
    split; [right; split; [by eexists|by rewrite (ks_rdv _ _ _ _ _ _ K)]|]. unfold take_turn. rewrite (k_recv_none (kernel w) cs _ _ _ _ K Er). cbn [resume]. by rewrite same_world.
  - right; right. unfold raw_read. rewrite Hm, (bad_faults Hc). unfold fault.
    destruct (k_retire (kernel w) cs _ _ _ _ s KILLED K (or_intror eq_refl)) as (u & R & K'). rewrite R. rewrite decide_False, decide_True in K' by auto.
    do 4 eexists. split; [reflexivity|]. split; [|split; [rewrite <- Hm; by eapply looks_server|split; [exact K'|by apply b_down]]]. lia.
  - right; left. split; [by left|done].
  - right; right. destruct (k_exit (kernel w) cs _ _ _ _ s cs K (or_intror eq_refl) (ks_s _ _ _ _ _ _ K) (proj1 (proj2 (proj2 Hi)))) as (u & R & K').
    cbn [exit]. rewrite R. rewrite decide_False, decide_True in K' by auto.
    do 4 eexists. split; [reflexivity|]. split; [|split; [by eapply looks_server|split; [exact K'|by apply b_done]]]. lia.
  - right; left. split; [by left|done].
Qed.

(** The server accepts a request. *)
Lemma accept_turn w scs r con dc ds cst ss k : looks w cst ss → kst (kernel w) scs r con dc ds → idle scs → caller r = Some k → k < MAX_PROCS →
  ss = Ready (server crashes) ∨ ss = Waiting TRecv (serve crashes) →
  ∃ w' scs', advance program s w = Some w' ∧ looks w' cst (Ready (serve crashes (msg r))) ∧ armed scs' ∧
    kst (kernel w') scs' (mkRdv None (msg r) (Userland.reply r)) con dc ds.
Proof using ids.
  intros Hl K Hi Hk Hlt Hss. destruct (k_recv (kernel w) scs r con dc ds k K Hk Hlt Hi) as (u & scs' & R & Ha & K').
  unfold advance. pose proof Hl as (_ & Hs & Hm). rewrite Hs. destruct Hss as [->| ->].
  - cbn [server recv]. rewrite (k_recv_call (kernel w) scs _ _ _ _ K Hi), R. do 2 eexists. split; [reflexivity|]. split; [by eapply looks_server|]. by split.
  - unfold take_turn. rewrite R. do 2 eexists. split; [reflexivity|]. split; [by eapply looks_server|]. by split.
Qed.

Lemma server_turn reqs w fl n : phase reqs w fl n →
  server_waits w ∧ advance program s w = Some w ∨ ∃ w' n', advance program s w = Some w' ∧ n' < n ∧ phase reqs w' fl n'.
Proof using ids serves bad_faults.
  intros [d l scs m ss ds k E He Hl K Hb|scs m ss ds k Hl K Hb|d m l scs ss ds k E He Hl K Hb|d m l scs E He Hl K Ha Hn
    |d m l scs ss ds k E He Hl K Hb|d m l scs x ss ds k E He Hl K Hb].
  1,2,5,6: destruct (rest_turn w _ fl ss scs ds k _ _ _ _ Hl K Hb) as [[[y Hy] _]|[H|(w' & ss' & ds' & k' & R & Hk & Hl' & K' & Hb')]]; [done|by left|right; exists w'].
  - eexists. split; [done|]. split; [|by eapply P_call]. lia.
  - eexists. split; [done|]. split; [|by eapply P_gone]. lia.
  - eexists. split; [done|]. split; [|by eapply P_answer]. lia.
  - eexists. split; [done|]. split; [|by eapply P_debug]. lia.
  - destruct (rest_turn w _ fl ss scs ds k _ _ _ _ Hl K Hb) as [(_ & Hi & -> & Hn & Hss)|[H|(w' & ss' & ds' & k' & R & Hk & Hl' & K' & Hb')]]; [|by left|].
    + right. destruct (accept_turn w scs _ _ _ _ _ ss c Hl K Hi eq_refl ltac:(apply ids) Hss) as (w' & scs' & R & Hl' & Ha & K').
      exists w'. eexists. split; [done|]. split; [|by eapply P_serve]. lia.
    + right. exists w'. eexists. split; [done|]. split; [|by eapply P_wait]. lia.
  - right. destruct (k_reply (kernel w) scs _ _ _ _ (echo m) K Ha) as (u & scs' & R & Hi & K'). destruct (after_between m l fl scs' He Hn Hi) as (k & Hk & Hb).
    unfold advance. pose proof Hl as (_ & Hs & Hm). rewrite Hs. unfold serve, Refproc.reply. rewrite R. do 2 eexists. split; [reflexivity|].
    split; [|eapply P_answer; [exact E|exact He|by eapply looks_server|exact K'|exact Hb]]. lia.
Qed.

Lemma supervisor_turn reqs w fl n : phase reqs w fl n →
  supervisor_waits w fl ∧ supervise program s fresh (w, fl) = Some (w, fl) ∨
  ∃ w' fl' n', supervise program s fresh (w, fl) = Some (w', fl') ∧ n' < n ∧ phase reqs w' fl' n'.
Proof using ids serves fresh_idle.
  assert (∀ l ss scs ds k r cst con dc, looks w cst ss → kst (kernel w) scs r con dc ds → between l fl ss scs ds k →
    supervisor_waits w fl ∧ supervise program s fresh (w, fl) = Some (w, fl) ∨
    ∃ w' ss' k', supervise program s fresh (w, fl) = Some (w', true) ∧ k' < k ∧ looks w' cst ss' ∧ kst (kernel w') fresh r con dc None ∧ between l true ss' fresh None k') as Rest.
  { intros l ss scs ds k r cst con dc Hl K Hb. unfold supervise. pose proof (ks_ds _ _ _ _ _ _ K) as Hd.
    destruct Hb as [[] cs Hne' Hn Hi|[] cs Hne' Hn Hi|[] cs Hne' Hn Hi|cs Hne' Hn Hc|cs Hne' Hn|cs E Hi|cs E]; try (left; split; [by left|done]); cbn [exited] in Hd.
    1,2,3,4: left; destruct Hd as [Hd [e ->]]; split; [by right|by rewrite Hd].
    right. destruct Hd as [-> ->]. rewrite Z.eqb_refl. cbn [negb]. rewrite serves. do 3 eexists. split; [reflexivity|].
    split; [|split; [by eapply looks_server|split; [by apply (k_restart (kernel w) cs r con dc)|apply b_ready; [done|by rewrite Hn|exact fresh_idle]]]]. lia. }
  intros [d l scs m ss ds k E He Hl K Hb|scs m ss ds k Hl K Hb|d m l scs ss ds k E He Hl K Hb|d m l scs E He Hl K Ha Hn
    |d m l scs ss ds k E He Hl K Hb|d m l scs x ss ds k E He Hl K Hb].
  1,2,3,5,6: destruct (Rest _ _ _ _ _ _ _ _ _ Hl K Hb) as [H|(w' & ss' & k' & R & Hk & Hl' & K' & Hb')]; [by left|right; exists w', true; eexists; split; [exact R|]].
  - split; [|by eapply P_call]. lia.
  - split; [|by eapply P_gone]. lia.
  - split; [|by eapply P_wait]. lia.
  - split; [|by eapply P_answer]. lia.
  - split; [|by eapply P_debug]. lia.
  - left. unfold supervise. destruct (ks_ds _ _ _ _ _ _ K) as [Hd [e He']]. split; [by right|]. destruct fl; [done|]. by rewrite Hd, He'.
Qed.

(** Somebody can go on until both are done. *)
Lemma all_wait reqs w fl n : phase reqs w fl n → client_waits w → server_waits w → supervisor_waits w fl → n = 0.
Proof using Type.
  clear ids serves bad_faults.
  intros [d l scs m ss ds k E He (Hc & _) K Hb|scs m ss ds k (_ & Hs & _) K Hb|d m l scs ss ds k E He (_ & Hs & _) K Hb|d m l scs E He (_ & Hs & _) K Ha Hn
    |d m l scs ss ds k E He (Hc & _) K Hb|d m l scs x ss ds k E He (Hc & _) K Hb] Wc Ws Wu; unfold client_waits, server_waits, supervisor_waits in *.
  - rewrite Hc in Wc. by destruct Wc as [|[[]]].
  - rewrite Hs in Ws. inversion Hb; subst; try done. by destruct Ws as [|[[]]].
  - rewrite Hs, (ks_rdv _ _ _ _ _ _ K) in Ws. pose proof (ks_ds _ _ _ _ _ _ K) as Hd.
    inversion Hb; subst; try (by destruct Ws as [|[[]]]). cbn [exited] in Hd. destruct Hd as [Hd _], Wu as [|Wu]; [done|congruence].
  - rewrite Hs in Ws. by destruct Ws as [|[[]]].
  - rewrite (ks_rdv _ _ _ _ _ _ K), Hc in Wc. by destruct Wc as [|[_ ?]].
  - rewrite Hc in Wc. by destruct Wc as [|[[]]].
Qed.

(** ** Schedules *)

Abbreviation turn_of := (turn_of program s fresh).
Abbreviation supervised := (supervised program s fresh).

(** Who may have to act: the supervisor, until the restart. *)
Definition actors (fl : bool) : list (option nat) := Some c :: Some s :: (if fl then [] else [None]).
Definition known (t : option nat) : Prop := t = Some c ∨ t = Some s ∨ t = None.

Lemma any_turn reqs wf n t : phase reqs wf.1 wf.2 n → known t →
  ∃ wf', turn_of t wf = Some wf' ∧ (wf' = wf ∨ ∃ n', n' < n ∧ phase reqs wf'.1 wf'.2 n').
Proof using ids serves client_speaks fresh_idle bad_faults.
  destruct wf as [w fl]. cbn [fst snd]. intros P [->|[->| ->]]; cbn [Refproc.turn_of fst snd].
  - destruct (client_turn reqs w fl n P) as [[_ ->]|(w' & n' & -> & Hn & P')]; eexists; (split; [reflexivity|]); [by left|right; by exists n'].
  - destruct (server_turn reqs w fl n P) as [[_ ->]|(w' & n' & -> & Hn & P')]; eexists; (split; [reflexivity|]); [by left|right; by exists n'].
  - destruct (supervisor_turn reqs w fl n P) as [[_ ->]|(w' & fl' & n' & -> & Hn & P')]; eexists; (split; [reflexivity|]); [by left|right; by exists n'].
Qed.

Lemma someone reqs wf n : phase reqs wf.1 wf.2 n → n ≠ 0 →
  ∃ t wf' n', t ∈ actors wf.2 ∧ turn_of t wf = Some wf' ∧ n' < n ∧ phase reqs wf'.1 wf'.2 n'.
Proof using ids serves client_speaks fresh_idle bad_faults.
  destruct wf as [w fl]. cbn [fst snd]. intros P Hn.
  destruct (client_turn reqs w fl n P) as [[Wc _]|(w' & n' & R & Hn' & P')].
  2:{ exists (Some c), (w', fl), n'. split; [left|]. cbn [Refproc.turn_of fst snd]. by rewrite R. }
  destruct (server_turn reqs w fl n P) as [[Ws _]|(w' & n' & R & Hn' & P')].
  2:{ exists (Some s), (w', fl), n'. split; [right; left|]. cbn [Refproc.turn_of fst snd]. by rewrite R. }
  destruct (supervisor_turn reqs w fl n P) as [[Wu _]|(w' & fl' & n' & R & Hn' & P')].
  - destruct Hn. by eapply all_wait.
  - exists None, (w', fl'), n'. split; [|by split]. destruct fl; [|right; right; left]. cbn in R. injection R as <- <-.
    assert (supervisor_waits w true) as Wu by (by left). assert (n = 0) by (by eapply all_wait). lia.
Qed.

Lemma safe_run reqs sched wf n : phase reqs wf.1 wf.2 n → Forall known sched →
  ∃ wf' n', supervised sched wf = Some wf' ∧ n' ≤ n ∧ phase reqs wf'.1 wf'.2 n'.
Proof using ids serves client_speaks fresh_idle bad_faults.
  intros P Hs. revert wf n P. induction Hs as [|t sched Ht _ IH]; intros wf n P; [by exists wf, n|]. cbn [Refproc.supervised].
  destruct (any_turn reqs wf n t P Ht) as (wf1 & -> & [->|(n1 & Hn & P1)]); [by apply IH|].
  destruct (IH wf1 n1 P1) as (wf' & n' & R & Hn' & P'). exists wf', n'. split; [done|]. split; [lia|done].
Qed.

(** A stretch of the schedule in which everybody gets a turn lowers the rank. *)
Lemma round_run reqs sched wf n : phase reqs wf.1 wf.2 n → n ≠ 0 → Forall known sched → actors wf.2 ⊆ sched →
  ∃ wf' n', supervised sched wf = Some wf' ∧ n' < n ∧ phase reqs wf'.1 wf'.2 n'.
Proof using ids serves client_speaks fresh_idle bad_faults.
  intros P Hn Hs Hall. destruct (someone reqs wf n P Hn) as (t & wf1 & n1 & Ht%Hall & R & Hn1 & P1). clear Hall.
  induction Hs as [|x sched Hx Hs IH]; [by apply elem_of_nil in Ht|]. cbn [Refproc.supervised].
  destruct (any_turn reqs wf n x P Hx) as (wf2 & Rx & [->|(n2 & Hn2 & P2)]); rewrite Rx.
  - apply elem_of_cons in Ht as [->|Ht]; [|by apply IH]. rewrite R in Rx. injection Rx as ->.
    destruct (safe_run reqs sched wf n1 P1 Hs) as (wf' & n' & R' & Hn' & P'). exists wf', n'. split; [done|]. split; [lia|done].
  - destruct (safe_run reqs sched wf2 n2 P2 Hs) as (wf' & n' & R' & Hn' & P'). exists wf', n'. split; [done|]. split; [lia|done].
Qed.

Lemma supervised_app l1 l2 wf : supervised (l1 ++ l2) wf = (match supervised l1 wf with Some wf' => supervised l2 wf' | None => None end).
Proof using Type. revert wf. induction l1 as [|t l1 IH]; intros wf; [done|]. cbn [app Refproc.supervised]. by destruct (turn_of t wf). Qed.

Lemma turn_flag t wf wf' : turn_of t wf = Some wf' → actors wf'.2 ⊆ actors wf.2.
Proof using Type.
  clear ids serves bad_faults. destruct wf as [w fl]. destruct t as [p|]; cbn [Refproc.turn_of fst snd].
  - destruct (advance program p w); [|done]. by intros [= <-].
  - unfold supervise. destruct fl; [by intros [= <-]|]. destruct (PROC_DONE (kernel w) !! s) as [[]|], (PROC_EXITS (kernel w) !! s) as [e|]; try done.
    + destruct (negb _); [done|]. intros [= <-]. cbn [snd]. intros x Hx. unfold actors in *. rewrite !elem_of_cons in *. tauto.
    + by intros [= <-].
Qed.

Lemma sched_flag sched wf wf' : supervised sched wf = Some wf' → actors wf'.2 ⊆ actors wf.2.
Proof using Type.
  clear ids serves bad_faults. revert wf. induction sched as [|t sched IH]; intros wf; cbn [Refproc.supervised]; [by intros [= ->]|].
  destruct (turn_of t wf) as [wf1|] eqn:E; [|done]. intros H. etrans; [by apply IH|]. by eapply turn_flag.
Qed.

Lemma rounds_run reqs rounds wf n : phase reqs wf.1 wf.2 n → Forall (Forall known) rounds → Forall (λ r, actors wf.2 ⊆ r) rounds → n ≤ length rounds →
  ∃ wf', supervised (concat rounds) wf = Some wf' ∧ phase reqs wf'.1 wf'.2 0.
Proof using ids serves client_speaks fresh_idle bad_faults.
  revert wf n. induction rounds as [|r rounds IH]; intros wf n P Hk Ha Hn.
  { exists wf. split; [done|]. assert (n = 0) as <- by (cbn in Hn; lia). done. }
  apply Forall_cons in Hk as [Hk1 Hk], Ha as [Ha1 Ha]. cbn [concat length] in *. rewrite supervised_app.
  assert (∃ wf1 n1, supervised r wf = Some wf1 ∧ n1 ≤ length rounds ∧ phase reqs wf1.1 wf1.2 n1) as (wf1 & n1 & R & Hn1 & P1).
  { destruct (decide (n = 0)) as [->|Hn0].
    - destruct (safe_run reqs r wf 0 P Hk1) as (wf1 & n1 & R & Hn1 & P1). exists wf1, n1. split; [done|]. split; [lia|done].
    - destruct (round_run reqs r wf n P Hn0 Hk1 Ha1) as (wf1 & n1 & R & Hn1 & P1). exists wf1, n1. split; [done|]. split; [lia|done]. }
  rewrite R. apply (IH wf1 n1); [done|done| |done]. eapply Forall_impl; [exact Ha|]. intros x Hx. cbv beta in *. etrans; [by eapply sched_flag|done].
Qed.

(** ** What a phase shows *)

Lemma phase_shows reqs w fl n : phase reqs w fl n →
  ∃ d, d `prefix_of` reqs ∧ console (kernel w) = printed d ∧ (exited (kernel w) c None ∨ exited (kernel w) c (Some 0%Z)).
Proof using Type.
  clear ids serves bad_faults.
  intros [d l scs m ss ds k E He Hl K Hb|scs m ss ds k Hl K Hb|d m l scs ss ds k E He Hl K Hb|d m l scs E He Hl K Ha Hn
    |d m l scs ss ds k E He Hl K Hb|d m l scs x ss ds k E He Hl K Hb]; destruct K as [_ _ _ _ K5 K6 _].
  2: exists reqs; split; [done|]; auto.
  all: exists d; split; [rewrite E; by apply prefix_app_r|]; auto.
Qed.

Lemma phase_done reqs w fl : phase reqs w fl 0 →
  console (kernel w) = printed reqs ∧ exited (kernel w) c (Some 0%Z) ∧ exited (kernel w) s (Some 0%Z) ∧ procs w !! c = Some Gone ∧ procs w !! s = Some Gone ∧ fl = true.
Proof using Type.
  clear ids serves bad_faults. intros P. inversion P as [|scs m ss ds k (Hc & Hs & _) K Hb Hk| | | |]; try lia. subst k.
  inversion Hb; subst; try done. destruct K as [_ _ _ _ K5 K6 K7]. done.
Qed.

End serve.
