(* ===== verification/RefprocTheorems.v ===== *)
(** * The reference processes serve each other

    The echo server and its client, and the crashing server with its client and
    the supervisor, under every schedule of their turns. *)

From S2P Require Import Prelude Rights Cap CSpace CSpaceInv CSpaceOps CSpaceStep CSpaceReach CSpaceTheorems Syscall Userland UserTheorems Refproc RefprocServe.
Import Abi.

(** Turns of [ids] only, everybody in every round. *)
Definition rounds_of {A} (ids : list A) (rounds : list (list A)) : Prop := Forall (λ r, r ⊆ ids ∧ ids ⊆ r) rounds.

Section theorems.
Context {BF : Bitflags} {μ : Type} {ME : Memory μ}.

(** Client [c] and server [s] are loaded and have not run; nobody is calling. *)
Record launched (program : nat → code) (c s : nat) (ccs scs : CSpace) (w : world μ) : Prop := {
  la_ids : c < MAX_PROCS ∧ s < MAX_PROCS ∧ c ≠ s;
  la_client : speaks ccs SEND;
  la_server : idle scs;
  la_kernel : kst c s ccs (kernel w) scs (mkRdv None (msg (EP_RDV (kernel w))) None) (console (kernel w)) None None;
  la_procs : procs w !! c = Some (Ready (program c)) ∧ procs w !! s = Some (Ready (program s))
}.

(** Without a supervisor a schedule is one of processes only. *)
Lemma run_supervised program s fresh fl sched w : supervised program s fresh (Some <$> sched) (w, fl) = (λ w', (w', fl)) <$> run program sched w.
Proof using Type.
  revert w. induction sched as [|p sched IH]; intros w; [done|]. cbn [fmap list_fmap supervised run turn_of fst snd].
  destruct (advance program p w) as [w'|]; [apply IH|done].
Qed.

Lemma known_sub c s sched : sched ⊆ [Some c; Some s; None] → Forall (known c s) sched.
Proof using Type. intros H. apply Forall_forall. intros x Hx%H. rewrite !elem_of_cons, elem_of_nil in Hx. unfold known. tauto. Qed.

(** What every prefix of a session shows, and what its end shows. *)
Definition shows (c : nat) (con answers : list Z) (u : User) : Prop :=
  ∃ d, d `prefix_of` answers ∧ console u = con ++ d ∧ (exited u c None ∨ exited u c (Some 0%Z)).
Definition ended (c s : nat) (con answers : list Z) (w : world μ) : Prop :=
  console (kernel w) = con ++ answers ∧ exited (kernel w) c (Some 0%Z) ∧ exited (kernel w) s (Some 0%Z) ∧
  procs w !! c = Some Gone ∧ procs w !! s = Some Gone.

(** A client and a server that are launched, with a supervisor that still has
    [quota fl] restarts to make. *)
Section session.
Variables (program : nat → code) (c s : nat) (ccs scs fresh : CSpace) (w : world μ) (crashes fl : bool) (reqs : list Z).
Hypothesis L : launched program c s ccs scs w.
Hypothesis runs_client : program c = client reqs.
Hypothesis runs_server : program s = server crashes.
Hypothesis fresh_idle : idle fresh.
Hypothesis faults : crashes = true → ld s BAD_VA (memory w) = None.
Hypothesis asks : reqs ≠ [] ∧ ends reqs ∧ need crashes reqs = quota fl.
Abbreviation con := (console (kernel w)).

Lemma start_phase : phase c s crashes ccs (memory w) con reqs w fl (20 * length reqs + 16).
Proof using L runs_client runs_server asks.
  destruct asks as (Hne & He & Hn), L as [_ _ Hi K [Hc Hs]]. rewrite runs_client in Hc. rewrite runs_server in Hs.
  replace (20 * length reqs + 16) with (20 * length reqs + 15 + 1) by lia.
  eapply (P_call _ _ _ _ _ _ reqs w fl [] reqs); [done|done|by split_and!|by rewrite app_nil_r|by apply b_ready].
Qed.

Lemma session_safe sched : sched ⊆ [Some c; Some s; None] →
  ∃ wf, supervised program s fresh sched (w, fl) = Some wf ∧ shows c con (echo <$> reqs) (kernel wf.1).
Proof using All.
  intros Hs. destruct (safe_run program c s crashes ccs fresh (memory w) con (la_ids _ _ _ _ _ _ L) runs_server (la_client _ _ _ _ _ _ L) fresh_idle faults
    reqs sched (w, fl) _ start_phase (known_sub c s sched Hs)) as (wf & n & R & _ & P).
  exists wf. split; [done|]. destruct (phase_shows _ _ _ _ _ _ _ _ _ _ P) as (d & [l ->] & H2 & H3).
  exists (echo <$> d). split; [|done]. exists (echo <$> l). apply fmap_app.
Qed.

Lemma session_ends rounds : Forall (λ r, r ⊆ [Some c; Some s; None] ∧ actors c s fl ⊆ r) rounds → 20 * length reqs + 16 ≤ length rounds →
  ∃ wf, supervised program s fresh (concat rounds) (w, fl) = Some wf ∧ ended c s con (echo <$> reqs) wf.1 ∧ wf.2 = true.
Proof using All.
  intros Hr Hn. destruct (rounds_run program c s crashes ccs fresh (memory w) con (la_ids _ _ _ _ _ _ L) runs_server (la_client _ _ _ _ _ _ L) fresh_idle faults
    reqs rounds (w, fl) _ start_phase) as (wf & R & P); [| |done|].
  - eapply Forall_impl; [exact Hr|]. intros r [H _]. by apply known_sub.
  - eapply Forall_impl; [exact Hr|]. by intros r [_ H].
  - exists wf. split; [done|]. destruct (phase_done _ _ _ _ _ _ _ _ _ P) as (H1 & H2 & H3 & H4 & H5 & H6). by split.
Qed.
End session.

Lemma processes_only (c s : nat) sched : sched ⊆ [c; s] → (Some <$> sched) ⊆ [Some c; Some s; None].
Proof using Type. intros H x (y & -> & Hy%H)%list_elem_of_fmap. apply elem_of_cons in Hy as [->|Hy%list_elem_of_singleton]; [left|subst; right; left]. Qed.
Lemma rounds_fmap (c s : nat) rounds : rounds_of [c; s] rounds → Forall (λ r, r ⊆ [Some c; Some s; None] ∧ actors c s true ⊆ r) (fmap (M:=list) (@Some nat) <$> rounds).
Proof using Type.
  intros H. apply Forall_fmap. eapply Forall_impl; [exact H|]. intros r [H1 H2]. split; [by apply processes_only|].
  intros x Hx. apply list_elem_of_fmap. apply elem_of_cons in Hx as [->|Hx%list_elem_of_singleton]; [|subst]; eexists; (split; [done|]); apply H2; [left|right; left].
Qed.
Lemma concat_fmap (rounds : list (list nat)) : concat (fmap (M:=list) (@Some nat) <$> rounds) = Some <$> concat rounds.
Proof using Type. induction rounds as [|r l IH]; [done|]. cbn. by rewrite IH, fmap_app. Qed.

(** C11: The echo client and the echo server, loaded with the endpoint at its agreed
    slot, work under every schedule: the kernel does not panic, the client is not
    killed, and what it has printed is a prefix of the answers to its requests in
    order; once the schedule holds 116 rounds in each of which both got a turn,
    the client has printed all the answers, [0x101] to [0x104] and [STOP + 1],
    and both have exited with code 0. *)
Theorem echo_served program c s ccs scs w : launched program c s ccs scs w → program c = echocli → program s = echod →
  let answers := [0x101; 0x102; 0x103; 0x104; STOP + 1]%Z in
  (∀ sched, sched ⊆ [c; s] → ∃ w', run program sched w = Some w' ∧ shows c (console (kernel w)) answers (kernel w')) ∧
  (∀ rounds, rounds_of [c; s] rounds → 116 ≤ length rounds → ∃ w', run program (concat rounds) w = Some w' ∧ ended c s (console (kernel w)) answers w').
Proof using Type.
  intros L Ec Es. cbv zeta. rewrite <- client_echocli in Ec. rewrite <- server_echod in Es.
  pose proof (ends_stop [0x100; 0x101; 0x102; 0x103]%Z ltac:(by repeat constructor)) as He.
  split; intros l Hl.
  - destruct (session_safe program c s ccs scs scs w false true _ L Ec Es (la_server _ _ _ _ _ _ L) ltac:(done) ltac:(done) _ (processes_only c s l Hl)) as ([w' fl] & R & H).
    rewrite run_supervised in R. destruct (run program l w); [|done]. injection R as -> <-. by exists w'.
  - intros Hn. destruct (session_ends program c s ccs scs scs w false true _ L Ec Es (la_server _ _ _ _ _ _ L) ltac:(done) ltac:(done) _ (rounds_fmap c s l Hl)) as ([w' fl] & R & H & _);
      [by rewrite length_fmap|]. rewrite concat_fmap, run_supervised in R. destruct (run program (concat l) w); [|done]. injection R as -> <-. by exists w'.
Qed.

End theorems.

(** ** Witnesses: a server and a client on one endpoint *)

Definition serving_cs : CSpace := (grant 1 2 (Z.lor SEND RECV) 9 GMint (ep_auth, cspace_new 16)).2.2.
Definition serving_user : User :=
  mkUser [Some serving_cs; Some client_cs; None; None] (replicate 4 false) (replicate 4 0%Z) (mkRdv None 0 None) (mkNotify false None) [7%Z].

(** A memory of words, the same for every process: what is not there faults. *)
#[local] Instance words : Memory (gmap Z Z) := {
  ld _ va m := m !! va;
  st _ va x m := _ ← m !! va; Some (<[va:=x]> m)
}.
Definition programs (p : list code) (id : nat) : code := default (Goto Spin) (p !! id).
Definition serving (p : list code) : world (gmap Z Z) := mkWorld serving_user {[SHARED_VA := 0%Z]} (Ready <$> p).

Lemma speaks_demo cs c r : resolve cs 2 = Ok c → cap_type c = Endpoint → Z.land (rights c) r = r → speaks cs r.
Proof. intros H1 H2 H3. exists c. split; [exact H1|]. split; [exact H2|]. by apply bf_contains_spec. Qed.

Lemma serving_idle : idle serving_cs.
Proof.
  split; [apply reachable_inv, granted_reach; u_bounds|]. split; [eexists; split; vm_compute; reflexivity|].
  split; (eapply speaks_demo; [vm_compute; reflexivity|reflexivity|vm_compute; reflexivity]).
Qed.

Lemma serving_launched p a b : p = [a; b] → launched (programs p) 1 0 client_cs serving_cs (serving p).
Proof.
  intros ->. split; [unfold MAX_PROCS; lia| |apply serving_idle| |done].
  - eapply speaks_demo; [vm_compute; reflexivity|reflexivity|vm_compute; reflexivity].
  - split; try done; (split; [done|by eexists]).
Qed.

Lemma fair_rounds {A} (l : list A) n : rounds_of l (replicate n l).
Proof. by apply Forall_replicate. Qed.

Lemma echo_served_witness : ∃ w, run (programs [echod; echocli]) (concat (replicate 116 [1; 0])) (serving [echod; echocli]) = Some w ∧
  console (kernel w) = [7; 0x101; 0x102; 0x103; 0x104; STOP + 1]%Z.
Proof.
  destruct (echo_served (programs [echod; echocli]) 1 0 client_cs serving_cs (serving [echod; echocli]) (serving_launched _ echod echocli eq_refl) eq_refl eq_refl) as [_ H].
  destruct (H (replicate 116 [1; 0]) (fair_rounds _ _)) as (w & R & Hc & _); [by rewrite length_replicate|]. exists w. split; [exact R|exact Hc].
Defined.

