(* ===== verification/KIpc.v ===== *)
(** * IPC between tasks of the kernel ([kernel/src/ipc/mod.rs])

    The endpoint, the cross-space GRANT, the single-use Reply and the budgets,
    wired to the executor: [Call] and [Recv] are futures, the client and the
    server are tasks.  A waker is the id of the task it wakes; [waking] collects
    what a poll wakes, in order, for the executor.  Every future locks the world
    for one poll at most, so a poll is atomic; masking preemption around a
    transfer has no effect on the model.  The kernel halts ([fatal]) where the
    model answers [Panic]. *)

From S2P Require Import Prelude Rights Cap Budget CSpace Ipc Executor.
Import Message Endpoint.

Definition SLOTS : nat := 16.
Definition CLIENT : PartyId := 1.
Definition SERVER : PartyId := 2.
Definition CLIENT_UNTYPED : nat := 0.
Definition CLIENT_FRAME : nat := 1.
Definition CLIENT_EP : nat := 2.
Definition SERVER_EP : nat := 1.
Definition SERVER_RECV_BASE : nat := 5.
Definition SERVER_REPLY_SLOT : nat := 10.
Definition CLIENT_BUDGET : Z := 100.
Definition CALL_DELEGATE : Z := 50.
Definition WORK_UNITS : Z := 30.
Definition REQ_WORD : Z := 0x00C0FFEE.
Definition LABEL : Z := 0xABCD.

Record IpcWorld := mkIpcWorld {
  endpoint : EndpointState;
  client_cs : CSpace;
  server_cs : CSpace;
  client_budget : Budget;
  server_budget : Budget;
  wakers : gmap PartyId Z;
  delivered : gmap PartyId (PartyId * Message);
  responses : gmap PartyId Message;
  client_result : option Message
}.

Definition set_endpoint e w := mkIpcWorld e (client_cs w) (server_cs w) (client_budget w) (server_budget w) (wakers w) (delivered w) (responses w) (client_result w).
Definition set_spaces c s w := mkIpcWorld (endpoint w) c s (client_budget w) (server_budget w) (wakers w) (delivered w) (responses w) (client_result w).
Definition set_budgets c s w := mkIpcWorld (endpoint w) (client_cs w) (server_cs w) c s (wakers w) (delivered w) (responses w) (client_result w).
Definition set_wakers m w := mkIpcWorld (endpoint w) (client_cs w) (server_cs w) (client_budget w) (server_budget w) m (delivered w) (responses w) (client_result w).
Definition set_delivered m w := mkIpcWorld (endpoint w) (client_cs w) (server_cs w) (client_budget w) (server_budget w) (wakers w) m (responses w) (client_result w).
Definition set_responses m w := mkIpcWorld (endpoint w) (client_cs w) (server_cs w) (client_budget w) (server_budget w) (wakers w) (delivered w) m (client_result w).
Definition set_result r w := mkIpcWorld (endpoint w) (client_cs w) (server_cs w) (client_budget w) (server_budget w) (wakers w) (delivered w) (responses w) r.

(** The world under its lock, and the tasks woken since it was taken. *)
Abbreviation WM := (M (IpcWorld * list Z) Empty_set).
Definition world : WM IpcWorld := λ s, (Ok s.1, s).
Definition update (f : IpcWorld → IpcWorld) : WM unit := λ s, (Ok (), (f s.1, s.2)).
Definition wake (id : Z) : WM unit := λ s, (Ok (), (s.1, s.2 ++ [id])).
(** [if let Some(wk) = self.wakers.remove(&party) { wk.wake() }] *)
Definition wake_party (party : PartyId) : WM unit :=
  w ← world;
  update (set_wakers (base.delete party (wakers w)));;
  match wakers w !! party with
  | Some id => wake id
  | None => mret ()
  end.

Section ipc.
Context {BF : Bitflags}.

(** An operation on both spaces, and one on the server's; the answer is a value. *)
Definition on_spaces {A} (m : M (CSpace * CSpace) CapError A) : WM (res CapError A) := λ s,
  match m (client_cs s.1, server_cs s.1) with
  | (Panic, _) => (Panic, s)
  | (r, (c, v)) => (Ok r, (set_spaces c v s.1, s.2))
  end.
Definition on_server {A} (m : CM A) : WM (res CapError A) := on_spaces (on_snd m).
(** [r.unwrap_or_else(|e| fatal_err(..))] *)
Definition or_fatal {A} (r : res CapError A) : WM A :=
  match r with
  | Ok a => mret a
  | _ => panic
  end.

Definition with_badge (m : Message) (b : Z) : Message := mkMessage (info m) (regs m) (caps m) b.
(** The body of the loop over the message's transfers. *)
Definition transfer (badge : Z) (ix : nat * CapXfer) : WM unit :=
  r ← on_spaces (grant (src ix.2) (SERVER_RECV_BASE + ix.1) (xrights ix.2) badge (mode ix.2));
  or_fatal r.
Definition on_request (sender : PartyId) (m : Message) : WM (Message * nat) :=
  let msg := with_badge m sender in
  r ← on_server (mint_reply SERVER_REPLY_SLOT sender (mbadge msg));
  or_fatal r;;
  xs ← lift (transfers msg);
  mfor (imap pair xs) (transfer (mbadge msg));;
  mret (msg, SERVER_REPLY_SLOT).

Definition do_reply (reply_slot : nat) (resp : Message) : WM bool :=
  r ← on_server (consume_reply reply_slot);
  match r with
  | Ok caller =>
      update (λ w, set_responses (<[caller:=resp]> (responses w)) w);;
      wake_party caller;;
      mret true
  | _ => mret false
  end.

(** ** The futures *)

Record Call := mkCall { call_party : PartyId; call_msg : option Message; sent : bool }.
Definition call (party : PartyId) (m : Message) : Call := mkCall party (Some m) false.

(** [w.wakers.insert(party, cx.waker().clone())]; [self] is the polled task. *)
Definition park_party (self : Z) (party : PartyId) : WM unit :=
  update (λ w, set_wakers (<[party:=self]> (wakers w)) w).

(** [None] is [Poll::Pending]. *)
Definition call_poll (self : Z) (c : Call) : WM (option Message * Call) :=
  if negb (sent c) then
    match call_msg c with
    | None => panic
    | Some m =>
        w ← world;
        let '(o, e) := Endpoint.send (call_party c) m (endpoint w) in
        update (set_endpoint e);;
        match o with
        | Delivered receiver m' =>
            update (λ w, set_delivered (<[receiver:=(call_party c, m')]> (delivered w)) w);;
            wake_party receiver
        | SQueued => mret ()
        end;;
        park_party self (call_party c);;
        mret (None, mkCall (call_party c) None true)
    end
  else
    w ← world;
    match responses w !! call_party c with
    | Some resp =>
        update (set_responses (base.delete (call_party c) (responses w)));;
        mret (Some resp, c)
    | None =>
        park_party self (call_party c);;
        mret (None, c)
    end.

Record Recv := mkRecv { recv_party : PartyId; tried : bool }.
Definition recv (party : PartyId) : Recv := mkRecv party false.

Definition recv_poll (self : Z) (r : Recv) : WM (option (Message * nat) * Recv) :=
  w ← world;
  match delivered w !! recv_party r with
  | Some (sender, m) =>
      update (set_delivered (base.delete (recv_party r) (delivered w)));;
      x ← on_request sender m;
      mret (Some x, r)
  | None =>
      let waits :=
        park_party self (recv_party r);;
        mret (None, mkRecv (recv_party r) true) in
      if negb (tried r) then
        let '(o, e) := Endpoint.recv (recv_party r) (endpoint w) in
        update (set_endpoint e);;
        match o with
        | Received sender m =>
            x ← on_request sender m;
            mret (Some x, mkRecv (recv_party r) true)
        | RQueued => waits
        end
      else waits
  end.

(** ** The tasks *)

Definition authorize_endpoint (cs : CSpace) (ep_slot : nat) (right : Z) : WM unit :=
  match resolve cs ep_slot with
  | Ok ep => if negb (is_type (cap_type ep) Endpoint) || negb (bf_contains (rights ep) right) then panic else mret ()
  | _ => panic
  end.

(** [let _ = a.delegate(&mut b, amount)] *)
Definition lend (amount : Z) : WM unit := update (λ w,
  match budget_delegate (client_budget w) (server_budget w) amount with
  | Some (c, s) => set_budgets c s w
  | None => w
  end).
Definition give_back : WM unit := update (λ w,
  match budget_delegate (server_budget w) (client_budget w) (remaining (server_budget w)) with
  | Some (s, c) => set_budgets c s w
  | None => w
  end).

(** An [async fn] is the point it is suspended at. *)
Inductive body := ClientStart | ClientCall (c : Call) | ServerStart | ServerRecv (r : Recv).

Definition request : Message :=
  let m := with_data LABEL [REQ_WORD] in
  mkMessage (mkInfo (label (info m)) (n_regs (info m)) 1) (regs m) (<[0:=mkXfer CLIENT_FRAME READ GMove]> (caps m)) (mbadge m).

(** [client_body] from the [await] of its call on, and the whole of it. *)
Definition client_await (self : Z) (c : Call) : WM (bool * body) :=
  p ← call_poll self c;
  match p.1 with
  | Some resp => update (set_result (Some resp));; mret (true, ClientCall p.2)
  | None => mret (false, ClientCall p.2)
  end.
Definition client_body (self : Z) : WM (bool * body) :=
  w ← world;
  authorize_endpoint (client_cs w) CLIENT_EP SEND;;
  lend CALL_DELEGATE;;
  client_await self (call CLIENT request).

(** [server_body] after its [await], from it on, and the whole of it. *)
Definition work (req : Message) (reply_slot : nat) : WM unit :=
  d ← lift (data req);
  x ← lift (index d 0);
  let resp := with_data (label (info req)) [wrap 64 (x + 1)] in
  update (λ w, set_budgets (client_budget w) (charge (server_budget w) WORK_UNITS) w);;
  do_reply reply_slot resp;;
  give_back.
Definition server_await (self : Z) (r : Recv) : WM (bool * body) :=
  p ← recv_poll self r;
  match p.1 with
  | Some (req, reply_slot) => work req reply_slot;; mret (true, ServerRecv p.2)
  | None => mret (false, ServerRecv p.2)
  end.
Definition server_body (self : Z) : WM (bool * body) :=
  w ← world;
  authorize_endpoint (server_cs w) SERVER_EP RECV;;
  server_await self (recv SERVER).

Definition resume (self : Z) (b : body) : WM (bool * body) :=
  match b with
  | ClientStart => client_body self
  | ClientCall c => client_await self c
  | ServerStart => server_body self
  | ServerRecv r => server_await self r
  end.

(** One poll of a task by the executor: [None] is the halted machine. *)
Definition poll (w : option IpcWorld) (f : Z * body) : bool * list Z * (Z * body) * option IpcWorld :=
  match w with
  | None => (false, [], f, None)
  | Some w =>
      match resume f.1 f.2 (w, []) with
      | (Ok (rdy, b), (w', ids)) => (rdy, ids, (f.1, b), Some w')
      | (_, (_, ids)) => (false, ids, f, None)
      end
  end.

(** ** The demonstration *)

Definition setup_client (base : Z) : CM Z :=
  set_root_untyped base 16;;
  retype CLIENT_UNTYPED Frame 1 1 CLIENT_FRAME;;
  retype CLIENT_UNTYPED Cap.Endpoint 1 1 CLIENT_EP;;
  f ← reads (λ cs, resolve cs CLIENT_FRAME);
  mret (objref f).

(** [base] is the first frame of the block [alloc_frames(4)] answered. *)
Definition setup (base : Z) : option (IpcWorld * Z) :=
  match setup_client base (cspace_new SLOTS) with
  | (Ok frame, c) =>
      match grant CLIENT_EP SERVER_EP RECV 0 GMint (c, cspace_new SLOTS) with
      | (Ok _, (c', s)) => Some (mkIpcWorld new c' s (budget_new CLIENT_BUDGET CLIENT_BUDGET) (budget_new 0 CLIENT_BUDGET) ∅ ∅ ∅ None, frame)
      | _ => None
      end
  | _ => None
  end.

(** The tasks as [TaskId::allocate] numbers them from [next]. *)
Definition spawn_both (next : Z) : Executor (Z * body) :=
  let '(t1, n1) := task_new next (next, ClientStart) (budget_new 1000 1000) in
  let '(t2, _) := task_new n1 (n1, ServerStart) (budget_new 1000 1000) in
  (spawn t2 (spawn t1 executor_new).2).2.

(** The assertions AC4.1, AC4.5, AC4.2 and AC4.3, in order. *)
Definition checks (frame : Z) (w : IpcWorld) : bool :=
  match client_result w with
  | None => false
  | Some resp =>
      match data resp with
      | Ok d => bool_decide (d = [wrap 64 (REQ_WORD + 1)])
      | _ => false
      end
  end &&
  match resolve (server_cs w) SERVER_RECV_BASE with
  | Ok g => is_type (cap_type g) Frame && (objref g =? frame)%Z && (rights g =? READ)%Z
  | _ => false
  end &&
  match resolve (client_cs w) CLIENT_FRAME with Ok _ => false | _ => true end &&
  match fst (consume_reply SERVER_REPLY_SLOT (server_cs w)) with Err CSpace.EmptySlot => true | _ => false end &&
  (remaining (client_budget w) =? CLIENT_BUDGET - WORK_UNITS)%Z.

Definition run (base next : Z) (fuel : nat) : option bool :=
  match setup base with
  | None => None
  | Some (w, frame) =>
      match run_until_idle poll fuel (spawn_both next) (Some w) with
      | Some (_, Some w', _) => Some (checks frame w')
      | _ => None
      end
  end.
End ipc.
