(* ===== verification/KIpcTheorems.v ===== *)
(** * A call between two kernel tasks

    Whatever the order in which the client's and the server's tasks are polled,
    and however often: one call is served, paid for by its caller, and the
    capability it carries has moved. *)

From S2P Require Import Prelude Rights Cap Budget CSpace CSpaceInv CSpaceOps CSpaceStep CSpaceReach Ipc Executor.
Import Message Endpoint.
From S2P Require Import KIpc.

Section theorems.
Context {BF : Bitflags}.

(** The two tasks, [None] once complete, and the world; [idc] and [ids] are the
    ids their wakers carry. *)
Abbreviation state := (option body * option body * IpcWorld)%type.
Definition turn (idc ids : Z) (client : bool) (st : state) : option state :=
  match (if client then st.1.1 else st.1.2) with
  | None => Some st
  | Some b =>
      match resume (if client then idc else ids) b (st.2, []) with
      | (Ok (rdy, b'), (w, _)) =>
          let o := if rdy : bool then None else Some b' in
          Some (if client then (o, st.1.2, w) else (st.1.1, o, w))
      | _ => None
      end
  end.
Fixpoint turns (idc ids : Z) (sched : list bool) (st : state) : option state :=
  match sched with
  | [] => Some st
  | t :: sched' =>
      match turn idc ids t st with
      | Some st' => turns idc ids sched' st'
      | None => None
      end
  end.

(** What the two need to hold: their ends of the endpoint, a frame the client may
    give away for reading, and room in the server's space. *)
Record equipped (c s : CSpace) (f : RawCap) : Prop := {
  eq_client : ∃ e, resolve c CLIENT_EP = Ok e ∧ cap_type e = Cap.Endpoint ∧ bf_contains (rights e) SEND = true;
  eq_server : ∃ e, resolve s SERVER_EP = Ok e ∧ cap_type e = Cap.Endpoint ∧ bf_contains (rights e) RECV = true;
  eq_frame : resolve c CLIENT_FRAME = Ok f ∧ cap_type f = Frame ∧ bf_contains (rights f) GRANT = true ∧ bf_contains (rights f) READ = true;
  eq_leaf : has_children c CLIENT_FRAME = false;
  eq_room : vacant s SERVER_RECV_BASE ∧ vacant s SERVER_REPLY_SLOT
}.

(** The spaces after the call: the frame is with the server, narrowed and badged;
    the reply is gone. *)
Definition gave (c : CSpace) : CSpace := upd_slot CLIENT_FRAME Cte_EMPTY c.
Definition armed (s : CSpace) : CSpace := upd_slot SERVER_REPLY_SLOT (mkCte (mkRawCap Reply rights_empty CLIENT 0 0 0 CLIENT) None) s.
Definition got (f : RawCap) (s : CSpace) : CSpace :=
  upd_slot SERVER_RECV_BASE (mkCte (with_rights_badge f READ CLIENT) None) s.
Definition served (f : RawCap) (s : CSpace) : CSpace := upd_slot SERVER_REPLY_SLOT Cte_EMPTY (got f (armed s)).

Lemma vacant_mint s b k : vacant s k → mint_reply k b b s = (Ok (), upd_slot k (mkCte (mkRawCap Reply rights_empty b 0 0 0 b) None) s).
Proof. intros (e & He & Hn). unfold mint_reply. rewrite place_eq, He. apply is_null_true in Hn. by rewrite Hn. Qed.

Lemma gave_got c s f s1 : equipped c s f → s1 = armed s →
  grant CLIENT_FRAME SERVER_RECV_BASE READ CLIENT GMove (c, s1) = (Ok (), (gave c, got f s1)).
Proof.
  intros [_ _ (Hf & Ht & Hg & Hr) Hl [(e & He & Hn) _]] ->. unfold grant. munfold. cbn [fst snd]. unfold resolve in Hf. rewrite Hf, Ht. cbn [not_grantable is_move negb andb].
  rewrite Hg. unfold subset_of. rewrite Hr. cbn [negb andb fst snd]. rewrite Hl, place_eq. cbn [fst snd].
  assert (slots (armed s) !! SERVER_RECV_BASE = Some e) as -> by (cbn [armed upd_slot slots]; by rewrite list_lookup_insert_ne). apply is_null_true in Hn. rewrite Hn. cbn [fst snd]. apply live_Ok in Hf as (_ & x & Hx & _).
  rewrite set_slot_eq by (by eapply lookup_lt_Some). reflexivity.
Qed.

Lemma reply_taken s f : vacant s SERVER_REPLY_SLOT → consume_reply SERVER_REPLY_SLOT (got f (armed s)) = (Ok CLIENT, served f s).
Proof.
  intros (e & He & Hn). apply lookup_lt_Some in He.
  assert (slots (got f (armed s)) !! SERVER_REPLY_SLOT = Some (mkCte (mkRawCap Reply rights_empty CLIENT 0 0 0 CLIENT) None)) as Hs.
  { cbn [got armed upd_slot slots]. rewrite list_lookup_insert_ne by done. by apply list_lookup_insert_eq. }
  assert (live (got f (armed s)) SERVER_REPLY_SLOT = Ok (mkRawCap Reply rights_empty CLIENT 0 0 0 CLIENT)) as Hl by (apply live_Ok; split; [done|by eexists]).
  unfold consume_reply, mbind, M_bind, reads. rewrite Hl.
  change (is_type (cap_type (mkRawCap Reply rights_empty CLIENT 0 0 0 CLIENT)) Reply) with true. cbn [negb].
  unfold destroy_slot, mbind, M_bind, reads, slot, index. rewrite Hs. change (is_null (cap (mkCte (mkRawCap Reply rights_empty CLIENT 0 0 0 CLIENT) None))) with false. cbv beta iota.
  rewrite set_slot_eq by (by eapply lookup_lt_Some). cbn [credit_parent parent cap cap_type]. unfold get, mret, M_ret. by rewrite andb_false_r.
Qed.

(** ** The states a call goes through *)

Section call.
Variables (idc ids : Z) (c s : CSpace) (f : RawCap) (cb sb : Budget).
Hypothesis E : equipped c s f.
Hypothesis pays : (0 <= consumed cb ∧ consumed cb + CALL_DELEGATE <= capacity cb < 2 ^ 32)%Z.
Hypothesis passive : (0 <= consumed sb ∧ consumed sb = capacity sb ∧ capacity sb + CALL_DELEGATE < 2 ^ 32)%Z.

Definition answer : Message := with_data LABEL [wrap 64 (REQ_WORD + 1)].
Definition lent : Budget * Budget :=
  (mkBudget (capacity cb - CALL_DELEGATE) (consumed cb) (period cb), mkBudget (capacity sb + CALL_DELEGATE) (consumed sb) (period sb)).
(** The caller has paid for the work, and got the rest back. *)
Definition paid : Budget * Budget :=
  (mkBudget (capacity cb - WORK_UNITS) (consumed cb) (period cb), mkBudget (capacity sb + WORK_UNITS) (consumed sb + WORK_UNITS) (period sb)).
Definition calling : body := ClientCall (mkCall CLIENT None true).
Definition receiving : body := ServerRecv (mkRecv SERVER true).

Definition start : state := (Some ClientStart, Some ServerStart, mkIpcWorld new c s cb sb ∅ ∅ ∅ None).
Definition queued : state := (Some calling, Some ServerStart, mkIpcWorld (mkEndpoint [(CLIENT, request)] []) c s lent.1 lent.2 {[CLIENT := idc]} ∅ ∅ None).
Definition waiting : state := (Some ClientStart, Some receiving, mkIpcWorld (mkEndpoint [] [SERVER]) c s cb sb {[SERVER := ids]} ∅ ∅ None).
Definition handed : state := (Some calling, Some receiving, mkIpcWorld new c s lent.1 lent.2 {[CLIENT := idc]} {[SERVER := (CLIENT, request)]} ∅ None).
Definition replied : state := (Some calling, None, mkIpcWorld new (gave c) (served f s) paid.1 paid.2 ∅ ∅ {[CLIENT := answer]} None).
Definition finished : state := (None, None, mkIpcWorld new (gave c) (served f s) paid.1 paid.2 ∅ ∅ ∅ (Some answer)).

Inductive stage : state → nat → Prop :=
  | st_start : stage start 4
  | st_queued : stage queued 2
  | st_waiting : stage waiting 3
  | st_handed : stage handed 2
  | st_replied : stage replied 1
  | st_finished : stage finished 0.

Lemma lends : budget_delegate cb sb CALL_DELEGATE = Some lent.
Proof using pays passive.
  unfold budget_delegate, remaining, sat_sub. unfold CALL_DELEGATE in *. rewrite (proj2 (Z.ltb_ge _ _)) by lia. cbn [orb Z.eqb].
  unfold checked. by rewrite (proj2 (fits_spec _ _)) by (unfold in_u; lia).
Qed.

Lemma gives_back : let s1 := charge lent.2 WORK_UNITS in budget_delegate s1 lent.1 (remaining s1) = Some (paid.2, paid.1).
Proof using pays passive.
  assert (charge lent.2 WORK_UNITS = mkBudget (capacity sb + 50) (consumed sb + 30) (period sb)) as ->.
  { unfold charge, sat_add, lent. cbn [fst snd capacity consumed period]. f_equal. unfold CALL_DELEGATE, WORK_UNITS in *. lia. }
  cbv zeta. unfold budget_delegate, remaining, sat_sub, lent. cbn [fst snd capacity consumed period]. unfold CALL_DELEGATE in *.
  replace (Z.max 0 (capacity sb + 50 - (consumed sb + 30))) with 20%Z by lia. cbn [Z.eqb orb Z.ltb Z.compare Pos.compare Pos.compare_cont].
  unfold checked. rewrite (proj2 (fits_spec _ _)) by (unfold in_u; lia). unfold paid, WORK_UNITS. cbn [fst snd]. do 2 f_equal; f_equal; lia.
Qed.

Lemma may_call ids' w : client_cs w = c → authorize_endpoint (client_cs w) CLIENT_EP SEND (w, ids') = (Ok (), (w, ids')).
Proof using E. intros ->. destruct (eq_client _ _ _ E) as (e & He & Ht & Hr). unfold authorize_endpoint. by rewrite He, Ht, Hr. Qed.
Lemma may_receive ids' w : server_cs w = s → authorize_endpoint (server_cs w) SERVER_EP RECV (w, ids') = (Ok (), (w, ids')).
Proof using E. intros ->. destruct (eq_server _ _ _ E) as (e & He & Ht & Hr). unfold authorize_endpoint. by rewrite He, Ht, Hr. Qed.

Lemma transfers_frame w ids' : client_cs w = c → server_cs w = armed s →
  transfer CLIENT (0, mkXfer CLIENT_FRAME READ GMove) (w, ids') = (Ok (), (set_spaces (gave c) (got f (armed s)) w, ids')).
Proof using E.
  intros H1 H2. unfold transfer, mbind, M_bind, on_spaces. cbn [fst snd src mode xrights]. rewrite H1, H2.
  change (SERVER_RECV_BASE + 0) with SERVER_RECV_BASE. by rewrite (gave_got c s f (armed s) E eq_refl).
Qed.

(** The server takes the request. *)
Lemma accepts ids' w : client_cs w = c → server_cs w = s →
  on_request CLIENT request (w, ids') = (Ok (with_badge request CLIENT, SERVER_REPLY_SLOT), (set_spaces (gave c) (got f (armed s)) w, ids')).
Proof using E.
  intros H1 H2. unfold on_request, mbind, M_bind, on_server, on_spaces, on_snd. cbn [fst snd]. rewrite H1, H2.
  change (mbadge (with_badge request CLIENT)) with CLIENT. rewrite vacant_mint by apply (eq_room _ _ _ E). cbn [fst snd or_fatal]. unfold mret, M_ret, lift.
  change (transfers (with_badge request CLIENT)) with (Ok (E := Empty_set) [mkXfer CLIENT_FRAME READ GMove]). cbn [imap mfor]. unfold mbind, M_bind.
  change (imap pair [mkXfer CLIENT_FRAME READ GMove]) with [(0, mkXfer CLIENT_FRAME READ GMove)]. cbn [mfor]. unfold mbind, M_bind. by rewrite transfers_frame.
Qed.

(** It does the work and replies. *)
Lemma works w ids' : client_cs w = gave c → server_cs w = got f (armed s) → client_budget w = lent.1 → server_budget w = lent.2 → wakers w !! CLIENT = Some idc →
  work (with_badge request CLIENT) SERVER_REPLY_SLOT (w, ids') =
  (Ok (), (mkIpcWorld (endpoint w) (gave c) (served f s) paid.1 paid.2 (base.delete CLIENT (wakers w)) (delivered w) (<[CLIENT:=answer]> (responses w)) (client_result w), ids' ++ [idc])).
Proof using E pays passive.
  intros H1 H2 H3 H4 H5. unfold work, mbind, M_bind.
  change (lift (S := IpcWorld * list Z) (data (with_badge request CLIENT))) with (lift (S := IpcWorld * list Z) (Ok (E := Empty_set) [REQ_WORD])).
  unfold lift at 1 2. cbn [index lookup list_lookup]. unfold update at 1. cbn [fst snd set_budgets set_spaces client_budget server_budget].
  unfold do_reply, mbind, M_bind, on_server, on_spaces, on_snd. cbn [fst snd client_cs server_cs set_budgets set_spaces]. rewrite H1, H2.
  rewrite reply_taken by apply (eq_room _ _ _ E). cbn [fst snd]. unfold update, wake_party, world, mbind, M_bind, wake, give_back, update.
  pose proof gives_back as G. cbv zeta in G. rewrite <- H3, <- H4 in G. remember (charge (server_budget w) WORK_UNITS) as b eqn:Eb. clear Eb.
  remember (remaining b) as n eqn:En. cbn [fst snd client_cs server_cs client_budget server_budget wakers delivered responses client_result set_wakers set_responses set_spaces set_budgets].
  rewrite H5. unfold mret, M_ret.
  cbn [fst snd client_cs server_cs client_budget server_budget wakers delivered responses client_result set_wakers set_responses set_spaces set_budgets]. rewrite <- En, G. reflexivity.
Qed.

(** The polls that get somewhere, with the task each wakes. *)
Lemma client_starts e m : resume idc ClientStart (mkIpcWorld e c s cb sb m ∅ ∅ None, []) =
  client_await idc (call CLIENT request) (mkIpcWorld e c s lent.1 lent.2 m ∅ ∅ None, []).
Proof using E pays passive.
  cbn [resume]. unfold client_body, mbind, M_bind, world. cbn [fst snd].
  rewrite may_call by done. unfold lend, update. cbn [fst snd client_budget server_budget]. by rewrite lends.
Qed.

Lemma start_calls : resume idc ClientStart (start.2, []) = (Ok (false, calling), (queued.2, [])).
Proof using E pays passive. unfold start. cbn [fst snd]. rewrite client_starts. reflexivity. Qed.
Lemma waiting_calls : resume idc ClientStart (waiting.2, []) = (Ok (false, calling), (handed.2, [ids])).
Proof using E pays passive. unfold waiting. cbn [fst snd]. rewrite client_starts. reflexivity. Qed.

Lemma start_receives : resume ids ServerStart (start.2, []) = (Ok (false, receiving), (waiting.2, [])).
Proof using E. cbn [resume]. unfold server_body, mbind, M_bind, world. cbn [fst snd]. rewrite may_receive by done. reflexivity. Qed.
Lemma queued_replies : resume ids ServerStart (queued.2, []) = (Ok (true, receiving), (replied.2, [idc])).
Proof using E pays passive.
  cbn [resume]. unfold server_body, mbind, M_bind, world. cbn [fst snd].
  rewrite may_receive by done. unfold queued, server_await, recv_poll, mbind, M_bind, world. cbn [fst snd delivered endpoint recv_party tried KIpc.recv].
  rewrite lookup_empty. cbn [negb Endpoint.recv senders receivers]. unfold update. cbn [fst snd]. rewrite accepts by done. unfold mret, M_ret. cbn [fst snd].
  rewrite works by done. reflexivity.
Qed.
Lemma handed_replies : resume ids receiving (handed.2, []) = (Ok (true, receiving), (replied.2, [idc])).
Proof using E pays passive.
  unfold receiving, handed. cbn [resume]. unfold server_await, recv_poll, mbind, M_bind, world. cbn [fst snd delivered endpoint recv_party tried].
  change (({[SERVER := (CLIENT, request)]} : gmap Z (Z * Message)) !! SERVER) with (Some (CLIENT, request)). cbv beta iota. unfold update. cbn [fst snd].
  rewrite accepts by done. unfold mret, M_ret. cbn [fst snd]. rewrite works by done. reflexivity.
Qed.
Lemma replied_ends : resume idc calling (replied.2, []) = (Ok (true, calling), (finished.2, [])).
Proof using Type. reflexivity. Qed.

(** A poll that finds nothing new leaves the state as it was; every other one is
    progress. *)
Lemma client_turns st n : stage st n →
  turn idc ids true st = Some st ∧ (n = 0 ∨ n = 2) ∨ ∃ st' n', turn idc ids true st = Some st' ∧ n' < n ∧ stage st' n'.
Proof using E pays passive.
  intros []; unfold turn; cbn [fst snd start queued waiting handed replied finished].
  - right. exists queued, 2. split; [|split; [lia|constructor]]. pose proof start_calls as R. cbn [fst snd start] in R. by rewrite R.
  - left. split; [reflexivity|]. lia.
  - right. exists handed, 2. split; [|split; [lia|constructor]]. pose proof waiting_calls as R. cbn [fst snd waiting] in R. by rewrite R.
  - left. split; [reflexivity|]. lia.
  - right. exists finished, 0. split; [reflexivity|]. split; [lia|constructor].
  - left. split; [reflexivity|]. lia.
Qed.

Lemma server_turns st n : stage st n →
  turn idc ids false st = Some st ∧ (n = 0 ∨ n = 1 ∨ n = 3) ∨ ∃ st' n', turn idc ids false st = Some st' ∧ n' < n ∧ stage st' n'.
Proof using E pays passive.
  intros []; unfold turn; cbn [fst snd start queued waiting handed replied finished].
  - right. exists waiting, 3. split; [|split; [lia|constructor]]. pose proof start_receives as R. cbn [fst snd start] in R. by rewrite R.
  - right. exists replied, 1. split; [|split; [lia|constructor]]. pose proof queued_replies as R. cbn [fst snd queued] in R. by rewrite R.
  - left. split; [reflexivity|]. lia.
  - right. exists replied, 1. split; [|split; [lia|constructor]]. pose proof handed_replies as R. cbn [fst snd handed] in R. by rewrite R.
  - left. split; [reflexivity|]. lia.
  - left. split; [reflexivity|]. lia.
Qed.

Lemma kipc_turn t st n : stage st n → ∃ st', turn idc ids t st = Some st' ∧ (st' = st ∨ ∃ n', n' < n ∧ stage st' n').
Proof using E pays passive.
  intros P. destruct t; [destruct (client_turns st n P) as [(R & _)|(st' & n' & R & H)]|destruct (server_turns st n P) as [(R & _)|(st' & n' & R & H)]];
    rewrite R; eexists; (split; [done|]); eauto.
Qed.

Lemma somebody st n : stage st n → n ≠ 0 → ∃ t st' n', turn idc ids t st = Some st' ∧ n' < n ∧ stage st' n'.
Proof using E pays passive.
  intros P Hn. destruct (client_turns st n P) as [(_ & Hc)|(st' & n' & H)]; [|by exists true, st', n'].
  destruct (server_turns st n P) as [(_ & Hs)|(st' & n' & H)]; [lia|by exists false, st', n'].
Qed.

Lemma any_order sched st n : stage st n → ∃ st' n', turns idc ids sched st = Some st' ∧ n' ≤ n ∧ stage st' n'.
Proof using E pays passive.
  revert st n. induction sched as [|t sched IH]; intros st n P; [by exists st, n|]. cbn [turns].
  destruct (kipc_turn t st n P) as (st1 & -> & [->|(n1 & Hn & P1)]); [by apply IH|].
  destruct (IH st1 n1 P1) as (st' & n' & R & Hn' & P'). exists st', n'. split; [done|]. split; [lia|done].
Qed.

(** A stretch with a poll of each lowers the rank. *)
Lemma round sched st n : stage st n → n ≠ 0 → true ∈ sched → false ∈ sched → ∃ st' n', turns idc ids sched st = Some st' ∧ n' < n ∧ stage st' n'.
Proof using E pays passive.
  intros P Hn Ht Hf. destruct (somebody st n P Hn) as (t & st1 & n1 & R & Hn1 & P1).
  assert (t ∈ sched) as Hin by (by destruct t). clear Ht Hf. induction sched as [|x sched IH]; [by apply elem_of_nil in Hin|]. cbn [turns].
  destruct (kipc_turn x st n P) as (st2 & Rx & [->|(n2 & Hn2 & P2)]); rewrite Rx.
  - apply elem_of_cons in Hin as [->|Hin]; [|by apply IH]. rewrite R in Rx. injection Rx as ->.
    destruct (any_order sched st n1 P1) as (st' & n' & R' & Hn' & P'). exists st', n'. split; [done|]. split; [lia|done].
  - destruct (any_order sched st2 n2 P2) as (st' & n' & R' & Hn' & P'). exists st', n'. split; [done|]. split; [lia|done].
Qed.

Lemma turns_app l1 l2 st : turns idc ids (l1 ++ l2) st = (match turns idc ids l1 st with Some st' => turns idc ids l2 st' | None => None end).
Proof using Type. revert st. induction l1 as [|t l1 IH]; intros st; [done|]. cbn [app turns]. by destruct (turn idc ids t st). Qed.

Lemma rounds_end rounds st n : stage st n → Forall (λ r, true ∈ r ∧ false ∈ r) rounds → n ≤ length rounds → turns idc ids (concat rounds) st = Some finished.
Proof using E pays passive.
  revert st n. induction rounds as [|r rounds IH]; intros st n P Hr Hn.
  { assert (n = 0) as -> by (cbn in Hn; lia). by inversion P. }
  apply Forall_cons in Hr as [[Ht Hf] Hr]. cbn [concat length] in *. rewrite turns_app.
  assert (∃ st1 n1, turns idc ids r st = Some st1 ∧ n1 ≤ length rounds ∧ stage st1 n1) as (st1 & n1 & -> & Hn1 & P1); [|by apply (IH st1 n1)].
  destruct (decide (n = 0)) as [->|Hn0].
  - destruct (any_order r st 0 P) as (st1 & n1 & R & Hn1 & P1). exists st1, n1. split; [done|]. split; [lia|done].
  - destruct (round r st n P Hn0 Ht Hf) as (st1 & n1 & R & Hn1 & P1). exists st1, n1. split; [done|]. split; [lia|done].
Qed.
End call.

(** C12: A call is served whatever the order in which the two tasks are polled and
    however often, wake-ups that find nothing included, by tasks of any ids, in
    spaces that hold what the two need, on any budgets of which the caller has
    the slice it lends and the server nothing: no poll halts the kernel, and the
    caller has no answer or the right one, the request plus one; four rounds in
    which both are polled complete both tasks.  Then the frame has moved to the
    server's space, read-only and badged with the caller, the reply capability is
    used up and cannot be used again, the caller has paid for exactly the work
    done and the server has nothing left, and nothing is left waiting. *)
Theorem call_served idc ids c s f cb sb : equipped c s f →
  (0 <= consumed cb ∧ consumed cb + CALL_DELEGATE <= capacity cb < 2 ^ 32)%Z →
  (0 <= consumed sb ∧ consumed sb = capacity sb ∧ capacity sb + CALL_DELEGATE < 2 ^ 32)%Z →
  let w := mkIpcWorld new c s cb sb ∅ ∅ ∅ None in
  (∀ sched, ∃ bc bs w', turns idc ids sched (Some ClientStart, Some ServerStart, w) = Some (bc, bs, w') ∧
     (client_result w' = None ∨ client_result w' = Some (with_data LABEL [wrap 64 (REQ_WORD + 1)]))) ∧
  (∀ rounds, Forall (λ r, true ∈ r ∧ false ∈ r) rounds → 4 ≤ length rounds →
     ∃ w', turns idc ids (concat rounds) (Some ClientStart, Some ServerStart, w) = Some (None, None, w') ∧
       client_result w' = Some (with_data LABEL [wrap 64 (REQ_WORD + 1)]) ∧
       resolve (server_cs w') SERVER_RECV_BASE = Ok (with_rights_badge f READ CLIENT) ∧
       resolve (client_cs w') CLIENT_FRAME = Err CSpace.EmptySlot ∧
       fst (consume_reply SERVER_REPLY_SLOT (server_cs w')) = Err CSpace.EmptySlot ∧
       remaining (client_budget w') = (remaining cb - WORK_UNITS)%Z ∧ remaining (server_budget w') = 0%Z ∧
       endpoint w' = new ∧ wakers w' = ∅ ∧ delivered w' = ∅ ∧ responses w' = ∅).
Proof.
  intros E Hc Hs w. split.
  - intros sched. destruct (any_order idc ids c s f cb sb E Hc Hs sched _ _ (st_start idc ids c s f cb sb)) as (st & n & R & _ & P).
    destruct st as [[bc bs] w']. exists bc, bs, w'. split; [exact R|]. inversion P; auto.
  - intros rounds Hr Hn. eexists. split; [exact (rounds_end idc ids c s f cb sb E Hc Hs rounds _ _ (st_start idc ids c s f cb sb) Hr Hn)|].
    cbn [client_result client_cs server_cs client_budget server_budget endpoint wakers delivered responses]. destruct E as [_ _ (Hf & Ht & _) _ [(e5 & H5 & _) (e10 & H10 & _)]].
    apply live_Ok in Hf as (_ & e1 & H1 & _). apply lookup_lt_Some in H1, H5, H10. split; [done|].
    assert (slots (served f s) !! SERVER_REPLY_SLOT = Some Cte_EMPTY) as Hgone by (cbn [served got armed upd_slot slots]; apply list_lookup_insert_eq; rewrite !length_insert; lia).
    split_and!; try done.
    + apply live_Ok. split; [cbn; by rewrite Ht|]. exists (mkCte (with_rights_badge f READ CLIENT) None). split; [|done]. cbn [served got armed upd_slot slots].
      rewrite list_lookup_insert_ne by done. apply list_lookup_insert_eq. rewrite length_insert. lia.
    + unfold resolve, live, slot, index. cbn [gave upd_slot slots]. rewrite length_insert, decide_False by lia. by rewrite list_lookup_insert_eq by lia.
    + unfold consume_reply, mbind, M_bind, reads, live, slot, index. rewrite Hgone. rewrite decide_False by (apply lookup_lt_Some in Hgone; lia). done.
    + unfold remaining, sat_sub, paid, WORK_UNITS, CALL_DELEGATE in *. cbn. lia.
    + unfold remaining, sat_sub, paid, WORK_UNITS, CALL_DELEGATE in *. cbn. lia.
Qed.

Lemma retype_one cs ut t dest u d : slots cs !! ut = Some u → cap_type (cap u) = Untyped → bf_contains (rights (cap u)) RETYPE = true → is_retypeable t = true →
  slots cs !! dest = Some d → cap_type (cap d) = Null → (Z.of_nat (length (slots cs)) < 2 ^ 64)%Z →
  (0 <= watermark (cap u) < size (cap u) ∧ size (cap u) < 2 ^ 32 ∧ 0 <= objref (cap u) ∧ objref (cap u) + watermark (cap u) < 2 ^ 64)%Z →
  retype ut t 1 1 dest cs = (Ok (), upd_slot dest (mkCte (mkRawCap t (default_rights t) (objref (cap u) + watermark (cap u)) 1 0 0 0) (Some ut))
    (mkCSpace (<[ut:=mkCte (set_watermark (cap u) (watermark (cap u) + 1)) (parent u)]> (slots cs)) (next_obj cs) (zlog cs ++ [((objref (cap u) + watermark (cap u)), 1)]%Z))).
Proof.
  intros Hu Ht Hr Hty Hd Hn Hlen (Hw & Hs & Ho & Hb). unfold retype, mbind, M_bind, reads, lift, throw, get.
  assert (live cs ut = Ok (cap u)) as -> by (apply live_Ok; split; [congruence|eauto]). rewrite Ht, Hr, Hty. change (is_type Untyped Untyped) with true. cbn [negb].
  change ((1 =? 0) || (1 =? 0))%Z with false. cbv iota. change (ok_or (checked 32 (1 * 1)) OutOfBudget) with (Ok 1%Z : res CapError Z). cbv iota beta.
  rewrite (arith_in 32 (size _ - _)) by (unfold in_u; lia). rewrite (proj2 (Z.ltb_ge _ _)) by lia.
  pose proof (lookup_lt_Some _ _ _ Hd) as Hlt. unfold checked. rewrite (proj2 (fits_spec _ _)) by (unfold in_u; lia). cbn [ok_or]. cbv beta iota.
  rewrite (proj2 (Z.ltb_ge _ _)) by lia. change (Z.to_nat 1) with 1. cbn [seq mfor]. unfold mbind, M_bind, dest_free, mbind, M_bind, reads, slot, index. rewrite Nat.add_0_r, Hd.
  apply is_null_true in Hn. rewrite Hn. cbn [negb]. unfold mret, M_ret. rewrite (arith_in 64) by (unfold in_u; lia). rewrite (arith_in 32) by (unfold in_u; lia).
  rewrite (set_cap_eq _ _ u) by done. unfold retype_obj, mbind, M_bind, lift, zero. change (arith 32 (wrap 32 (Z.of_nat 0) * 1)) with (Ok 0%Z : res CapError Z). cbv iota beta.
  rewrite Z.add_0_r, (arith_in 64) by (unfold in_u; lia). rewrite Nat.add_0_r, set_slot_eq by (cbn [slots upd_slot]; by rewrite length_insert). reflexivity.
Qed.

(** What [setup] leaves: the frame, the endpoint and the untyped they came from. *)
Definition ep_cap (base : Z) : RawCap := mkRawCap Cap.Endpoint (default_rights Cap.Endpoint) (base + 1) 1 0 0 0.
Definition frame_cap (base : Z) : RawCap := mkRawCap Frame (default_rights Frame) (base + 0) 1 0 0 0.
Definition client_space (base : Z) : CSpace :=
  mkCSpace ([mkCte (mkRawCap Untyped RETYPE base 16 2 0 0) None; mkCte (frame_cap base) (Some 0); mkCte (ep_cap base) (Some 0)] ++ replicate 13 Cte_EMPTY) 1
    [(base + 0, 1); (base + 1, 1)]%Z.
Definition server_space (base : Z) : CSpace :=
  mkCSpace ([Cte_EMPTY; mkCte (with_rights_badge (ep_cap base) RECV 0) None] ++ replicate 14 Cte_EMPTY) 1 [].

Lemma contains a b : Z.land a b = b → bf_contains a b = true.
Proof. apply bf_contains_spec. Qed.

Lemma setup_runs base : (0 <= base ∧ base + 16 <= 2 ^ 64)%Z →
  setup base = Some (mkIpcWorld new (client_space base) (server_space base) (budget_new CLIENT_BUDGET CLIENT_BUDGET) (budget_new 0 CLIENT_BUDGET) ∅ ∅ ∅ None, (base + 0)%Z).
Proof.
  intros Hb. unfold setup, setup_client, mbind, M_bind. change (set_root_untyped base 16 (cspace_new SLOTS)) with
    (Ok () : res CapError (), mkCSpace (mkCte (mkRawCap Untyped RETYPE base 16 0 0 0) None :: replicate 15 Cte_EMPTY) 1 []). cbv beta iota.
  erewrite retype_one; [|reflexivity|reflexivity|by apply contains|reflexivity|reflexivity|reflexivity|reflexivity|cbn; lia].
  erewrite retype_one; [|reflexivity|reflexivity|by apply contains|reflexivity|reflexivity|reflexivity|reflexivity|cbn; lia].
  unfold reads, mret, M_ret. match goal with |- context [resolve ?x CLIENT_FRAME] => change (resolve x CLIENT_FRAME) with (Ok (frame_cap base) : res CapError RawCap); change x with (client_space base) end.
  cbv beta iota. unfold grant, mbind, M_bind, reads, throw, get. change (live (client_space base, cspace_new SLOTS).1 CLIENT_EP) with (Ok (ep_cap base) : res CapError RawCap).
  cbv beta iota. cbn [ep_cap cap_type rights not_grantable is_move negb andb not_mint_grantable default_rights]. unfold subset_of. rewrite !bf_union_spec, !contains by done. reflexivity.
Qed.

Lemma setup_equipped base : equipped (client_space base) (server_space base) (frame_cap base).
Proof.
  split.
  - exists (ep_cap base). split; [done|]. split; [done|]. cbn [ep_cap rights default_rights]. rewrite !bf_union_spec. by apply contains.
  - exists (with_rights_badge (ep_cap base) RECV 0). split; [done|]. split; [done|]. by apply contains.
  - split; [done|]. split; [done|]. cbn [frame_cap rights default_rights]. rewrite !bf_union_spec. split; by apply contains.
  - done.
  - split; by eexists.
Qed.

(** ** On the executor *)

Lemma executor_runs next w0 w1 w2 w3 b1 b2 b3 k : in_u 64 next → let n1 := wrap 64 (next + 1) in
  resume next ClientStart (w0, []) = (Ok (false, b1), (w1, [])) → resume n1 ServerStart (w1, []) = (Ok (true, b2), (w2, [next])) →
  resume next b1 (w2, []) = (Ok (true, b3), (w3, [])) →
  run_until_idle poll (3 + k) (spawn_both next) (Some w0) = Some (executor_new, Some w3, [next; n1; next]).
Proof.
  intros Hn n1 R1 R2 R3. assert (n1 ≠ next) as Hne.
  { unfold n1, wrap. intros H. unfold in_u in Hn. destruct (decide (next = 2 ^ 64 - 1)%Z) as [->|]; [by vm_compute in H|]. rewrite Z.mod_small in H by lia. lia. }
  set (b := budget_new 1000 1000). assert (is_depleted b = false ∧ is_depleted (charge b 1) = false) as [D0 D1] by done.
  assert (spawn_both next = mkExecutor (<[n1:=mkTask n1 (n1, ServerStart) b]> (<[next:=mkTask next (next, ClientStart) b]> ∅)) [next; n1] []) as -> by done.
  change (3 + k) with (S (S (S k))). rewrite run_S. cbn [ready tasks parked]. unfold run_one at 1. cbn [tasks budget future].
  rewrite lookup_insert_ne, lookup_insert_eq by done. cbn [budget future]. rewrite D0. unfold poll at 1. cbn [fst snd]. rewrite R1, wakes_eq. cbn [ready tasks parked app].
  rewrite run_S. cbn [ready tasks parked]. unfold run_one at 1. cbn [tasks budget future].
  rewrite lookup_insert_ne, lookup_insert_eq by done. cbn [budget future]. rewrite D0. unfold poll at 1. cbn [fst snd]. rewrite R2, wakes_eq. cbn [ready tasks parked app].
  rewrite run_S. cbn [ready tasks parked]. unfold run_one at 1. cbn [tasks budget future].
  rewrite lookup_delete_ne, lookup_insert_eq by done. cbn [budget future]. rewrite D1. unfold poll at 1. cbn [fst snd]. rewrite R3, wakes_eq. cbn [ready tasks parked app].
  assert (∀ (t1 t2 t3 : Task (Z * body)), base.delete next (base.delete n1 (<[next:=t1]> (<[n1:=t2]> (<[next:=t3]> (∅ : gmap Z (Task (Z * body))))))) = ∅) as ->.
  { intros. apply map_eq. intros x. rewrite lookup_empty. destruct (decide (x = next)) as [->|]; [by rewrite lookup_delete_eq|]. rewrite lookup_delete_ne by done.
    destruct (decide (x = n1)) as [->|]; [by rewrite lookup_delete_eq|]. by rewrite lookup_delete_ne, !lookup_insert_ne by done. }
  by destruct k.
Qed.

(** [run] passes its own checks: on every block of frames the allocator can
    answer and whatever ids the tasks get, three iterations of the executor
    complete the call, no wake-up is lost, and every assertion holds: the reply
    is the request plus one, the frame has moved, read-only, the second reply
    fails, and the caller has paid. *)
Theorem run_passes base next fuel : (0 <= base ∧ base + 16 <= 2 ^ 64)%Z → in_u 64 next → 3 ≤ fuel → run base next fuel = Some true.
Proof.
  intros Hb Hn Hf. unfold run. rewrite setup_runs by done. replace fuel with (3 + (fuel - 3)) by lia.
  set (cb := budget_new CLIENT_BUDGET CLIENT_BUDGET). set (sb := budget_new 0 CLIENT_BUDGET). set (c := client_space base). set (s := server_space base).
  assert (0 <= consumed cb ∧ consumed cb + CALL_DELEGATE <= capacity cb < 2 ^ 32)%Z as Hc by (vm_compute; done).
  assert (0 <= consumed sb ∧ consumed sb = capacity sb ∧ capacity sb + CALL_DELEGATE < 2 ^ 32)%Z as Hs by (vm_compute; done).
  pose proof (setup_equipped base) as E. fold c s in E.
  pose proof (executor_runs next _ _ _ _ _ _ _ (fuel - 3) Hn (start_calls next c s (frame_cap base) cb sb E Hc Hs)
    (queued_replies next _ c s (frame_cap base) cb sb E Hc Hs) (replied_ends next c s (frame_cap base) cb sb)) as R.
  cbn [start fst snd] in R. rewrite R. cbn [finished fst snd]. f_equal. unfold checks. cbn [client_result client_cs server_cs client_budget].
  change (resolve (served (frame_cap base) s) SERVER_RECV_BASE) with (Ok (with_rights_badge (frame_cap base) READ CLIENT) : res CapError RawCap).
  cbn [with_rights_badge frame_cap objref cap_type rights]. rewrite Z.eqb_refl. reflexivity.
Qed.
End theorems.

(** ** Witnesses *)

Lemma call_served_witness : ∃ w, turns 8 9 (concat (replicate 4 [false; true]))
    (Some ClientStart, Some ServerStart, mkIpcWorld new (client_space 320) (server_space 320) (mkBudget 200 20 7) (mkBudget 5 5 7) ∅ ∅ ∅ None) = Some (None, None, w) ∧
  remaining (client_budget w) = 150%Z.
Proof.
  destruct (call_served 8 9 (client_space 320) (server_space 320) (frame_cap 320) (mkBudget 200 20 7) (mkBudget 5 5 7)) as [_ H];
    [apply setup_equipped|vm_compute; done|vm_compute; done|].
  destruct (H (replicate 4 [false; true])) as (w & R & _ & _ & _ & _ & Hc & _); [by apply Forall_replicate; split; [right; left|left]|done|].
  exists w. split; [exact R|exact Hc].
Defined.

Lemma run_passes_witness : run 320 1 20 = Some true.
Proof. apply (run_passes 320 1 20); [lia|unfold in_u; lia|lia]. Defined.
