(* ===== verification/PagingA64.v ===== *)
(** * Page tables of AArch64 ([kernel/src/arch/aarch64/paging.rs], [mte.rs])

    The same seam as Paging on the other architecture: two roots, TTBR0 for the low
    half and TTBR1 for the high half, descriptors whose two low bits tell a table
    from a block, and permissions on the leaf alone.  Physical memory is a map from
    the frames that hold tables to their entries, as in Paging; barriers have no
    effect here, [tlbi] of a page and the tag stores of [tag_frame] are logged.
    [a & !b] is [Z.ldiff a b]. *)

From S2P Require Import Prelude Arch Buddy MemInit Frames.
From S2P Require Paging.

Definition PAGE : Z := 4096.
Definition GIB : Z := Z.shiftl 1 30.
Definition ADDR_MASK : Z := 0x0000fffffffff000.
Definition RAM_BASE : Z := 0x40000000.
Definition VALID : Z := Z.shiftl 1 0.
Definition TABLE : Z := 3.
Definition BLOCK : Z := 1.
Definition AF : Z := Z.shiftl 1 10.
Definition SH_INNER : Z := Z.shiftl 3 8.
Definition ATTR_NORMAL : Z := Z.shiftl 0 2.
Definition ATTR_DEVICE : Z := Z.shiftl 1 2.
Definition ATTR_TAGGED : Z := Z.shiftl 2 2.
Definition AP_RO : Z := Z.shiftl 1 7.
Definition AP_EL0 : Z := Z.shiftl 1 6.
Definition PXN : Z := Z.shiftl 1 53.
Definition UXN : Z := Z.shiftl 1 54.

Abbreviation has := Paging.has.
(** [e & 0b11 == t] *)
Definition kind (e t : Z) : bool := (Z.land e 3 =? t)%Z.

Definition lidx (vaddr level : Z) : nat := Z.to_nat (Z.land (Z.shiftr vaddr (12 + 9 * (3 - level))) 511).

Definition page_desc (pa : Z) (prot : Prot) : Z :=
  let base := Z.lor (Z.lor (Z.lor (Z.lor (Z.lor pa AF) SH_INNER) ATTR_NORMAL) TABLE) UXN in
  match prot with
  | Rx => Z.lor base AP_RO
  | Ro => Z.lor (Z.lor base AP_RO) PXN
  | Rw => Z.lor base PXN
  end.

Definition user_page_desc (pa : Z) (prot : Prot) : Z :=
  let base := Z.lor (Z.lor (Z.lor (Z.lor (Z.lor (Z.lor pa AF) SH_INNER) ATTR_NORMAL) TABLE) AP_EL0) PXN in
  match prot with
  | Rx => Z.lor base AP_RO
  | Ro => Z.lor (Z.lor base AP_RO) UXN
  | Rw => Z.lor base UXN
  end.

Definition section_prot (km : KernelMap) (v : Z) : Prot :=
  if ((text km).1 <=? v)%Z && (v <? (text km).2)%Z then Rx
  else if ((data_sect km).1 <=? v)%Z && (v <? (data_sect km).2)%Z then Rw
  else Ro.

Record Mach (F : Type) := mkMach {
  mem : gmap Z (list Z);
  fr : F;
  ttbr0 : Z;
  ttbr1 : Z;
  KERNEL_TTBR0 : Z;
  KERNEL_TTBR1 : Z;
  tlbi : list Z;      (* the operands of [tlbi vaae1is] *)
  stg : list Z        (* the pointers of [stg] *)
}.
Arguments mkMach {F} _ _ _ _ _ _ _ _.
Arguments mem {F} _.
Arguments fr {F} _.
Arguments ttbr0 {F} _.
Arguments ttbr1 {F} _.
Arguments KERNEL_TTBR0 {F} _.
Arguments KERNEL_TTBR1 {F} _.
Arguments tlbi {F} _.
Arguments stg {F} _.

Definition with_tag (addr tag : Z) : Z := Z.lor (Z.ldiff addr (Z.shiftl 15 56)) (Z.shiftl (Z.land tag 15) 56).

Section aarch64.
Context {F : Type} {FS : FrameSource F}.
Variable HHDM_OFFSET : Z.
Abbreviation AM := (M (Mach F) Empty_set).
Abbreviation phys_to_virt := (Paging.phys_to_virt HHDM_OFFSET).

Definition on_frames {A} (m : M F Empty_set A) : AM A := λ s,
  let '(r, f) := m (fr s) in (r, mkMach (mem s) f (ttbr0 s) (ttbr1 s) (KERNEL_TTBR0 s) (KERNEL_TTBR1 s) (tlbi s) (stg s)).
Definition set_mem (m : gmap Z (list Z)) : AM unit := modify (λ s,
  mkMach m (fr s) (ttbr0 s) (ttbr1 s) (KERNEL_TTBR0 s) (KERNEL_TTBR1 s) (tlbi s) (stg s)).

(** ** Entries *)

Definition write_entry (table : Z) (i : nat) (value : Z) : AM unit :=
  lift (phys_to_virt table);;
  s ← get;
  match mem s !! table with
  | None => panic
  | Some T => if decide (i < length T) then set_mem (<[table:=<[i:=value]> T]> (mem s)) else panic
  end.

Definition read_entry (table : Z) (i : nat) : AM Z :=
  lift (phys_to_virt table);;
  s ← get;
  match mem s !! table with
  | None => panic
  | Some T => lift (index T i)
  end.

(** [memory::alloc_zeroed_frame] *)
Definition alloc_zeroed_frame : AM (option Z) :=
  o ← on_frames fs_alloc;
  match o with
  | None => mret None
  | Some pa =>
      lift (phys_to_virt pa);;
      s ← get;
      set_mem (<[pa:=replicate 512 0%Z]> (mem s));;
      mret (Some pa)
  end.

Definition alloc_table : AM Z :=
  o ← alloc_zeroed_frame;
  match o with
  | None => panic
  | Some pa => mret pa
  end.

Definition free_table (pa : Z) : AM unit := on_frames (fs_free pa).

Definition clone_table (orig : Z) : AM Z :=
  new ← alloc_table;
  mfor (seq 0 512) (λ i, e ← read_entry orig i; write_entry new i e);;
  mret new.

(** ** The kernel's own tables *)

Definition low_desc (pa : Z) : Z :=
  if (pa <? RAM_BASE)%Z then Z.lor (Z.lor (Z.lor (Z.lor (Z.lor pa AF) ATTR_DEVICE) BLOCK) PXN) UXN
  else Z.lor (Z.lor (Z.lor (Z.lor (Z.lor (Z.lor pa AF) SH_INNER) ATTR_NORMAL) BLOCK) PXN) UXN.
Definition map_low_gib (l1 : Z) (g : nat) : AM unit :=
  l2 ← alloc_table;
  write_entry l1 g (Z.lor l2 TABLE);;
  mfor (seq 0 512) (λ j,
    let pa := Z.lor (wrap 64 (Z.shiftl (Z.of_nat g) 30)) (wrap 64 (Z.shiftl (Z.of_nat j) 21)) in
    write_entry l2 j (low_desc pa)).

Definition map_low (l0 : Z) (l0_index : nat) (bytes : Z) : AM unit :=
  l1 ← alloc_table;
  write_entry l0 l0_index (Z.lor l1 TABLE);;
  mfor (seq 0 (Z.to_nat (div_ceil bytes GIB))) (map_low_gib l1).

(** The [while] loop of [map_kernel]. *)
Fixpoint map_kernel_loop (fuel : nat) (km : KernelMap) (l3 v : Z) : AM unit :=
  if (v <? kernel_vend km)%Z then
    match fuel with
    | O => panic
    | S fuel' =>
        off ← lift (arith 64 (v - kernel_vbase km));
        pa ← lift (arith 64 (kernel_phys km + off));
        write_entry l3 (lidx v 3) (page_desc pa (section_prot km v));;
        v' ← lift (arith 64 (v + PAGE));
        map_kernel_loop fuel' km l3 v'
    end
  else mret ().

Definition map_kernel (l0 : Z) (km : KernelMap) : AM unit :=
  l1 ← alloc_table;
  write_entry l0 (lidx (kernel_vbase km) 0) (Z.lor l1 TABLE);;
  l2 ← alloc_table;
  write_entry l1 (lidx (kernel_vbase km) 1) (Z.lor l2 TABLE);;
  l3 ← alloc_table;
  write_entry l2 (lidx (kernel_vbase km) 2) (Z.lor l3 TABLE);;
  map_kernel_loop (Z.to_nat (div_ceil (kernel_vend km - kernel_vbase km) PAGE)) km l3 (kernel_vbase km).

Definition build_address_space (km : KernelMap) : AM AddressSpace :=
  t0 ← alloc_table;
  map_low t0 0 (identity_bytes km);;
  t1 ← alloc_table;
  map_low t1 (lidx (hhdm_offset km) 0) (identity_bytes km);;
  map_kernel t1 km;;
  modify (λ s, mkMach (mem s) (fr s) (ttbr0 s) (ttbr1 s) t0 t1 (tlbi s) (stg s));;
  mret (mkSpace t1 t0).

Definition kernel_space (s : Mach F) : AddressSpace := mkSpace (KERNEL_TTBR1 s) (KERNEL_TTBR0 s).

Definition activate_address_space (sp : AddressSpace) : AM unit := modify (λ s,
  mkMach (mem s) (fr s) (secondary sp) (primary sp) (KERNEL_TTBR0 s) (KERNEL_TTBR1 s) (tlbi s) (stg s)).

(** ** A process's own tables *)

Definition privatise (new_l2 : Z) (i : nat) : AM unit :=
  e ← read_entry new_l2 i;
  if has e VALID && kind e TABLE then
    priv_l3 ← clone_table (Z.land e ADDR_MASK);
    write_entry new_l2 i (Z.lor priv_l3 (Z.ldiff e ADDR_MASK))
  else mret ().

Definition new_process_space : AM AddressSpace :=
  s ← get;
  let kbase := KERNEL_TTBR0 s in
  new_l0 ← clone_table kbase;
  e0 ← read_entry kbase 0;
  new_l1 ← clone_table (Z.land e0 ADDR_MASK);
  write_entry new_l0 0 (Z.lor new_l1 (Z.ldiff e0 ADDR_MASK));;
  e1 ← read_entry (Z.land e0 ADDR_MASK) 1;
  new_l2 ← clone_table (Z.land e1 ADDR_MASK);
  write_entry new_l1 1 (Z.lor new_l2 (Z.ldiff e1 ADDR_MASK));;
  mfor (seq 0 512) (privatise new_l2);;
  s ← get;
  mret (mkSpace (KERNEL_TTBR1 s) new_l0).

Fixpoint reap_leaves (l2 : Z) (vas : list Z) (freed : Z) : AM Z :=
  match vas with
  | [] => mret freed
  | va :: vas' =>
      e2 ← read_entry l2 (lidx va 2);
      if has e2 VALID && kind e2 TABLE then
        leaf ← read_entry (Z.land e2 ADDR_MASK) (lidx va 3);
        if has leaf VALID then
          free_table (Z.land leaf ADDR_MASK);;
          n ← lift (arith 32 (freed + 1));
          reap_leaves l2 vas' n
        else reap_leaves l2 vas' freed
      else reap_leaves l2 vas' freed
  end.

Fixpoint reap_l3s (l2 : Z) (js : list nat) (freed : Z) : AM Z :=
  match js with
  | [] => mret freed
  | i :: js' =>
      e ← read_entry l2 i;
      if has e VALID && kind e TABLE then
        free_table (Z.land e ADDR_MASK);;
        n ← lift (arith 32 (freed + 1));
        reap_l3s l2 js' n
      else reap_l3s l2 js' freed
  end.

Definition reap_process_space (sp : AddressSpace) (owned_leaf_vas : list Z) : AM Z :=
  let l0 := secondary sp in
  e0 ← read_entry l0 0;
  let l1 := Z.land e0 ADDR_MASK in
  e1 ← read_entry l1 1;
  let l2 := Z.land e1 ADDR_MASK in
  freed ← reap_leaves l2 owned_leaf_vas 0;
  freed ← reap_l3s l2 (seq 0 512) freed;
  free_table l2;;
  free_table l1;;
  free_table l0;;
  lift (arith 32 (freed + 3)).

(** ** Walking the active tables *)

Definition high (vaddr : Z) : bool := has vaddr (Z.shiftl 1 63).
Definition current_root (vaddr : Z) : AM Z :=
  s ← get;
  mret (Z.land (if high vaddr then ttbr1 s else ttbr0 s) ADDR_MASK).

(** The loop over the levels from [level] on, [n] of them left. *)
Definition MASK (level : Z) : Z :=
  if (level =? 1)%Z then 0x3fffffff else if (level =? 2)%Z then 0x1fffff else if (level =? 3)%Z then 0xfff else 0.
Fixpoint walk_levels (n : nat) (level table vaddr : Z) : AM (option (Z * Z)) :=
  match n with
  | O => mret None
  | S n' =>
      e ← read_entry table (lidx vaddr level);
      if negb (has e VALID) then mret None else
      if (level =? 3)%Z then mret (Some (e, 0xfff)%Z) else
      if kind e BLOCK then mret (Some (e, MASK level)) else
      walk_levels n' (level + 1) (Z.land e ADDR_MASK) vaddr
  end.
Definition walk (vaddr : Z) : AM (option (Z * Z)) :=
  table ← current_root vaddr;
  walk_levels 4 0 table vaddr.

Definition translate (vaddr : Z) : AM (option Z) :=
  o ← walk vaddr;
  match o with
  | None => mret None
  | Some (leaf, mask) =>
      pa ← lift (arith 64 (Z.ldiff (Z.land leaf ADDR_MASK) mask + Z.land vaddr mask));
      mret (Some pa)
  end.

Definition page_prot (vaddr : Z) : AM (option (bool * bool)) :=
  o ← walk vaddr;
  mret ((λ lm : Z * Z, (negb (has lm.1 AP_RO), negb (has lm.1 PXN))) <$> o).

(** ** Editing the active tables *)

Definition flush_page (v : Z) : AM unit := modify (λ s,
  mkMach (mem s) (fr s) (ttbr0 s) (ttbr1 s) (KERNEL_TTBR0 s) (KERNEL_TTBR1 s) (tlbi s ++ [Z.shiftr v 12]) (stg s)).

Definition split_block (e2 : Z) : AM Z :=
  let base := Z.ldiff (Z.land e2 ADDR_MASK) 0x1fffff in
  let attrs := Z.ldiff (Z.ldiff e2 ADDR_MASK) 3 in
  new_l3 ← alloc_table;
  mfor (seq 0 512) (λ j,
    off ← lift (arith 64 (Z.of_nat j * PAGE));
    pa ← lift (arith 64 (base + off));
    write_entry new_l3 j (Z.lor (Z.lor pa attrs) TABLE));;
  mret new_l3.

Definition assert (b : bool) : AM unit := if b then mret () else panic.

Definition ensure_l3_table (v : Z) : AM Z :=
  root ← current_root v;
  e0 ← read_entry root (lidx v 0);
  assert (has e0 VALID);;
  e1 ← read_entry (Z.land e0 ADDR_MASK) (lidx v 1);
  assert (has e1 VALID && kind e1 TABLE);;
  let l2 := Z.land e1 ADDR_MASK in
  e2 ← read_entry l2 (lidx v 2);
  assert (has e2 VALID);;
  if kind e2 BLOCK then
    new_l3 ← split_block e2;
    write_entry l2 (lidx v 2) (Z.lor new_l3 TABLE);;
    mret new_l3
  else mret (Z.land e2 ADDR_MASK).

Definition install_guard_page (vaddr : Z) : AM unit :=
  let v := Z.ldiff vaddr 0xfff in
  l3 ← ensure_l3_table v;
  write_entry l3 (lidx v 3) 0;;
  flush_page v.

Definition map_tagged (vaddr : Z) : AM unit :=
  let v := Z.ldiff vaddr 0xfff in
  l3 ← ensure_l3_table v;
  e ← read_entry l3 (lidx v 3);
  let pa := Z.land e ADDR_MASK in
  write_entry l3 (lidx v 3) (Z.lor (Z.lor (Z.lor (Z.lor (Z.lor (Z.lor pa AF) SH_INNER) ATTR_TAGGED) TABLE) UXN) PXN);;
  flush_page v.

Definition map_page (vaddr phys : Z) (prot : Prot) : AM unit :=
  let v := Z.ldiff vaddr 0xfff in
  l3 ← ensure_l3_table v;
  write_entry l3 (lidx v 3) (page_desc (Z.land phys ADDR_MASK) prot);;
  flush_page v.

(** [mte::tag_frame] *)
Definition tag_frame (hhdm_base tag : Z) : AM unit :=
  let base := with_tag (Z.ldiff hhdm_base 0xfff) tag in
  mfor (seq 0 256) (λ g,
    off ← lift (arith 64 (Z.of_nat g * 16));
    p ← lift (arith 64 (base + off));
    modify (λ s, mkMach (mem s) (fr s) (ttbr0 s) (ttbr1 s) (KERNEL_TTBR0 s) (KERNEL_TTBR1 s) (tlbi s) (stg s ++ [p]))).

(** The descriptor [map_user_page] writes. *)
Definition user_desc (pa : Z) (prot : Prot) (domain : Z) : Z :=
  if (domain =? 0)%Z then user_page_desc pa prot
  else Z.lor (Z.ldiff (user_page_desc pa prot) (Z.shiftl 7 2)) ATTR_TAGGED.
Definition map_user_page (vaddr phys : Z) (prot : Prot) (domain : Z) : AM unit :=
  let v := Z.ldiff vaddr 0xfff in
  let pa := Z.land phys ADDR_MASK in
  l3 ← ensure_l3_table v;
  write_entry l3 (lidx v 3) (user_desc pa prot domain);;
  flush_page v;;
  if (domain =? 0)%Z then mret () else
    hhdm ← lift (phys_to_virt pa);
    map_tagged hhdm;;
    tag_frame hhdm (wrap 8 (Z.land domain 15)).
End aarch64.

(** ** Cache maintenance

    The addresses [sync_instruction_cache] cleans and those it invalidates, in
    order, for the line sizes of [CTR_EL0]. *)
Fixpoint lines {E} (fuel : nat) (a fin step : Z) : res E (list Z) :=
  if (a <? fin)%Z then
    match fuel with
    | O => Panic
    | S fuel' =>
        a' ← arith 64 (a + step);
        l ← lines fuel' a' fin step;
        Ok (a :: l)
    end
  else Ok [].
Definition sync_instruction_cache {E} (ctr vaddr : Z) (len : nat) : res E (list Z * list Z) :=
  if (len =? 0) then Ok ([], []) else
  let dline := Z.shiftl 4 (Z.land (Z.shiftr ctr 16) 15) in
  let iline := Z.shiftl 4 (Z.land ctr 15) in
  fin ← arith 64 (vaddr + Z.of_nat len);
  d ← lines (S len) (Z.ldiff vaddr (dline - 1)) fin dline;
  i ← lines (S len) (Z.ldiff vaddr (iline - 1)) fin iline;
  Ok (d, i).
