(* ===== verification/PagingA64Sim.v ===== *)
(** * AArch64 tables read as x86-64 tables

    [enc b] turns a descriptor into the x86-64 entry that says the same: where it
    leads, whether it is a block, and its permissions; of the attribute bits it
    keeps one, [b], as the no-execute bit, and since [b] is arbitrary nothing is
    lost.  Under [enc] the operations of the two architectures run in lockstep, so
    what PagingInv, PagingOps and PagingClone show of x86-64 tables holds here. *)

From stdpp Require Import sets.
From S2P Require Import Prelude Arch Buddy MemInit Frames Paging PagingInv PagingOps PagingClone PagingWorld PagingBuild.
From S2P Require PagingA64.
Module A := PagingA64.

(** ** Descriptors *)

(** An attribute: a bit outside the address and the two low bits. *)
Definition attribute (b : Z) : Prop := ∃ n, (0 <= n)%Z ∧ b = Z.shiftl 1 n ∧ Z.testbit (Z.lor A.ADDR_MASK 3) n = false.

Definition flags (b e : Z) : Z :=
  Z.lor (Z.lor (Z.lor (Z.lor PRESENT (if A.kind e A.BLOCK then HUGE else 0)) (if has e A.AP_RO then 0 else WRITABLE))
    (if has e A.AP_EL0 then USER else 0)) (if has e b then NX else 0).
Definition enc (b e : Z) : Z := Z.lor (Z.land e A.ADDR_MASK) (if has e A.VALID then flags b e else 0).

Lemma has_flags_present b e : has (flags b e) PRESENT = true.
Proof. unfold flags. rewrite !has_lor. done. Qed.
Lemma has_flags_huge b e : has (flags b e) HUGE = A.kind e A.BLOCK.
Proof. unfold flags. rewrite !has_lor. by destruct (A.kind e A.BLOCK), (has e A.AP_RO), (has e A.AP_EL0), (has e b). Qed.
Lemma has_flags_writable b e : has (flags b e) WRITABLE = negb (has e A.AP_RO).
Proof. unfold flags. rewrite !has_lor. by destruct (A.kind e A.BLOCK), (has e A.AP_RO), (has e A.AP_EL0), (has e b). Qed.
Lemma has_flags_user b e : has (flags b e) USER = has e A.AP_EL0.
Proof. unfold flags. rewrite !has_lor. by destruct (A.kind e A.BLOCK), (has e A.AP_RO), (has e A.AP_EL0), (has e b). Qed.
Lemma has_flags_nx b e : has (flags b e) NX = has e b.
Proof. unfold flags. rewrite !has_lor. by destruct (A.kind e A.BLOCK), (has e A.AP_RO), (has e A.AP_EL0), (has e b). Qed.
Lemma flags_addr b e : Z.land (flags b e) ADDR_MASK = 0%Z.
Proof. unfold flags. by destruct (A.kind e A.BLOCK), (has e A.AP_RO), (has e A.AP_EL0), (has e b). Qed.

Lemma mask_mask e : Z.land (Z.land e A.ADDR_MASK) ADDR_MASK = Z.land e A.ADDR_MASK.
Proof. rewrite <- Z.land_assoc. by change (Z.land A.ADDR_MASK ADDR_MASK) with A.ADDR_MASK. Qed.

Lemma enc_addr b e : Z.land (enc b e) ADDR_MASK = Z.land e A.ADDR_MASK.
Proof. unfold enc. apply addr_lor; [apply mask_mask|]. destruct (has e A.VALID); [apply flags_addr|done]. Qed.

Lemma enc_has b e x : Z.land ADDR_MASK x = 0%Z → has (enc b e) x = has e A.VALID && has (flags b e) x.
Proof.
  intros Hx. unfold enc. rewrite has_lor, (has_addr _ x (mask_mask e) Hx). destruct (has e A.VALID); [done|]. simpl. unfold has. by rewrite Z.land_0_l.
Qed.
Lemma enc_present b e : has (enc b e) PRESENT = has e A.VALID.
Proof. rewrite enc_has, has_flags_present by done. apply andb_true_r. Qed.
Lemma enc_huge b e : has (enc b e) HUGE = has e A.VALID && A.kind e A.BLOCK.
Proof. by rewrite enc_has, has_flags_huge. Qed.
Lemma enc_zero b : enc b 0 = 0%Z.
Proof. done. Qed.

(** The two low bits of a valid descriptor. *)
Lemma valid_kind e : has e A.VALID = true → A.kind e A.TABLE = negb (A.kind e A.BLOCK).
Proof.
  unfold has, A.kind, A.VALID. change (Z.shiftl 1 0) with (Z.ones 1). change 3%Z with (Z.ones 2). rewrite !Z.land_ones by lia.
  change (2 ^ 1)%Z with 2%Z. change (2 ^ 2)%Z with 4%Z. change A.TABLE with 3%Z. change A.BLOCK with 1%Z. intros H%negb_true_iff%Z.eqb_neq.
  pose proof (Z.mod_pos_bound e 4 ltac:(lia)). pose proof (Z.div_mod e 4 ltac:(lia)). pose proof (Z.mod_pos_bound e 2 ltac:(lia)). pose proof (Z.div_mod e 2 ltac:(lia)).
  destruct (Z.eqb_spec (e mod 4) 3), (Z.eqb_spec (e mod 4) 1); try done; lia.
Qed.

Lemma enc_link b e : has (enc b e) PRESENT && negb (has (enc b e) HUGE) = has e A.VALID && A.kind e A.TABLE.
Proof. rewrite enc_present, enc_huge. destruct (has e A.VALID) eqn:V; [|done]. simpl. by rewrite (valid_kind e V). Qed.

(** The page of an address is in its half. *)
Lemma high_align v : A.high (Z.ldiff v 0xfff) = A.high v.
Proof.
  unfold A.high, has. f_equal. f_equal. apply Z.bits_inj'. intros i Hi. rewrite !Z.land_spec, Z.ldiff_spec, Z.shiftl_1_l, Z.pow2_bits_eqb by lia.
  destruct (Z.eqb_spec 63 i) as [<-|]; [|by rewrite !andb_false_r]. by rewrite !andb_true_r.
Qed.

(** ** Making descriptors *)

Definition addressed (t : Z) : Prop := Z.land t A.ADDR_MASK = t.

Lemma low_addressed x : (0 <= x < 2 ^ 48)%Z → (x mod 4096 = 0)%Z → addressed x.
Proof.
  intros H1 H2. unfold addressed. change A.ADDR_MASK with (Z.shiftl (Z.ones 36) 12).
  assert (x = Z.shiftl (x / 4096) 12) as E by (rewrite Z.shiftl_mul_pow2 by lia; pose proof (Z.div_mod x 4096 ltac:(lia)); lia).
  assert (0 <= x / 4096 < 2 ^ 36)%Z by (split; [apply Z.div_pos; lia|apply Z.div_lt_upper_bound; lia]).
  rewrite E at 1. rewrite <- Z.shiftl_land, Z.land_ones, Z.mod_small, <- E by lia. done.
Qed.

Lemma frame_addressed t : frame_ok t → addressed t.
Proof. intros [H1 H2]. apply low_addressed; [lia|done]. Qed.

Lemma outside_has t x : addressed t → Z.land A.ADDR_MASK x = 0%Z → has t x = false.
Proof. unfold addressed. intros E H. unfold has. by rewrite <- E, <- Z.land_assoc, H, Z.land_0_r. Qed.

Lemma with_flags_has t f x : addressed t → Z.land A.ADDR_MASK x = 0%Z → has (Z.lor t f) x = has f x.
Proof. intros Ht Hx. by rewrite has_lor, outside_has. Qed.
Lemma with_flags_kind t f k : addressed t → A.kind (Z.lor t f) k = A.kind f k.
Proof.
  unfold addressed. intros Ht. unfold A.kind. rewrite Z.land_lor_distr_l. rewrite <- Ht at 1. rewrite <- Z.land_assoc.
  change (Z.land A.ADDR_MASK 3) with 0%Z. by rewrite Z.land_0_r.
Qed.

Lemma attribute_out b : attribute b → Z.land A.ADDR_MASK b = 0%Z ∧ Z.land 3 b = 0%Z.
Proof.
  intros (n & Hn & -> & Hb). rewrite Z.lor_spec in Hb. apply orb_false_iff in Hb as [H1 H2].
  split; apply Z.bits_inj'; intros i Hi; rewrite Z.land_spec, Z.bits_0, Z.shiftl_1_l, Z.pow2_bits_eqb by done;
    (destruct (Z.eqb_spec n i) as [->|Hne]; [by rewrite ?H1, ?H2|apply andb_false_r]).
Qed.

Lemma flags_with b t f : attribute b → addressed t → flags b (Z.lor t f) = flags b f.
Proof.
  intros [Hb _]%attribute_out Ht. unfold flags. by rewrite with_flags_kind, !with_flags_has.
Qed.

Lemma enc_with b t f : attribute b → addressed t → Z.land f A.ADDR_MASK = 0%Z → enc b (Z.lor t f) = Z.lor t (enc b f).
Proof.
  intros Hb Ht Hf. unfold enc. rewrite flags_with, with_flags_has by done. rewrite Z.land_lor_distr_l, Hf, Z.lor_0_r. unfold addressed in Ht. rewrite Ht.
  by rewrite Z.lor_0_l.
Qed.

(** A link to a table. *)
Lemma enc_table b t : attribute b → frame_ok t → enc b (Z.lor t A.TABLE) = Z.lor (Z.lor t PRESENT) WRITABLE.
Proof.
  intros Hb Ht. rewrite enc_with by (done || by apply frame_addressed). destruct (attribute_out b Hb) as [_ H3].
  assert (has A.TABLE b = false) as E by (unfold has; change A.TABLE with 3%Z; by rewrite H3).
  rewrite <- (Z.lor_assoc t). f_equal. unfold enc, flags. rewrite E. reflexivity.
Qed.

(** Bits of a descriptor whose address is taken out. *)
Lemma strip_has e x : Z.land A.ADDR_MASK x = 0%Z → has (Z.ldiff e A.ADDR_MASK) x = has e x.
Proof.
  intros H. unfold has. f_equal. f_equal. apply Z.bits_inj'. intros i Hi. rewrite !Z.land_spec, Z.ldiff_spec.
  pose proof (f_equal (λ z, Z.testbit z i) H) as E. cbv beta in E. rewrite Z.land_spec, Z.bits_0 in E.
  destruct (Z.testbit e i), (Z.testbit A.ADDR_MASK i), (Z.testbit x i); done.
Qed.
Lemma strip_kind e k : A.kind (Z.ldiff e A.ADDR_MASK) k = A.kind e k.
Proof.
  unfold A.kind. f_equal. apply Z.bits_inj'. intros i Hi. rewrite !Z.land_spec, Z.ldiff_spec.
  destruct (Z.testbit e i) eqn:E1, (Z.testbit A.ADDR_MASK i) eqn:E2, (Z.testbit 3 i) eqn:E3; try done.
  exfalso. pose proof (f_equal (λ z, Z.testbit z i) (eq_refl : Z.land A.ADDR_MASK 3 = 0%Z)) as E. cbv beta in E.
  by rewrite Z.land_spec, E2, E3, Z.bits_0 in E.
Qed.
Lemma strip_flags b e : attribute b → flags b (Z.ldiff e A.ADDR_MASK) = flags b e.
Proof. intros [Hb _]%attribute_out. unfold flags. by rewrite strip_kind, !strip_has. Qed.
Lemma strip_addr e : Z.land (Z.ldiff e A.ADDR_MASK) A.ADDR_MASK = 0%Z.
Proof. rewrite Z.ldiff_land, <- Z.land_assoc. change (Z.land (Z.lnot A.ADDR_MASK) A.ADDR_MASK) with 0%Z. apply Z.land_0_r. Qed.

Lemma enc_flags b e : Z.ldiff (enc b e) ADDR_MASK = if has e A.VALID then flags b e else 0%Z.
Proof.
  unfold enc. assert (∀ f, Z.land f ADDR_MASK = 0%Z → Z.ldiff (Z.lor (Z.land e A.ADDR_MASK) f) ADDR_MASK = f) as H.
  { intros f Hf. apply Z.bits_inj'. intros i Hi. rewrite Z.ldiff_spec, Z.lor_spec.
    pose proof (f_equal (λ z, Z.testbit z i) Hf) as E1. pose proof (f_equal (λ z, Z.testbit z i) (mask_mask e)) as E2. cbv beta in E1, E2.
    rewrite Z.land_spec, Z.bits_0 in E1. rewrite Z.land_spec in E2.
    destruct (Z.testbit (Z.land e A.ADDR_MASK) i), (Z.testbit ADDR_MASK i), (Z.testbit f i); done. }
  destruct (has e A.VALID); apply H; [apply flags_addr|done].
Qed.

(** A copy of a descriptor that leads to another table. *)
Lemma enc_copy b t e : attribute b → frame_ok t → enc b (Z.lor t (Z.ldiff e A.ADDR_MASK)) = Z.lor t (Z.ldiff (enc b e) ADDR_MASK).
Proof.
  intros Hb Ht. rewrite enc_with; [|done|by apply frame_addressed|apply strip_addr]. rewrite enc_flags. unfold enc.
  by rewrite strip_addr, strip_flags, strip_has by done.
Qed.

(** The pages of a split block. *)
Lemma block_base e : let x := Z.ldiff (Z.land e A.ADDR_MASK) 0x1fffff in (0 <= x)%Z ∧ (x <= 2 ^ 48 - 2 ^ 21)%Z ∧ (x mod 2 ^ 21 = 0)%Z.
Proof.
  intros x. assert (0 <= Z.land e A.ADDR_MASK < 2 ^ 48)%Z as Hb.
  { split; [apply Z.land_nonneg; by right|]. change A.ADDR_MASK with (Z.ldiff (Z.ones 48) (Z.ones 12)).
    apply Z.le_lt_trans with (Z.land e (Z.ones 48)); [|rewrite Z.land_ones by lia; apply Z.mod_pos_bound; lia].
    apply Z.ldiff_le; [apply Z.land_nonneg; right; done|]. apply Z.bits_inj'. intros i Hi. rewrite Z.ldiff_spec, !Z.land_spec, Z.ldiff_spec, Z.bits_0.
    by destruct (Z.testbit e i), (Z.testbit (Z.ones 48) i), (Z.testbit (Z.ones 12) i). }
  set (a := Z.land e A.ADDR_MASK) in *. assert (x = (a / 2 ^ 21) * 2 ^ 21)%Z as ->.
  { unfold x. change 0x1fffff%Z with (Z.ones 21). rewrite Z.ldiff_ones_r, Z.shiftl_mul_pow2, Z.shiftr_div_pow2 by lia. done. }
  assert (0 <= a / 2 ^ 21 < 2 ^ 27)%Z by (split; [apply Z.div_pos; lia|apply Z.div_lt_upper_bound; lia]).
  split_and!; [lia|lia|]. apply Z.mod_mul. lia.
Qed.

(** The attributes of a block, with the bits of a page. *)
Definition page_attrs (e : Z) : Z := Z.lor (Z.ldiff (Z.ldiff e A.ADDR_MASK) 3) A.TABLE.

Lemma page_attrs_has e x : Z.land A.ADDR_MASK x = 0%Z → Z.land 3 x = 0%Z → has (page_attrs e) x = has e x.
Proof.
  intros H1 H2. unfold page_attrs. rewrite has_lor. assert (has A.TABLE x = false) as -> by (unfold has; change A.TABLE with 3%Z; by rewrite H2).
  rewrite orb_false_r, <- (strip_has e x H1). set (y := Z.ldiff e A.ADDR_MASK). unfold has. f_equal. f_equal.
  apply Z.bits_inj'. intros i Hi. rewrite !Z.land_spec, Z.ldiff_spec. pose proof (f_equal (λ z, Z.testbit z i) H2) as E. cbv beta in E. rewrite Z.land_spec, Z.bits_0 in E.
  destruct (Z.testbit y i), (Z.testbit 3 i), (Z.testbit x i); done.
Qed.
Lemma page_attrs_low e : Z.land (page_attrs e) 3 = 3%Z ∧ Z.land (page_attrs e) A.ADDR_MASK = 0%Z.
Proof.
  unfold page_attrs. rewrite !Z.land_lor_distr_l, !Z.ldiff_land, <- !Z.land_assoc.
  change (Z.land (Z.lnot 3) 3) with 0%Z. change (Z.land (Z.lnot 3) A.ADDR_MASK) with A.ADDR_MASK. change (Z.land (Z.lnot A.ADDR_MASK) A.ADDR_MASK) with 0%Z.
  by rewrite !Z.land_0_r.
Qed.

Lemma page_flags b e : attribute b → A.kind e A.BLOCK = true → flags b (page_attrs e) = Z.ldiff (flags b e) HUGE.
Proof.
  intros [H1 H2]%attribute_out Hk. unfold flags. rewrite !page_attrs_has by done. unfold A.kind at 1. rewrite (proj1 (page_attrs_low e)), Hk.
  by destruct (has e A.AP_RO), (has e A.AP_EL0), (has e b).
Qed.

Lemma enc_split b e j : attribute b → has e A.VALID = true → A.kind e A.BLOCK = true → j < 512 →
  enc b (Z.lor (Z.lor (Z.ldiff (Z.land e A.ADDR_MASK) 0x1fffff + Z.of_nat j * 4096) (Z.ldiff (Z.ldiff e A.ADDR_MASK) 3)) A.TABLE) = split_entry (enc b e) j.
Proof.
  intros Hb Hv Hk Hj. unfold split_entry. rewrite enc_addr, enc_flags, Hv, <- Z.lor_assoc. fold (page_attrs e). destruct (block_base e) as (B1 & B2 & B3).
  set (x := Z.ldiff (Z.land e A.ADDR_MASK) 0x1fffff) in *. rewrite enc_with; [|done| |apply page_attrs_low].
  - f_equal. unfold enc. rewrite (proj2 (page_attrs_low e)), page_flags by done. assert (has (page_attrs e) A.VALID = true) as ->; [|done].
    unfold has. change A.VALID with (Z.land 3 1). rewrite Z.land_assoc, (proj1 (page_attrs_low e)). done.
  - apply low_addressed; [lia|]. rewrite Z.mod_add by lia.
    assert (x = 512 * (x / 2 ^ 21) * 4096)%Z as -> by (pose proof (Z.div_mod x (2 ^ 21) ltac:(lia)); lia). apply Z.mod_mul. lia.
Qed.

(** ** Memory and machine *)

Definition encm (b : Z) (m : memory) : memory := (λ T : list Z, enc b <$> T) <$> m.

Lemma ent_enc b m t i : ent (encm b m) t i = enc b <$> ent m t i.
Proof.
  unfold ent, encm. rewrite lookup_fmap. destruct (m !! t) as [T|]; [|done]. cbn [fmap option_fmap option_map mbind option_bind]. apply list_lookup_fmap.
Qed.
Lemma encm_write b m t T i x : encm b (<[t:=<[i:=x]> T]> m) = <[t:=<[i:=enc b x]> (enc b <$> T)]> (encm b m).
Proof. unfold encm. by rewrite fmap_insert, list_fmap_insert. Qed.
Lemma encm_table b m t T : encm b (<[t:=T]> m) = <[t:=enc b <$> T]> (encm b m).
Proof. unfold encm. by rewrite fmap_insert. Qed.
Lemma encm_zeros b m t : encm b (<[t:=replicate 512 0%Z]> m) = <[t:=replicate 512 0%Z]> (encm b m).
Proof. rewrite encm_table, fmap_replicate. done. Qed.

(** The tree of tables does not depend on the attribute. *)
Lemma down_enc b b' e : down (enc b e) = down (enc b' e).
Proof. unfold down. by rewrite !enc_link, !enc_addr. Qed.
Lemma node_enc b b' m t p : node (encm b m) t p = node (encm b' m) t p.
Proof. apply node_ext. intros u j. rewrite !ent_enc. destruct (ent m u j) as [e|]; [|done]. apply down_enc. Qed.
Lemma encm_dom b m t : is_Some (encm b m !! t) ↔ is_Some (m !! t).
Proof. unfold encm. rewrite lookup_fmap. apply fmap_is_Some. Qed.
Lemma space_enc b b' m H r : is_space (encm b m) H r → is_space (encm b' m) H r.
Proof.
  intros [S1 S2 S3]. split.
  - intros p t Lp. rewrite (node_enc b' b). intros Np. destruct (S1 p t Lp Np) as [? Hs]. split; [done|]. apply encm_dom. by apply encm_dom in Hs.
  - intros p q t Lp Lq. rewrite !(node_enc b' b). by apply S2.
  - intros i e. rewrite ent_enc. destruct (ent m r i) as [x|] eqn:E; [|done]. intros [= <-]. rewrite enc_huge, <- (enc_huge b). apply (S3 i). by rewrite ent_enc, E.
Qed.
Lemma tabs_enc b m : tabs m → tabs (encm b m).
Proof. intros T t U. unfold encm. rewrite lookup_fmap. destruct (m !! t) as [V|] eqn:E; [|done]. intros [= <-]. rewrite length_fmap. by apply T. Qed.
Lemma covered_enc b b' m r v pd : covered (encm b m) r v pd → covered (encm b' m) r v pd.
Proof.
  intros [N (e & E & P)]. split; [by rewrite (node_enc b' b)|]. rewrite ent_enc in E |- *. destruct (ent m pd (idx v 1)) as [x|]; [|done]. injection E as <-.
  exists (enc b' x). split; [done|]. by rewrite enc_present in P |- *.
Qed.

Section lock.
Context {F : Type} {FS : FrameSource F}.
Variable HHDM_OFFSET : Z.
Variables (h : bool) (b : Z).
Hypothesis B : attribute b.

(** What none of these operations writes. *)
Definition regs (s : A.Mach F) : Z * Z * Z * Z * list Z := (A.ttbr0 s, A.ttbr1 s, A.KERNEL_TTBR0 s, A.KERNEL_TTBR1 s, A.stg s).
Variable R : Z * Z * Z * Z * list Z.

Definition root_of (s : A.Mach F) : Z := if h then A.ttbr1 s else A.ttbr0 s.
Definition encs (s : A.Mach F) : Mach F :=
  mkMach (encm b (A.mem s)) (A.fr s) (root_of s) (A.KERNEL_TTBR0 s) ((λ p, Z.shiftl p 12) <$> A.tlbi s).

Definition rmap {X Y} (g : X → Y) (r : res Empty_set X) : res Empty_set Y :=
  match r with
  | Ok v => Ok (g v)
  | Err e => Err e
  | Panic => Panic
  end.

(** [a] here and [x] on the encoded machine take the same steps from [P] on; the
    answer and the state satisfy [Q]. *)
Definition lock {X Y} (P : A.Mach F → Prop) (a : M (A.Mach F) Empty_set X) (x : M (Mach F) Empty_set Y) (g : X → Y) (Q : X → A.Mach F → Prop) : Prop :=
  ∀ s, P s → x (encs s) = (rmap g (a s).1, encs (a s).2) ∧ ∀ v, (a s).1 = Ok v → Q v (a s).2.

(** The frame source is in a legal state. *)
Definition good (s : A.Mach F) : Prop := ∃ H, held (A.fr s) H.

Lemma lock_bind {X Y X' Y'} P (a : M (A.Mach F) Empty_set X) (x : M (Mach F) Empty_set Y) g Q (k : X → M (A.Mach F) Empty_set X') (k' : Y → M (Mach F) Empty_set Y') g' Q' :
  lock P a x g Q → (∀ v, lock (Q v) (k v) (k' (g v)) g' Q') → lock P (a ≫= k) (x ≫= k') g' Q'.
Proof using Type.
  clear B. intros L1 L2 s Hs. destruct (L1 s Hs) as [E1 H1]. unfold mbind, M_bind. rewrite E1. destruct (a s) as [[v|e|] s1]; cbn [fst snd rmap] in *; [|done..].
  apply L2, H1. done.
Qed.

Lemma lock_ret {X Y} (P : A.Mach F → Prop) (v : X) (g : X → Y) (Q : X → A.Mach F → Prop) : (∀ s, P s → Q v s) → lock P (mret v) (mret (g v)) g Q.
Proof using Type. clear B. intros H s Hs. split; [done|]. intros v' [= <-]. by apply H. Qed.
Lemma lock_panic {X Y} (P : A.Mach F → Prop) (g : X → Y) (Q : X → A.Mach F → Prop) : lock P panic panic g Q.
Proof using Type. clear B. intros s Hs. by split. Qed.
Lemma lock_lift {X Y} (P : A.Mach F → Prop) (r : res Empty_set X) (r' : res Empty_set Y) (g : X → Y) : r' = rmap g r → lock P (lift r) (lift r') g (λ v s, P s ∧ r = Ok v).
Proof using Type. clear B. intros -> s Hs. split; [done|]. by intros v. Qed.
Lemma lock_weaken {X Y} (P P' : A.Mach F → Prop) (a : M (A.Mach F) Empty_set X) (x : M (Mach F) Empty_set Y) g Q Q' :
  lock P a x g Q → (∀ s, P' s → P s) → (∀ v s, Q v s → Q' v s) → lock P' a x g Q'.
Proof using Type. clear B. intros L H1 H2 s Hs. destruct (L s (H1 s Hs)) as [E H]. split; [done|]. intros v Hv. by apply H2, H. Qed.

Lemma lock_mfor {X} (P : A.Mach F → Prop) (l : list X) (f : X → M (A.Mach F) Empty_set unit) (f' : X → M (Mach F) Empty_set unit) :
  (∀ y, y ∈ l → lock P (f y) (f' y) id (λ _, P)) → lock P (mfor l f) (mfor l f') id (λ _, P).
Proof using Type.
  clear B. induction l as [|y l IH]; intros H; [by apply (lock_ret P () id (λ _, P))|]. cbn [mfor]. eapply lock_bind; [apply H; left|].
  intros []. apply IH. intros z Hz. apply H. by right.
Qed.

Lemma lock_read P t i : lock P (A.read_entry HHDM_OFFSET t i) (read_entry HHDM_OFFSET t i) (enc b) (λ e s, P s ∧ ent (A.mem s) t i = Some e).
Proof using Type.
  clear B. intros s Hs. unfold A.read_entry, read_entry. munfold. destruct (phys_to_virt HHDM_OFFSET t); [|done..]. cbn [encs mem]. unfold encm. rewrite lookup_fmap.
  unfold ent. destruct (A.mem s !! t) as [T|] eqn:HT; [|done]. cbn [fmap option_fmap option_map]. rewrite list_lookup_fmap. cbn [mbind option_bind].
  destruct (T !! i) as [e|] eqn:He; [|done]. split; [done|]. intros v [= <-]. cbn [fst snd]. split; [done|]. by rewrite HT.
Qed.

Lemma lock_write (P : A.Mach F → Prop) t i x : (∀ s s', A.fr s' = A.fr s → regs s' = regs s → P s → P s') →
  lock P (A.write_entry HHDM_OFFSET t i x) (write_entry HHDM_OFFSET t i (enc b x)) id (λ _, P).
Proof using Type.
  clear B. intros HP s Hs. unfold A.write_entry, write_entry, A.set_mem, set_mem. munfold. destruct (phys_to_virt HHDM_OFFSET t); [|done..]. cbn [encs mem fr cr3 KERNEL_PML4 flushed].
  unfold encm at 1. rewrite lookup_fmap. destruct (A.mem s !! t) as [T|]; [|done]. cbn [fmap option_fmap option_map]. rewrite length_fmap.
  destruct (decide (i < length T)); [|done]. split; [|intros _ _; apply (HP s); [reflexivity|reflexivity|exact Hs]]. cbn [fst snd rmap id]. unfold encs. cbn [A.mem A.fr A.KERNEL_TTBR0 A.tlbi A.ttbr0 A.ttbr1].
  by rewrite encm_write.
Qed.

Definition rooted (s : A.Mach F) : Prop := good s ∧ regs s = R.
Lemma rooted_same s s' : A.fr s' = A.fr s → regs s' = regs s → rooted s → rooted s'.
Proof using Type. clear B. intros E1 E2 [[H Hh] HR]. split; [exists H; by rewrite E1|congruence]. Qed.

Lemma lock_alloc : lock rooted (A.alloc_table HHDM_OFFSET) (alloc_table HHDM_OFFSET) id (λ t s, frame_ok t ∧ rooted s).
Proof using Type.
  clear B. intros s ([H Hh] & Ha). unfold A.alloc_table, alloc_table, A.alloc_zeroed_frame, alloc_zeroed_frame, A.on_frames, on_frames, A.set_mem, set_mem. munfold. cbn [encs fr].
  pose proof (fs_alloc_spec (A.fr s) H Hh) as Hf. destruct (fs_alloc (A.fr s)) as [[[t|]|e|] f]; [|done..]. cbn [mem fr cr3 KERNEL_PML4 flushed].
  destruct (phys_to_virt HHDM_OFFSET t); [|done..]. cbn [fst snd rmap id]. split.
  - unfold encs. cbn [A.mem A.fr A.KERNEL_TTBR0 A.tlbi A.ttbr0 A.ttbr1 mem fr cr3 KERNEL_PML4 flushed]. by rewrite encm_zeros.
  - intros v [= <-]. destruct Hf as (_ & Hh' & _). split; [eapply fs_held_ok; [done|set_solver]|]. split; [by exists ({[t]} ∪ H)|done].
Qed.

Lemma lock_clone o : lock rooted (A.clone_table HHDM_OFFSET o) (clone_table HHDM_OFFSET o) id (λ t s, frame_ok t ∧ rooted s).
Proof using Type.
  clear B. unfold A.clone_table, clone_table. eapply lock_bind; [apply lock_alloc|]. intros t. cbn [id].
  eapply (lock_bind _ _ _ id (λ _ s, frame_ok t ∧ rooted s)); [|intros []; by apply (lock_ret _ t id)].
  apply lock_mfor. intros i _. eapply lock_bind; [apply lock_read|]. intros e. eapply lock_weaken; [apply (lock_write (λ s, frame_ok t ∧ rooted s))| |done].
  - intros s s' E1 E2 [Ht Hr]. split; [done|by eapply rooted_same].
  - by intros s [? _].
Qed.

Lemma lock_privatise n i : lock rooted (A.privatise HHDM_OFFSET n i) (privatise HHDM_OFFSET n i) id (λ _, rooted).
Proof using B.
  unfold A.privatise, privatise. eapply lock_bind; [apply lock_read|]. intros e. cbv beta. rewrite enc_link, enc_addr.
  destruct (has e A.VALID && A.kind e A.TABLE); [|by apply (lock_ret _ () id); intros s [? _]].
  eapply lock_bind; [eapply lock_weaken; [apply lock_clone|by intros s [? _]|done]|]. intros t. cbn [id]. intros s [Ht Hs].
  rewrite <- enc_copy by done. revert s Hs. apply lock_write. apply rooted_same.
Qed.

Lemma lock_copied t i n e : frame_ok n → lock rooted (A.write_entry HHDM_OFFSET t i (Z.lor n (Z.ldiff e A.ADDR_MASK)))
  (write_entry HHDM_OFFSET t i (Z.lor n (Z.ldiff (enc b e) ADDR_MASK))) id (λ _, rooted).
Proof using B. intros Hn. rewrite <- enc_copy by done. apply lock_write, rooted_same. Qed.

(** The new space has the kernel's high half. *)
Definition born (sp : AddressSpace) (s : A.Mach F) : Prop := rooted s ∧ primary sp = R.1.2.
Lemma lock_new : lock rooted (A.new_process_space HHDM_OFFSET) (new_process_space HHDM_OFFSET) (λ sp, mkSpace (secondary sp) 0) born.
Proof using B.
  intros s Hs. unfold A.new_process_space, new_process_space. erewrite !(bind_run get) by reflexivity. cbv zeta. cbn [encs KERNEL_PML4].
  revert s Hs. intros s0 Hs0. set (k := A.KERNEL_TTBR0 s0). revert s0 Hs0 k.
  cut (∀ k, lock rooted
    (new_l0 ← A.clone_table HHDM_OFFSET k; e0 ← A.read_entry HHDM_OFFSET k 0; new_l1 ← A.clone_table HHDM_OFFSET (Z.land e0 A.ADDR_MASK);
     A.write_entry HHDM_OFFSET new_l0 0 (Z.lor new_l1 (Z.ldiff e0 A.ADDR_MASK));; e1 ← A.read_entry HHDM_OFFSET (Z.land e0 A.ADDR_MASK) 1;
     new_l2 ← A.clone_table HHDM_OFFSET (Z.land e1 A.ADDR_MASK); A.write_entry HHDM_OFFSET new_l1 1 (Z.lor new_l2 (Z.ldiff e1 A.ADDR_MASK));;
     mfor (seq 0 512) (A.privatise HHDM_OFFSET new_l2);; s ← get; mret (mkSpace (A.KERNEL_TTBR1 s) new_l0))
    (new_pml4 ← clone_table HHDM_OFFSET k; e0 ← read_entry HHDM_OFFSET k 0; new_pdpt ← clone_table HHDM_OFFSET (Z.land e0 ADDR_MASK);
     write_entry HHDM_OFFSET new_pml4 0 (Z.lor new_pdpt (Z.ldiff e0 ADDR_MASK));; e1 ← read_entry HHDM_OFFSET (Z.land e0 ADDR_MASK) 1;
     new_pd ← clone_table HHDM_OFFSET (Z.land e1 ADDR_MASK); write_entry HHDM_OFFSET new_pdpt 1 (Z.lor new_pd (Z.ldiff e1 ADDR_MASK));;
     mfor (seq 0 512) (privatise HHDM_OFFSET new_pd);; mret (mkSpace new_pml4 0)) (λ sp, mkSpace (secondary sp) 0) born).
  { intros H s0 Hs0 k. by apply H. }
  intros k. eapply lock_bind; [apply lock_clone|]. intros l0. eapply lock_bind; [apply lock_read|]. intros e0. cbv beta. rewrite enc_addr.
  eapply lock_bind; [eapply lock_weaken; [apply lock_clone|by intros s [[_ ?] _]|exact (λ v s H, H)]|]. intros l1 s [Hl1 Hs]. revert s Hs. cbn [id].
  eapply (lock_bind rooted _ _ id (λ _, rooted)); [by apply lock_copied|]. intros []. eapply lock_bind; [apply lock_read|]. intros e1. cbv beta. rewrite enc_addr.
  eapply lock_bind; [eapply lock_weaken; [apply lock_clone|by intros s [? _]|exact (λ v s H, H)]|]. intros l2 s [Hl2 Hs]. revert s Hs. cbn [id].
  eapply (lock_bind rooted _ _ id (λ _, rooted)); [by apply lock_copied|]. intros [].
  eapply (lock_bind rooted _ _ id (λ _, rooted)); [apply lock_mfor; intros i _; apply lock_privatise|]. intros [] s Hs. split; [done|].
  intros v [= <-]. split; [done|]. by destruct Hs as (_ & <-).
Qed.

(** Splitting a block, and the table of the last level. *)
Lemma lock_split e : has e A.VALID = true → A.kind e A.BLOCK = true →
  lock rooted (A.split_block HHDM_OFFSET e) (split_huge HHDM_OFFSET (enc b e)) id (λ t s, frame_ok t ∧ rooted s).
Proof using B.
  intros Hv Hk. unfold A.split_block, split_huge. cbv zeta. rewrite enc_addr. eapply lock_bind; [apply lock_alloc|]. intros t. cbn [id].
  eapply (lock_bind _ _ _ id (λ _ s, frame_ok t ∧ rooted s)); [|intros []; by apply (lock_ret _ t id)].
  apply lock_mfor. intros j [_ Hj]%elem_of_seq. eapply lock_bind; [by apply (lock_lift _ _ (arith 64 (Z.of_nat j * PAGE)) id); destruct (arith _ _)|]. intros off.
  eapply lock_bind; [by apply (lock_lift _ _ (arith 64 (Z.ldiff (Z.land e A.ADDR_MASK) 0x1fffff + off)) id); destruct (arith _ _)|]. intros pa s [[Hs Hoff] Hpa].
  apply arith_Ok in Hoff as [_ ->], Hpa as [_ ->]. cbn [id]. pose proof (enc_split b e j B Hv Hk ltac:(lia)) as E. unfold split_entry in E. rewrite enc_addr in E.
  change A.PAGE with 4096%Z. rewrite <- E. revert s Hs. apply lock_write. intros s s' E1 E2 [Ht Hr]. split; [done|by eapply rooted_same].
Qed.

Lemma lock_assert P x : lock P (A.assert x) (assert x) id (λ _ s, P s ∧ x = true).
Proof using Type. clear B. unfold A.assert, assert. destruct x; [by apply (lock_ret _ () id)|apply lock_panic]. Qed.

(** The active root is the address of a table. *)
Definition root_ok64 : Prop := addressed (if h then R.1.1.1.2 else R.1.1.1.1).
Lemma lock_ensure v : root_ok64 → A.high v = h → lock rooted (A.ensure_l3_table HHDM_OFFSET v) (ensure_pt HHDM_OFFSET v) id (λ _, rooted).
Proof using B.
  intros Hr Hv. unfold A.ensure_l3_table, ensure_pt.
  assert (lock rooted (A.current_root v) current_pml4 id (λ _, rooted)) as Hroot.
  { intros s (Hg & HR). assert (addressed (root_of s)) as Ha by (unfold root_ok64 in Hr; by rewrite <- HR in Hr).
    unfold A.current_root, current_pml4. munfold. rewrite Hv. fold (root_of s). cbn [encs cr3 fst snd rmap id].
    unfold addressed in Ha. rewrite <- Ha at 1. rewrite mask_mask. split; [done|]. intros x [= <-]. by split. }
  eapply lock_bind; [exact Hroot|]. intros root. cbn [id]. eapply lock_bind; [apply lock_read|]. intros e0. cbv beta. rewrite enc_present.
  eapply lock_bind; [apply lock_assert|]. intros []. rewrite enc_addr. eapply lock_bind; [apply lock_read|]. intros e1. cbv beta zeta. rewrite enc_link, enc_addr.
  eapply lock_bind; [apply lock_assert|]. intros []. eapply lock_bind; [apply lock_read|]. intros e2. cbv beta. rewrite enc_present.
  eapply lock_bind; [apply lock_assert|]. intros []. rewrite enc_huge, enc_addr. intros s [[[[[[Hs _] _] _] _] _] Hv2]. revert s Hs. rewrite Hv2. cbn [andb].
  destruct (A.kind e2 A.BLOCK) eqn:Hk; [|exact (lock_ret rooted (Z.land e2 A.ADDR_MASK) id (λ _, rooted) (λ _ H, H))].
  eapply lock_bind; [by apply lock_split|]. intros t s [Ht Hs]. cbn [id]. revert s Hs. rewrite <- (enc_table b) by done.
  eapply (lock_bind rooted _ _ id (λ _, rooted)); [apply lock_write, rooted_same|]. intros []. exact (lock_ret rooted t id (λ _, rooted) (λ _ H, H)).
Qed.

(** The end of an edit: the entry is written and its translation flushed. *)
Lemma shiftl_aligned v : Z.shiftl (Z.shiftr (Z.ldiff v 0xfff) 12) 12 = Z.ldiff v 0xfff.
Proof using Type.
  clear B. change 0xfff%Z with (Z.ones 12). rewrite !Z.ldiff_ones_r by lia. by rewrite Z.shiftr_shiftl_l, Z.sub_diag by lia.
Qed.

Lemma lock_edit v x l : root_ok64 → A.high v = h → lock rooted
    (l3 ← A.ensure_l3_table HHDM_OFFSET (Z.ldiff v 0xfff); A.write_entry HHDM_OFFSET l3 l x;; A.flush_page (Z.ldiff v 0xfff))
    (pt ← ensure_pt HHDM_OFFSET (Z.ldiff v 0xfff); write_entry HHDM_OFFSET pt l (enc b x);; invlpg (Z.ldiff v 0xfff)) id (λ _, rooted).
Proof using B.
  intros Hr Hv. eapply lock_bind; [apply lock_ensure; [done|by rewrite high_align]|intros t; cbn [id]].
  eapply (lock_bind rooted _ _ id (λ _, rooted)); [apply lock_write, rooted_same|]. intros [] s Hs. unfold A.flush_page, invlpg, modify. cbn [fst snd rmap id]. split; [|done].
  unfold encs. cbn [A.mem A.fr A.KERNEL_TTBR0 A.tlbi mem fr cr3 KERNEL_PML4 flushed]. rewrite fmap_app. cbn [fmap list_fmap]. by rewrite shiftl_aligned.
Qed.

(** Reaping. *)
Lemma lock_free pa : lock (λ _, True) (A.free_table pa) (free_table pa) id (λ _ _, True).
Proof using Type. clear B. intros s _. unfold A.free_table, free_table, A.on_frames, on_frames. cbn [encs fr]. destruct (fs_free pa (A.fr s)) as [[[]|[]|] f]; done. Qed.

Lemma lock_leaves l2 vas n : lock (λ _, True) (A.reap_leaves HHDM_OFFSET l2 vas n) (reap_leaves HHDM_OFFSET l2 vas n) id (λ _ _, True).
Proof using Type.
  clear B. revert n. induction vas as [|va vas IH]; intros n; [by apply (lock_ret (λ _, True) n id)|]. cbn [A.reap_leaves reap_leaves].
  eapply lock_bind; [apply lock_read|]. intros e. cbv beta. rewrite enc_link, enc_addr.
  destruct (has e A.VALID && A.kind e A.TABLE); [|eapply lock_weaken; [apply IH|done|done]].
  eapply lock_bind; [apply lock_read|]. intros l. cbv beta. rewrite enc_present, enc_addr.
  destruct (has l A.VALID); [|eapply lock_weaken; [apply IH|done|done]].
  eapply lock_bind; [eapply lock_weaken; [apply lock_free|done|exact (λ v s H, H)]|]. intros [].
  eapply lock_bind; [by apply (lock_lift _ _ (arith 32 (n + 1)) id); destruct (arith _ _)|]. intros k. eapply lock_weaken; [apply IH|done|done].
Qed.
Lemma lock_l3s l2 js n : lock (λ _, True) (A.reap_l3s HHDM_OFFSET l2 js n) (reap_pts HHDM_OFFSET l2 js n) id (λ _ _, True).
Proof using Type.
  clear B. revert n. induction js as [|i js IH]; intros n; [by apply (lock_ret (λ _, True) n id)|]. cbn [A.reap_l3s reap_pts].
  eapply lock_bind; [apply lock_read|]. intros e. cbv beta. rewrite enc_link, enc_addr.
  destruct (has e A.VALID && A.kind e A.TABLE); [|eapply lock_weaken; [apply IH|done|done]].
  eapply lock_bind; [eapply lock_weaken; [apply lock_free|done|exact (λ v s H, H)]|]. intros [].
  eapply lock_bind; [by apply (lock_lift _ _ (arith 32 (n + 1)) id); destruct (arith _ _)|]. intros k. eapply lock_weaken; [apply IH|done|done].
Qed.
Lemma lock_reap sp vas : lock (λ _, True) (A.reap_process_space HHDM_OFFSET sp vas) (reap_process_space HHDM_OFFSET (mkSpace (secondary sp) 0) vas) id (λ _ _, True).
Proof using Type.
  clear B. unfold A.reap_process_space, reap_process_space. cbn [primary]. eapply lock_bind; [apply lock_read|]. intros e0. cbv beta zeta. rewrite enc_addr.
  eapply lock_bind; [apply lock_read|]. intros e1. cbv beta zeta. rewrite enc_addr. eapply lock_bind; [eapply lock_weaken; [apply lock_leaves|done|exact (λ v s H, H)]|].
  intros n. eapply lock_bind; [apply lock_l3s|]. intros k. do 3 (eapply lock_bind; [apply lock_free|intros []]).
  eapply lock_weaken; [by apply (lock_lift (λ _, True) (arith 32 (k + 3)) (arith 32 (k + 3)) id); destruct (arith _ _)|done|done].
Qed.

(** The walk, on the tables of one state. *)
Lemma lock_walk s0 H v : A.high v = h → is_space (encm b (A.mem s0)) H (root_of s0) → addressed (root_of s0) →
  lock (λ s, s = s0) (A.walk HHDM_OFFSET v) (walk HHDM_OFFSET v) (fmap (λ lm, (enc b lm.1, lm.2))) (λ _ s, s = s0).
Proof using Type.
  clear B. intros Hv SP Ha. unfold A.walk, walk.
  eapply (lock_bind _ _ _ id (λ r s, s = s0 ∧ r = root_of s0)).
  { intros s ->. unfold A.current_root, current_pml4. munfold. rewrite Hv. fold (root_of s0). cbn [encs cr3 fst snd rmap id].
    unfold addressed in Ha. rewrite Ha. rewrite <- Ha at 1. rewrite mask_mask, Ha. split; [done|]. by intros x [= <-]. }
  intros r. cbn [id A.walk_levels]. eapply lock_bind; [apply lock_read|]. intros e0. cbv beta. rewrite enc_present, enc_addr.
  destruct (has e0 A.VALID) eqn:V0; cbn [negb]; [|refine (lock_ret _ (None : option (Z * Z)) (fmap (λ lm : Z * Z, (enc b lm.1, lm.2))) _ _); by intros s [[-> _] _]].
  change (0 =? 3)%Z with false. cbv iota. intros s [[-> ->] E0]. assert (A.kind e0 A.BLOCK = false) as ->.
  { pose proof (sp_top _ _ _ SP (idx v 3) (enc b e0)) as T. rewrite ent_enc, E0, enc_huge, V0 in T. by apply T. }
  cut (lock (λ s, s = s0) (A.walk_levels HHDM_OFFSET 3 (0 + 1) (Z.land e0 A.ADDR_MASK) v)
    (e3 ← read_entry HHDM_OFFSET (Z.land e0 A.ADDR_MASK) (idx v 2);
     if negb (has e3 PRESENT) then mret None else if has e3 HUGE then mret (Some (e3, 0x3fffffff)%Z) else
     e2 ← read_entry HHDM_OFFSET (Z.land e3 ADDR_MASK) (idx v 1);
     if negb (has e2 PRESENT) then mret None else if has e2 HUGE then mret (Some (e2, 0x1fffff)%Z) else
     e1 ← read_entry HHDM_OFFSET (Z.land e2 ADDR_MASK) (idx v 0);
     if negb (has e1 PRESENT) then mret None else mret (Some (e1, 0xfff)%Z)) (fmap (λ lm, (enc b lm.1, lm.2))) (λ _ s, s = s0)); [by intros L; apply L|].
  cbn [A.walk_levels]. eapply lock_bind; [apply lock_read|]. intros e1. cbv beta. rewrite enc_present, enc_huge, enc_addr.
  destruct (has e1 A.VALID); cbn [negb andb]; [|refine (lock_ret _ (None : option (Z * Z)) (fmap (λ lm : Z * Z, (enc b lm.1, lm.2))) _ _); by intros s [-> _]]. change (0 + 1 =? 3)%Z with false. cbv iota.
  destruct (A.kind e1 A.BLOCK); [refine (lock_ret _ ((Some (e1, 0x3fffffff)%Z)) (fmap (λ lm : Z * Z, (enc b lm.1, lm.2))) _ _); by intros s [-> _]|].
  eapply lock_bind; [apply lock_read|]. intros e2. cbv beta. rewrite enc_present, enc_huge, enc_addr.
  destruct (has e2 A.VALID); cbn [negb andb]; [|refine (lock_ret _ (None : option (Z * Z)) (fmap (λ lm : Z * Z, (enc b lm.1, lm.2))) _ _); by intros s [[-> _] _]]. change (0 + 1 + 1 =? 3)%Z with false. cbv iota.
  destruct (A.kind e2 A.BLOCK); [refine (lock_ret _ ((Some (e2, 0x1fffff)%Z)) (fmap (λ lm : Z * Z, (enc b lm.1, lm.2))) _ _); by intros s [[-> _] _]|].
  eapply lock_bind; [apply lock_read|]. intros e3. cbv beta. rewrite enc_present.
  destruct (has e3 A.VALID); cbn [negb andb]; [|refine (lock_ret _ (None : option (Z * Z)) (fmap (λ lm : Z * Z, (enc b lm.1, lm.2))) _ _); by intros s [[[-> _] _] _]]. change (0 + 1 + 1 + 1 =? 3)%Z with true. cbv iota.
  refine (lock_ret _ ((Some (e3, 0xfff)%Z)) (fmap (λ lm : Z * Z, (enc b lm.1, lm.2))) _ _); by intros s [[[-> _] _] _].
Qed.
End lock.
