(* ===== verification/PagingA64Theorems.v ===== *)
(** * AArch64 page tables: theorems

    What the operations of PagingA64 do to the translation of every address and to
    every attribute bit of its leaf, through the reading of the tables in
    PagingA64Sim. *)

From stdpp Require Import sets.
From S2P Require Import Prelude Arch Buddy BuddyInv BuddyProps MemInit MemInitProps Frames.
From S2P Require Import Paging PagingInv PagingOps PagingClone PagingWorld PagingBuild PagingTheorems PagingA64Sim.

#[local] Opaque idx.

Lemma attribute_bit n : (0 <= n)%Z → Z.testbit (Z.lor A.ADDR_MASK 3) n = false → attribute (Z.shiftl 1 n).
Proof. intros H1 H2. by exists n. Qed.
Lemma attribute_uxn : attribute A.UXN.
Proof. by apply attribute_bit. Qed.
Lemma attribute_pxn : attribute A.PXN.
Proof. by apply attribute_bit. Qed.
Lemma attribute_ro : attribute A.AP_RO.
Proof. by apply attribute_bit. Qed.
#[local] Hint Resolve attribute_uxn attribute_pxn attribute_ro : core.

Lemma leaf_present m r v lm : leaf_of m r v = Some lm → has lm.1 PRESENT = true.
Proof. unfold leaf_of. intros H. repeat case_match; naive_solver. Qed.

Lemma aligned_ldiff x : (x mod 4096 = 0)%Z → Z.ldiff x 0xfff = x.
Proof.
  intros H. change 0xfff%Z with (Z.ones 12). rewrite Z.ldiff_ones_r, Z.shiftl_mul_pow2, Z.shiftr_div_pow2 by lia. change (2 ^ 12)%Z with 4096%Z.
  pose proof (Z.div_mod x 4096 ltac:(lia)). lia.
Qed.

Section views.
Context {F : Type} {FS : FrameSource F}.
Variable HHDM_OFFSET : Z.
Hypothesis HHDM_room : (0 <= HHDM_OFFSET <= 2 ^ 64 - 2 ^ 44)%Z.
Implicit Types s : A.Mach F.

(** ** What the processor sees *)

(** Attribute [b] of the leaf that maps [v]. *)
Definition attr s (b v : Z) : option bool :=
  match A.walk HHDM_OFFSET v s with
  | (Ok o, _) => (λ lm : Z * Z, has lm.1 b) <$> o
  | _ => None
  end.
Definition sees64 s (v : Z) : res Empty_set (option Z) * res Empty_set (option (bool * bool)) :=
  ((A.translate HHDM_OFFSET v s).1, (A.page_prot HHDM_OFFSET v s).1).

(** Frames for [n] more tables, and well-formed tables below a root. *)
Record ready s (H : gset Z) (n : nat) : Prop := {
  rd_held : held (A.fr s) H;
  rd_supply : supply n (A.fr s);
  rd_tabs : tabs (A.mem s)
}.
Definition tree s (H : gset Z) (r : Z) : Prop := is_space (encm A.UXN (A.mem s)) H r.
(** A level-2 table [l2] with a valid descriptor on the way to [v]. *)
Definition reaches s (r v l2 : Z) : Prop := covered (encm A.UXN (A.mem s)) r v l2.

Lemma tabs_dec b m : tabs (encm b m) → tabs m.
Proof using Type.
  intros T t U HU. destruct (T t (enc b <$> U)) as [? L]; [unfold encm; by rewrite lookup_fmap, HU|]. by rewrite length_fmap in L.
Qed.
Lemma ready_okay h b s H n : ready s H n ↔ okay (encs h b s) H n.
Proof using Type. split; intros [H1 H2 H3]; (split; [exact H1|exact H2|]); [exact (tabs_enc b _ H3)|exact (tabs_dec b _ H3)]. Qed.
Lemma tree_root s H r : ready s H 0 → tree s H r → frame_ok r.
Proof using Type.
  intros Rd Sp. destruct (sp_held _ _ _ Sp [] r) as [Hr _]; [simpl; lia|done|]. exact (fs_held_ok _ _ _ (rd_held _ _ _ Rd) Hr).
Qed.

Lemma walked h b s H v : ready s H 0 → tree s H (root_of h s) → A.high v = h →
  ∃ o, A.walk HHDM_OFFSET v s = (Ok o, s) ∧ leaf_of (encm b (A.mem s)) (root_of h s) v = (λ lm : Z * Z, (enc b lm.1, lm.2)) <$> o ∧
    ∀ lm, o = Some lm → has lm.1 A.VALID = true.
Proof using HHDM_room.
  intros Rd Sp Hv. pose proof (space_enc _ b _ _ _ Sp) as SP.
  destruct (lock_walk HHDM_OFFSET h b s H v Hv SP (frame_addressed _ (tree_root s H _ Rd Sp)) s eq_refl) as [E Q].
  rewrite (walk_eq HHDM_OFFSET HHDM_room (encs h b s) H v) in E; [|apply tabs_enc, Rd|done].
  destruct (A.walk HHDM_OFFSET v s) as [[o|e|] s1]; cbn [fst snd rmap] in *; [|done..]. injection E as E _. specialize (Q o eq_refl). subst s1.
  exists o. split; [done|]. split; [done|]. intros lm ->. rewrite <- (enc_present b). by apply leaf_present in E.
Qed.

Lemma view h b s H v : ready s H 0 → tree s H (root_of h s) → A.high v = h → let x := maps (encm b (A.mem s)) (root_of h s) v in
  (A.translate HHDM_OFFSET v s).1 = Ok ((λ y, y.1.1) <$> x) ∧ attr s b v = (λ y, negb y.1.2.2) <$> x.
Proof using HHDM_room.
  intros Rd Sp Hv x. destruct (walked h b s H v Rd Sp Hv) as (o & E & L & V). unfold A.translate, attr. rewrite (bind_run _ _ _ _ _ E), E.
  unfold x, maps. pose proof (leaf_mask (encm b (A.mem s)) (root_of h s) v) as LM. rewrite L in *. destruct o as [lm|]; [|done].
  specialize (V lm eq_refl). specialize (LM _ eq_refl). cbn [fst snd] in LM. cbn [fmap option_fmap option_map]. unfold meaning. cbn [fst snd].
  rewrite enc_addr, enc_has, V, has_flags_nx, negb_involutive by done. split; [|done].
  destruct lm as [leaf mask]. cbn [fst snd] in *. unfold mbind, M_bind, lift. rewrite arith_in; [done|]. unfold in_u. pose proof (land_bound (enc b leaf)) as [LB _]. rewrite enc_addr in LB.
  pose proof (ldiff_below (Z.land leaf A.ADDR_MASK) mask ltac:(lia)). pose proof (land_below v mask ltac:(destruct LM as [|[|]]; lia)). lia.
Qed.

Lemma view_prot h s H v : ready s H 0 → tree s H (root_of h s) → A.high v = h →
  (A.page_prot HHDM_OFFSET v s).1 = Ok ((λ y, y.1.2) <$> maps (encm A.PXN (A.mem s)) (root_of h s) v).
Proof using HHDM_room.
  intros Rd Sp Hv. destruct (walked h A.PXN s H v Rd Sp Hv) as (o & E & L & V). unfold A.page_prot. rewrite (bind_run _ _ _ _ _ E).
  unfold maps. rewrite L. destruct o as [lm|]; [|done]. specialize (V lm eq_refl). cbn. by rewrite !enc_has, V, has_flags_nx, has_flags_writable by done.
Qed.

(** ** One page *)

(** What [map_page], [map_user_page] and [install_guard_page] share. *)
Definition edit (v x : Z) : M (A.Mach F) Empty_set unit :=
  l3 ← A.ensure_l3_table HHDM_OFFSET (Z.ldiff v 0xfff);
  A.write_entry HHDM_OFFSET l3 (A.lidx (Z.ldiff v 0xfff) 3) x;;
  A.flush_page (Z.ldiff v 0xfff).

(** [s'] is [s] with the leaf of [v] below [r] replaced by [x]. *)
Record edited64 s (H : gset Z) (n : nat) (r v x l2 : Z) (pt : Z) (s' : A.Mach F) : Prop := {
  e_ready : ready s' ({[pt]} ∪ H) n;
  e_table : pt ∉ H ∨ node (encm A.UXN (A.mem s)) r (page v).1 = Some pt;
  e_tree : tree s' ({[pt]} ∪ H) r;
  e_regs : regs s' = regs s;
  e_tlbi : A.tlbi s' = A.tlbi s ++ [Z.shiftr (Z.ldiff v 0xfff) 12];
  e_only b t : attribute b → t ∈ H → t ∉ [pt; l2] → encm b (A.mem s') !! t = encm b (A.mem s) !! t;
  e_maps b v' : attribute b → maps (encm b (A.mem s')) r v' =
    if decide (page v' = page v) then if has x A.VALID then Some (meaning v' (enc b x, 0xfff)%Z) else None
    else maps (encm b (A.mem s)) r v';
  e_adds : adds (encm A.UXN (A.mem s)) (encm A.UXN (A.mem s')) r pt
}.

Lemma edit_locked h b s H n v x l2 : attribute b → ready s H (S n) → tree s H (root_of h s) → reaches s (root_of h s) v l2 → A.high v = h →
  edit v x s = (Ok (), (edit v x s).2) ∧ regs (edit v x s).2 = regs s ∧
  edited (encs h b s) H n (Z.ldiff v 0xfff) (enc b x) [l2] (λ _, True) (Ok (), encs h b (edit v x s).2).
Proof using HHDM_room.
  intros Hb Rd Sp Hc Hv. pose proof (frame_addressed _ (tree_root s H _ ltac:(destruct Rd; split; [done|by eapply (supply_le _ 0); [lia|]|done]) Sp)) as Ad.
  destruct (lock_edit HHDM_OFFSET h b Hb (regs s) v x (A.lidx (Z.ldiff v 0xfff) 3) Ad Hv s) as [E Q].
  { split; [exists H; apply Rd|done]. }
  fold (edit v x) in E, Q. pose proof (proj1 (ready_okay h b s H (S n)) Rd) as Ok1.
  assert (edited (encs h b s) H n (Z.ldiff v 0xfff) (enc b x) [l2] (λ _, True)
    ((pt ← ensure_pt HHDM_OFFSET (Z.ldiff v 0xfff); write_entry HHDM_OFFSET pt (idx (Z.ldiff v 0xfff) 0) (enc b x);; invlpg (Z.ldiff v 0xfff)) (encs h b s))) as Ed.
  { apply (finish_edit HHDM_OFFSET HHDM_room (encs h b s) H n _ (enc b x) [l2] (λ _, True)); [done|]. apply ensure_pt_spec; [done|done|by eapply space_enc|].
    apply covered_align. by eapply covered_enc. }
  pose proof Ed as (pt & s1 & E1 & _). change (A.lidx (Z.ldiff v 0xfff) 3) with (idx (Z.ldiff v 0xfff) 0) in E. rewrite E in E1, Ed.
  destruct (edit v x s) as [[[]|[]|] s2]; cbn [fst snd rmap id] in *; [|done..]. split; [done|]. split; [by apply (Q ())|done].
Qed.

Lemma edit_spec h s H n v x l2 : ready s H (S n) → tree s H (root_of h s) → reaches s (root_of h s) v l2 → A.high v = h →
  ∃ pt s', edit v x s = (Ok (), s') ∧ edited64 s H n (root_of h s) v x l2 pt s'.
Proof using HHDM_room.
  intros Rd Sp Hc Hv. pose proof (λ b Hb, edit_locked h b s H n v x l2 Hb Rd Sp Hc Hv) as L.
  destruct (L A.UXN attribute_uxn) as (E & Rg & pt & s1 & E1 & Hpt & Ed & Fl & SP & N & _ & _ & Ad & _). injection E1 as <-.
  set (s' := (edit v x s).2) in *. exists pt, s'. split; [done|]. rewrite page_align in Hpt, N. cbn [encs cr3 mem] in *.
  assert (∀ b, attribute b → ∃ pt', pt' = pt ∧ edits (encs h b s) (encs h b s') H ({[pt']} ∪ H) n [pt'; l2] ∧
    ∀ v', maps (encm b (A.mem s')) (root_of h s) v' = if decide (page v' = page v) then if has (enc b x) PRESENT then Some (meaning v' (enc b x, 0xfff)%Z) else None
      else maps (encm b (A.mem s)) (root_of h s) v') as All.
  { intros b Hb. destruct (L b Hb) as (_ & _ & pt' & s2 & E2 & _ & Ed' & _ & _ & N' & M' & _). injection E2 as <-. rewrite page_align in N', M'.
    exists pt'. split; [|by split]. cbn [encs cr3 mem] in N'. rewrite (node_enc b A.UXN) in N'. congruence. }
  split; try done.
  - apply (ready_okay h A.UXN). apply (ed_okay _ _ _ _ _ _ Ed).
  - cbn [encs flushed] in Fl. apply (list_fmap_eq_inj (λ p, Z.shiftl p 12)).
    + intros y z Hyz. apply (f_equal (λ q, Z.shiftr q 12)) in Hyz. rewrite !Z.shiftr_shiftl_l in Hyz by lia. by rewrite !Z.shiftl_0_r in Hyz.
    + rewrite fmap_app. cbn [fmap list_fmap]. by rewrite shiftl_aligned.
  - intros b t Hb Ht Hn. destruct (All b Hb) as (pt' & -> & Ed' & _). exact (ed_only _ _ _ _ _ _ Ed' t Ht Hn).
  - intros b v' Hb. destruct (All b Hb) as (pt' & -> & _ & M). rewrite M, enc_present. done.
Qed.

(** [v] leads to the physical address and has the attributes of [x]. *)
Definition leads s (v : Z) (x : option (Z * Z)) : Prop :=
  sees64 s v = (Ok (fst <$> x), Ok ((λ y, (negb (has y.2 A.AP_RO), negb (has y.2 A.PXN))) <$> x)) ∧
  ∀ b, attribute b → attr s b v = (λ y, has y.2 b) <$> x.
(** [v] is as it was: address, permissions and every attribute. *)
Definition same_at s s' (v : Z) : Prop := sees64 s' v = sees64 s v ∧ ∀ b, attribute b → attr s' b v = attr s b v.

Lemma same_trans s1 s2 s3 v : same_at s1 s2 v → same_at s2 s3 v → same_at s1 s3 v.
Proof using Type. intros [A1 A2] [B1 B2]. split; [congruence|]. intros b Hb. by rewrite B2, A2. Qed.
Lemma same_leads s s' v x : same_at s s' v → leads s v x → leads s' v x.
Proof using Type. intros [A1 A2] [B1 B2]. split; [congruence|]. intros b Hb. by rewrite A2, B2. Qed.

Lemma prot_attr s v : (A.page_prot HHDM_OFFSET v s).1 =
  match (A.walk HHDM_OFFSET v s).1 with
  | Ok _ => Ok (match attr s A.AP_RO v, attr s A.PXN v with Some r, Some x => Some (negb r, negb x) | _, _ => None end)
  | Err e => Err e
  | Panic => Panic
  end.
Proof using Type. unfold A.page_prot, attr. munfold. by destruct (A.walk HHDM_OFFSET v s) as [[[]|[]|] s1]. Qed.

Lemma leads_intro h s H v x : ready s H 0 → tree s H (root_of h s) → A.high v = h →
  (∀ b, attribute b → (λ y : Z * (bool * bool) * bool, (y.1.1, negb y.1.2.2)) <$> maps (encm b (A.mem s)) (root_of h s) v = (λ y, (y.1, has y.2 b)) <$> x) → leads s v x.
Proof using HHDM_room.
  intros Rd Sp Hv Hx. assert (∀ b, attribute b → attr s b v = (λ y, has y.2 b) <$> x) as Ha.
  { intros b Hb. destruct (view h b s H v Rd Sp Hv) as [_ ->]. specialize (Hx b Hb). destruct (maps _ _ _) as [y|], x as [z|]; cbn in *; congruence. }
  split; [|done]. unfold sees64. rewrite prot_attr, !Ha by done. destruct (walked h A.UXN s H v Rd Sp Hv) as (o & -> & _).
  destruct (view h A.UXN s H v Rd Sp Hv) as [-> _]. specialize (Hx A.UXN attribute_uxn). destruct (maps _ _ _) as [y|], x as [z|]; cbn in *; congruence.
Qed.

Lemma same_intro h s s' H H' v : ready s H 0 → ready s' H' 0 → tree s H (root_of h s) → tree s' H' (root_of h s') → A.high v = h →
  (∀ b, attribute b → maps (encm b (A.mem s')) (root_of h s') v = maps (encm b (A.mem s)) (root_of h s) v) → same_at s s' v.
Proof using HHDM_room.
  intros R1 R2 S1 S2 Hv Hm. assert (∀ b, attribute b → attr s' b v = attr s b v) as Ha.
  { intros b Hb. destruct (view h b s H v R1 S1 Hv) as [_ ->], (view h b s' H' v R2 S2 Hv) as [_ ->]. by rewrite Hm. }
  split; [|done]. unfold sees64. rewrite !prot_attr, !Ha by done.
  destruct (walked h A.UXN s H v R1 S1 Hv) as (o & -> & _), (walked h A.UXN s' H' v R2 S2 Hv) as (o' & -> & _).
  destruct (view h A.UXN s H v R1 S1 Hv) as [-> _], (view h A.UXN s' H' v R2 S2 Hv) as [-> _]. by rewrite Hm.
Qed.

Lemma desc_meaning b pa f v : attribute b → addressed pa → Z.land f A.ADDR_MASK = 0%Z → has f A.VALID = true →
  meaning v (enc b (Z.lor pa f), 0xfff)%Z = ((pa + v mod 4096)%Z, (negb (has f A.AP_RO), negb (has f b)), has f A.AP_EL0).
Proof using Type.
  intros Hb Ha Hf Hv. rewrite enc_with by done. assert (Z.land (enc b f) ADDR_MASK = 0%Z) as E by by rewrite enc_addr.
  rewrite frame_meaning; [|unfold addressed in Ha; rewrite <- Ha; apply mask_mask|done].
  rewrite !enc_has, has_flags_writable, has_flags_nx, has_flags_user, Hv by done. done.
Qed.

(** What an edit leaves at each address of its half. *)
Lemma edited_at h s H n v x l2 pt s' v' : ready s H (S n) → tree s H (root_of h s) → edited64 s H n (root_of h s) v x l2 pt s' → A.high v' = h →
  (page v' ≠ page v → same_at s s' v') ∧
  (page v' = page v → (x = 0%Z → leads s' v' None) ∧
     ∀ pa f, x = Z.lor pa f → addressed pa → Z.land f A.ADDR_MASK = 0%Z → has f A.VALID = true → leads s' v' (Some ((pa + v' mod 4096)%Z, f))).
Proof using HHDM_room.
  intros [R1 R2 R3] Sp Ed Hv. assert (root_of h s' = root_of h s) as Er by (pose proof (e_regs _ _ _ _ _ _ _ _ _ Ed) as E; unfold regs in E; unfold root_of; by injection E as -> -> _ _ _).
  assert (ready s H 0) as Rd by by split. assert (ready s' ({[pt]} ∪ H) 0) as Rd' by (destruct (e_ready _ _ _ _ _ _ _ _ _ Ed); by split).
  pose proof (e_tree _ _ _ _ _ _ _ _ _ Ed) as Sp'. rewrite <- Er in Sp'. pose proof (e_maps _ _ _ _ _ _ _ _ _ Ed) as M. split; [|split].
  - intros Hne. apply (same_intro h s s' H ({[pt]} ∪ H)); try done. intros b Hb. rewrite Er, M by done. by rewrite decide_False.
  - intros ->. apply (leads_intro h s' ({[pt]} ∪ H)); try done. intros b Hb. rewrite Er, M by done. by rewrite decide_True.
  - intros pa f -> Ha Hf Hval. apply (leads_intro h s' ({[pt]} ∪ H)); try done. intros b Hb. rewrite Er, M, decide_True by done.
    rewrite with_flags_has, Hval, desc_meaning by done. cbn. by rewrite negb_involutive.
Qed.

(** The descriptors of a page, as address and attributes. *)
Lemma page_desc_lor pa prot : A.page_desc pa prot = Z.lor pa (A.page_desc 0 prot).
Proof using Type. destruct prot; unfold A.page_desc; rewrite <- !Z.lor_assoc; done. Qed.
Lemma user_page_desc_lor pa prot : A.user_page_desc pa prot = Z.lor pa (A.user_page_desc 0 prot).
Proof using Type. destruct prot; unfold A.user_page_desc; rewrite <- !Z.lor_assoc; done. Qed.
Lemma user_desc_lor pa prot d : addressed pa → A.user_desc pa prot d = Z.lor pa (A.user_desc 0 prot d).
Proof using Type.
  intros Ha. unfold A.user_desc. destruct (d =? 0)%Z; [apply user_page_desc_lor|]. rewrite user_page_desc_lor, Z.lor_assoc. f_equal.
  rewrite !Z.ldiff_land, Z.land_lor_distr_l. f_equal. unfold addressed in Ha. rewrite <- Ha, <- Z.land_assoc. done.
Qed.
Lemma user_desc_ok prot d : Z.land (A.user_desc 0 prot d) A.ADDR_MASK = 0%Z ∧ has (A.user_desc 0 prot d) A.VALID = true.
Proof using Type. unfold A.user_desc. by destruct (d =? 0)%Z, prot. Qed.

(** [map_page] on AArch64: the page maps to [phys] with exactly the attributes of
    [prot]; every other address of that half keeps its translation and each of its
    attributes, also when a block was split on the way; the page is flushed. *)
Theorem a64_map_exact h s H vaddr phys prot l2 :
  ready s H 1 → tree s H (root_of h s) → reaches s (root_of h s) vaddr l2 → A.high vaddr = h → (0 <= phys < 2 ^ 48)%Z → (phys mod 4096 = 0)%Z →
  ∃ s', A.map_page HHDM_OFFSET vaddr phys prot s = (Ok (), s') ∧ regs s' = regs s ∧ A.tlbi s' = A.tlbi s ++ [Z.shiftr (Z.ldiff vaddr 0xfff) 12] ∧
    ∀ v, A.high v = h → (page v = page vaddr → leads s' v (Some ((phys + v mod 4096)%Z, A.page_desc 0 prot))) ∧ (page v ≠ page vaddr → same_at s s' v).
Proof using HHDM_room.
  intros Rd Sp Hc Hv H1 H2. pose proof (low_addressed phys H1 H2) as Ha. destruct (edit_spec h s H 0 vaddr (A.page_desc (Z.land phys A.ADDR_MASK) prot) l2 Rd Sp Hc Hv) as (pt & s' & E & Ed).
  exists s'. split; [done|]. split; [apply (e_regs _ _ _ _ _ _ _ _ _ Ed)|]. split; [apply (e_tlbi _ _ _ _ _ _ _ _ _ Ed)|]. intros v Hv'.
  destruct (edited_at h s H 0 vaddr _ l2 pt s' v Rd Sp Ed Hv') as [P1 P2]. split; [|done]. intros Hp. apply P2; [done| |done|by destruct prot|by destruct prot].
  unfold addressed in Ha. rewrite Ha. apply page_desc_lor.
Qed.

(** [install_guard_page] leaves exactly one page of its half unmapped. *)
Theorem a64_guard_exact h s H vaddr l2 :
  ready s H 1 → tree s H (root_of h s) → reaches s (root_of h s) vaddr l2 → A.high vaddr = h →
  ∃ s', A.install_guard_page HHDM_OFFSET vaddr s = (Ok (), s') ∧ regs s' = regs s ∧ A.tlbi s' = A.tlbi s ++ [Z.shiftr (Z.ldiff vaddr 0xfff) 12] ∧
    ∀ v, A.high v = h → (page v = page vaddr → leads s' v None) ∧ (page v ≠ page vaddr → same_at s s' v).
Proof using HHDM_room.
  intros Rd Sp Hc Hv. destruct (edit_spec h s H 0 vaddr 0 l2 Rd Sp Hc Hv) as (pt & s' & E & Ed).
  exists s'. split; [done|]. split; [apply (e_regs _ _ _ _ _ _ _ _ _ Ed)|]. split; [apply (e_tlbi _ _ _ _ _ _ _ _ _ Ed)|]. intros v Hv'.
  destruct (edited_at h s H 0 vaddr _ l2 pt s' v Rd Sp Ed Hv') as [P1 P2]. split; [|done]. intros Hp. by apply P2.
Qed.

(** ** Tagged memory *)

(** The attributes of a tagged page of the direct map. *)
Definition tagged : Z := Z.lor (Z.lor (Z.lor (Z.lor (Z.lor A.AF A.SH_INNER) A.ATTR_TAGGED) A.TABLE) A.UXN) A.PXN.

Lemma ensure_run h s H n v l2 : ready s H (S n) → tree s H (root_of h s) → reaches s (root_of h s) v l2 → A.high v = h →
  ∃ pt s1 e, A.ensure_l3_table HHDM_OFFSET (Z.ldiff v 0xfff) s = (Ok pt, s1) ∧ A.read_entry HHDM_OFFSET pt (A.lidx (Z.ldiff v 0xfff) 3) s1 = (Ok e, s1) ∧
    maps (encm A.UXN (A.mem s)) (root_of h s) v = if has e A.VALID then Some (meaning v (enc A.UXN e, 0xfff)%Z) else None.
Proof using HHDM_room.
  intros Rd Sp Hc Hv. pose proof (proj1 (ready_okay h A.UXN s H (S n)) Rd) as Ok1.
  destruct (lock_ensure HHDM_OFFSET h A.UXN attribute_uxn (regs s) (Z.ldiff v 0xfff)) with (s := s) as [E _].
  { eapply frame_addressed, (tree_root s H); [|done]. destruct Rd; by split. } { by rewrite high_align. } { split; [exists H; apply Rd|done]. }
  destruct (ensure_pt_spec HHDM_OFFSET HHDM_room (encs h A.UXN s) H n (Z.ldiff v 0xfff) l2 Ok1 Sp) as (pt & s1 & E1 & _ & Ed & _ & SP1 & N1 & M1 & _).
  { by apply covered_align. }
  rewrite E in E1. destruct (A.ensure_l3_table HHDM_OFFSET (Z.ldiff v 0xfff) s) as [[pt'|[]|] s1']; cbn [fst snd rmap id] in *; [|done..]. injection E1 as -> <-.
  pose proof (ok_tabs _ _ _ (ed_okay _ _ _ _ _ _ Ed)) as T1. rewrite page_align in N1. cbn [encs mem cr3] in *.
  destruct (node_ent _ _ _ (page v).1 pt (idx v 0) T1 SP1 ltac:(simpl; lia) N1 (idx_lt v 0)) as (e' & Ee & _). pose proof Ee as Ee'. rewrite ent_enc in Ee.
  destruct (ent (A.mem s1') pt (idx v 0)) as [e|] eqn:En; [|done]. injection Ee as <-. exists pt, s1', e. split; [done|]. split.
  - assert (A.lidx (Z.ldiff v 0xfff) 3 = idx v 0) as ->. { pose proof (page_align v) as P. unfold page in P. injection P as _ _ _ P. exact P. }
    destruct (ent_table _ _ _ _ En) as (T & HT & HE). destruct (tabs_dec _ _ T1 pt T HT) as [Hf _]. unfold A.read_entry. munfold.
    rewrite (phys_ok HHDM_OFFSET HHDM_room) by done. rewrite HT. unfold index. by rewrite HE.
  - rewrite <- M1. unfold maps, leaf_of, entry. unfold page in N1. cbn [fst] in N1. rewrite N1. cbn [mbind option_bind]. rewrite Ee', enc_present. by destruct (has e A.VALID).
Qed.

Lemma map_tagged_edit h s H n v l2 pa : ready s H (S n) → tree s H (root_of h s) → reaches s (root_of h s) v l2 → A.high v = h →
  (A.translate HHDM_OFFSET v s).1 = Ok (Some (pa + v mod 4096)%Z) → A.map_tagged HHDM_OFFSET v s = edit v (Z.lor pa tagged) s.
Proof using HHDM_room.
  intros Rd Sp Hc Hv Ht. destruct (ensure_run h s H n v l2 Rd Sp Hc Hv) as (pt & s1 & e & E & Er & M).
  destruct (view h A.UXN s H v ltac:(destruct Rd; by split) Sp Hv) as [Vt _]. rewrite Vt, M in Ht. destruct (has e A.VALID); [|done]. cbn in Ht. injection Ht as Ht.
  assert (Z.land e A.ADDR_MASK = pa) as Hpa.
  { rewrite enc_addr in Ht. change 0xfff%Z with (Z.ones 12) in Ht. rewrite Z.land_ones in Ht by lia. change (2 ^ 12)%Z with 4096%Z in Ht.
    pose proof (land_bound (enc A.UXN e)) as [_ Al]. rewrite enc_addr in Al. rewrite Z.ldiff_ones_r, Z.shiftl_mul_pow2, Z.shiftr_div_pow2 in Ht by lia. change (2 ^ 12)%Z with 4096%Z in Ht.
    pose proof (Z.div_mod (Z.land e A.ADDR_MASK) 4096 ltac:(lia)). lia. }
  unfold A.map_tagged, edit. rewrite !(bind_run _ _ _ _ _ E), (bind_run _ _ _ _ _ Er), Hpa. unfold tagged. by rewrite !Z.lor_assoc.
Qed.

(** The granules [tag_frame] stores a tag to. *)
Definition granules (base : Z) : list Z := (λ g, base + Z.of_nat g * 16)%Z <$> seq 0 256.

Definition stored s (l : list Z) : A.Mach F :=
  A.mkMach (A.mem s) (A.fr s) (A.ttbr0 s) (A.ttbr1 s) (A.KERNEL_TTBR0 s) (A.KERNEL_TTBR1 s) (A.tlbi s) (A.stg s ++ l).

Lemma tag_loop (f : nat → M (A.Mach F) Empty_set unit) (g : nat → Z) ks s : (∀ k s, k ∈ ks → f k s = (Ok (), stored s [g k])) →
  mfor ks f s = (Ok (), stored s (g <$> ks)).
Proof using Type.
  revert s. induction ks as [|k ks IH]; intros s Hk; [destruct s; unfold stored; cbn; by rewrite app_nil_r|].
  cbn [mfor]. unfold mbind, M_bind. rewrite Hk by left. rewrite IH by (intros; apply Hk; by right). unfold stored. cbn. by rewrite <- app_assoc.
Qed.

Lemma with_tag_room x tag : (0 <= x < 2 ^ 64)%Z → let y := A.with_tag (Z.ldiff x 0xfff) tag in (0 <= y)%Z ∧ (y + 4096 <= 2 ^ 64)%Z.
Proof using Type.
  intros Hx y. assert (Z.ldiff y 0xfff = y ∧ Z.land y (Z.ones 64) = y) as [Y1 Y2].
  { split; apply Z.bits_inj'; intros i Hi; unfold y, A.with_tag; rewrite ?Z.ldiff_spec, ?Z.land_spec, !Z.lor_spec, !Z.ldiff_spec, !Z.shiftl_spec, !Z.land_spec by done.
    - change 0xfff%Z with (Z.ones 12). rewrite !Z.testbit_ones_nonneg by lia. destruct (Z.ltb_spec i 12); [|by rewrite !andb_true_r].
      rewrite (Z.testbit_neg_r tag) by lia. by rewrite !andb_false_r.
    - rewrite Z.testbit_ones_nonneg by lia. destruct (Z.ltb_spec i 64) as [|Hi']; [by rewrite andb_true_r|].
      change 15%Z with (Z.ones 4). rewrite (Z.testbit_ones_nonneg 4 (i - 56)) by lia. rewrite (proj2 (Z.ltb_ge (i - 56) 4)) by lia.
      rewrite (Z.bits_above_log2 x i); [by rewrite ?andb_false_r|lia|]. destruct (decide (x = 0)%Z) as [->|]; [simpl; lia|]. apply Z.log2_lt_pow2; [lia|].
      apply Z.lt_le_trans with (2 ^ 64)%Z; [lia|by apply Z.pow_le_mono_r]. }
  rewrite Z.land_ones in Y2 by lia. pose proof (Z.mod_pos_bound y (2 ^ 64) ltac:(lia)). change 0xfff%Z with (Z.ones 12) in Y1.
  rewrite Z.ldiff_ones_r, Z.shiftl_mul_pow2, Z.shiftr_div_pow2 in Y1 by lia. lia.
Qed.

Lemma tag_frame_run x d s : (0 <= x < 2 ^ 64)%Z → A.tag_frame x (wrap 8 (Z.land d 15)) s = (Ok (), stored s (granules (A.with_tag (Z.ldiff x 0xfff) d))).
Proof using Type.
  intros Hx. assert (A.with_tag (Z.ldiff x 0xfff) (wrap 8 (Z.land d 15)) = A.with_tag (Z.ldiff x 0xfff) d) as E.
  { unfold A.with_tag. do 2 f_equal. unfold wrap. rewrite <- Z.land_ones by lia. rewrite <- !Z.land_assoc. done. }
  unfold A.tag_frame. cbv zeta. rewrite E. destruct (with_tag_room x d Hx) as [W1 W2]. apply tag_loop.
  intros k s1 [_ Hk]%elem_of_seq. unfold mbind, M_bind, lift. rewrite !arith_in by (unfold in_u; lia). done.
Qed.

(** ** Both halves *)

(** The tables below the two roots are different ones. *)
Definition apart s (r r' : Z) : Prop := ∀ p q t, length p ≤ 3 → length q ≤ 3 →
  node (encm A.UXN (A.mem s)) r p = Some t → node (encm A.UXN (A.mem s)) r' q = Some t → False.
Lemma apart_sym s r r' : apart s r r' → apart s r' r.
Proof using Type. intros Ap p q t Lp Lq Np Nq. by apply (Ap q p t). Qed.

Section other.
Context (s s' : A.Mach F) (H : gset Z) (n : nat) (r v x l2 pt r' : Z).
Hypothesis Ed : edited64 s H n r v x l2 pt s'.
Hypothesis Hc : reaches s r v l2.
Hypothesis Sp : tree s H r'.
Hypothesis Ap : apart s r r'.

Lemma other_keeps b : attribute b → keeps (encm b (A.mem s)) (encm b (A.mem s')) r'.
Proof using Ed Hc Sp Ap.
  intros Hb p t Lp Np. rewrite (node_enc b A.UXN) in Np. apply (e_only _ _ _ _ _ _ _ _ _ Ed); [done|by apply (sp_held _ _ _ Sp p)|].
  intros [->|[->|[]%not_elem_of_nil]%elem_of_cons]%elem_of_cons.
  - destruct (e_table _ _ _ _ _ _ _ _ _ Ed) as [Hn|Hn]; [apply Hn; by apply (sp_held _ _ _ Sp p)|exact (Ap (page v).1 p pt ltac:(simpl; lia) Lp Hn Np)].
  - exact (Ap [idx v 3; idx v 2] p l2 ltac:(simpl; lia) Lp (proj1 Hc) Np).
Qed.
Lemma other_tree : tree s' ({[pt]} ∪ H) r'.
Proof using Ed Hc Sp Ap. apply (is_space_mono _ H); [apply union_subseteq_r|]. exact (keeps_space _ _ _ _ (other_keeps _ attribute_uxn) Sp). Qed.
Lemma other_maps b v' : attribute b → maps (encm b (A.mem s')) r' v' = maps (encm b (A.mem s)) r' v'.
Proof using Ed Hc Sp Ap. intros Hb. apply keeps_maps. by apply other_keeps. Qed.
Lemma other_apart : apart s' r r'.
Proof using Ed Hc Sp Ap.
  intros p q t Lp Lq Np Nq. rewrite (keeps_node _ _ _ _ (other_keeps _ attribute_uxn)) in Nq by lia.
  destruct (e_adds _ _ _ _ _ _ _ _ _ Ed p t Lp Np) as [No| ->]; [by apply (Ap p q t)|].
  destruct (e_table _ _ _ _ _ _ _ _ _ Ed) as [Hn|Hn]; [apply Hn; by apply (sp_held _ _ _ Sp q)|exact (Ap (page v).1 q pt ltac:(simpl; lia) Lq Hn Nq)].
Qed.
Lemma other_reaches v' l : reaches s r' v' l → reaches s' r' v' l.
Proof using Ed Hc Sp Ap. intros C. eapply keeps_covered; [by apply other_keeps|done]. Qed.
End other.

Lemma map_user_run vaddr phys prot d s s1 : edit vaddr (A.user_desc (Z.land phys A.ADDR_MASK) prot d) s = (Ok (), s1) →
  A.map_user_page HHDM_OFFSET vaddr phys prot d s =
  (if (d =? 0)%Z then mret () else
     hhdm ← lift (phys_to_virt HHDM_OFFSET (Z.land phys A.ADDR_MASK)); A.map_tagged HHDM_OFFSET hhdm;; A.tag_frame hhdm (wrap 8 (Z.land d 15))) s1.
Proof using Type.
  unfold edit, A.map_user_page. intros E. unfold mbind, M_bind in E |- *. destruct (A.ensure_l3_table _ _ s) as [[l3|[]|] s2]; [|done..].
  destruct (A.write_entry _ _ _ _ s2) as [[[]|[]|] s3]; [|done..]. by injection E as <-.
Qed.

Lemma regs_roots s s' : regs s' = regs s → A.ttbr0 s' = A.ttbr0 s ∧ A.ttbr1 s' = A.ttbr1 s ∧ A.stg s' = A.stg s.
Proof using Type. unfold regs. by intros [= -> -> _ _ ->]. Qed.

(** An edit of one half, seen from both. *)
Lemma half_edit h s H n v pa f l2 : ready s H (S n) → tree s H (root_of h s) → tree s H (root_of (negb h) s) → apart s (root_of h s) (root_of (negb h) s) →
  A.high v = h → reaches s (root_of h s) v l2 → addressed pa → Z.land f A.ADDR_MASK = 0%Z → has f A.VALID = true →
  ∃ pt s', edit v (Z.lor pa f) s = (Ok (), s') ∧ edited64 s H n (root_of h s) v (Z.lor pa f) l2 pt s' ∧
    (∀ h, root_of h s' = root_of h s) ∧ A.stg s' = A.stg s ∧
    (∀ v', A.high v' = h → (page v' = page v → leads s' v' (Some ((pa + v' mod 4096)%Z, f))) ∧ (page v' ≠ page v → same_at s s' v')) ∧
    (∀ v', A.high v' = negb h → same_at s s' v').
Proof using HHDM_room.
  intros Rd S0 S1 Ap Hv C0 Ha Hf1 Hf2. destruct (edit_spec h s H n v (Z.lor pa f) l2 Rd S0 C0 Hv) as (pt & s1 & E & Ed).
  destruct (regs_roots s s1 (e_regs _ _ _ _ _ _ _ _ _ Ed)) as (T0 & T1 & Ts). assert (∀ h, root_of h s1 = root_of h s) as Er by (intros []; done).
  exists pt, s1. do 4 (split; [done|]). split; intros v' Hv'.
  - destruct (edited_at h s H n v _ l2 pt s1 v' Rd S0 Ed Hv') as [P1 P2]. split; [|done]. intros Hp. by apply P2.
  - pose proof (e_ready _ _ _ _ _ _ _ _ _ Ed) as Rd1. apply (same_intro (negb h) s s1 H ({[pt]} ∪ H)); [destruct Rd; by split|destruct Rd1; by split|done| |done|].
    + rewrite Er. exact (other_tree s s1 H n _ _ _ _ _ _ Ed C0 S1 Ap).
    + intros b Hb. rewrite Er. exact (other_maps s s1 H n _ _ _ _ _ _ Ed C0 S1 Ap b v' Hb).
Qed.


(** ** A process's own space *)

(** [s] with a space active. *)
Definition act (sp : AddressSpace) s : A.Mach F := (A.activate_address_space sp s).2.

Lemma new_locked b s H k : attribute b → ready s H (515 + k) → tree s H (A.KERNEL_TTBR0 s) →
  is_Some (node (encm A.UXN (A.mem s)) (A.KERNEL_TTBR0 s) [0; 1]) →
  ∃ r s' H', A.new_process_space HHDM_OFFSET s = (Ok (mkSpace (A.KERNEL_TTBR1 s) r), s') ∧ regs s' = regs s ∧ ready s' H' k ∧ H ⊆ H' ∧
    cloned (encm b (A.mem s)) (encm b (A.mem s')) H (A.KERNEL_TTBR0 s) r ∧ (∀ q t, own_path q → node (encm b (A.mem s')) r q = Some t → t ∈ H').
Proof using HHDM_room.
  intros Hb Rd Sp Hn. destruct (lock_new HHDM_OFFSET false b Hb (regs s) s) as [E Q].
  { split; [exists H; apply Rd|done]. }
  destruct (new_process_space_spec k HHDM_OFFSET HHDM_room (encs false b s) H) as (r & s1 & H' & E1 & Ok1 & HH & Cl & Hown & _ & _ & _ & _).
  { by apply ready_okay. } { by eapply space_enc. } { cbn [encs mem KERNEL_PML4]. by rewrite (node_enc b A.UXN). }
  rewrite E in E1. destruct (A.new_process_space HHDM_OFFSET s) as [[[p q]|[]|] s']; cbn [fst snd rmap] in *; [|done..]. injection E1 as -> <-.
  destruct (Q _ eq_refl) as [(_ & HR) Hp]. cbn [primary regs fst snd] in Hp. subst p. cbn [secondary] in *.
  exists r, s', H'. do 2 (split; [done|]). split; [by apply (ready_okay false b)|done].
Qed.

(** What lies below a root is left alone by an edit of other tables. *)
Lemma kept_low s s' H H' k : ready s H 0 → ready s' H' 0 → H ⊆ H' → tree s H k → (∀ b, attribute b → keeps (encm b (A.mem s)) (encm b (A.mem s')) k) →
  ∀ p p' v, A.high v = false → same_at (act (mkSpace p k) s) (act (mkSpace p' k) s') v.
Proof using HHDM_room.
  intros Rd Rd' HH Sp K p p' v Hv. apply (same_intro false _ _ H H'); [destruct Rd; by split|destruct Rd'; by split|exact Sp| |done|].
  - exact (is_space_mono _ H H' _ HH (keeps_space _ _ _ _ (K _ attribute_uxn) Sp)).
  - intros b Hb. exact (keeps_maps _ _ _ v (K b Hb)).
Qed.

Lemma window_low v : window v → A.high v = false.
Proof using Type.
  unfold window, A.high, has. intros Hw. apply negb_false_iff, Z.eqb_eq. rewrite Z.shiftl_1_l. apply Z.bits_inj'. intros i Hi. rewrite Z.land_spec, Z.pow2_bits_eqb, Z.bits_0 by lia.
  destruct (Z.eqb_spec 63 i) as [<-|]; [|by rewrite andb_false_r]. rewrite Z.bits_above_log2; [done|lia|]. apply Z.log2_lt_pow2; lia.
Qed.

(** A page mapped in a clone of [k] is not seen below [k]. *)
Lemma clone_map s s1 H H' k r u vaddr phys prot l2 :
  ready s H 0 → ready s1 H' 1 → H ⊆ H' → tree s H k → tree s1 H' r → (∀ b, attribute b → cloned (encm b (A.mem s)) (encm b (A.mem s1)) H k r) →
  window vaddr → reaches s k vaddr l2 → frame_ok phys →
  ∃ s2, A.map_user_page HHDM_OFFSET vaddr phys prot 0 (act (mkSpace u r) s1) = (Ok (), s2) ∧
    ∀ v, A.high v = false →
      (page v = page vaddr → leads s2 v (Some ((phys + v mod 4096)%Z, A.user_desc 0 prot 0))) ∧
      (page v ≠ page vaddr → same_at (act (mkSpace u r) s1) s2 v) ∧ same_at (act (mkSpace u k) s) (act (mkSpace u k) s2) v.
Proof using HHDM_room.
  intros Rd Rd1 HH Sp S1 Cls Hw Hc Hf. pose proof (Cls _ attribute_uxn) as Cl. destruct (window_idx vaddr Hw) as [I3 I2].
  destruct (cl_window _ _ _ _ _ Cl vaddr l2 I3 I2 Hc) as [l2' Hc']. set (a := act (mkSpace u r) s1). assert (ready a H' 1) as Rda by (destruct Rd1; by split).
  destruct (edit_spec false a H' 0 vaddr (A.user_desc (Z.land phys A.ADDR_MASK) prot 0) l2' Rda S1 Hc' (window_low _ Hw)) as (pt & s2 & E2 & Ed).
  change (root_of false a) with r in Ed. exists s2. split; [by rewrite (map_user_run _ _ _ _ _ _ E2)|]. intros v Hv. destruct (user_desc_ok prot 0) as [D1 D2].
  destruct (edited_at false a H' 0 vaddr _ l2' pt s2 v Rda S1 Ed Hv) as [P1 P2]. split; [|split; [done|]].
  - intros Hp. pose proof (frame_addressed phys Hf) as Hfa. apply P2; [done| |done..]. pose proof Hfa as E0. unfold addressed in E0. rewrite E0. by apply user_desc_lor.
  - apply (kept_low s s2 H ({[pt]} ∪ H') k); [done| |intros t Ht; apply elem_of_union_r; by apply HH|done| |done].
    { destruct (e_ready _ _ _ _ _ _ _ _ _ Ed). by split. }
    intros b Hb p t Lp Np. rewrite (node_enc b A.UXN) in Np. destruct (sp_held _ _ _ Sp p t Lp Np) as [Ht _].
    rewrite (e_only _ _ _ _ _ _ _ _ _ Ed b t Hb (HH t Ht)); [exact (cl_keep _ _ _ _ _ (Cls b Hb) t Ht)|].
    pose proof (window_own vaddr Hw) as Wo. intros [->|[->|[]%not_elem_of_nil]%elem_of_cons]%elem_of_cons.
    + destruct (e_table _ _ _ _ _ _ _ _ _ Ed) as [Hn|Hn]; [by apply Hn, HH|]. by apply (cl_own _ _ _ _ _ Cl _ _ Wo Hn).
    + refine (proj1 (cl_own _ _ _ _ _ Cl [0; 1] l2' _ _) Ht); [right; right; by left|]. pose proof (proj1 Hc') as N. by rewrite I3, I2 in N.
Qed.

End views.

(** ** Cache maintenance *)

Lemma lines_cover {E} fuel a fin step : (0 < step)%Z → (0 <= a)%Z → (fin + step <= 2 ^ 64)%Z → (fin - a <= Z.of_nat fuel * step)%Z →
  ∃ l, A.lines (E := E) fuel a fin step = Ok l ∧ ∀ x, (a <= x < fin)%Z → ∃ y, y ∈ l ∧ (y <= x < y + step)%Z.
Proof.
  intros Hs Ha Hf. revert a Ha. induction fuel as [|fuel IH]; intros a Ha Hl; cbn [A.lines]; (destruct (Z.ltb_spec a fin) as [Hlt|Hge]; [|exists []; split; [done|lia]]); [lia|].
  rewrite arith_in by (unfold in_u; lia). destruct (IH (a + step)%Z ltac:(lia) ltac:(lia)) as (l & E1 & C). cbn. rewrite E1. exists (a :: l). split; [done|].
  intros x Hx. destruct (Z.lt_ge_cases x (a + step)) as [Hn|Hn]; [exists a; split; [left|lia]|]. destruct (C x ltac:(lia)) as (y & Hy & ?). exists y. split; [by right|done].
Qed.

(** [sync_instruction_cache] cleans and invalidates, for whatever line sizes the
    processor reports, a line around every byte of the range it is given. *)
Theorem icache_covered {E} ctr vaddr len : (0 <= ctr)%Z → (0 <= vaddr)%Z → (vaddr + Z.of_nat len + 2 ^ 17 <= 2 ^ 64)%Z →
  ∃ d i, A.sync_instruction_cache (E := E) ctr vaddr len = Ok (d, i) ∧
    ∀ x, (vaddr <= x < vaddr + Z.of_nat len)%Z →
      (∃ y, y ∈ d ∧ y <= x < y + Z.shiftl 4 (Z.land (Z.shiftr ctr 16) 15))%Z ∧ (∃ y, y ∈ i ∧ y <= x < y + Z.shiftl 4 (Z.land ctr 15))%Z.
Proof.
  intros Hc Hv Hr. unfold A.sync_instruction_cache. destruct (Nat.eqb_spec len 0) as [->|Hl]; [exists [], []; split; [done|lia]|].
  assert (∀ k, let step := Z.shiftl 4 (Z.land k 15) in (4 <= step <= 2 ^ 17)%Z ∧
    ∃ l, A.lines (E := E) (S len) (Z.ldiff vaddr (step - 1)) (vaddr + Z.of_nat len) step = Ok l ∧
      ∀ x, (vaddr <= x < vaddr + Z.of_nat len)%Z → ∃ y, y ∈ l ∧ (y <= x < y + step)%Z) as L.
  { intros k. pose proof (land_below k 15 ltac:(lia)) as Hk. set (m := Z.land k 15) in *. cbv zeta. rewrite Z.shiftl_mul_pow2 by lia.
    replace (4 * 2 ^ m)%Z with (2 ^ (2 + m))%Z by (rewrite Z.pow_add_r by lia; done). set (p := (2 + m)%Z). pose proof (Z.pow_le_mono_r 2 2 p ltac:(lia) ltac:(lia)).
    pose proof (Z.pow_le_mono_r 2 p 17 ltac:(lia) ltac:(lia)). split; [lia|]. replace (2 ^ p - 1)%Z with (Z.ones p) by (rewrite Z.ones_equiv; lia).
    rewrite Z.ldiff_ones_r, Z.shiftl_mul_pow2, Z.shiftr_div_pow2 by lia. pose proof (Z.div_mod vaddr (2 ^ p) ltac:(lia)). pose proof (Z.mod_pos_bound vaddr (2 ^ p) ltac:(lia)).
    pose proof (Z.div_pos vaddr (2 ^ p) Hv ltac:(lia)). destruct (lines_cover (E := E) (S len) (vaddr / 2 ^ p * 2 ^ p)%Z (vaddr + Z.of_nat len)%Z (2 ^ p)%Z) as (l & E1 & C); [lia|nia|lia|nia|].
    exists l. split; [done|]. intros x Hx. apply C. lia. }
  destruct (L (Z.shiftr ctr 16)) as (_ & d & Ed & Cd). destruct (L ctr) as (_ & i & Ei & Ci). cbv zeta. rewrite arith_in by (unfold in_u; lia). cbn -[A.lines]. rewrite Ed, Ei.
  exists d, i. split; [done|]. intros x Hx. split; [by apply Cd|by apply Ci].
Qed.

Lemma icache_covered_witness : ∃ d i, A.sync_instruction_cache (E := Empty_set) 0x44 4100 3 = Ok (d, i) ∧ ∃ y, y ∈ i ∧ (y <= 4102 < y + 64)%Z.
Proof.
  destruct (icache_covered (E := Empty_set) 0x44 4100 3) as (d & i & R & C); [lia|lia|lia|]. exists d, i. split; [exact R|]. exact (proj2 (C 4102%Z ltac:(lia))).
Defined.
