(* ===== verification/PagingA64Boot.v ===== *)
(** * The AArch64 kernel's own tables

    [build_address_space] makes a root per half: with the privileged no-execute bit
    as the attribute kept, its moves are those of PagingBuild on each root, and the
    second does not touch the tables of the first. *)

From stdpp Require Import sets.
From S2P Require Import Prelude Arch Buddy BuddyInv BuddyProps MemInit MemInitProps Frames.
From S2P Require Import Paging PagingInv PagingOps PagingClone PagingWorld PagingBuild PagingBoot PagingTheorems PagingA64Sim PagingA64Theorems.

#[local] Opaque idx.

(** ** The descriptors *)

Lemma low_desc_lor pa : ∃ f, A.low_desc pa = Z.lor pa f ∧ Z.land f A.ADDR_MASK = 0%Z ∧
  enc A.PXN f = Z.lor (Z.lor (Z.lor PRESENT WRITABLE) HUGE) NX.
Proof. unfold A.low_desc. destruct (pa <? A.RAM_BASE)%Z; rewrite <- !Z.lor_assoc; by eexists. Qed.

Lemma enc_low g j : g < 512 → j < 512 →
  enc A.PXN (A.low_desc (Z.lor (wrap 64 (Z.shiftl (Z.of_nat g) 30)) (wrap 64 (Z.shiftl (Z.of_nat j) 21)))) = low_entry g j.
Proof.
  intros Hg Hj. unfold low_entry. rewrite low_base by done. set (pa := (_ + _)%Z). destruct (low_desc_lor pa) as (f & -> & Hf & Ef).
  rewrite enc_with, Ef, <- !Z.lor_assoc; [done|apply attribute_pxn| |done]. apply low_addressed; unfold pa; [lia|].
  replace (Z.of_nat g * 2 ^ 30 + Z.of_nat j * 2 ^ 21)%Z with ((Z.of_nat g * 2 ^ 18 + Z.of_nat j * 2 ^ 9) * 4096)%Z by lia. apply Z.mod_mul. lia.
Qed.

Lemma enc_page pa prot : addressed pa → enc A.PXN (A.page_desc pa prot) = Z.lor pa (leaf_bits prot).
Proof.
  intros Ha. rewrite page_desc_lor, enc_with; [by destruct prot|apply attribute_pxn|done|by destruct prot].
Qed.

(** The image lies in the 48 bits of an AArch64 descriptor. *)
Definition image64 (km : KernelMap) : Prop := image_ok km ∧ (kernel_phys km < 2 ^ 47)%Z.

Section boot.
Context {F : Type} {FS : FrameSource F}.
Variable HHDM_OFFSET : Z.
Hypothesis HHDM_room : (0 <= HHDM_OFFSET <= 2 ^ 64 - 2 ^ 44)%Z.
Implicit Types s : A.Mach F.

Section lockstep.
Variables (h : bool) (R : Z * Z * Z * Z * list Z).
Let b := A.PXN.
Abbreviation locks := (lock h b).
Abbreviation ok := (rooted R).

Lemma lock_fact {X Y} (φ : Prop) P (a : M (A.Mach F) Empty_set X) (x : M (Mach F) Empty_set Y) g Q :
  (φ → locks P a x g Q) → locks (λ s, φ ∧ P s) a x g Q.
Proof using Type. intros L s [Hφ Hs]. by apply L. Qed.

Lemma lock_link {X Y} t i (k : Z → M (A.Mach F) Empty_set X) (k' : Z → M (Mach F) Empty_set Y) g Q : (∀ x, locks ok (k x) (k' x) g Q) →
  locks ok (x ← A.alloc_table HHDM_OFFSET; A.write_entry HHDM_OFFSET t i (Z.lor x A.TABLE);; k x)
    (x ← alloc_table HHDM_OFFSET; write_entry HHDM_OFFSET t i (Z.lor (Z.lor x PRESENT) WRITABLE);; k' x) g Q.
Proof using Type.
  intros L. eapply lock_bind; [apply lock_alloc|]. intros x. apply lock_fact. intros Hx. cbn [id]. rewrite <- (enc_table b) by (done || apply attribute_pxn).
  eapply (lock_bind h b ok _ _ id (λ _, ok)); [apply lock_write, rooted_same|]. intros []. apply L.
Qed.

Lemma lock_gib l1 g : g < 512 → locks ok (A.map_low_gib HHDM_OFFSET l1 g) (map_low_gib HHDM_OFFSET l1 g) id (λ _, ok).
Proof using Type.
  intros Hg. unfold A.map_low_gib, map_low_gib. apply lock_link. intros x. apply lock_mfor. intros j [_ Hj]%elem_of_seq. cbv zeta.
  fold (low_entry g j). rewrite <- enc_low by lia. apply lock_write, rooted_same.
Qed.

Lemma lock_low l0 i bytes : Z.to_nat (div_ceil bytes GIB) ≤ 512 → locks ok (A.map_low HHDM_OFFSET l0 i bytes) (map_low HHDM_OFFSET l0 i bytes) id (λ _, ok).
Proof using Type.
  intros Hn. unfold A.map_low, map_low. apply lock_link. intros x. apply lock_mfor. intros g [_ Hg]%elem_of_seq. apply lock_gib.
  change A.GIB with GIB in Hg. lia.
Qed.

Lemma lock_image km l3 : image64 km → ∀ fuel v, (kernel_vbase km <= v)%Z → ((v - kernel_vbase km) mod 4096 = 0)%Z →
  locks ok (A.map_kernel_loop HHDM_OFFSET fuel km l3 v) (map_kernel_loop HHDM_OFFSET fuel km l3 v) id (λ _, ok).
Proof using Type.
  clear HHDM_room. intros [I Hp] fuel. induction fuel as [|fuel IH]; intros v Hv Hm; cbn [A.map_kernel_loop map_kernel_loop];
    (destruct (Z.ltb_spec v (kernel_vend km)) as [Hl|_]; [|exact (lock_ret h b ok () id (λ _, ok) (λ _ H, H))]); [apply lock_panic|].
  eapply lock_bind; [by apply (lock_lift h b _ _ (arith 64 (v - kernel_vbase km)) id); destruct (arith _ _)|]. intros off. cbn [id].
  eapply lock_bind; [by apply (lock_lift h b _ _ (arith 64 (kernel_phys km + off)) id); destruct (arith _ _)|]. intros pa. cbn [id].
  apply (lock_weaken h b (λ s, (pa = kernel_phys km + (v - kernel_vbase km))%Z ∧ ok s) _ _ _ _ (λ _, ok)); [|intros s [[Hs [_ ->]%arith_Ok] [_ ->]%arith_Ok]; done|done].
  apply lock_fact. intros ->. destruct I. change (A.lidx v 3) with (idx v 0). change (A.section_prot km v) with (section_prot km v). rewrite <- enc_page.
  - eapply (lock_bind h b ok _ _ id (λ _, ok)); [apply lock_write, rooted_same|]. intros []. change A.PAGE with PAGE.
    eapply lock_bind; [by apply (lock_lift h b _ _ (arith 64 (v + PAGE)) id); destruct (arith _ _)|]. intros v'. cbn [id].
    apply (lock_weaken h b (λ s, (v' = v + PAGE)%Z ∧ ok s) _ _ _ _ (λ _, ok)); [|intros s [Hs [_ ->]%arith_Ok]; done|done].
    apply lock_fact. intros ->. apply IH; unfold PAGE; [lia|]. replace (v + 4096 - _)%Z with (v - kernel_vbase km + 1 * 4096)%Z by lia. by rewrite Z.mod_add by lia.
  - apply low_addressed; [lia|]. by rewrite Z.add_mod, Hm, im_frame by lia.
Qed.

Lemma lock_kernel l0 km : image64 km → locks ok (A.map_kernel HHDM_OFFSET l0 km) (map_kernel HHDM_OFFSET l0 km) id (λ _, ok).
Proof using Type.
  intros I. unfold A.map_kernel, map_kernel. do 3 (apply lock_link; intros ?). apply lock_image; [done|lia|by rewrite Z.sub_diag].
Qed.
End lockstep.

(** A run of the encoded machine, read back. *)
Lemma lock_run {X} h b P (a : M (A.Mach F) Empty_set X) x Q s v sx : lock h b P a x id Q → P s → x (encs h b s) = (Ok v, sx) →
  ∃ s', a s = (Ok v, s') ∧ sx = encs h b s' ∧ Q v s'.
Proof using Type.
  intros L Hs E. destruct (L s Hs) as [E1 HQ]. rewrite E in E1. destruct (a s) as [[w|[]|] s1]; cbn [fst snd rmap id] in *; [|done..].
  injection E1 as -> ->. exists s1. split; [done|]. split; [done|]. by apply HQ.
Qed.

(** ** The whole map *)

Definition low_view (km : KernelMap) : Z → option (Z * (bool * bool) * bool) := low_maps 0 (gibs km) (λ _, None).
Definition high_view (km : KernelMap) : Z → option (Z * (bool * bool) * bool) :=
  image_maps km (image_pages km) (low_maps (idx (hhdm_offset km) 3) (gibs km) (λ _, None)).

(** The tables below [t0] and [t1] map the two halves. *)
Record halves (km : KernelMap) s (H : gset Z) (k : nat) (t0 t1 : Z) : Prop := {
  h_ready : ready s H k;
  h_low : tree s H t0;
  h_high : tree s H t1;
  h_apart : apart s t0 t1;
  h_low_maps v : maps (encm A.PXN (A.mem s)) t0 v = low_view km v;
  h_high_maps v : maps (encm A.PXN (A.mem s)) t1 v = high_view km v;
  h_low_reach v : is_Some (low_view km v) → ∃ l2, reaches s t0 v l2;
  h_high_reach v : is_Some (high_view km v) → ∃ l2, reaches s t1 v l2
}.

Lemma half_run s H H0 k i bytes n : rooted (regs s) s → H0 ⊆ H → okay (encs false A.PXN s) H (S (S n + k)) → i < 512 → n = Z.to_nat (div_ceil bytes GIB) → n ≤ 512 →
  ∃ t s1 s2 H2, A.alloc_table HHDM_OFFSET s = (Ok t, s1) ∧ A.map_low HHDM_OFFSET t i bytes s1 = (Ok (), s2) ∧ rooted (regs s) s2 ∧
    building H0 (encs false A.PXN s) (encs false A.PXN s2) H2 t k (low_maps i n (λ _, None)) ∧ H ⊆ H2 ∧
    ∀ j, j < 512 → j ≠ i → entry (encm A.PXN (A.mem s2)) t [] j = Some 0%Z.
Proof using HHDM_room.
  intros Ro HH Hok Hi Hn Hn5. destruct (empty_run HHDM_OFFSET HHDM_room H0 (encs false A.PXN s) H _ HH Hok) as (t & sx & R1 & B1 & E1).
  destruct (lock_run _ _ _ _ _ _ _ _ _ (lock_alloc HHDM_OFFSET false A.PXN (regs s)) Ro R1) as (s1 & Ra & -> & _ & Ro1).
  destruct (low_run HHDM_OFFSET HHDM_room H0 (encs false A.PXN s) _ _ t k (λ _, None) i bytes n B1 Hi Hn Hn5 (E1 i Hi)) as (sy & H2 & R2 & B2 & S2 & E2).
  destruct (lock_run _ _ _ _ _ _ _ _ _ (lock_low false (regs s) t i bytes ltac:(lia)) Ro1 R2) as (s2 & Rb & -> & Ro2).
  exists t, s1, s2, H2. split; [done|]. split; [done|]. split; [done|]. split; [done|]. split; [intros u Hu; by apply S2, elem_of_union_r|].
  intros j Hj Hne. rewrite <- (E1 j Hj). exact (E2 j Hne).
Qed.

Lemma built s H k km : ready s H (7 + 2 * gibs km + k) → image64 km → gibs km ≤ 512 → idx (kernel_vbase km) 3 ≠ idx (hhdm_offset km) 3 →
  ∃ t0 t1 s' H', A.build_address_space HHDM_OFFSET km s = (Ok (mkSpace t1 t0), s') ∧ halves km s' H' k t0 t1 ∧
    regs s' = (A.ttbr0 s, A.ttbr1 s, t0, t1, A.stg s).
Proof using HHDM_room.
  intros Rd I Hg Hne. set (n := gibs km) in *. assert (rooted (regs s) s) as Ro by (split; [exists H; apply Rd|done]).
  destruct (half_run s H ∅ (5 + n + k) 0 (identity_bytes km) n Ro (empty_subseteq _)) as (t0 & s1 & s2 & H2 & R1 & R2 & Ro2 & B2 & S2 & _); [|lia|done|done|].
  { replace (S (S n + (5 + n + k))) with (7 + 2 * n + k) by lia. by apply ready_okay. }
  assert (regs s2 = regs s) as Rg by apply Ro2. rewrite <- Rg in Ro2.
  destruct (half_run s2 H2 H2 (3 + k) (idx (hhdm_offset km) 3) (identity_bytes km) n Ro2) as (t1 & s3 & s4 & H4 & R3 & R4 & Ro4 & B4 & S4 & E4); [done| |apply idx_lt|done|done|].
  { replace (S (S n + (3 + k))) with (5 + n + k) by lia. apply (b_okay _ _ _ _ _ _ _ B2). }
  destruct (kernel_run HHDM_OFFSET HHDM_room H2 _ _ H4 t1 k _ km B4 (proj1 I) (E4 _ (idx_lt _ _) Hne)) as (sz & H5 & R5 & B5 & S5).
  destruct (lock_run _ _ _ _ _ _ _ _ _ (lock_kernel false (regs s2) t1 km I) Ro4 R5) as (s5 & Rc & -> & Ro5).
  exists t0, t1. eexists _, H5. split.
  { unfold A.build_address_space. rewrite (bind_run _ _ _ _ _ R1), (bind_run _ _ _ _ _ R2), (bind_run _ _ _ _ _ R3), (bind_run _ _ _ _ _ R4), (bind_run _ _ _ _ _ Rc). reflexivity. }
  assert (regs s5 = regs s) as Rg5 by (rewrite (proj2 Ro5); done). unfold regs in Rg5 |- *. cbn [A.ttbr0 A.ttbr1 A.KERNEL_TTBR0 A.KERNEL_TTBR1 A.stg]. injection Rg5 as E0 E1 _ _ Es.
  split; [|by rewrite E0, E1, Es]. clear R1 R2 R3 R4 Rc R5 E4. destruct B2 as [O2 P2 M2 C2 _ _ _ _ _ _]. destruct B5 as [O5 P5 M5 C5 _ _ _ _ Ow Re].
  cbn [encs mem] in *. assert (keeps (encm A.PXN (A.mem s2)) (encm A.PXN (A.mem s5)) t0) as K.
  { intros p t Lp Np. apply Re. by apply (sp_held _ _ _ P2 p). }
  split; unfold tree, reaches, apart; cbn [A.mem].
  - apply (ready_okay false A.PXN) in O5. destruct O5. by split.
  - eapply space_enc, (is_space_mono _ H2), keeps_space; [|done|done]. by etrans.
  - by eapply space_enc.
  - intros p q t Lp Lq Np Nq. rewrite (node_enc _ A.PXN) in Np, Nq. rewrite (keeps_node _ _ _ _ K) in Np by lia. apply (Ow q t Lq Nq). by apply (sp_held _ _ _ P2 p).
  - intros v. by rewrite (keeps_maps _ _ _ v K), M2.
  - exact M5.
  - intros v Hv. destruct (C2 v Hv) as [l2 Hc]. exists l2. eapply covered_enc, keeps_covered; done.
  - intros v Hv. destruct (C5 v Hv) as [l2 Hc]. exists l2. by eapply covered_enc.
Qed.

Lemma high_spec v : (0 <= v < 2 ^ 64)%Z → A.high v = (2 ^ 63 <=? v)%Z.
Proof using Type.
  clear HHDM_room. intros Hv. assert (A.high v = Z.testbit v 63) as ->.
  { unfold A.high, has. rewrite Z.shiftl_1_l. destruct (Z.testbit v 63) eqn:E.
    - apply negb_true_iff, Z.eqb_neq. intros Hz. apply (f_equal (λ z, Z.testbit z 63)) in Hz. rewrite Z.land_spec, E in Hz. done.
    - apply negb_false_iff, Z.eqb_eq, Z.bits_inj'. intros i Hi. rewrite Z.land_spec, Z.pow2_bits_eqb, Z.bits_0 by lia.
      destruct (Z.eqb_spec 63 i) as [<-|]; [by rewrite E|apply andb_false_r]. }
  destruct (Z.leb_spec (2 ^ 63) v) as [Hh|Hh].
  - assert (Z.log2 v = 63)%Z as <- by (apply Z.log2_unique; lia). apply Z.bit_log2. lia.
  - destruct (decide (v = 0)%Z) as [->|]; [done|]. apply Z.bits_above_log2; [lia|]. apply Z.log2_lt_pow2; lia.
Qed.

(** What is mapped has the flags of its section or is data. *)
Lemma low_view_flags km v x : gibs km ≤ 512 → low_view km v = Some x → x.1.2 ≠ (true, true).
Proof using Type.
  clear HHDM_room. intros Hg. unfold low_view, low_maps. pose proof (idx_lt v 1). destruct (decide _) as [[_ ?]|_]; [|done].
  rewrite low_meaning by (done || lia). by intros [= <-].
Qed.
Lemma high_view_flags km v x : image_ok km → gibs km ≤ 512 → high_view km v = Some x → x.1.2 ≠ (true, true).
Proof using Type.
  clear HHDM_room. intros I Hg. unfold high_view, image_maps, low_maps. pose proof (image_pages_max km I). pose proof (idx_lt v 1). destruct (decide _) as [[_ Hj]|_].
  - rewrite image_meaning by (done || lia). intros [= <-]. simpl. by destruct (section_prot _ _).
  - destruct (decide _) as [[_ ?]|_]; [rewrite low_meaning by (done || lia); by intros [= <-]|done].
Qed.

(** The two halves together are the map of the other architecture. *)
Lemma halves_view km v : map_ok km → canonical v →
  fst <$> (if A.high v then high_view km v else low_view km v) = boot_view km v.
Proof using Type.
  clear HHDM_room. intros [Mi Mk Mh Md Mdh Ms Ma Ml] Hv. rewrite high_spec by (destruct Hv; lia). unfold boot_view. cbv zeta.
  assert (Z.of_nat (gibs km) * GIB <= 2 ^ 39)%Z as Hlow by (change GIB with (2 ^ 30)%Z; lia). assert (canonical 0) as C0 by (left; lia).
  pose proof (low_range 0 (gibs km) v (λ _, None) Hv C0 eq_refl ltac:(lia)) as L. change (idx 0 3) with 0 in L. rewrite Z.sub_0_r, Z.add_0_l in L.
  destruct (Z.leb_spec (2 ^ 63) v) as [Hh|Hh].
  - unfold high_view. rewrite image_range, low_range by (done || lia).
    assert ((0 <=? v)%Z && (v <? Z.of_nat (gibs km) * GIB)%Z = false) as -> by (apply andb_false_intro2, Z.ltb_ge; lia). by repeat case_match.
  - unfold low_view. rewrite L. destruct Hv as [Hv|Hv]; [|lia].
    rewrite (proj2 (Z.leb_gt (kernel_vbase km) v)) by lia. rewrite (proj2 (Z.leb_gt (hhdm_offset km) v)) by lia. cbn [andb]. by case_match.
Qed.

(** C20: [build_address_space] of AArch64 succeeds with enough frames, and [translate] and
    [page_prot] over its two roots answer at every canonical address what the tables
    of x86-64 answer: the kernel image at its physical place with the protection of
    the section, the direct map and the identity map as writable data, and nothing
    anywhere else; no page at all is both writable and executable. *)
Theorem a64_boot_mapping km s H : ready s H (7 + 2 * gibs km) → map_ok km → (kernel_phys km < 2 ^ 47)%Z →
  ∃ t0 t1 s', A.build_address_space HHDM_OFFSET km s = (Ok (mkSpace t1 t0), s') ∧ A.kernel_space s' = mkSpace t1 t0 ∧
    (∀ v, canonical v → sees64 HHDM_OFFSET (act (mkSpace t1 t0) s') v = answers (boot_view km v)) ∧
    (∀ v, (sees64 HHDM_OFFSET (act (mkSpace t1 t0) s') v).2 ≠ Ok (Some (true, true))).
Proof using HHDM_room.
  intros Rd M Hp. pose proof (mo_low _ M) as Hg. pose proof (mo_image _ M) as I.
  destruct (built s H 0 km) as (t0 & t1 & s' & H' & R & B & Rg); [by rewrite Nat.add_0_r|done|lia|apply (slots km M)|].
  exists t0, t1, s'. split; [done|]. split; [unfold regs in Rg; unfold A.kernel_space; by injection Rg as _ _ -> -> _|].
  set (a := act (mkSpace t1 t0) s'). assert (ready a H' 0) as Ra by (destruct (h_ready _ _ _ _ _ _ B); by split).
  assert (∀ v, sees64 HHDM_OFFSET a v = answers (fst <$> (if A.high v then high_view km v else low_view km v))) as All.
  { intros v. assert (tree a H' (root_of (A.high v) a)) as T by (destruct (A.high v); apply B). unfold sees64.
    rewrite (view_prot HHDM_OFFSET HHDM_room (A.high v) a H' v Ra T eq_refl). destruct (view HHDM_OFFSET HHDM_room (A.high v) A.PXN a H' v Ra T eq_refl) as [-> _].
    assert (maps (encm A.PXN (A.mem a)) (root_of (A.high v) a) v = if A.high v then high_view km v else low_view km v) as ->.
    { destruct (A.high v); [exact (h_high_maps _ _ _ _ _ _ B v)|exact (h_low_maps _ _ _ _ _ _ B v)]. }
    unfold answers. by destruct (if A.high v then _ else _). }
  split; intros v; rewrite All; [intros Hv; by rewrite halves_view|]. unfold answers. cbn [snd].
  pose proof (low_view_flags km v) as Fl. pose proof (high_view_flags km v) as Fh.
  destruct (A.high v); [destruct (high_view km v) as [x|]; [specialize (Fh x I ltac:(lia) eq_refl)|done]|destruct (low_view km v) as [x|]; [specialize (Fl x ltac:(lia) eq_refl)|done]]; cbn; congruence.
Qed.
End boot.

(** ** A small machine, booted *)

Definition small64 : A.Mach (option FrameAllocator) := A.mkMach ∅ (Some small_fa) 0 0 0 0 [] [].

Lemma small64_ready : ready small64 ∅ 531.
Proof.
  split; [exact small_held| |intros t T Ht; cbn [small64 A.mem] in Ht; by rewrite lookup_empty in Ht].
  apply (supply_count 531 (A.fr small64) ∅); [exact small_held|by vm_compute].
Qed.
Lemma small64_image : image64 small_km.
Proof. split; [exact (mo_image _ small_map_ok)|by vm_compute]. Qed.
Lemma small64_built : ∃ t0 t1 s H, A.build_address_space small_hhdm small_km small64 = (Ok (mkSpace t1 t0), s) ∧ halves small_km s H 516 t0 t1 ∧
  regs s = (0%Z, 0%Z, t0, t1, []).
Proof.
  apply (built small_hhdm small_room small64 ∅ 516 small_km); [exact small64_ready|exact small64_image|vm_compute; lia|apply (slots _ small_map_ok)].
Qed.

Lemma halves_ready km (s : A.Mach (option FrameAllocator)) H k n t0 t1 : halves km s H k t0 t1 → n ≤ k → ready (act (mkSpace t1 t0) s) H n.
Proof. intros B Hn. destruct (h_ready _ _ _ _ _ _ B). split; [done|by eapply supply_le|done]. Qed.

Lemma a64_boot_mapping_witness : ∃ sp s', A.build_address_space small_hhdm small_km small64 = (Ok sp, s') ∧
  sees64 small_hhdm (act sp s') 0xffffffff80001234 = answers (Some (0x101234, (false, true))%Z) ∧
  sees64 small_hhdm (act sp s') 0xffff800000005000 = answers (Some (0x5000, (true, false))%Z) ∧
  sees64 small_hhdm (act sp s') 0x5000 = answers (Some (0x5000, (true, false))%Z).
Proof.
  destruct (a64_boot_mapping small_hhdm small_room small_km small64 ∅) as (t0 & t1 & s' & R & _ & S & _).
  - destruct small64_ready as [R1 R2 R3]. split; [exact R1|eapply supply_le; [|exact R2]; vm_compute; lia|exact R3].
  - exact small_map_ok.
  - by vm_compute.
  - exists (mkSpace t1 t0), s'. split; [exact R|]. rewrite !S by (first [left; lia|right; lia]). split; [|split]; vm_compute; reflexivity.
Defined.

Lemma a64_map_exact_witness : ∃ sp s s', A.build_address_space small_hhdm small_km small64 = (Ok sp, s) ∧
  A.map_page small_hhdm (2 ^ 30) 0x7000 Rx (act sp s) = (Ok (), s') ∧ sees64 small_hhdm s' (2 ^ 30 + 5) = answers (Some (0x7005, (false, true))%Z).
Proof.
  destruct small64_built as (t0 & t1 & s & H & R & B & _). destruct (h_low_reach _ _ _ _ _ _ B (2 ^ 30)%Z) as [l2 Hc]; [vm_compute; by eexists|].
  destruct (a64_map_exact small_hhdm small_room false (act (mkSpace t1 t0) s) H (2 ^ 30) 0x7000 Rx l2) as (s' & R' & _ & _ & P);
    [apply (halves_ready _ _ _ _ _ _ _ B); lia|exact (h_low _ _ _ _ _ _ B)|exact Hc|reflexivity|lia|reflexivity|].
  exists (mkSpace t1 t0), s, s'. split; [exact R|]. split; [exact R'|]. destruct (P (2 ^ 30 + 5)%Z eq_refl) as [P1 _]. exact (proj1 (P1 eq_refl)).
Defined.

Lemma a64_guard_exact_witness : ∃ sp s s', A.build_address_space small_hhdm small_km small64 = (Ok sp, s) ∧
  A.install_guard_page small_hhdm (2 ^ 30) (act sp s) = (Ok (), s') ∧ sees64 small_hhdm s' (2 ^ 30 + 5) = answers None.
Proof.
  destruct small64_built as (t0 & t1 & s & H & R & B & _). destruct (h_low_reach _ _ _ _ _ _ B (2 ^ 30)%Z) as [l2 Hc]; [vm_compute; by eexists|].
  destruct (a64_guard_exact small_hhdm small_room false (act (mkSpace t1 t0) s) H (2 ^ 30) l2) as (s' & R' & _ & _ & P);
    [apply (halves_ready _ _ _ _ _ _ _ B); lia|exact (h_low _ _ _ _ _ _ B)|exact Hc|reflexivity|].
  exists (mkSpace t1 t0), s, s'. split; [exact R|]. split; [exact R'|]. destruct (P (2 ^ 30 + 5)%Z eq_refl) as [P1 _]. exact (proj1 (P1 eq_refl)).
Defined.

(** A frame, its alias in the direct map and a page of a process. *)
Definition tag_pa : Z := 0x21000.
Definition tag_va : Z := 2 ^ 30 + 0x5000.


