(* ===== verification/Sync.v ===== *)
(** * The spin lock ([kernel/src/sync.rs])

    The lock and its guard, and threads that take it around critical sections.  A
    section is a list of updates of the protected value; an update loads the value
    and stores the result in two steps, between which any other thread may run, so
    that a section is atomic only if the lock makes it so.  Orderings of memory are
    those of one processor: a store is seen by the next load. *)

From stdpp Require Import list relations.
From S2P Require Import Prelude.

Record SpinLock (T : Type) := mkSpinLock { locked : bool; data : T }.
Arguments mkSpinLock {T} _ _.
Arguments locked {T} _.
Arguments data {T} _.

Section lock.
Context {T : Type}.

Definition new (d : T) : SpinLock T := mkSpinLock false d.

(** [AtomicBool::compare_exchange]: whether it succeeded. *)
Definition compare_exchange (current next : bool) (l : SpinLock T) : bool * SpinLock T :=
  if Bool.eqb (locked l) current then (true, mkSpinLock next (data l)) else (false, l).

(** One turn of the loop of [lock]. *)
Definition try_lock : SpinLock T → bool * SpinLock T := compare_exchange false true.
(** [lock], with the number of turns it may spin while nothing else runs. *)
Fixpoint lock (turns : nat) (l : SpinLock T) : option (SpinLock T) :=
  match turns with
  | O => None
  | S turns' => let '(ok, l') := try_lock l in if ok : bool then Some l' else lock turns' l'
  end.

(** The guard: [Deref], [DerefMut] and [Drop]. *)
Definition deref (l : SpinLock T) : T := data l.
Definition deref_mut (x : T) (l : SpinLock T) : SpinLock T := mkSpinLock (locked l) x.
Definition drop (l : SpinLock T) : SpinLock T := mkSpinLock false (data l).

(** ** Threads *)

Definition section := list (T → T).
Definition effect (sec : section) (d : T) : T := foldl (λ d f, f d) d sec.

(** Outside; inside, with the updates of the section still to do; inside, with a
    value loaded. *)
Inductive phase :=
  | Out
  | In (sec todo : section)
  | Loaded (sec : section) (f : T → T) (todo : section) (x : T).

(** The lock, each thread's sections to come and its phase, and the sections that
    have ended. *)
Record sys := mkSys { cell : SpinLock T; threads : list (list section * phase); ended : list (nat * section) }.

Inductive step : sys → sys → Prop :=
  | step_acquire l l' ts es i sec ps : ts !! i = Some (sec :: ps, Out) → try_lock l = (true, l') →
      step (mkSys l ts es) (mkSys l' (<[i:=(ps, In sec sec)]> ts) es)
  | step_spin l l' ts es i sec ps : ts !! i = Some (sec :: ps, Out) → try_lock l = (false, l') →
      step (mkSys l ts es) (mkSys l' ts es)
  | step_load l ts es i ps sec f todo : ts !! i = Some (ps, In sec (f :: todo)) →
      step (mkSys l ts es) (mkSys l (<[i:=(ps, Loaded sec f todo (deref l))]> ts) es)
  | step_store l ts es i ps sec f todo x : ts !! i = Some (ps, Loaded sec f todo x) →
      step (mkSys l ts es) (mkSys (deref_mut (f x) l) (<[i:=(ps, In sec todo)]> ts) es)
  | step_release l ts es i ps sec : ts !! i = Some (ps, In sec []) →
      step (mkSys l ts es) (mkSys (drop l) (<[i:=(ps, Out)]> ts) (es ++ [(i, sec)])).

Definition start (d : T) (progs : list (list section)) : sys := mkSys (new d) ((λ p, (p, Out)) <$> progs) [].

(** ** What the lock guarantees *)

Definition holds (t : list section * phase) : Prop := t.2 ≠ Out.
Definition current (p : phase) : list section :=
  match p with
  | Out => []
  | In sec _ | Loaded sec _ _ _ => [sec]
  end.
(** The sections of thread [i] among those that have ended. *)
Definition of_thread (i : nat) (es : list (nat * section)) : list section := omap (λ e, if decide (e.1 = i) then Some e.2 else None) es.
(** The value after the sections that have ended, one after the other. *)
Definition after (es : list (nat * section)) (d : T) : T := foldl (λ d e, effect e.2 d) d es.

(** Where the holder is in its section, from the value [d] it found. *)
Definition midway (p : phase) (d x : T) : Prop :=
  match p with
  | Out => x = d
  | In sec todo => ∃ pre, sec = pre ++ todo ∧ x = effect pre d
  | Loaded sec f todo y => ∃ pre, sec = pre ++ f :: todo ∧ x = effect pre d ∧ y = x
  end.

Record inv (d : T) (progs : list (list section)) (st : sys) : Prop := {
  i_one i j ti tj : threads st !! i = Some ti → threads st !! j = Some tj → holds ti → holds tj → i = j;
  i_flag : locked (cell st) = true ↔ ∃ i t, threads st !! i = Some t ∧ holds t;
  i_value i t : threads st !! i = Some t → holds t → midway t.2 (after (ended st) d) (data (cell st));
  i_free : locked (cell st) = false → data (cell st) = after (ended st) d;
  i_progs i : progs !! i = (λ t : list section * phase, of_thread i (ended st) ++ current t.2 ++ t.1) <$> threads st !! i
}.

Lemma inv_start d progs : inv d progs (start d progs).
Proof.
  split; cbn [start threads cell ended new locked data]; try done.
  - intros i j ti tj Hi Hj Ho. apply list_lookup_fmap_Some in Hi as (p & -> & _). by destruct Ho.
  - split; [done|]. intros (i & t & Ht & Ho). apply list_lookup_fmap_Some in Ht as (p & -> & _). by destruct Ho.
  - intros i t Ht Ho. apply list_lookup_fmap_Some in Ht as (p & -> & _). by destruct Ho.
  - intros i. rewrite list_lookup_fmap. by destruct (progs !! i).
Qed.

Lemma effect_snoc pre f (d : T) : effect (pre ++ [f]) d = f (effect pre d).
Proof. unfold effect. by rewrite foldl_app. Qed.
Lemma after_snoc es i sec d : after (es ++ [(i, sec)]) d = effect sec (after es d).
Proof. unfold after. by rewrite foldl_app. Qed.
Lemma of_thread_snoc j es i sec : of_thread j (es ++ [(i, sec)]) = of_thread j es ++ if decide (i = j) then [sec] else [].
Proof. unfold of_thread. rewrite omap_app. cbn. by destruct (decide (i = j)). Qed.

Lemma update_lookup {A} (ts : list A) i t t' j x : ts !! i = Some t → <[i:=t']> ts !! j = Some x → (j = i ∧ x = t') ∨ (j ≠ i ∧ ts !! j = Some x).
Proof.
  intros Hi. destruct (decide (j = i)) as [->|Hj]; [|rewrite list_lookup_insert_ne by done; auto].
  rewrite list_lookup_insert_eq by (by eapply lookup_lt_Some). intros [= <-]. by left.
Qed.
Lemma update_same {A} (ts : list A) i t t' : ts !! i = Some t → <[i:=t']> ts !! i = Some t'.
Proof. intros Hi. apply list_lookup_insert_eq. by eapply lookup_lt_Some. Qed.

(** A thread inside goes on inside. *)
Lemma inv_inside d progs l l' ts es i ps p p' : inv d progs (mkSys l ts es) → ts !! i = Some (ps, p) → p ≠ Out → p' ≠ Out →
  current p' = current p → locked l' = locked l → midway p' (after es d) (data l') → inv d progs (mkSys l' (<[i:=(ps, p')]> ts) es).
Proof.
  intros [One Fl Va Fr Pr] Hi Hp Hp' Hc Hl Hm. cbn [threads cell ended] in *. assert (locked l = true) as Hlk by (apply Fl; by eexists _, _).
  split; cbn [threads cell ended]; rewrite ?Hl; try congruence.
  - intros j k tj tk [[-> ->]|[Hj Hj']]%(update_lookup _ _ _ _ _ _ Hi) [[-> ->]|[Hk Hk']]%(update_lookup _ _ _ _ _ _ Hi) Oj Ok; [done|..].
    + by apply (One i k _ _ Hi Hk').
    + by apply (One j i _ _ Hj' Hi).
    + by apply (One j k _ _ Hj' Hk').
  - split; [|done]. intros _. exists i, (ps, p'). split; [by eapply update_same|done].
  - intros j t [[-> ->]|[Hj Hj']]%(update_lookup _ _ _ _ _ _ Hi) Ot; [done|]. destruct Hj. by apply (One j i _ _ Hj' Hi).
  - intros j. rewrite Pr. destruct (decide (j = i)) as [->|Hj]; [by rewrite (update_same _ _ _ _ Hi), Hi; cbn; rewrite Hc|by rewrite list_lookup_insert_ne].
Qed.

Lemma inv_step d progs st st' : step st st' → inv d progs st → inv d progs st'.
Proof.
  intros St I. destruct St as [l l' ts es i sec ps Hi Hl|l l' ts es i sec ps Hi Hl|l ts es i ps sec f todo Hi|l ts es i ps sec f todo x Hi|l ts es i ps sec Hi].
  - unfold try_lock, compare_exchange in Hl. destruct (locked l) eqn:Lk; [done|]. injection Hl as <-. destruct I as [One Fl Va Fr Pr]. cbn [threads cell ended] in *.
    assert (∀ j t, ts !! j = Some t → ¬ holds t) as No.
    { intros j t Hj Ho. rewrite (proj2 Fl) in Lk; [done|]. by eexists _, _. }
    split; cbn [threads cell ended locked data].
    + intros j k tj tk [[-> ->]|[Hj Hj']]%(update_lookup _ _ _ _ _ _ Hi) [[-> ->]|[Hk Hk']]%(update_lookup _ _ _ _ _ _ Hi) Oj Ok; [done|..]; exfalso; eauto using No.
      * by apply (No k tk).
      * by apply (No j tj).
      * by apply (No j tj).
    + split; [|done]. intros _. exists i, (ps, In sec sec). split; [by eapply update_same|done].
    + intros j t [[-> ->]|[Hj Hj']]%(update_lookup _ _ _ _ _ _ Hi) Ot; [|by destruct (No j t)]. exists []. split; [done|]. by apply Fr.
    + done.
    + intros j. rewrite Pr. destruct (decide (j = i)) as [->|Hj]; [by rewrite (update_same _ _ _ _ Hi), Hi|by rewrite list_lookup_insert_ne].
  - unfold try_lock, compare_exchange in Hl. destruct (locked l) eqn:Lk; [|done]. by injection Hl as <-.
  - eapply inv_inside; try done. destruct (i_value _ _ _ I i _ Hi) as (pre & -> & Hx); [done|]. by exists pre.
  - eapply inv_inside; try done. destruct (i_value _ _ _ I i _ Hi) as (pre & -> & Hx & Hy); [done|]. cbn [ended cell data deref_mut] in *.
    exists (pre ++ [f]). rewrite <- app_assoc. split; [done|]. by rewrite effect_snoc, Hy, Hx.
  - destruct (i_value _ _ _ I i _ Hi) as (pre & Hs & Hx); [done|]. rewrite app_nil_r in Hs. subst pre. destruct I as [One Fl Va Fr Pr]. cbn [threads cell ended] in *.
    assert (∀ j t, <[i:=(ps, Out)]> ts !! j = Some t → ¬ holds t) as No.
    { intros j t [[-> ->]|[Hj Hj']]%(update_lookup _ _ _ _ _ _ Hi) Ho; [done|]. destruct Hj. by apply (One j i _ _ Hj' Hi). }
    split; cbn [threads cell ended drop locked data].
    + intros j k tj tk Hj _ Oj. by destruct (No j tj).
    + split; [done|]. intros (j & t & Ht & Ho). by destruct (No j t).
    + intros j t Ht Ho. by destruct (No j t).
    + intros _. by rewrite after_snoc.
    + intros j. rewrite of_thread_snoc, Pr. destruct (decide (i = j)) as [<-|Hj].
      * rewrite (update_same _ _ _ _ Hi), Hi. cbn. by rewrite <- app_assoc.
      * rewrite list_lookup_insert_ne by done. by rewrite app_nil_r.
Qed.

Lemma inv_reach d progs st : rtc step (start d progs) st → inv d progs st.
Proof. intros Hst. remember (start d progs) as s0 eqn:E. pose proof (inv_start d progs) as I. rewrite <- E in I. clear E. induction Hst; eauto using inv_step. Qed.

(** ** Progress *)

(** The steps a thread has still to make, failed attempts apart. *)
Definition ahead (p : phase) : nat :=
  match p with
  | Out => 0
  | In _ todo => 2 * length todo + 1
  | Loaded _ _ todo _ => 2 * length todo + 2
  end.
Definition work1 (t : list section * phase) : nat := ahead t.2 + sum_list_with (λ sec : section, 2 * length sec + 2) t.1.
Definition work (st : sys) : nat := sum_list_with work1 (threads st).

Lemma sum_update {A} (g : A → nat) (ts : list A) i t t' : ts !! i = Some t →
  sum_list_with g (<[i:=t']> ts) + g t = sum_list_with g ts + g t'.
Proof.
  revert i. induction ts as [|u ts IH]; intros [|i] Hi; cbn in Hi; [done..|injection Hi as ->; cbn; lia|].
  cbn. rewrite <- !Nat.add_assoc. f_equal. exact (IH i Hi).
Qed.

Lemma work_update l l' ts es es' i t t' : ts !! i = Some t → work1 t' < work1 t → work (mkSys l' (<[i:=t']> ts) es') < work (mkSys l ts es).
Proof. intros Hi Hw. unfold work. cbn [threads]. pose proof (sum_update work1 ts i t t' Hi). lia. Qed.

(** A thread that holds the lock can go on. *)
Lemma holder_goes_on st i t : threads st !! i = Some t → holds t → ∃ st', step st st' ∧ work st' < work st.
Proof.
  destruct st as [l ts es], t as [ps []]; cbn [threads]; intros Hi Ho; [done|destruct todo as [|f todo]|].
  - eexists. split; [by apply (step_release _ _ _ i)|]. eapply work_update; [exact Hi|]. cbn. lia.
  - eexists. split; [by apply (step_load _ _ _ i)|]. eapply work_update; [exact Hi|]. unfold work1. cbn [fst snd ahead length]. lia.
  - eexists. split; [by apply (step_store _ _ _ i)|]. eapply work_update; [exact Hi|]. unfold work1. cbn [fst snd ahead length]. lia.
Qed.

(** With the lock free, a thread that has a section left can take it. *)
Lemma taker st i sec ps : locked (cell st) = false → threads st !! i = Some (sec :: ps, Out) → ∃ st', step st st' ∧ work st' < work st.
Proof.
  destruct st as [l ts es]. cbn [threads cell]. intros Hl Hi. exists (mkSys (mkSpinLock true (data l)) (<[i:=(ps, In sec sec)]> ts) es). split.
  - apply (step_acquire _ _ _ _ i sec ps Hi). unfold try_lock, compare_exchange. by rewrite Hl.
  - eapply work_update; [exact Hi|]. unfold work1. cbn. lia.
Qed.

(** C25: Critical sections are atomic.  Whatever the interleaving of any threads, with
    any sections of any updates, one thread at most is inside; whenever the lock is
    free the value is what the sections that have ended make of the first value one
    after the other; each thread's sections take effect in its order, each once.
    Some thread can always take a step that brings it nearer to its end, attempts
    that fail apart, until every thread has run all its sections. *)
Theorem spin_lock_atomic d progs st : rtc step (start d progs) st →
  (∀ i j ti tj, threads st !! i = Some ti → threads st !! j = Some tj → holds ti → holds tj → i = j) ∧
  (locked (cell st) = false → data (cell st) = after (ended st) d) ∧
  (∀ i p, progs !! i = Some p → of_thread i (ended st) `prefix_of` p) ∧
  ((∃ st', step st st' ∧ work st' < work st) ∨
   (data (cell st) = after (ended st) d ∧ ∀ i p, progs !! i = Some p → of_thread i (ended st) = p)).
Proof.
  intros Hst. pose proof (inv_reach d progs st Hst) as [One Fl Va Fr Pr]. split; [exact One|]. split; [exact Fr|].
  assert (∀ i p, progs !! i = Some p → ∃ t, threads st !! i = Some t ∧ p = of_thread i (ended st) ++ current t.2 ++ t.1) as Th.
  { intros i p Hp. rewrite Pr in Hp. destruct (threads st !! i) as [t|]; [|done]. injection Hp as <-. by exists t. }
  split; [intros i p Hp; destruct (Th i p Hp) as (t & _ & ->); by eexists|].
  destruct (locked (cell st)) eqn:Lk.
  - left. destruct (proj1 Fl eq_refl) as (i & t & Ht & Ho). by eapply holder_goes_on.
  - destruct (decide (Forall (λ t : list section * phase, t.1 = []) (threads st))) as [Hall|Hn].
    + right. split; [by apply Fr|]. intros i p Hp. destruct (Th i p Hp) as (t & Ht & ->). assert (t.2 = Out) as ->.
      { destruct (t.2) eqn:E; [done|..]; exfalso; (enough (false = true) by done; apply Fl; exists i, t; split; [done|]; unfold holds; by rewrite E). }
      rewrite Forall_lookup in Hall. rewrite (Hall i t Ht). by rewrite app_nil_r.
    + left. apply not_Forall_Exists in Hn; [|apply _]. apply Exists_exists in Hn as (t & Ht & Hne). apply list_elem_of_lookup in Ht as [i Ht].
      destruct t as [[|sec ps] p]; [by destruct Hne|]. destruct p eqn:E; [by eapply taker|..]; (eapply holder_goes_on; [exact Ht|done]).
Qed.
End lock.

(** Two threads that add and double, one step into the first. *)
Lemma spin_lock_atomic_witness : let progs := [[[Z.add 1; Z.mul 2]]; [[Z.add 5]]] in ∃ st, rtc step (start 3%Z progs) st ∧
  data (cell st) = 8%Z ∧ data (cell st) = after (ended st) 3%Z.
Proof.
  intros progs. exists (mkSys (mkSpinLock false 8%Z) [([], Out); ([[Z.add 5]], Out)] [(0, [Z.add 1; Z.mul 2])]).
  assert (rtc step (start 3%Z progs) (mkSys (mkSpinLock false 8%Z) [([], Out); ([[Z.add 5]], Out)] [(0, [Z.add 1; Z.mul 2])])) as R.
  { eapply rtc_l; [by apply (step_acquire _ (mkSpinLock true 3%Z) _ _ 0)|]. eapply rtc_l; [by apply (step_spin _ (mkSpinLock true 3%Z) _ _ 1 [Z.add 5] [])|]. eapply rtc_l; [by apply (step_load _ _ _ 0)|].
    eapply rtc_l; [by apply (step_store _ _ _ 0)|]. eapply rtc_l; [by apply (step_load _ _ _ 0)|]. eapply rtc_l; [by apply (step_store _ _ _ 0)|].
    eapply rtc_l; [by apply (step_release _ _ _ 0)|]. apply rtc_refl. }
  split; [exact R|]. split; [reflexivity|]. exact (proj1 (proj2 (spin_lock_atomic 3%Z progs _ R)) eq_refl).
Defined.
