(* ===== verification/Pku.v ===== *)
(** * Protection keys ([kernel/src/arch/x86_64/pku.rs])

    The probe and the register that says, two bits for each of sixteen keys, which
    user pages the running task reaches.  What [cpuid] answers is an argument; [cr4]
    and [pkru] are state, and [available] reads the flag the probe left. *)

From S2P Require Import Prelude Arch Buddy MemInit Frames Paging PagingInv PagingOps.

Record Cpu := mkCpu { PKU_ENABLED : bool; cr4 : Z; pkru : Z }.

Definition CR4_PKE : Z := Z.shiftl 1 22.

Definition available (c : Cpu) : bool := PKU_ENABLED c.

Definition init (ecx : Z) (c : Cpu) : bool * Cpu :=
  if negb (has ecx (Z.shiftl 1 3)) then (false, mkCpu false (cr4 c) (pkru c))
  else (true, mkCpu true (Z.lor (cr4 c) CR4_PKE) (pkru c)).

Definition write_pkru (value : Z) (c : Cpu) : Cpu := mkCpu (PKU_ENABLED c) (cr4 c) value.

Definition write_pkru_allow_only (allow : Z) (c : Cpu) : Cpu :=
  let k := Z.land allow 15 in
  let pkru := Z.ldiff 0x55555555 (Z.shiftl 1 (2 * k)) in
  let pkru := Z.ldiff pkru 1 in
  write_pkru pkru c.

Definition set_domain (pkey : option Z) (c : Cpu) : Cpu :=
  if negb (available c) then c else
  match pkey with
  | Some k => write_pkru_allow_only k c
  | None => write_pkru 0 c
  end.

(** ** What the processor checks *)

(** The key of a leaf, and whether the register lets its page be read and written. *)
Definition key_of (e : Z) : Z := Z.land (Z.shiftr e 59) 15.
Definition readable (c : Cpu) (key : Z) : bool := negb (Z.testbit (pkru c) (2 * key)).
Definition writeable (c : Cpu) (key : Z) : bool := readable c key && negb (Z.testbit (pkru c) (2 * key + 1)).

Lemma key_small d : (0 <= Z.land d 15 < 16)%Z.
Proof. change 15%Z with (Z.ones 4). rewrite Z.land_ones by lia. apply Z.mod_pos_bound. lia. Qed.

Lemma key_user phys prot d : (0 <= phys < 2 ^ 52)%Z → (phys mod 4096 = 0)%Z → key_of (user_entry phys prot d) = Z.land d 15.
Proof.
  intros H1 H2. unfold user_entry, leaf_entry. rewrite land_addr by done. unfold key_of. rewrite !Z.shiftr_lor, !Z.land_lor_distr_l.
  assert (Z.land (Z.shiftr phys 59) 15 = 0)%Z as ->.
  { rewrite Z.shiftr_div_pow2, Z.div_small by lia. done. }
  assert (Z.land (Z.shiftr (leaf_bits prot) 59) 15 = 0)%Z as -> by (by destruct prot).
  change (Z.land (Z.shiftr USER 59) 15) with 0%Z. rewrite !Z.lor_0_l. unfold pkey_bits, PKEY_SHIFT. rewrite Z.shiftr_shiftl_l, Z.sub_diag by lia.
  rewrite Z.shiftl_0_r, <- Z.land_assoc. done.
Qed.

(** All pairs of keys. *)
Lemma allow_table : Forall (λ k, Forall (λ j : nat,
    Z.testbit (Z.ldiff (Z.ldiff 0x55555555 (Z.shiftl 1 (2 * Z.of_nat k))) 1) (2 * Z.of_nat j) = negb ((j =? k) || (j =? 0)) ∧
    Z.testbit (Z.ldiff (Z.ldiff 0x55555555 (Z.shiftl 1 (2 * Z.of_nat k))) 1) (2 * Z.of_nat j + 1) = false) (seq 0 16)) (seq 0 16).
Proof. repeat (apply Forall_cons; split; [repeat (apply Forall_cons; split; [split; reflexivity|]); apply Forall_nil_2|]). apply Forall_nil_2. Qed.

(** With protection keys enabled, a task switched in for a domain reaches, for
    reading and for writing, the pages [map_user_page] mapped in its own domain and
    in the shared domain 0, and no others; without them the register is left alone. *)
Theorem domain_reach c k phys prot d : (0 <= phys < 2 ^ 52)%Z → (phys mod 4096 = 0)%Z →
  let key := key_of (user_entry phys prot d) in let c' := set_domain (Some k) c in
  (available c = true → readable c' key = bool_decide (Z.land d 15 = Z.land k 15 ∨ Z.land d 15 = 0%Z) ∧ writeable c' key = readable c' key) ∧
  (available c = false → c' = c).
Proof.
  intros H1 H2 key c'. split; intros Ha; unfold c', set_domain; rewrite Ha; [cbn [negb]|done].
  unfold key. rewrite key_user by done. unfold writeable, readable, write_pkru_allow_only, write_pkru. cbn [pkru].
  pose proof (key_small d) as Hd. pose proof (key_small k) as Hk. set (j := Z.land d 15) in *. set (a := Z.land k 15) in *.
  pose proof allow_table as Tb. rewrite Forall_forall in Tb. specialize (Tb (Z.to_nat a) ltac:(apply elem_of_seq; lia)). rewrite Forall_forall in Tb.
  destruct (Tb (Z.to_nat j) ltac:(apply elem_of_seq; lia)) as [T1 T2]. rewrite !Z2Nat.id in T1, T2 by lia. rewrite T1, T2, negb_involutive, andb_true_r. split; [|done].
  apply Bool.eq_iff_eq_true. rewrite bool_decide_eq_true, orb_true_iff, !Nat.eqb_eq. lia.
Qed.

(** A kernel task is not restricted to key 0. *)
Lemma kernel_reaches_all c key : available c = true → readable (set_domain None c) key = true ∧ writeable (set_domain None c) key = true.
Proof. intros Ha. unfold set_domain. rewrite Ha. cbn [negb]. unfold writeable, readable, write_pkru. cbn [pkru]. by rewrite !Z.bits_0. Qed.

(** The probe: keys are used exactly when the processor has them, and then they are
    switched on with no other bit of the register changed. *)
Theorem probe_exact ecx c : let '(ok, c') := init ecx c in
  ok = has ecx (Z.shiftl 1 3) ∧ available c' = ok ∧ pkru c' = pkru c ∧ cr4 c' = if ok then Z.lor (cr4 c) CR4_PKE else cr4 c.
Proof. unfold init. by destruct (has ecx (Z.shiftl 1 3)). Qed.

Lemma domain_reach_witness : let c := mkCpu true 0 0 in
  readable (set_domain (Some 3%Z) c) (key_of (user_entry 0x7000 Rw 3)) = true ∧ readable (set_domain (Some 3%Z) c) (key_of (user_entry 0x7000 Rw 4)) = false.
Proof.
  split.
  - exact (proj1 (proj1 (domain_reach (mkCpu true 0 0) 3 0x7000 Rw 3 ltac:(lia) eq_refl) eq_refl)).
  - exact (proj1 (proj1 (domain_reach (mkCpu true 0 0) 3 0x7000 Rw 4 ltac:(lia) eq_refl) eq_refl)).
Defined.
