(* ===== verification/Isolation.v ===== *)
(** * Faults and the isolation checks of the kernel

    The x86-64 exception handlers and the single-shot recovery seam
    ([kernel/src/arch/x86_64/interrupts.rs]), the escape test of a protection domain
    ([kernel/src/arch/x86_64/mod.rs]) and the boot-time isolation checks
    ([kernel/src/isolation/mod.rs]), over the tables of Paging.

    A kernel access goes through the active tables: it faults where [translate] finds
    nothing, and a store also where the page is not writable; [words] holds the words
    stored to frames that are not tables.  An exception that does not return to where
    it came from is an error: the process is killed or the kernel halts. *)

From S2P Require Import Prelude Rights Cap CSpace Arch Buddy MemInit Frames Paging.

(** Where a trap ends that does not return. *)
Inductive Stop := Killed | Halted.

Record Seam (F : Type) := mkSeam {
  machine : Mach F;
  words : gmap Z Z;
  EXPECT_FAULT_ADDR : Z;
  EXPECT_FAULT_RESUME : Z
}.
Arguments mkSeam {F} _ _ _ _.
Arguments machine {F} _.
Arguments words {F} _.
Arguments EXPECT_FAULT_ADDR {F} _.
Arguments EXPECT_FAULT_RESUME {F} _.

Section isolation.
Context {F : Type} {FS : FrameSource F}.
Variable HHDM_OFFSET : Z.
(** The address of [praesidium_x86_probe_resume]. *)
Variable LABEL : Z.
Abbreviation IM := (M (Seam F) Stop).

Definition on_machine {A} (m : M (Mach F) Empty_set A) : IM A := λ s,
  match m (machine s) with
  | (Ok v, t) => (Ok v, mkSeam t (words s) (EXPECT_FAULT_ADDR s) (EXPECT_FAULT_RESUME s))
  | (_, t) => (Panic, mkSeam t (words s) (EXPECT_FAULT_ADDR s) (EXPECT_FAULT_RESUME s))
  end.
Definition arm (addr : Z) : IM unit := modify (λ s, mkSeam (machine s) (words s) addr (EXPECT_FAULT_RESUME s)).
Definition set_resume (rip : Z) : IM unit := modify (λ s, mkSeam (machine s) (words s) (EXPECT_FAULT_ADDR s) rip).

(** ** Exceptions *)

(** [user::fault] does not return to the process. *)
Definition kill_if_userspace (code_segment : Z) : IM unit :=
  if (Z.land code_segment 3 =? 3)%Z then throw Killed else mret ().

(** [ex_divide], [ex_invalid_opcode], [ex_gpf] and [ex_stack_segment]. *)
Definition ex_fault (code_segment : Z) : IM unit := kill_if_userspace code_segment;; throw Halted.
Definition ex_double_fault : IM unit := throw Halted.

Definition expected_fault_resume (addr : Z) : IM (option Z) :=
  s ← get;
  if negb (EXPECT_FAULT_ADDR s =? 0)%Z && (addr =? EXPECT_FAULT_ADDR s)%Z then
    arm 0;;
    mret (Some (EXPECT_FAULT_RESUME s))
  else mret None.

(** The instruction pointer the handler returns to. *)
Definition ex_page_fault (user_mode : bool) (cr2 : Z) : IM Z :=
  if user_mode then throw Killed else
  o ← expected_fault_resume cr2;
  match o with
  | Some resume => mret resume
  | None => throw Halted
  end.

(** [praesidium_x86_probe_read]: 1 when the handler returned to its label. *)
Definition probe_read (addr : Z) : IM Z :=
  o ← on_machine (translate HHDM_OFFSET addr);
  match o with
  | Some _ => mret 0%Z
  | None => rip ← ex_page_fault false addr; if (rip =? LABEL)%Z then mret 1%Z else panic
  end.

Definition contains_raw_read (addr : Z) : IM bool :=
  set_resume LABEL;;
  arm addr;;
  r ← probe_read addr;
  arm 0;;
  mret (r =? 1)%Z.

(** ** Kernel loads and stores of a word *)

Definition read_volatile (addr : Z) : IM Z :=
  o ← on_machine (translate HHDM_OFFSET addr);
  match o with
  | Some pa => s ← get; mret (default 0%Z (words s !! pa))
  | None => ex_page_fault false addr;; panic
  end.

Definition write_volatile (addr value : Z) : IM unit :=
  o ← on_machine (translate HHDM_OFFSET addr);
  p ← on_machine (page_prot HHDM_OFFSET addr);
  match o, p with
  | Some pa, Some (true, _) => modify (λ s, mkSeam (machine s) (<[pa:=value]> (words s)) (EXPECT_FAULT_ADDR s) (EXPECT_FAULT_RESUME s))
  | _, _ => ex_page_fault false addr;; panic
  end.

(** ** The escape tests *)

Definition SENTINEL : Z := 0x5A5A1508D0D0BEEF.

Definition domain_escape_contained : IM bool :=
  o ← on_machine (on_frames fs_alloc);
  match o with
  | None => panic
  | Some phys =>
      hhdm ← lift (phys_to_virt HHDM_OFFSET phys);
      let ident := phys in
      write_volatile hhdm SENTINEL;;
      on_machine (install_guard_page HHDM_OFFSET ident);;
      s ← get;
      let original := cr3 (machine s) in
      domain ← on_machine (build_domain_excluding HHDM_OFFSET hhdm);
      on_machine (activate_address_space (mkSpace domain 0));;
      c_hhdm ← contains_raw_read hhdm;
      c_ident ← contains_raw_read ident;
      on_machine (activate_address_space (mkSpace original 0));;
      w ← read_volatile hhdm;
      if negb (w =? SENTINEL)%Z then throw Halted else
      mret (c_hhdm && c_ident)
  end.

Definition or_fatal (ok : bool) : IM unit := if ok then mret () else throw Halted.

Definition escape_domain : IM unit := ok ← domain_escape_contained; or_fatal ok.

(** [answer] is what [alloc_frames(1)] answers, a block of two frames. *)
Definition escape_guard_page (answer : option Z) : IM unit :=
  match answer with
  | None => throw Halted
  | Some block =>
      guard ← lift (phys_to_virt HHDM_OFFSET block);
      on_machine (install_guard_page HHDM_OFFSET guard);;
      ok ← contains_raw_read guard;
      or_fatal ok
  end.

Definition run_escape_tests (answer : option Z) : IM unit := escape_guard_page answer;; escape_domain.

(** ** The checks of the foundation *)

Definition verify_guard_page (answer : option Z) : IM unit :=
  match answer with
  | None => throw Halted
  | Some block =>
      guard ← lift (phys_to_virt HHDM_OFFSET block);
      above ← lift (arith 64 (block + PAGE));
      neighbour ← lift (phys_to_virt HHDM_OFFSET above);
      on_machine (install_guard_page HHDM_OFFSET guard);;
      g ← on_machine (translate HHDM_OFFSET guard);
      or_fatal (bool_decide (g = None));;
      n ← on_machine (translate HHDM_OFFSET neighbour);
      or_fatal (bool_decide (n = Some above));;
      p ← on_machine (page_prot HHDM_OFFSET neighbour);
      or_fatal (bool_decide (p = Some (true, false)))
  end.

(** [text] and [data] are addresses of the image. *)
Definition verify_wx_and_zero (text data : Z) : IM unit :=
  t ← on_machine (page_prot HHDM_OFFSET text);
  or_fatal (bool_decide (t = Some (false, true)));;
  d ← on_machine (page_prot HHDM_OFFSET data);
  or_fatal (bool_decide (d = Some (true, false)));;
  o ← on_machine (alloc_zeroed_frame HHDM_OFFSET);
  match o with
  | None => throw Halted
  | Some z =>
      first ← on_machine (read_entry HHDM_OFFSET z 0);
      last ← on_machine (read_entry HHDM_OFFSET z 511);
      or_fatal ((first =? 0)%Z && (last =? 0)%Z);;
      on_machine (free_table z)
  end.
End isolation.

(** Entering a domain takes the capability for it. *)
Definition SLOTS : nat := 8.
Definition NON_DOMAIN_SLOT : nat := 0.
Definition DOMAIN_SLOT : nat := 1.
Definition EMPTY_SLOT : nat := 2.
Definition DEMO_DOMAIN_ID : Z := 0xD0.

Definition verify_domain_entry_gating {BF : Bitflags} : bool :=
  match (set_root_untyped 0 1;; set_root_domain DOMAIN_SLOT DEMO_DOMAIN_ID) (cspace_new SLOTS) with
  | (Ok _, cs) =>
      match enter_domain cs DOMAIN_SLOT with Ok id => (id =? DEMO_DOMAIN_ID)%Z | _ => false end &&
      match enter_domain cs NON_DOMAIN_SLOT with Err WrongType => true | _ => false end &&
      match enter_domain cs EMPTY_SLOT with Err CSpace.EmptySlot => true | _ => false end
  | _ => false
  end.
