(* ===== verification/IsolationTheorems.v ===== *)
(** * Faults and the isolation checks: theorems *)

From S2P Require Import Prelude Rights Cap CSpace Arch Buddy MemInit Frames.
From S2P Require Import Paging PagingInv PagingOps PagingWorld PagingDomain PagingHistory PagingTheorems Isolation.

#[local] Opaque idx.

Section faults.
Context {F : Type} {FS : FrameSource F}.
Variable HHDM_OFFSET LABEL : Z.
Hypothesis HHDM_room : (0 <= HHDM_OFFSET <= 2 ^ 64 - 2 ^ 44)%Z.
Implicit Types (s : Seam F) (t : Mach F).

(** ** Running an access *)

Definition on_with s t : Seam F := mkSeam t (words s) (EXPECT_FAULT_ADDR s) (EXPECT_FAULT_RESUME s).

Lemma machine_run {A B} (m : M (Mach F) Empty_set A) (k : A → M (Seam F) Stop B) s v t :
  m (machine s) = (Ok v, t) → (on_machine m ≫= k) s = k v (on_with s t).
Proof using Type. intros R. apply bind_run. unfold on_machine. by rewrite R. Qed.

Lemma lifted_run {S E A B} (r : res E A) (k : A → M S E B) (s : S) v : r = Ok v → (lift r ≫= k) s = k v s.
Proof using Type. by intros ->. Qed.

Lemma on_with_same s : on_with s (machine s) = s.
Proof using Type. by destruct s. Qed.

Section access.
Variables (t : Mach F) (H : gset Z).
Hypothesis (TB : tabs (mem t)) (SP : is_space (mem t) H (cr3 t)).
Abbreviation there v := (maps (mem t) (cr3 t) v).

Lemma translate_here v : translate HHDM_OFFSET v t = (Ok ((λ x, x.1.1) <$> there v), t).
Proof using HHDM_room TB SP.
  pose proof (walk_eq HHDM_OFFSET HHDM_room t H v TB SP) as W. pose proof (sees_eq HHDM_OFFSET HHDM_room t H (cr3 t) v TB SP) as E.
  apply (f_equal fst) in E. cbn [fst sees] in E. replace (with_root (cr3 t) t) with t in E by (by destruct t).
  unfold translate in *. rewrite !(bind_run _ _ _ _ _ W) in *. destruct (leaf_of _ _ v) as [[e k]|]; [|by rewrite <- E].
  unfold mbind, M_bind, lift in *. destruct (arith 64 _); [by rewrite <- E| |]; discriminate E.
Qed.

Lemma prot_here v : page_prot HHDM_OFFSET v t = (Ok ((λ x, x.1.2) <$> there v), t).
Proof using HHDM_room TB SP.
  unfold page_prot. rewrite (bind_run _ _ _ _ _ (walk_eq HHDM_OFFSET HHDM_room t H v TB SP)).
  unfold maps. by destruct (leaf_of _ _ v).
Qed.

Lemma translate_bind {B} w a r v (k : option Z → M (Seam F) Stop B) :
  (on_machine (translate HHDM_OFFSET v) ≫= k) (mkSeam t w a r) = k ((λ x, x.1.1) <$> there v) (mkSeam t w a r).
Proof using HHDM_room TB SP. by rewrite (machine_run _ _ (mkSeam t w a r) _ _ (translate_here v)). Qed.

Lemma prot_bind {B} w a r v (k : option (bool * bool) → M (Seam F) Stop B) :
  (on_machine (page_prot HHDM_OFFSET v) ≫= k) (mkSeam t w a r) = k ((λ x, x.1.2) <$> there v) (mkSeam t w a r).
Proof using HHDM_room TB SP. by rewrite (machine_run _ _ (mkSeam t w a r) _ _ (prot_here v)). Qed.

Lemma contains_run w a r addr : addr ≠ 0%Z →
  contains_raw_read HHDM_OFFSET LABEL addr (mkSeam t w a r) = (Ok (bool_decide (there addr = None)), mkSeam t w 0 LABEL).
Proof using HHDM_room TB SP.
  intros Ha. unfold contains_raw_read. do 2 (erewrite bind_run by reflexivity). cbn [machine words EXPECT_FAULT_ADDR EXPECT_FAULT_RESUME].
  assert (probe_read HHDM_OFFSET LABEL addr (mkSeam t w addr LABEL) =
    (Ok (if decide (there addr = None) then 1 else 0)%Z, mkSeam t w (if decide (there addr = None) then 0 else addr)%Z LABEL)) as E.
  { unfold probe_read. rewrite translate_bind. destruct (there addr) as [x|]; [done|]. cbn [fmap option_fmap option_map].
    unfold ex_page_fault, expected_fault_resume. munfold. cbn [EXPECT_FAULT_ADDR EXPECT_FAULT_RESUME machine words].
    rewrite Z.eqb_refl, (proj2 (Z.eqb_neq _ _) Ha). cbn [negb andb arm modify]. by rewrite Z.eqb_refl. }
  rewrite (bind_run _ _ _ _ _ E). erewrite bind_run by reflexivity. by destruct (there addr).
Qed.

(** The page a load or a store goes to. *)
Lemma read_run_here w a r v pa x u : there v = Some (pa, x, u) →
  read_volatile HHDM_OFFSET v (mkSeam t w a r) = (Ok (default 0%Z (w !! pa)), mkSeam t w a r).
Proof using HHDM_room TB SP. intros E. unfold read_volatile. by rewrite translate_bind, E. Qed.

Lemma write_run_here w a r v value pa x u : there v = Some (pa, (true, x), u) →
  write_volatile HHDM_OFFSET v value (mkSeam t w a r) = (Ok (), mkSeam t (<[pa:=value]> w) a r).
Proof using HHDM_room TB SP. intros E. unfold write_volatile. by rewrite translate_bind, prot_bind, E. Qed.
End access.

(** ** The recovery seam *)

(** A page fault goes on only where the kernel armed the very address for it, at the
    label armed with it, and only once: a fault of user mode kills the process, and
    every other fault of the kernel halts it and changes nothing. *)
Theorem faults_fail_closed user_mode cr2 s :
  match ex_page_fault user_mode cr2 s with
  | (Ok rip, s') => user_mode = false ∧ cr2 = EXPECT_FAULT_ADDR s ∧ cr2 ≠ 0%Z ∧ rip = EXPECT_FAULT_RESUME s ∧
      s' = mkSeam (machine s) (words s) 0 (EXPECT_FAULT_RESUME s) ∧ ∀ addr, ex_page_fault false addr s' = (Err Halted, s')
  | (Err Killed, s') => user_mode = true ∧ s' = s
  | (Err Halted, s') => user_mode = false ∧ (cr2 ≠ EXPECT_FAULT_ADDR s ∨ EXPECT_FAULT_ADDR s = 0%Z) ∧ s' = s
  | (Panic, _) => False
  end.
Proof using Type.
  unfold ex_page_fault. destruct user_mode; [done|]. unfold expected_fault_resume. munfold.
  destruct (Z.eqb_spec (EXPECT_FAULT_ADDR s) 0) as [E0|E0]; [cbn; by auto|].
  destruct (Z.eqb_spec cr2 (EXPECT_FAULT_ADDR s)) as [E1|E1]; [|cbn; by auto]. cbn. split_and!; congruence || done.
Qed.

(** The probe answers whether the hardware refuses the access: in any state of the
    tables it is contained exactly where the active space maps nothing, it leaves
    the machine as it was, and the seam is disarmed afterwards. *)
Theorem probe_exactly_unmapped s H addr : okay (machine s) H 0 → is_space (mem (machine s)) H (cr3 (machine s)) → addr ≠ 0%Z →
  ∃ b, contains_raw_read HHDM_OFFSET LABEL addr s = (Ok b, mkSeam (machine s) (words s) 0 LABEL) ∧
    (b = true ↔ (sees HHDM_OFFSET (machine s) (cr3 (machine s)) addr).1 = Ok None).
Proof using HHDM_room.
  intros Hok SP Ha. destruct s as [t w a r]. cbn [machine words] in *. eexists. split; [apply (contains_run t H); (done || apply Hok)|].
  rewrite (sees_maps HHDM_OFFSET HHDM_room t H) by (done || apply Hok). cbn [fst answers]. by destruct (maps _ _ addr).
Qed.

(** ** The escape tests *)

Lemma frame_run t H n : okay t H (S n) → ∃ pa f, on_frames fs_alloc t = (Ok (Some pa), upd t (mem t) f) ∧ fs_alloc (fr t) = (Ok (Some pa), f) ∧
  frame_ok pa ∧ okay (upd t (mem t) f) ({[pa]} ∪ H) n.
Proof using Type.
  intros [Hh Hs TB]. pose proof (fs_alloc_spec _ _ Hh) as Ha. simpl in Hs. unfold on_frames.
  destruct (fs_alloc (fr t)) as [[[pa|]|e|] f]; try done. destruct Ha as (Hn & Hh' & _). exists pa, f. split_and!; try done.
  eapply fs_held_ok; [exact Hh'|]. by apply elem_of_union_l, elem_of_singleton.
Qed.

(** The victim: the frame that is next is mapped for the kernel at its alias in the
    direct map, and the tables reach down to both aliases, which are two pages. *)
Definition victim t (phys : Z) : Prop :=
  (fs_alloc (fr t)).1 = Ok (Some phys) ∧ phys ≠ 0%Z ∧ page phys ≠ page (phys + HHDM_OFFSET) ∧
  (∃ pd, covered (mem t) (cr3 t) phys pd) ∧ (∃ pd, covered (mem t) (cr3 t) (phys + HHDM_OFFSET) pd) ∧
  ∃ x u, maps (mem t) (cr3 t) (phys + HHDM_OFFSET) = Some (phys, (true, x), u).

(** C32: The escape test of a protection domain holds: on tables that map the victim
    frame twice it reports that both raw reads were contained, with the victim's
    word intact, the kernel's root active again and the seam disarmed; of what the
    kernel maps it has changed the identity page of the victim only. *)
Theorem domain_escape_holds s H phys :
  okay (machine s) H 6 → is_space (mem (machine s)) H (cr3 (machine s)) → victim (machine s) phys →
  ∃ s', domain_escape_contained HHDM_OFFSET LABEL s = (Ok true, s') ∧
    cr3 (machine s') = cr3 (machine s) ∧ KERNEL_PML4 (machine s') = KERNEL_PML4 (machine s) ∧
    words s' = <[phys:=SENTINEL]> (words s) ∧ EXPECT_FAULT_ADDR s' = 0%Z ∧
    ∀ v, sees HHDM_OFFSET (machine s') (cr3 (machine s)) v =
      if decide (page v = page phys) then answers None else sees HHDM_OFFSET (machine s) (cr3 (machine s)) v.
Proof using HHDM_room.
  destruct s as [t w a0 r0]. cbn [machine words]. intros Hok SP (HV & Hnz & Hpg & [pdi Hci] & [pdh Hch] & x & u & HM).
  destruct (frame_run t H 5 Hok) as (pa & f & R1 & Ra & Hfo & Hok1). rewrite Ra in HV. injection HV as ->.
  set (t1 := upd t (mem t) f) in *. assert (is_space (mem t1) ({[phys]} ∪ H) (cr3 t1)) as SP1 by (eapply is_space_mono; [|exact SP]; apply union_subseteq_r).
  unfold domain_escape_contained. rewrite (machine_run _ _ (mkSeam t w a0 r0) _ _ R1). unfold on_with. cbn [machine words EXPECT_FAULT_ADDR EXPECT_FAULT_RESUME].
  rewrite (lifted_run _ _ _ _ (phys_ok HHDM_OFFSET HHDM_room phys Hfo)). cbv zeta. set (hhdm := (phys + HHDM_OFFSET)%Z) in *.
  rewrite (bind_run _ _ _ _ _ (write_run_here t1 _ (ok_tabs _ _ _ Hok1) SP1 w a0 r0 hhdm SENTINEL phys x u HM)).
  destruct (install_guard_edited HHDM_OFFSET HHDM_room t1 _ 4 phys pdi Hok1 SP1 Hci) as (pt & t2 & R2 & _ & Ed & _ & SP2 & _ & M2 & G & _).
  rewrite (machine_run _ _ (mkSeam t1 _ _ _) _ _ R2). unfold on_with. cbn [machine words EXPECT_FAULT_ADDR EXPECT_FAULT_RESUME].
  erewrite bind_run by reflexivity. cbn [machine]. pose proof (ed_okay _ _ _ _ _ _ Ed) as Hok2. pose proof (ed_cr3 _ _ _ _ _ _ Ed) as C2.
  rewrite page_align in M2. rewrite <- C2 in SP2, M2.
  destruct (domain_spec HHDM_OFFSET HHDM_room t2 _ 0 hhdm pdh Hok2 SP2) as (r & t3 & H3 & R3 & _ & HH3 & Hok3 & SP3 & M3 & K3 & C3 & KP3 & _).
  { rewrite C2. by eapply gentle_covered. }
  rewrite (machine_run _ _ (mkSeam t2 _ _ _) _ _ R3). unfold on_with. cbn [machine words EXPECT_FAULT_ADDR EXPECT_FAULT_RESUME].
  erewrite machine_run by reflexivity. unfold on_with. cbn [machine words EXPECT_FAULT_ADDR EXPECT_FAULT_RESUME primary].
  set (td := mkMach _ _ r _ _). assert (maps (mem td) (cr3 td) hhdm = None) as Mh by (cbn [td mem cr3]; by rewrite M3, decide_True).
  assert (maps (mem td) (cr3 td) phys = None) as Mi by (cbn [td mem cr3]; by rewrite M3, decide_False, M2, decide_True).
  rewrite (bind_run _ _ _ _ _ (contains_run td H3 (ok_tabs _ _ _ Hok3) SP3 _ _ _ hhdm ltac:(destruct Hfo; lia))), Mh.
  rewrite (bind_run _ _ _ _ _ (contains_run td H3 (ok_tabs _ _ _ Hok3) SP3 _ _ _ phys Hnz)), Mi.
  erewrite machine_run by reflexivity. unfold on_with. cbn [machine words EXPECT_FAULT_ADDR EXPECT_FAULT_RESUME primary td mem fr KERNEL_PML4 flushed].
  set (tk := mkMach _ _ (cr3 t2) _ _). assert (keeps (mem t2) (mem tk) (cr3 t2)) as Kp.
  { intros p q Lp Np. apply K3. by apply (sp_held _ _ _ SP2) in Np as [? _]. }
  assert (∀ v, maps (mem tk) (cr3 tk) v = if decide (page v = page phys) then None else maps (mem t) (cr3 t) v) as Mk.
  { intros v. cbn [tk cr3]. by rewrite (keeps_maps _ _ _ _ Kp), M2, C2. }
  assert (is_space (mem tk) _ (cr3 tk)) as SPk by (eapply keeps_space; [exact Kp|exact SP2]).
  assert (maps (mem tk) (cr3 tk) hhdm = Some (phys, (true, x), u)) as Mkh by (by rewrite Mk, decide_False).
  rewrite (bind_run _ _ _ _ _ (read_run_here tk _ (ok_tabs _ _ _ Hok3) SPk _ _ _ hhdm phys _ _ Mkh)), lookup_insert_eq.
  cbn [default from_option id]. rewrite Z.eqb_refl. cbn [negb]. eexists. split; [reflexivity|]. cbn [machine words EXPECT_FAULT_ADDR].
  split; [exact C2|]. split; [etrans; [exact KP3|apply (ed_kpml4 _ _ _ _ _ _ Ed)]|]. split; [done|]. split; [done|]. intros v.
  pose proof (sees_maps HHDM_OFFSET HHDM_room tk _ _ v (ok_tabs _ _ _ Hok3) SPk) as E. rewrite Mk in E. change (cr3 tk) with (cr3 t2) in E. rewrite C2 in E.
  etrans; [exact E|]. rewrite (sees_maps HHDM_OFFSET HHDM_room t H (cr3 t) v (ok_tabs _ _ _ Hok) SP). by case_decide.
Qed.
(** ** The checks of the foundation *)

(** Both checks of a guard page pass: on tables that map the block at its alias in
    the direct map, the lower page is left without a mapping and a raw read of it is
    contained, and the page above stays mapped as writable data. *)
Theorem guard_checks_hold s H block pd u :
  okay (machine s) H 1 → is_space (mem (machine s)) H (cr3 (machine s)) → frame_ok block → frame_ok (block + PAGE) → block ≠ 0%Z →
  let guard := (block + HHDM_OFFSET)%Z in let neighbour := (block + PAGE + HHDM_OFFSET)%Z in
  covered (mem (machine s)) (cr3 (machine s)) guard pd → page neighbour ≠ page guard →
  maps (mem (machine s)) (cr3 (machine s)) neighbour = Some ((block + PAGE)%Z, (true, false), u) →
  ∃ t', install_guard_page HHDM_OFFSET guard (machine s) = (Ok (), t') ∧
    verify_guard_page HHDM_OFFSET (Some block) s = (Ok (), on_with s t') ∧
    escape_guard_page HHDM_OFFSET LABEL (Some block) s = (Ok (), mkSeam t' (words s) 0 LABEL).
Proof using HHDM_room.
  destruct s as [t w a0 r0]. intros Hok SP F1 F2 Hnz guard neighbour Hc Hpg HM. cbn [machine words] in *.
  destruct (install_guard_edited HHDM_OFFSET HHDM_room t H 0 guard pd Hok SP Hc) as (pt & t' & R & _ & Ed & _ & SP' & _ & M & _).
  pose proof (ok_tabs _ _ _ (ed_okay _ _ _ _ _ _ Ed)) as TB. pose proof (ed_cr3 _ _ _ _ _ _ Ed) as C. rewrite page_align in M. rewrite <- C in SP', M.
  assert (maps (mem t') (cr3 t') guard = None) as Mg by (by rewrite M, decide_True).
  assert (maps (mem t') (cr3 t') neighbour = Some ((block + PAGE)%Z, (true, false), u)) as Mn by (by rewrite M, decide_False, C).
  exists t'. split; [done|]. unfold verify_guard_page, escape_guard_page. split.
  - rewrite (lifted_run _ _ _ _ (phys_ok HHDM_OFFSET HHDM_room block F1)). erewrite lifted_run by (apply arith_in; unfold in_u; destruct F2; lia).
    rewrite (lifted_run _ _ _ _ (phys_ok HHDM_OFFSET HHDM_room _ F2)). fold guard neighbour. rewrite (machine_run _ _ (mkSeam t w a0 r0) _ _ R).
    unfold on_with. cbn [machine words EXPECT_FAULT_ADDR EXPECT_FAULT_RESUME].
    rewrite (translate_bind t' _ TB SP'), Mg. erewrite bind_run by reflexivity.
    rewrite (translate_bind t' _ TB SP'), Mn. cbn [fmap option_fmap option_map fst]. erewrite bind_run by (unfold or_fatal; by rewrite bool_decide_eq_true_2).
    by rewrite (prot_bind t' _ TB SP'), Mn.
  - rewrite (lifted_run _ _ _ _ (phys_ok HHDM_OFFSET HHDM_room block F1)). fold guard. rewrite (machine_run _ _ (mkSeam t w a0 r0) _ _ R).
    unfold on_with. cbn [machine words EXPECT_FAULT_ADDR EXPECT_FAULT_RESUME].
    rewrite (bind_run _ _ _ _ _ (contains_run t' _ TB SP' _ _ _ guard ltac:(destruct F1; unfold guard; lia))), Mg. done.
Qed.

Lemma zeroed_run t H n : okay t H (S n) → ∃ z f, alloc_zeroed_frame HHDM_OFFSET t = (Ok (Some z), upd t (<[z:=replicate 512 0%Z]> (mem t)) f) ∧
  (z ∉ H) ∧ (z ∈ loose ({[z]} ∪ H)) ∧ okay (upd t (<[z:=replicate 512 0%Z]> (mem t)) f) ({[z]} ∪ H) n ∧ (fs_count (fr t) = fs_count f + 1)%Z.
Proof using HHDM_room.
  intros [Hh Hs TB]. pose proof (fs_alloc_spec _ _ Hh) as Ha. pose proof (fs_kept_held _ _ Hh) as Hkept. simpl in Hs.
  unfold alloc_zeroed_frame, on_frames, set_mem. munfold. destruct (fs_alloc (fr t)) as [[[z|]|e|] f]; try done. destruct Ha as (Hn & Hh' & Hcnt).
  assert (frame_ok z) as Hf by (eapply fs_held_ok; [done|set_solver]). rewrite phys_ok by done. exists z, f. split_and!; try done; [set_solver|].
  split; [done|done|]. by apply tabs_insert.
Qed.

(** The check of W^X and of zeroed frames answers for what the tables say: where one
    frame is left it passes exactly when [text] is executable and not writable and
    [data] is writable and not executable, and then no frame is lost. *)
Theorem wx_check_exact s H text data :
  okay (machine s) H 1 → is_space (mem (machine s)) H (cr3 (machine s)) →
  let prot v := (sees HHDM_OFFSET (machine s) (cr3 (machine s)) v).2 in
  match verify_wx_and_zero HHDM_OFFSET text data s with
  | (Ok _, s') => prot text = Ok (Some (false, true)) ∧ prot data = Ok (Some (true, false)) ∧
      fs_count (fr (machine s')) = fs_count (fr (machine s)) ∧ held (fr (machine s')) H
  | (Err stop, s') => stop = Halted ∧ s' = s ∧ (prot text ≠ Ok (Some (false, true)) ∨ prot data ≠ Ok (Some (true, false)))
  | (Panic, _) => False
  end.
Proof using HHDM_room.
  destruct s as [t w a0 r0]. intros Hok SP prot. cbn [machine] in *. pose proof (ok_tabs _ _ _ Hok) as TB. unfold verify_wx_and_zero.
  assert (∀ v, prot v = Ok ((λ x, x.1.2) <$> maps (mem t) (cr3 t) v)) as Hp by (intros v; unfold prot; by rewrite (sees_eq HHDM_OFFSET HHDM_room t H)).
  rewrite !Hp, (prot_bind t H TB SP). set (pt := _ <$> maps _ _ text). set (pd := _ <$> maps _ _ data).
  destruct (decide (pt = Some (false, true))) as [Et|Et]; last first.
  { unfold or_fatal at 1. rewrite bool_decide_eq_false_2 by done. munfold. cbn. split; [done|]. split; [done|]. left. congruence. }
  rewrite Et, bool_decide_eq_true_2 by done. erewrite bind_run by reflexivity. rewrite (prot_bind t H TB SP). fold pd.
  destruct (decide (pd = Some (true, false))) as [Ed|Ed]; last first.
  { unfold or_fatal at 1. rewrite bool_decide_eq_false_2 by done. munfold. cbn. split; [done|]. split; [done|]. right. congruence. }
  rewrite Ed, bool_decide_eq_true_2 by done. erewrite bind_run by reflexivity.
  destruct (zeroed_run t H 0 Hok) as (z & f & R & HzH & Hz & Hok1 & Hcnt). rewrite (machine_run _ _ (mkSeam t w a0 r0) _ _ R).
  unfold on_with. cbn [machine words EXPECT_FAULT_ADDR EXPECT_FAULT_RESUME]. set (t1 := upd _ _ _) in *.
  assert (∀ i, i < 512 → read_entry HHDM_OFFSET z i t1 = (Ok 0%Z, t1)) as Hrd.
  { intros i Hi. apply (read_eq HHDM_OFFSET HHDM_room _ _ _ _ (ok_tabs _ _ _ Hok1)). unfold ent, t1. cbn [upd mem]. rewrite lookup_insert_eq. cbn [mbind option_bind]. by apply lookup_replicate_2. }
  rewrite (machine_run _ _ (mkSeam t1 w a0 r0) _ _ (Hrd 0 ltac:(lia))). unfold on_with. cbn [machine words EXPECT_FAULT_ADDR EXPECT_FAULT_RESUME].
  rewrite (machine_run _ _ (mkSeam t1 w a0 r0) _ _ (Hrd 511 ltac:(lia))). unfold on_with. cbn [machine words EXPECT_FAULT_ADDR EXPECT_FAULT_RESUME].
  erewrite bind_run by reflexivity. apply elem_of_difference in Hz as [Hz1 Hz2].
  destruct (fs_free_spec _ _ z (ok_held _ _ _ Hok1) Hz1 Hz2) as (f' & Rf & Hh' & Hc').
  unfold on_machine, free_table, on_frames. cbn [machine]. rewrite Rf. cbn. split; [done|]. split; [done|]. cbn [t1 upd fr] in Hc'. split; [lia|].
  replace H with ((({[z]} ∪ H) ∖ {[z]}) : gset Z); [exact Hh'|]. set_solver.
Qed.
End faults.

(** Entering a domain takes the capability for it, whatever the flags library. *)
Theorem domain_entry_gated `{BF : Bitflags} : verify_domain_entry_gating = true.
Proof.
  assert (bf_contains ENTER ENTER = true) as E by (by apply bf_contains_spec). unfold verify_domain_entry_gating, enter_domain.
  cbv -[bf_contains ENTER]. by rewrite E.
Qed.

(** ** On the small machine *)

Definition small_seam : Seam (option FrameAllocator) := mkSeam small_s ∅ 0 0.
Definition small_label : Z := 0xffffffff80001000.

Lemma small_kernel : ∃ B, okay small_s B 6 ∧ is_space (mem small_s) B (cr3 small_s).
Proof.
  destruct (booted_active small_hhdm small_km small_room small_boot small_s ∅ 6 small_booted) as (B & Hok & SP & _); [pose proof small_supply; lia|].
  by exists B.
Qed.

Lemma small_covered v pd e : node (mem small_s) (cr3 small_s) [idx v 3; idx v 2] = Some pd → ent (mem small_s) pd (idx v 1) = Some e → has e PRESENT = true →
  ∃ pd, covered (mem small_s) (cr3 small_s) v pd.
Proof. intros N E P. exists pd. split; [done|]. by exists e. Qed.

Lemma small_victim : victim small_hhdm small_s small_pa.
Proof.
  split; [vm_compute; reflexivity|]. split; [done|]. split; [by vm_compute|].
  split; [eapply small_covered; by vm_compute|]. split; [eapply small_covered; by vm_compute|].
  do 2 eexists. vm_compute. reflexivity.
Qed.

Lemma domain_escape_holds_witness : ∃ s', domain_escape_contained small_hhdm small_label small_seam = (Ok true, s') ∧
  cr3 (machine s') = cr3 small_s ∧ EXPECT_FAULT_ADDR s' = 0%Z ∧ words s' !! small_pa = Some SENTINEL ∧
  sees small_hhdm (machine s') (cr3 small_s) small_pa = answers None.
Proof.
  destruct small_kernel as (B & Hok & SP).
  destruct (domain_escape_holds small_hhdm small_label small_room small_seam B small_pa Hok SP small_victim) as (s' & R & C & _ & W & E & S).
  exists s'. split; [exact R|]. split; [exact C|]. split; [exact E|]. split; [rewrite W; apply lookup_insert_eq|exact (S small_pa)].
Defined.

Lemma guard_checks_hold_witness : ∃ t', install_guard_page small_hhdm (0x24000 + small_hhdm) small_s = (Ok (), t') ∧
  escape_guard_page small_hhdm small_label (Some 0x24000%Z) small_seam = (Ok (), mkSeam t' ∅ 0 small_label).
Proof.
  destruct small_kernel as (B & Hok & SP).
  destruct (small_covered (0x24000 + small_hhdm) 106496 9223372036854775939) as [pd Hc]; [by vm_compute|by vm_compute|by vm_compute|].
  destruct (guard_checks_hold small_hhdm small_label small_room small_seam B 0x24000 pd false) as (t' & R & _ & E);
    [exact (okay_weaken _ _ 6 1 ltac:(lia) Hok)|exact SP|split; [lia|reflexivity]|split; [unfold PAGE; lia|reflexivity]|done|exact Hc|by vm_compute|by vm_compute|].
  exists t'. split; [exact R|exact E].
Defined.
