(* ===== verification/IsolationA64.v ===== *)
(** * Tagged memory and the escape test of AArch64

    The single-shot recovery seam ([kernel/src/arch/aarch64/interrupts.rs]) and the
    memory-tagging escape test ([kernel/src/arch/aarch64/mte.rs]), over the tables of
    PagingA64.

    The processor's part is here too, as the architecture has it: a pointer carries a
    tag in bits 59 to 56, which the top-byte-ignore control takes out of the address;
    a load or a store through a page of the tagged memory type is refused when the
    pointer's tag is not the tag of its granule of sixteen bytes, where the controls
    ask for the check.  [tags] holds the granules' tags and [words] the words of frames
    that are not tables, by physical address.  [a & !b] is [Z.ldiff a b]. *)

From S2P Require Import Prelude Arch Buddy MemInit Frames.
From S2P Require Paging PagingA64 Isolation.
Module T := PagingA64.

Abbreviation has := Paging.has.

(** ** Control registers *)

Record Ctl := mkCtl { mair : Z; tcr : Z; sctlr : Z; tco : bool }.

Definition enable (c : Ctl) : Ctl :=
  let mair := Z.lor (Z.ldiff (mair c) (Z.shiftl 0xff 16)) (Z.shiftl 0xf0 16) in
  let tcr := Z.lor (tcr c) (Z.shiftl 1 38) in
  let tcr := Z.ldiff tcr (Z.shiftl 1 58) in
  let tcr := Z.lor tcr (Z.shiftl 1 37) in
  let tcr := Z.ldiff tcr (Z.shiftl 1 57) in
  let sctlr := Z.lor (sctlr c) (Z.shiftl 1 43) in
  let sctlr := Z.lor (Z.ldiff sctlr (Z.shiftl 3 40)) (Z.shiftl 1 40) in
  let sctlr := Z.lor sctlr (Z.shiftl 1 42) in
  let sctlr := Z.lor (Z.ldiff sctlr (Z.shiftl 3 38)) (Z.shiftl 1 38) in
  mkCtl mair tcr sctlr false.

(** ** The processor *)

Definition upper (p : Z) : bool := Z.testbit p 55.
Definition tag_of (p : Z) : Z := Z.land (Z.shiftr p 56) 15.
Definition untag (p : Z) : Z := if upper p then Z.lor p (Z.shiftl 0xff 56) else Z.ldiff p (Z.shiftl 0xff 56).
Definition ignores_top (c : Ctl) (p : Z) : bool := has (tcr c) (Z.shiftl 1 (if upper p then 38 else 37)).
(** The address a pointer stands for. *)
Definition address (c : Ctl) (p : Z) : Z := if ignores_top c p then untag p else p.
(** Whether a kernel access through [p] is checked, on a page of the tagged type. *)
Definition checked (c : Ctl) (p : Z) : bool :=
  ignores_top c p && has (sctlr c) (Z.shiftl 1 43) && (Z.land (Z.shiftr (sctlr c) 40) 3 =? 1)%Z && negb (tco c) &&
  (Z.land (Z.shiftr (mair c) 16) 0xff =? 0xf0)%Z &&
  negb (has (tcr c) (Z.shiftl 1 (if upper p then 58 else 57)) && (tag_of p =? if upper p then 15 else 0)%Z).
(** The leaf names attribute 2. *)
Definition tagged_leaf (e : Z) : bool := negb (has e (Z.shiftl 1 2)) && has e (Z.shiftl 1 3) && negb (has e (Z.shiftl 1 4)).
Definition granule (pa : Z) : Z := Z.ldiff pa 15.

Record Seam (F : Type) := mkSeam {
  machine : T.Mach F;
  ctl : Ctl;
  words : gmap Z Z;
  tags : gmap Z Z;
  EXPECT_FAULT_ADDR : Z;
  EXPECT_FAULT_RESUME : Z
}.
Arguments mkSeam {F} _ _ _ _ _ _.
Arguments machine {F} _.
Arguments ctl {F} _.
Arguments words {F} _.
Arguments tags {F} _.
Arguments EXPECT_FAULT_ADDR {F} _.
Arguments EXPECT_FAULT_RESUME {F} _.

Section isolation64.
Context {F : Type} {FS : FrameSource F}.
Variable HHDM_OFFSET : Z.
(** The address of [praesidium_a64_probe_resume]. *)
Variable LABEL : Z.
Abbreviation SM := (M (Seam F) Isolation.Stop).

Definition on_machine {A} (m : M (T.Mach F) Empty_set A) : SM A := λ s,
  match m (machine s) with
  | (Ok v, t) => (Ok v, mkSeam t (ctl s) (words s) (tags s) (EXPECT_FAULT_ADDR s) (EXPECT_FAULT_RESUME s))
  | (_, t) => (Panic, mkSeam t (ctl s) (words s) (tags s) (EXPECT_FAULT_ADDR s) (EXPECT_FAULT_RESUME s))
  end.
Definition arm (addr : Z) : SM unit := modify (λ s,
  mkSeam (machine s) (ctl s) (words s) (tags s) addr (EXPECT_FAULT_RESUME s)).
Definition set_resume (elr : Z) : SM unit := modify (λ s,
  mkSeam (machine s) (ctl s) (words s) (tags s) (EXPECT_FAULT_ADDR s) elr).

(** The leaf and the physical address of a kernel access through [p]. *)
Definition look (p : Z) : SM (option (Z * Z)) :=
  s ← get;
  let va := address (ctl s) p in
  l ← on_machine (T.walk HHDM_OFFSET va);
  o ← on_machine (T.translate HHDM_OFFSET va);
  mret (match l, o with
        | Some lm, Some pa => Some (lm.1, pa)
        | _, _ => None
        end).

(** A load or a store: [None] is a fault. *)
Definition access (store : bool) (p : Z) : SM (option Z) :=
  o ← look p;
  s ← get;
  mret (match o with
        | None => None
        | Some (leaf, pa) =>
            if store && has leaf T.AP_RO then None else
            if tagged_leaf leaf && checked (ctl s) p && negb (tag_of p =? default 0%Z (tags s !! granule pa))%Z then None
            else Some pa
        end).

(** ** Exceptions *)

Definition VA_TAG_MASK : Z := 0x00ffffffffffffff.

Definition expected_fault_resume (far : Z) : SM (option Z) :=
  s ← get;
  if negb (EXPECT_FAULT_ADDR s =? 0)%Z && (Z.land far VA_TAG_MASK =? EXPECT_FAULT_ADDR s)%Z then
    arm 0;;
    mret (Some (EXPECT_FAULT_RESUME s))
  else mret None.

(** The return address the handler leaves in slot 31 of the frame. *)
Definition sync_handler (far : Z) : SM Z :=
  o ← expected_fault_resume far;
  match o with
  | Some resume => mret resume
  | None => throw Isolation.Halted
  end.

Definition unexpected_exception : SM unit := throw Isolation.Halted.

(** [praesidium_a64_probe_read]: 1 when the handler returned to its label. *)
Definition probe_read (addr : Z) : SM Z :=
  o ← access false addr;
  match o with
  | Some _ => mret 0%Z
  | None => elr ← sync_handler addr; if (elr =? LABEL)%Z then mret 1%Z else panic
  end.

Definition contains_raw_read (addr : Z) : SM bool :=
  set_resume LABEL;;
  arm (Z.land addr VA_TAG_MASK);;
  r ← probe_read addr;
  arm 0;;
  mret (r =? 1)%Z.

(** ** Kernel loads and stores of a word, and of a tag *)

Definition read_volatile (addr : Z) : SM Z :=
  o ← access false addr;
  match o with
  | Some pa => s ← get; mret (default 0%Z (words s !! pa))
  | None => sync_handler addr;; panic
  end.

Definition write_volatile (addr value : Z) : SM unit :=
  o ← access true addr;
  match o with
  | Some pa => modify (λ s,
      mkSeam (machine s) (ctl s) (<[pa:=value]> (words s)) (tags s) (EXPECT_FAULT_ADDR s) (EXPECT_FAULT_RESUME s))
  | None => sync_handler addr;; panic
  end.

(** [stg p, [p]]: no tag is checked; a page of another type has no tags to set. *)
Definition stg (p : Z) : SM unit :=
  o ← look p;
  match o with
  | Some (leaf, pa) =>
      if has leaf T.AP_RO then sync_handler p;; panic else
      modify (λ s,
        if tagged_leaf leaf && has (sctlr (ctl s)) (Z.shiftl 1 43)
        then mkSeam (machine s) (ctl s) (words s) (<[granule pa:=tag_of p]> (tags s)) (EXPECT_FAULT_ADDR s) (EXPECT_FAULT_RESUME s)
        else s)
  | None => sync_handler p;; panic
  end.

(** ** The escape test *)

Definition SENTINEL : Z := 0x5A5A1508D0D0BEEF.

Definition domain_escape_contained : SM bool :=
  modify (λ s, mkSeam (machine s) (enable (ctl s)) (words s) (tags s) (EXPECT_FAULT_ADDR s) (EXPECT_FAULT_RESUME s));;
  o ← on_machine (T.on_frames fs_alloc);
  match o with
  | None => panic
  | Some phys =>
      hhdm ← lift (Paging.phys_to_virt HHDM_OFFSET phys);
      let ident := phys in
      on_machine (T.map_tagged HHDM_OFFSET hhdm);;
      on_machine (T.install_guard_page HHDM_OFFSET ident);;
      let owner := T.with_tag hhdm 1 in
      let foreign := T.with_tag hhdm 2 in
      stg owner;;
      write_volatile owner SENTINEL;;
      c_mte ← contains_raw_read foreign;
      c_ident ← contains_raw_read ident;
      w ← read_volatile owner;
      if negb (w =? SENTINEL)%Z then throw Isolation.Halted else
      mret (c_mte && c_ident)
  end.
End isolation64.
