(* ===== verification/IsolationA64Theorems.v ===== *)
(** * Tagged memory and the escape test of AArch64: theorems *)

From stdpp Require Import sets.
From S2P Require Import Prelude Arch Buddy BuddyInv BuddyProps MemInit MemInitProps Frames.
From S2P Require Import Paging PagingInv PagingOps PagingClone PagingWorld PagingBuild PagingTheorems PagingA64Sim PagingA64Theorems PagingA64Boot.
From S2P Require Isolation IsolationA64.
From S2P Require Import IsolationTheorems.
Module I := IsolationA64.

#[local] Opaque idx.

(** ** Pointers *)

Lemma tag_bits x tag i : (0 <= i)%Z → Z.testbit (A.with_tag x tag) i = (Z.testbit x i && negb (bool_decide (56 <= i < 60)%Z)) || (Z.testbit tag (i - 56) && bool_decide (56 <= i < 60)%Z).
Proof.
  intros Hi. unfold A.with_tag. rewrite Z.lor_spec, Z.ldiff_spec, !Z.shiftl_spec, Z.land_spec by done. change 15%Z with (Z.ones 4).
  destruct (Z.lt_ge_cases i 56) as [Hl|Hl].
  - rewrite !(Z.testbit_neg_r _ (i - 56)) by lia. rewrite bool_decide_eq_false_2 by lia. by rewrite !andb_true_r, !andb_false_r.
  - rewrite Z.testbit_ones_nonneg by lia. destruct (Z.ltb_spec (i - 56) 4) as [Hn|Hn]; [rewrite bool_decide_eq_true_2 by lia|rewrite bool_decide_eq_false_2 by lia]; done.
Qed.

Lemma untag_tag x tag : I.untag (A.with_tag x tag) = I.untag x.
Proof.
  assert (I.upper (A.with_tag x tag) = I.upper x) as E by (unfold I.upper; rewrite tag_bits, bool_decide_eq_false_2 by lia; by rewrite andb_true_r, andb_false_r, orb_false_r).
  unfold I.untag. rewrite E. destruct (I.upper x); apply Z.bits_inj'; intros i Hi.
  - rewrite !Z.lor_spec, tag_bits by done. destruct (bool_decide_reflect (56 <= i < 60)%Z) as [Hb|Hb]; [|by rewrite andb_true_r, andb_false_r, orb_false_r].
    rewrite Z.shiftl_spec by done. change 255%Z with (Z.ones 8). rewrite Z.testbit_ones_nonneg, (proj2 (Z.ltb_lt (i - 56) 8)) by lia. by rewrite !orb_true_r.
  - rewrite !Z.ldiff_spec, tag_bits by done. destruct (bool_decide_reflect (56 <= i < 60)%Z) as [Hb|Hb]; [|by rewrite andb_true_r, andb_false_r, orb_false_r].
    rewrite Z.shiftl_spec by done. change 255%Z with (Z.ones 8). rewrite Z.testbit_ones_nonneg, (proj2 (Z.ltb_lt (i - 56) 8)) by lia. by rewrite !andb_false_r.
Qed.

Lemma upper_tag x tag : I.upper (A.with_tag x tag) = I.upper x.
Proof. unfold I.upper. rewrite tag_bits, bool_decide_eq_false_2 by lia. by rewrite andb_true_r, andb_false_r, orb_false_r. Qed.

Lemma tag_tag x tag : I.tag_of (A.with_tag x tag) = Z.land tag 15.
Proof.
  apply Z.bits_inj'. intros i Hi. unfold I.tag_of. rewrite !Z.land_spec, Z.shiftr_spec, tag_bits by lia. change 15%Z with (Z.ones 4). rewrite Z.testbit_ones_nonneg by lia.
  destruct (Z.ltb_spec i 4) as [Hn|Hn]; [|by rewrite !andb_false_r]. rewrite bool_decide_eq_true_2 by lia. replace (i + 56 - 56)%Z with i by lia. by rewrite andb_false_r, !andb_true_r.
Qed.

Lemma mask_tag x tag : Z.land (A.with_tag x tag) I.VA_TAG_MASK = Z.land x I.VA_TAG_MASK.
Proof.
  apply Z.bits_inj'. intros i Hi. rewrite !Z.land_spec, tag_bits by done. change I.VA_TAG_MASK with (Z.ones 56). rewrite Z.testbit_ones_nonneg by lia.
  destruct (Z.ltb_spec i 56); [|by rewrite !andb_false_r]. rewrite bool_decide_eq_false_2 by lia. by rewrite andb_true_r, andb_false_r, orb_false_r.
Qed.

(** ** The controls after [enable] *)

Lemma has_testbit x n : (0 <= n)%Z → has x (Z.shiftl 1 n) = Z.testbit x n.
Proof.
  intros Hn. unfold has. rewrite Z.shiftl_1_l. destruct (Z.testbit x n) eqn:E.
  - apply negb_true_iff, Z.eqb_neq. intros H. apply (f_equal (λ y, Z.testbit y n)) in H. rewrite Z.land_spec, Z.pow2_bits_true, E, Z.bits_0 in H by done. done.
  - apply negb_false_iff, Z.eqb_eq. apply Z.bits_inj'. intros i Hi. rewrite Z.land_spec, Z.pow2_bits_eqb, Z.bits_0 by done.
    destruct (Z.eqb_spec n i) as [<-|]; [by rewrite E|by rewrite andb_false_r].
Qed.

Lemma field_out w n i : (0 <= w)%Z → (0 <= i)%Z → ¬ (n <= i < n + w)%Z → Z.testbit (Z.shiftl (Z.ones w) n) i = false.
Proof.
  intros Hw Hi Ho. rewrite Z.shiftl_spec by done. destruct (Z.lt_ge_cases (i - n) 0); [by apply Z.testbit_neg_r|]. rewrite Z.testbit_ones_nonneg by lia. apply Z.ltb_ge. lia.
Qed.

(** The value of a field of two or eight bits. *)
Lemma field_is x w n v : (0 <= w)%Z → (0 <= n)%Z → (0 <= v < 2 ^ w)%Z → Z.land (Z.shiftr (Z.lor (Z.ldiff x (Z.shiftl (Z.ones w) n)) (Z.shiftl v n)) n) (Z.ones w) = v.
Proof.
  intros Hw Hn Hv. apply Z.bits_inj'. intros i Hi. rewrite Z.land_spec, Z.shiftr_spec, Z.lor_spec, Z.ldiff_spec, !Z.shiftl_spec by lia. replace (i + n - n)%Z with i by lia.
  rewrite Z.testbit_ones_nonneg by lia. destruct (Z.ltb_spec i w); [by rewrite andb_false_r, andb_true_r|]. rewrite andb_false_r. symmetry.
  destruct (decide (v = 0)%Z) as [->|]; [apply Z.bits_0|]. apply Z.bits_above_log2; [lia|]. apply Z.log2_lt_pow2; [lia|].
  apply Z.lt_le_trans with (2 ^ w)%Z; [lia|]. apply Z.pow_le_mono_r; lia.
Qed.

(** The top byte is ignored and every kernel access is checked, whatever its tag;
    nothing else of the registers changes. *)
Theorem enable_checks c : let c' := I.enable c in
  (∀ p, I.address c' p = I.untag p) ∧ (∀ p, I.checked c' p = true) ∧ has (I.sctlr c') (Z.shiftl 1 43) = true ∧
  (∀ i, (0 <= i)%Z → (¬ (16 <= i < 24)%Z → Z.testbit (I.mair c') i = Z.testbit (I.mair c) i) ∧
     (¬ (37 <= i <= 38)%Z → ¬ (57 <= i <= 58)%Z → Z.testbit (I.tcr c') i = Z.testbit (I.tcr c) i) ∧
     (¬ (38 <= i <= 43)%Z → Z.testbit (I.sctlr c') i = Z.testbit (I.sctlr c) i)).
Proof.
  intros c'. assert (∀ p, I.ignores_top c' p = true) as Top.
  { intros p. unfold I.ignores_top. rewrite has_testbit by (by destruct (I.upper p)). unfold c', I.enable. cbn [I.tcr]. rewrite !Z.ldiff_spec, !Z.lor_spec, !Z.ldiff_spec, !Z.lor_spec.
    destruct (I.upper p); cbn; by rewrite ?orb_true_r, ?andb_true_r, ?orb_true_r. }
  assert (Z.testbit (I.sctlr c') 43 = true) as Ata.
  { unfold c', I.enable. cbn [I.sctlr]. rewrite !Z.lor_spec, !Z.ldiff_spec, !Z.lor_spec, !Z.ldiff_spec, !Z.lor_spec. cbn. by rewrite ?orb_true_r. }
  split; [intros p; unfold I.address; by rewrite Top|]. rewrite has_testbit by done. split; [|split; [done|]].
  - intros p. unfold I.checked. rewrite Top, has_testbit, Ata by done.
    assert (Z.land (Z.shiftr (I.sctlr c') 40) 3 = 1%Z) as ->.
    { apply Z.bits_inj'. intros i Hi. rewrite Z.land_spec, Z.shiftr_spec by done. change 3%Z with (Z.ones 2). rewrite Z.testbit_ones_nonneg by lia.
      destruct (Z.ltb_spec i 2) as [Hl|Hl]; [|rewrite andb_false_r; symmetry; apply Z.bits_above_log2; simpl; lia]. rewrite andb_true_r. unfold c', I.enable. cbn [I.sctlr].
      rewrite !Z.lor_spec, !Z.ldiff_spec, !Z.lor_spec, !Z.ldiff_spec, !Z.lor_spec. assert (i = 0 ∨ i = 1)%Z as [->| ->] by lia; cbn; by rewrite ?andb_false_r, ?orb_true_r. }
    assert (Z.land (Z.shiftr (I.mair c') 16) 0xff = 0xf0%Z) as -> by (by apply (field_is (I.mair c) 8 16 0xf0)).
    assert (has (I.tcr c') (Z.shiftl 1 (if I.upper p then 58 else 57)) = false) as ->; [|done].
    rewrite has_testbit by (by destruct (I.upper p)). unfold c', I.enable. cbn [I.tcr]. rewrite !Z.ldiff_spec, !Z.lor_spec, !Z.ldiff_spec, !Z.lor_spec.
    destruct (I.upper p); cbn; by rewrite ?andb_false_r.
  - intros i Hi. unfold c', I.enable. cbn [I.mair I.tcr I.sctlr]. change 255%Z with (Z.ones 8). change 240%Z with (Z.shiftl (Z.ones 4) 4). rewrite Z.shiftl_shiftl by lia.
    change 3%Z with (Z.ones 2). change (Z.shiftl 1) with (Z.shiftl (Z.ones 1)). split_and!; intros; rewrite ?Z.ldiff_spec, ?Z.lor_spec, ?Z.ldiff_spec, ?Z.lor_spec, ?Z.ldiff_spec, ?Z.lor_spec;
      rewrite ?field_out by lia; by rewrite ?orb_false_r, ?andb_true_r, ?orb_false_r, ?andb_true_r, ?orb_false_r.
Qed.

(** ** Running an access *)

Section faults64.
Context {F : Type} {FS : FrameSource F}.
Variable HHDM_OFFSET LABEL : Z.
Hypothesis HHDM_room : (0 <= HHDM_OFFSET <= 2 ^ 64 - 2 ^ 44)%Z.
Implicit Types (s : I.Seam F) (t : A.Mach F).

(** A page fault or a tag fault of the kernel goes on only where the very address was
    armed for it, at the label armed with it and only once, whatever tag the pointer
    carries; every other one halts and changes nothing. *)
Theorem a64_faults_fail_closed far s :
  match I.sync_handler far s with
  | (Ok elr, s') => Z.land far I.VA_TAG_MASK = I.EXPECT_FAULT_ADDR s ∧ I.EXPECT_FAULT_ADDR s ≠ 0%Z ∧ elr = I.EXPECT_FAULT_RESUME s ∧
      s' = I.mkSeam (I.machine s) (I.ctl s) (I.words s) (I.tags s) 0 (I.EXPECT_FAULT_RESUME s) ∧ ∀ far', I.sync_handler far' s' = (Err Isolation.Halted, s')
  | (Err stop, s') => stop = Isolation.Halted ∧ (Z.land far I.VA_TAG_MASK ≠ I.EXPECT_FAULT_ADDR s ∨ I.EXPECT_FAULT_ADDR s = 0%Z) ∧ s' = s
  | (Panic, _) => False
  end.
Proof using Type.
  unfold I.sync_handler, I.expected_fault_resume. munfold. destruct (Z.eqb_spec (I.EXPECT_FAULT_ADDR s) 0) as [E0|E0]; [cbn; by auto|].
  destruct (Z.eqb_spec (Z.land far I.VA_TAG_MASK) (I.EXPECT_FAULT_ADDR s)) as [E1|E1]; [|cbn; by auto]. cbn. split_and!; congruence || done.
Qed.

Lemma seam_run {X B} (m : M (A.Mach F) Empty_set X) (k : X → M (I.Seam F) Isolation.Stop B) t c w g a r v t' :
  m t = (Ok v, t') → (I.on_machine m ≫= k) (I.mkSeam t c w g a r) = k v (I.mkSeam t' c w g a r).
Proof using Type. intros R. apply bind_run. unfold I.on_machine. cbn [I.machine]. by rewrite R. Qed.

Section access64.
Variables (t : A.Mach F) (c : I.Ctl) (H : gset Z).
Hypothesis (Rd : ready t H 0) (Sp : ∀ h, tree t H (root_of h t)).

Lemma translate_run v : ∃ o, A.walk HHDM_OFFSET v t = (Ok o, t) ∧ A.translate HHDM_OFFSET v t = ((A.translate HHDM_OFFSET v t).1, t).
Proof using HHDM_room Rd Sp.
  destruct (walked HHDM_OFFSET HHDM_room (A.high v) A.UXN t H v Rd (Sp _) eq_refl) as (o & E & _ & _). exists o. split; [done|].
  unfold A.translate. rewrite (bind_run _ _ _ _ _ E). destruct o as [[leaf mask]|]; [|done]. unfold mbind, M_bind, lift. by destruct (arith 64 _).
Qed.

(** What a pointer leads to. *)
Lemma look_run w g a r p x : leads HHDM_OFFSET t (I.address c p) x →
  ∃ y, I.look HHDM_OFFSET p (I.mkSeam t c w g a r) = (Ok y, I.mkSeam t c w g a r) ∧
    match x, y with
    | Some (pa, f), Some (leaf, pa') => pa' = pa ∧ ∀ b, attribute b → has leaf b = has f b
    | None, None => True
    | _, _ => False
    end.
Proof using HHDM_room Rd Sp.
  intros [Hs Ha]. destruct (translate_run (I.address c p)) as (o & W & Tr). unfold sees64 in Hs. injection Hs as Ht _. rewrite Ht in Tr.
  unfold I.look. erewrite bind_run by reflexivity. cbn [I.ctl]. rewrite (seam_run _ _ _ _ _ _ _ _ _ _ W), (seam_run _ _ _ _ _ _ _ _ _ _ Tr).
  unfold attr in Ha. rewrite W in Ha. eexists. split; [reflexivity|]. specialize (Ha A.UXN attribute_uxn) as H0.
  destruct o as [lm|], x as [[pa f]|]; cbn in H0 |- *; try done. split; [done|]. intros b Hb. specialize (Ha b Hb). cbn in Ha. congruence.
Qed.

Lemma access_run w g a r st p x : leads HHDM_OFFSET t (I.address c p) x →
  I.access HHDM_OFFSET st p (I.mkSeam t c w g a r) = (Ok (match x with
    | None => None
    | Some (pa, f) => if st && has f A.AP_RO then None else
        if I.tagged_leaf f && I.checked c p && negb (I.tag_of p =? default 0%Z (g !! I.granule pa))%Z then None else Some pa
    end), I.mkSeam t c w g a r).
Proof using HHDM_room Rd Sp.
  intros L. destruct (look_run w g a r p x L) as (y & E & P). unfold I.access. rewrite (bind_run _ _ _ _ _ E). erewrite bind_run by reflexivity. cbn [I.ctl I.tags].
  destruct x as [[pa f]|], y as [[leaf pa']|]; try done. destruct P as [-> P]. unfold I.tagged_leaf. rewrite !P by (apply attribute_ro || (apply attribute_bit; [lia|reflexivity])). done.
Qed.

Lemma contains64_run w g a r p x : Z.land p I.VA_TAG_MASK ≠ 0%Z → leads HHDM_OFFSET t (I.address c p) x →
  match x with None => True | Some (pa, f) => I.tagged_leaf f && I.checked c p && negb (I.tag_of p =? default 0%Z (g !! I.granule pa))%Z = true end →
  I.contains_raw_read HHDM_OFFSET LABEL p (I.mkSeam t c w g a r) = (Ok true, I.mkSeam t c w g 0 LABEL).
Proof using HHDM_room Rd Sp.
  intros Hz L Hx. unfold I.contains_raw_read. do 2 (erewrite bind_run by reflexivity). cbn [I.machine I.ctl I.words I.tags I.EXPECT_FAULT_ADDR I.EXPECT_FAULT_RESUME].
  assert (I.probe_read HHDM_OFFSET LABEL p (I.mkSeam t c w g (Z.land p I.VA_TAG_MASK) LABEL) = (Ok 1%Z, I.mkSeam t c w g 0 LABEL)) as E.
  { unfold I.probe_read. rewrite (bind_run _ _ _ _ _ (access_run _ _ _ _ false p x L)).
    destruct x as [[pa f]|]; cbn [andb]; [rewrite Hx|]; unfold I.sync_handler, I.expected_fault_resume; munfold; cbn [I.EXPECT_FAULT_ADDR I.EXPECT_FAULT_RESUME];
      rewrite Z.eqb_refl, (proj2 (Z.eqb_neq _ _) Hz); cbn; by rewrite Z.eqb_refl. }
  rewrite (bind_run _ _ _ _ _ E). by erewrite bind_run by reflexivity.
Qed.

(** Through a pointer with the tag of its granule, to a writable page. *)
Section owner.
Variables (p pa f : Z).
Hypothesis (L : leads HHDM_OFFSET t (I.address c p) (Some (pa, f))) (Wr : has f A.AP_RO = false).

Lemma stg_run w g a r : I.tagged_leaf f = true → has (I.sctlr c) (Z.shiftl 1 43) = true →
  I.stg HHDM_OFFSET p (I.mkSeam t c w g a r) = (Ok (), I.mkSeam t c w (<[I.granule pa:=I.tag_of p]> g) a r).
Proof using HHDM_room Rd Sp L Wr.
  intros Tg Ata. destruct (look_run w g a r p _ L) as ([[leaf pa']|] & E & P); [|done]. destruct P as [-> P]. unfold I.stg. rewrite (bind_run _ _ _ _ _ E), P, Wr by apply attribute_ro.
  unfold modify. cbn [I.ctl]. assert (I.tagged_leaf leaf = true) as -> by (unfold I.tagged_leaf in *; rewrite !P by (apply attribute_bit; [lia|reflexivity]); done). rewrite Ata. done.
Qed.

Lemma write64_run w g a r value : g !! I.granule pa = Some (I.tag_of p) →
  I.write_volatile HHDM_OFFSET p value (I.mkSeam t c w g a r) = (Ok (), I.mkSeam t c (<[pa:=value]> w) g a r).
Proof using HHDM_room Rd Sp L Wr.
  intros Hg. unfold I.write_volatile. rewrite (bind_run _ _ _ _ _ (access_run _ _ _ _ true p _ L)). rewrite Wr, Hg. cbn [andb default from_option id]. by rewrite Z.eqb_refl, andb_false_r.
Qed.

Lemma read64_run w g a r : g !! I.granule pa = Some (I.tag_of p) →
  I.read_volatile HHDM_OFFSET p (I.mkSeam t c w g a r) = (Ok (default 0%Z (w !! pa)), I.mkSeam t c w g a r).
Proof using HHDM_room Rd Sp L Wr.
  intros Hg. unfold I.read_volatile. rewrite (bind_run _ _ _ _ _ (access_run _ _ _ _ false p _ L)). rewrite Hg. cbn [andb default from_option id]. by rewrite Z.eqb_refl, andb_false_r.
Qed.
End owner.
End access64.
(** ** The escape test *)

(** What the two edits of the test leave: the alias in the direct map as tagged memory
    at the same frame, the identity alias gone, and nothing else changed. *)
Record walled t t' (phys : Z) : Prop := {
  fe_roots h : root_of h t' = root_of h t;
  fe_alias v : A.high v = true → page v = page (phys + HHDM_OFFSET) → leads HHDM_OFFSET t' v (Some ((phys + v mod 4096)%Z, tagged));
  fe_ident v : A.high v = false → page v = page phys → leads HHDM_OFFSET t' v None;
  fe_high v : A.high v = true → page v ≠ page (phys + HHDM_OFFSET) → same_at HHDM_OFFSET t t' v;
  fe_low v : A.high v = false → page v ≠ page phys → same_at HHDM_OFFSET t t' v
}.

Lemma wall_runs t H phys l2 l2' : ready t H 2 → (∀ h, tree t H (root_of h t)) → apart t (A.ttbr1 t) (A.ttbr0 t) → frame_ok phys →
  let alias := (phys + HHDM_OFFSET)%Z in (alias mod 4096 = 0)%Z → A.high phys = false → A.high alias = true →
  reaches t (A.ttbr0 t) phys l2 → reaches t (A.ttbr1 t) alias l2' → (A.translate HHDM_OFFSET alias t).1 = Ok (Some phys) →
  ∃ t1 t2 H2, A.map_tagged HHDM_OFFSET alias t = (Ok (), t1) ∧ A.install_guard_page HHDM_OFFSET phys t1 = (Ok (), t2) ∧
    ready t2 H2 0 ∧ (∀ h, tree t2 H2 (root_of h t2)) ∧ walled t t2 phys.
Proof using HHDM_room.
  intros Rd Sp Ap Hf alias Hal Hlo Hhi C0 C1 Ht. pose proof (frame_addressed phys Hf) as Had.
  destruct (half_edit HHDM_OFFSET HHDM_room true t H 1 alias phys tagged l2' Rd (Sp true) (Sp false) Ap Hhi C1 Had eq_refl eq_refl) as (pt & t1 & E & Ed & Er & _ & High & Low).
  assert ((A.translate HHDM_OFFSET alias t).1 = Ok (Some (phys + alias mod 4096)%Z)) as Ht' by (by rewrite Ht, Hal, Z.add_0_r).
  rewrite <- (map_tagged_edit HHDM_OFFSET HHDM_room true t H 1 alias l2' phys Rd (Sp true) C1 Hhi Ht') in E.
  pose proof (e_ready _ _ _ _ _ _ _ _ _ Ed) as Rd1. pose proof (other_tree t t1 H 1 _ _ _ _ _ _ Ed C1 (Sp false) Ap) as S0. pose proof (e_tree _ _ _ _ _ _ _ _ _ Ed) as S1.
  pose proof (apart_sym _ _ _ (other_apart t t1 H 1 _ _ _ _ _ _ Ed C1 (Sp false) Ap)) as Ap'.
  pose proof (other_reaches t t1 H 1 _ _ _ _ _ _ Ed C1 (Sp false) Ap phys l2 C0) as C0'.
  change (A.ttbr0 t) with (root_of false t) in *. change (A.ttbr1 t) with (root_of true t) in *. rewrite <- (Er false) in S0, Ap', C0'. rewrite <- (Er true) in S1, Ap'.
  destruct (edit_spec HHDM_OFFSET HHDM_room false t1 _ 0 phys 0 l2 Rd1 S0 C0' Hlo) as (pt2 & t2 & E2 & Ed2).
  destruct (regs_roots t1 t2 (e_regs _ _ _ _ _ _ _ _ _ Ed2)) as (T0 & T1 & _). assert (∀ h, root_of h t2 = root_of h t1) as Er2 by (intros []; done).
  pose proof (e_ready _ _ _ _ _ _ _ _ _ Ed2) as Rd2. pose proof (other_tree t1 t2 _ 0 _ _ _ _ _ _ Ed2 C0' S1 Ap') as S1'. pose proof (e_tree _ _ _ _ _ _ _ _ _ Ed2) as S0'.
  assert (∀ h, tree t2 ({[pt2]} ∪ ({[pt]} ∪ H)) (root_of h t2)) as S2 by (intros []; rewrite Er2; done).
  assert (∀ v, A.high v = true → same_at HHDM_OFFSET t1 t2 v) as High2.
  { intros v Hv. apply (same_intro HHDM_OFFSET HHDM_room true t1 t2 ({[pt]} ∪ H) ({[pt2]} ∪ ({[pt]} ∪ H))); [destruct Rd1; by split|done|done|apply (S2 true)|done|].
    intros b Hb. rewrite Er2. exact (other_maps t1 t2 _ 0 _ _ _ _ _ _ Ed2 C0' S1 Ap' b v Hb). }
  exists t1, t2, ({[pt2]} ∪ ({[pt]} ∪ H)). split; [done|]. split; [done|]. split; [done|]. split; [done|]. split.
  - intros h. by rewrite Er2.
  - intros v Hv Hp. eapply same_leads; [by apply High2|]. by apply High.
  - intros v Hv Hp. by apply (edited_at HHDM_OFFSET HHDM_room false t1 _ 0 phys 0 l2 pt2 t2 v Rd1 S0 Ed2 Hv).
  - intros v Hv Hp. eapply same_trans; [by apply High|by apply High2].
  - intros v Hv Hp. eapply same_trans; [by apply Low|]. by apply (edited_at HHDM_OFFSET HHDM_room false t1 _ 0 phys 0 l2 pt2 t2 v Rd1 S0 Ed2 Hv).
Qed.

(** The victim: the frame that is next is mapped at its alias in the direct map, and the
    tables of the two halves, different ones, reach down to both of its aliases. *)
Record victim64 t (phys : Z) : Prop := {
  vi_next : (fs_alloc (A.fr t)).1 = Ok (Some phys);
  vi_nonzero : phys ≠ 0%Z;
  vi_apart : apart t (A.ttbr1 t) (A.ttbr0 t);
  vi_align : ((phys + HHDM_OFFSET) mod 4096 = 0)%Z;
  vi_high : A.high (phys + HHDM_OFFSET) = true;
  vi_plain : I.untag (phys + HHDM_OFFSET) = (phys + HHDM_OFFSET)%Z;
  vi_ident : ∃ l2, reaches t (A.ttbr0 t) phys l2;
  vi_alias : ∃ l2, reaches t (A.ttbr1 t) (phys + HHDM_OFFSET) l2;
  vi_maps : (A.translate HHDM_OFFSET (phys + HHDM_OFFSET) t).1 = Ok (Some phys)
}.

Lemma alloc64_run t H n : ready t H (S n) → ∃ pa t', A.on_frames fs_alloc t = (Ok (Some pa), t') ∧ (fs_alloc (A.fr t)).1 = Ok (Some pa) ∧ frame_ok pa ∧
  ready t' ({[pa]} ∪ H) n ∧ A.mem t' = A.mem t ∧ regs t' = regs t.
Proof using Type.
  intros [Hh Hs TB]. pose proof (fs_alloc_spec _ _ Hh) as Ha. simpl in Hs. unfold A.on_frames.
  destruct (fs_alloc (A.fr t)) as [[[pa|]|e|] f]; try done. destruct Ha as (Hn & Hh' & _). exists pa. eexists. split_and!; try done.
  eapply fs_held_ok; [exact Hh'|]. by apply elem_of_union_l, elem_of_singleton.
Qed.

Lemma low_plain x : (0 <= x < 2 ^ 55)%Z → A.high x = false ∧ I.untag x = x ∧ Z.land x I.VA_TAG_MASK = x.
Proof using Type.
  intros Hx. assert (∀ i, (55 <= i)%Z → Z.testbit x i = false) as B.
  { intros i Hi. destruct (decide (x = 0)%Z) as [->|]; [apply Z.bits_0|]. apply Z.bits_above_log2; [lia|]. apply Z.log2_lt_pow2; [lia|].
    apply Z.lt_le_trans with (2 ^ 55)%Z; [lia|by apply Z.pow_le_mono_r]. }
  split; [unfold A.high; rewrite has_testbit by done; apply B; lia|]. split.
  - unfold I.untag, I.upper. rewrite B by lia. apply Z.bits_inj'. intros i Hi. rewrite Z.ldiff_spec. destruct (Z.lt_ge_cases i 56); [|rewrite B by lia; done].
    change 255%Z with (Z.ones 8). rewrite field_out by lia. by rewrite andb_true_r.
  - change I.VA_TAG_MASK with (Z.ones 56). rewrite Z.land_ones, Z.mod_small by lia. done.
Qed.

Lemma plain_masked x : A.high x = true → I.untag x = x → Z.land x I.VA_TAG_MASK ≠ 0%Z.
Proof using Type.
  unfold A.high. rewrite has_testbit by done. intros Hh Hu Hz. apply (f_equal (λ y, Z.testbit y 55)) in Hz. rewrite Z.land_spec, Z.bits_0 in Hz. change (Z.testbit I.VA_TAG_MASK 55) with true in Hz.
  rewrite andb_true_r in Hz. unfold I.untag, I.upper in Hu. rewrite Hz in Hu. apply (f_equal (λ y, Z.testbit y 63)) in Hu. rewrite Z.ldiff_spec, Hh in Hu. done.
Qed.

Lemma granule_frame x : (x mod 4096 = 0)%Z → I.granule x = x.
Proof using Type.
  intros Hx. unfold I.granule. change 15%Z with (Z.ones 4). rewrite Z.ldiff_ones_r, Z.shiftl_mul_pow2, Z.shiftr_div_pow2 by lia. change (2 ^ 4)%Z with 16%Z.
  pose proof (Z.div_mod x 4096 ltac:(lia)). pose proof (Z.div_mod x 16 ltac:(lia)). pose proof (Z.mod_pos_bound x 16 ltac:(lia)). lia.
Qed.

(** From the tag store to the last read. *)
Lemma probes_run t c H phys w g a r : ready t H 0 → (∀ h, tree t H (root_of h t)) → frame_ok phys → phys ≠ 0%Z →
  let hhdm := (phys + HHDM_OFFSET)%Z in A.high hhdm = true → I.untag hhdm = hhdm →
  (∀ p, I.address c p = I.untag p) → (∀ p, I.checked c p = true) → has (I.sctlr c) (Z.shiftl 1 43) = true →
  leads HHDM_OFFSET t hhdm (Some (phys, tagged)) → leads HHDM_OFFSET t phys None →
  (I.stg HHDM_OFFSET (A.with_tag hhdm 1);;
   I.write_volatile HHDM_OFFSET (A.with_tag hhdm 1) I.SENTINEL;;
   c_mte ← I.contains_raw_read HHDM_OFFSET LABEL (A.with_tag hhdm 2);
   c_ident ← I.contains_raw_read HHDM_OFFSET LABEL phys;
   x ← I.read_volatile HHDM_OFFSET (A.with_tag hhdm 1);
   if negb (x =? I.SENTINEL)%Z then throw Isolation.Halted else mret (c_mte && c_ident)) (I.mkSeam t c w g a r) =
  (Ok true, I.mkSeam t c (<[phys:=I.SENTINEL]> w) (<[phys:=1%Z]> g) 0 LABEL).
Proof using HHDM_room.
  intros Rd Sp Hf Hnz hhdm Hh Hp Ca Cc Ata La Li. destruct (low_plain phys ltac:(destruct Hf; lia)) as (_ & Pu & Pm).
  assert (∀ tag, leads HHDM_OFFSET t (I.address c (A.with_tag hhdm tag)) (Some (phys, tagged))) as Lt by (intros tag; rewrite Ca, untag_tag, Hp; done).
  pose proof (granule_frame phys (proj2 Hf)) as Hgr.
  rewrite (bind_run _ _ _ _ _ (stg_run t c H Rd Sp _ phys tagged (Lt 1%Z) eq_refl w g a r eq_refl Ata)), tag_tag, Hgr. change (Z.land 1 15) with 1%Z.
  assert (∀ m : gmap Z Z, <[phys:=1%Z]> m !! I.granule phys = Some (I.tag_of (A.with_tag hhdm 1))) as Hg by (intros m; rewrite Hgr, tag_tag; apply lookup_insert_eq).
  rewrite (bind_run _ _ _ _ _ (write64_run t c H Rd Sp _ phys tagged (Lt 1%Z) eq_refl _ _ _ _ I.SENTINEL (Hg g))).
  rewrite (bind_run _ _ _ _ _ (contains64_run t c H Rd Sp _ _ _ _ (A.with_tag hhdm 2) (Some (phys, tagged)) ltac:(rewrite mask_tag; by apply plain_masked) (Lt 2%Z)
    ltac:(rewrite Cc, Hg, !tag_tag; done))).
  rewrite (bind_run _ _ _ _ _ (contains64_run t c H Rd Sp _ _ _ _ phys None ltac:(by rewrite Pm) ltac:(by rewrite Ca, Pu) Logic.I)).
  rewrite (bind_run _ _ _ _ _ (read64_run t c H Rd Sp _ phys tagged (Lt 1%Z) eq_refl _ _ _ _ (Hg g))), lookup_insert_eq. cbn [default from_option id]. by rewrite Z.eqb_refl.
Qed.

(** C33: The escape test of memory tagging holds, whatever the control registers were: on
    tables that map the victim frame twice it reports both raw reads contained, the
    one through a foreign tag and the one of the identity alias, with the victim's
    word readable through the owner's tag, the same roots active and the seam
    disarmed; of what the kernel maps it has changed the two aliases only. *)
Theorem a64_escape_holds s H phys :
  ready (I.machine s) H 3 → (∀ h, tree (I.machine s) H (root_of h (I.machine s))) → victim64 (I.machine s) phys →
  ∃ s', I.domain_escape_contained HHDM_OFFSET LABEL s = (Ok true, s') ∧ walled (I.machine s) (I.machine s') phys ∧
    I.words s' = <[phys:=I.SENTINEL]> (I.words s) ∧ I.tags s' = <[phys:=1%Z]> (I.tags s) ∧ I.EXPECT_FAULT_ADDR s' = 0%Z.
Proof using HHDM_room.
  destruct s as [t c w g a r]. cbn [I.machine I.words I.tags]. intros Rd Sp [Vn Vz Va Vl Vh Vp [l2 V0] [l2' V1] Vm].
  destruct (alloc64_run t H 2 Rd) as (pa & t0 & E0 & Ea & Hf & Rd0 & Em & Rg). rewrite Ea in Vn. injection Vn as ->. destruct (regs_roots t t0 Rg) as (R0 & R1 & _).
  assert (∀ h, root_of h t0 = root_of h t) as Er by (intros []; done). assert (∀ h, tree t0 ({[phys]} ∪ H) (root_of h t0)) as Sp0.
  { intros h. rewrite Er. unfold tree. rewrite Em. eapply is_space_mono; [apply union_subseteq_r|apply Sp]. }
  assert (∀ v, same_at HHDM_OFFSET t t0 v) as Sm.
  { intros v. apply (same_intro HHDM_OFFSET HHDM_room (A.high v) t t0 H ({[phys]} ∪ H)); [destruct Rd; by split|destruct Rd0; by split|apply Sp|apply Sp0|done|].
    intros b _. by rewrite Em, Er. }
  destruct (wall_runs t0 ({[phys]} ∪ H) phys l2 l2' Rd0 Sp0) as (t1 & t2 & H2 & E1 & E2 & Rd2 & Sp2 & Wl); try done.
  { unfold apart. by rewrite Em, R0, R1. } { apply low_plain. destruct Hf; lia. } { unfold reaches. by rewrite Em, R0. } { unfold reaches. by rewrite Em, R1. }
  { destruct (Sm (phys + HHDM_OFFSET)%Z) as [Hs _]. unfold sees64 in Hs. injection Hs as -> _. done. }
  unfold I.domain_escape_contained. erewrite bind_run by reflexivity. cbn [I.machine I.ctl I.words I.tags I.EXPECT_FAULT_ADDR I.EXPECT_FAULT_RESUME]. set (c' := I.enable c).
  rewrite (seam_run _ _ _ _ _ _ _ _ _ _ E0). erewrite bind_run by (unfold lift; by rewrite (phys_ok HHDM_OFFSET HHDM_room)). cbv zeta.
  rewrite (seam_run _ _ _ _ _ _ _ _ _ _ E1), (seam_run _ _ _ _ _ _ _ _ _ _ E2).
  rewrite (probes_run t2 c' H2 phys w g a r Rd2 Sp2); [|done..|by apply (enable_checks c)|by apply (enable_checks c)|by apply (enable_checks c)| |].
  - eexists. split; [reflexivity|]. cbn [I.machine I.words I.tags I.EXPECT_FAULT_ADDR]. split; [|done]. destruct Wl as [W1 W2 W3 W4 W5].
    split; [intros h; by rewrite W1|done|done|..]; intros v Hv Hp; (eapply same_trans; [apply Sm|]); [by apply W4|by apply W5].
  - replace (phys)%Z with (phys + (phys + HHDM_OFFSET) mod 4096)%Z at 2 by (rewrite Vl; lia). by apply (fe_alias _ _ _ Wl).
  - apply (fe_ident _ _ _ Wl); [|done]. apply low_plain. destruct Hf; lia.
Qed.
End faults64.

(** ** On the small machine *)

Definition small64_up : res Empty_set AddressSpace * A.Mach (option FrameAllocator) := Eval vm_compute in
  A.build_address_space small_hhdm small_km small64.
Definition small64_s : A.Mach (option FrameAllocator) :=
  match small64_up with
  | (Ok sp, s) => act sp s
  | (_, s) => s
  end.
Definition victim_pa : Z := match (fs_alloc (A.fr small64_s)).1 with Ok (Some pa) => pa | _ => 0 end.

Lemma small64_up_eq : A.build_address_space small_hhdm small_km small64 = small64_up.
Proof. evaluated. Qed.

Lemma small64_victim : ∃ H, ready small64_s H 3 ∧ (∀ h, tree small64_s H (root_of h small64_s)) ∧ victim64 small_hhdm small64_s victim_pa.
Proof.
  destruct small64_built as (t0 & t1 & s & H & R & B & _). rewrite small64_up_eq in R. assert (small64_s = act (mkSpace t1 t0) s) as E by (unfold small64_s; by rewrite R).
  exists H. rewrite E. split; [apply (halves_ready _ _ _ _ _ _ _ B); lia|]. split; [intros []; [exact (h_high _ _ _ _ _ _ B)|exact (h_low _ _ _ _ _ _ B)]|]. split.
  - rewrite <- E. by vm_compute.
  - by vm_compute.
  - apply apart_sym. exact (h_apart _ _ _ _ _ _ B).
  - by vm_compute.
  - by vm_compute.
  - by vm_compute.
  - apply (h_low_reach _ _ _ _ _ _ B). vm_compute. by eexists.
  - apply (h_high_reach _ _ _ _ _ _ B). vm_compute. by eexists.
  - rewrite <- E. by vm_compute.
Qed.

Lemma a64_escape_holds_witness : let s := I.mkSeam small64_s (I.mkCtl 0 0 0 true) ∅ ∅ 0 0 in
  ∃ s', I.domain_escape_contained small_hhdm small_label s = (Ok true, s') ∧ I.EXPECT_FAULT_ADDR s' = 0%Z ∧ I.tags s' !! victim_pa = Some 1%Z.
Proof.
  destruct small64_victim as (H & Rd & Sp & V). intros s.
  destruct (a64_escape_holds small_hhdm small_label small_room s H victim_pa Rd Sp V) as (s' & R & _ & _ & T & E).
  exists s'. split; [exact R|]. split; [exact E|]. rewrite T. apply lookup_insert_eq.
Defined.
