(* ===== verification/SelfTests.v ===== *)
(** * The boot's self-tests

    The demonstrations the kernel runs at boot over the components, each of which halts
    the machine at the first check that fails: the capability demonstration
    ([kernel/src/cap/mod.rs]), those of CPU-time capabilities and of the executor
    ([kernel/src/sched/mod.rs]) and the loader's ([kernel/src/loader/demo.rs]).  What
    they print is left out; [None] and an error stand for the halt. *)

From S2P Require Import Prelude Rights Cap Budget CSpace Executor Arch Buddy MemInit Frames Paging Pex PexEncode Syscall Userland Loader Process.
From S2P Require Isolation.
Abbreviation Halted := Isolation.Halted.

Abbreviation TM := (M CSpace Isolation.Stop).

(** [op.unwrap_or_else(|e| fatal_err(..))] *)
Definition or_halt {A} (m : CM A) : TM A := λ cs,
  match m cs with
  | (Ok v, cs') => (Ok v, cs')
  | (Err _, cs') => (Err Halted, cs')
  | (Panic, cs') => (Panic, cs')
  end.
Definition check (b : bool) : TM unit := if b then mret () else throw Halted.

Section tests.
Context {BF : Bitflags}.

(** ** Capabilities *)

Definition CAP_SLOTS : nat := 64.

Definition survivors (cs : CSpace) : nat := length (List.filter (λ s, is_ok (resolve cs s)) (seq 1 (CAP_SLOTS - 1))).

(** [run], from the answer of [alloc_frames(6)]; it ends with the block to free. *)
Definition cap_run (answer : option Z) : TM Z :=
  match answer with
  | None => throw Halted
  | Some phys =>
      let base_frame := phys_to_pfn phys in
      let frames := 64%Z in
      modify (λ _, cspace_new CAP_SLOTS);;
      or_halt (set_root_untyped base_frame frames);;
      or_halt (retype 0 Frame 1 4 1);;
      or_halt (reads (λ cs, get_cap Obj.Frame cs 1));;
      or_halt (reads (λ cs, resolve cs 0));;
      or_halt (mint 1 5 READ 0xf00d);;
      cs ← get;
      let '(r, cs') := mint 5 6 (bf_union READ WRITE) 0 cs in
      modify (λ _, cs');;
      check (match r with Err CSpace.InsufficientRights => true | _ => false end);;
      or_halt (copy 2 7);;
      or_halt (reads (λ cs, get_cap Obj.Frame cs 5));;
      or_halt (revoke 0);;
      cs ← get;
      check (survivors cs =? 0)%nat;;
      check (match get_cap Obj.Frame cs 1 with Err CSpace.EmptySlot => true | _ => false end);;
      or_halt (reads (λ cs, resolve cs 0));;
      mret phys
  end.

(** ** CPU time *)

Definition SCHED_SLOTS : nat := 16.
Definition ROOT : Z := 100.

Definition cap_units (c : nat) : TM Z :=
  r ← or_halt (reads (λ cs, resolve cs c));
  mret (capacity (from_cap r)).

Definition conserved (expected : Z) : TM unit :=
  a ← cap_units 0;
  b ← cap_units 1;
  s ← lift (arith 32 (a + b));
  c ← cap_units 2;
  total ← lift (arith 32 (s + c));
  check (total =? expected)%Z.

(** The zeroing hook of this space halts: none of its calls may come. *)
Definition never_zero : TM unit := cs ← get; check (match zlog cs with [] => true | _ => false end).

Definition demo_sched_caps : TM unit :=
  modify (λ _, cspace_new SCHED_SLOTS);;
  or_halt (set_root_sched 0 ROOT 10);;
  or_halt (split 0 1 30);; never_zero;;
  or_halt (split 0 2 20);; never_zero;;
  conserved ROOT;;
  or_halt (delegate 1 2 10);; never_zero;;
  conserved ROOT;;
  cap_units 0;; cap_units 1;; cap_units 2;;
  or_halt (revoke 0);; never_zero;;
  cs ← get;
  check (negb (is_ok (resolve cs 1) || is_ok (resolve cs 2)));;
  r ← cap_units 0;
  check (r =? ROOT)%Z.
End tests.

(** ** The executor *)

(** [worker]: its task, its mark and the turns of its loop that are left.  Each poll
    pushes the mark and awaits [yield_now], or is the last one. *)
Record Worker := mkWorker { w_self : Z; w_mark : Z; w_left : nat }.
Definition worker_poll (log : list Z) (f : Worker) : bool * list Z * Worker * list Z :=
  match w_left f with
  | O => (true, [], f, log)
  | S n => let '(rdy, ws, _) := yield_now_poll (w_self f) false in
           (rdy, ws, mkWorker (w_self f) (w_mark f) n, log ++ [w_mark f])
  end.

Definition spawn_worker (mark : Z) (iters : nat) (b : Budget) (st : Executor Worker * Z) : Executor Worker * Z :=
  let id := (allocate st.2).1 in
  let '(t, next) := task_new st.2 (mkWorker id mark iters) b in
  ((spawn t st.1).2, next).

Definition count (mark : Z) (log : list Z) : nat := length (List.filter (Z.eqb mark) log).

(** [l[0] == a && l[1] == b && l[2] == a && l[3] == b] *)
Definition interleaved (a b : Z) (log : list Z) : bool :=
  match log with
  | x0 :: x1 :: x2 :: x3 :: _ => (x0 =? a)%Z && (x1 =? b)%Z && (x2 =? a)%Z && (x3 =? b)%Z
  | _ => false
  end.

(** [next] is the next task id; [fuel] bounds each run. *)
Definition demo_executor (fuel : nat) (next : Z) : option bool :=
  let '(ex, _) := spawn_worker 66 5 (budget_new 100 100) (spawn_worker 65 5 (budget_new 3 100) (executor_new, next)) in
  match run_until_idle worker_poll fuel ex [] with
  | None => None
  | Some (ex1, log1, _) =>
      if negb (interleaved 65 66 log1) then Some false else
      if negb ((count 65 log1 =? 3)%nat && (count 66 log1 =? 5)%nat && (task_count ex1 =? 1)%nat && (parked_count ex1 =? 1)%nat)
      then Some false else
      match run_until_idle worker_poll fuel (replenish_all ex1) log1 with
      | None => None
      | Some (ex2, log2, _) => Some ((count 65 log2 =? 5)%nat && (task_count ex2 =? 0)%nat)
      end
  end.

(** The executor in [worker_task], and its check. *)
Definition worker_task (fuel : nat) (next : Z) : option bool :=
  let '(ex, _) := spawn_worker 89 4 (budget_new 1000 1000) (spawn_worker 88 4 (budget_new 1000 1000) (executor_new, next)) in
  match run_until_idle worker_poll fuel ex [] with
  | None => None
  | Some (_, log, _) => Some (interleaved 88 89 log)
  end.

(** ** The loader *)

Definition CODE_VA : Z := 0x40000000.
Definition DATA_VA : Z := 0x40001000.
Definition EP_BADGE : Z := 0xbadd.

Section loader_demo.
Context {BF : Bitflags} {F : Type} {FS : FrameSource F}.
Variables HHDM_OFFSET PEX_ARCH : Z.
Variable ram : Z → list Z.

Definition build_pex : option bytes :=
  let segs := [mkSegSpec CODE_VA 0x1000 (Z.lor PERM_R PERM_X) (replicate 16 0x90%Z); mkSegSpec DATA_VA 0x1000 (Z.lor PERM_R PERM_W) (replicate 16 0xa5%Z)] in
  let man := [mkManifest MANIFEST_SCHED 1 DERIVE 100 1000; mkManifest MANIFEST_ENDPOINT 2 SEND EP_BADGE 0;
              mkManifest MANIFEST_FRAME 3 READ 0 0; mkManifest MANIFEST_FRAME 4 rights_empty 1 0] in
  match encoded_len segs man with
  | None => None
  | Some n => match encode PEX_ARCH CODE_VA segs man (replicate n 0%Z) with
              | (Ok _, buf) => Some buf
              | _ => None
              end
  end.

Definition is_type_at (proc : CSpace) (slot : nat) (t : CapType) : bool :=
  match resolve proc slot with Ok c => is_type (cap_type c) t | _ => false end.
Definition invokes (proc : CSpace) (c op : Z) (expect : res Abi.InvokeError Z → bool) : bool := expect (invoke proc (Abi.invocation_new c op)).
Definition is_Ok (P : Z → bool) (r : res Abi.InvokeError Z) : bool := match r with Ok v => P v | _ => false end.

(** The checks of [run] on the loaded process. *)
Definition process_checks (loaded : Loaded) (proc : CSpace) : bool :=
  (occupied_slots proc =? 4)%nat &&
  is_type_at proc 1 Sched && is_type_at proc 2 Endpoint && is_type_at proc 3 Frame && is_type_at proc 4 Frame &&
  (l_budget loaded =? 100)%Z &&
  match resolve proc 3 with
  | Ok f =>
      invokes proc 3 Abi.CAP_IDENTIFY (is_Ok (λ id, (wrap 8 (Z.shiftr id 32) =? cap_type_u8 Frame)%Z)) &&
      invokes proc 3 Abi.FRAME_PROBE (is_Ok (Z.eqb (objref f))) &&
      invokes proc 4 Abi.FRAME_PROBE (λ r, match r with Err Abi.InsufficientRights => true | _ => false end) &&
      invokes proc 2 Abi.ENDPOINT_SEND (is_Ok (Z.eqb EP_BADGE)) &&
      invokes proc 3 Abi.ENDPOINT_SEND (λ r, match r with Err Abi.WrongType => true | _ => false end) &&
      invokes proc 0 Abi.CAP_IDENTIFY (λ r, match r with Err Abi.EmptySlot => true | _ => false end) &&
      invokes proc 999 Abi.CAP_IDENTIFY (λ r, match r with Err Abi.BadCptr => true | _ => false end)
  | _ => false
  end.

Definition loader_authority (answer : option Z) : res CapError CSpace := authority answer.

Abbreviation RM := (M (Mach F) Isolation.Stop).
Definition on_mach_halt {A} (m : M (Mach F) Empty_set A) : RM A := λ s,
  match m s with
  | (Ok v, s') => (Ok v, s')
  | (_, s') => (Panic, s')
  end.
Definition need (b : bool) : RM unit := if b then mret () else throw Halted.

(** [run], from the answer of [alloc_frames(6)]. *)
Definition loader_run (answer : option Z) : RM unit :=
  match build_pex with
  | None => panic
  | Some image =>
      match loader_authority answer with
      | Ok auth =>
          match load HHDM_OFFSET PEX_ARCH image 0x50 false (mkLState auth (cspace_new PROCESS_SLOTS) L_SCRATCH [] 0 []) with
          | (Ok loaded, l) =>
              on_mach_halt (mfor (events l) (perform HHDM_OFFSET ram));;
              c ← on_mach_halt (page_prot HHDM_OFFSET CODE_VA);
              need (bool_decide (c = Some (false, true)));;
              d ← on_mach_halt (page_prot HHDM_OFFSET DATA_VA);
              need (bool_decide (d = Some (true, false)));;
              need (process_checks loaded (pr l));;
              let bad := alter (λ b, Z.lxor b 0xff) 0%nat image in
              need (match (load HHDM_OFFSET PEX_ARCH bad 0x51 false (mkLState (ld l) (cspace_new PROCESS_SLOTS) (scratch l) [] 0 [])).1 with
                    | Err (LPex _) => true
                    | _ => false
                    end)
          | _ => throw Halted
          end
      | _ => throw Halted
      end
  end.
End loader_demo.
