(* ===== verification/SelfTestsTheorems.v ===== *)
(** * The boot's self-tests pass *)

From Stdlib Require Import FunctionalExtensionality.
From S2P Require Import Prelude Rights Cap Budget CSpace CSpaceInv CSpaceOps CSpaceRevoke CSpaceProps Executor Arch Buddy MemInit Frames.
From S2P Require Import Paging PagingInv PagingOps PagingTheorems Pex PexEncode Syscall Userland Loader Process SelfTests.
From S2P Require Isolation.

(** The laws of the flags library leave no choice. *)
Lemma bitflags_one (BF : Bitflags) : @bf_contains BF = @bf_contains bitflags_u32 ∧ @bf_union BF = @bf_union bitflags_u32 ∧ @bf_from_bits BF = @bf_from_bits bitflags_u32.
Proof.
  split_and!; extensionality a; extensionality b.
  - apply Bool.eq_iff_eq_true. by rewrite !bf_contains_spec.
  - by rewrite !bf_union_spec.
  - by rewrite !bf_from_bits_spec.
Qed.

(** ** CPU time and the executor *)

(** The demonstration of CPU-time capabilities passes: SPLIT and DELEGATE conserve the
    root's time, REVOKE gives it back, and no frame is ever zeroed. *)
Theorem sched_demo_passes `{BF : Bitflags} cs : ∃ cs', demo_sched_caps cs = (Ok (), cs') ∧ zlog cs' = [].
Proof.
  destruct (bitflags_one BF) as (E1 & E2 & E3). destruct BF as [c u f Hc Hu Hf]. cbn in E1, E2, E3. subst c u f.
  eexists. split; [vm_compute; reflexivity|reflexivity].
Qed.

(** The demonstrations of the executor pass: the two workers take turns, the one whose
    budget is small is parked at its third step while the other ends, and ends after
    the replenishment. *)
Theorem executor_demo_passes : demo_executor 32 1 = Some true ∧ worker_task 32 3 = Some true.
Proof. split; vm_compute; reflexivity. Qed.

(** ** The loader, on the small machine *)

Definition small_block := alloc_frames 6 (fr small_s).
Definition small_ready : Mach (option FrameAllocator) :=
  mkMach (mem small_s) small_block.2 (cr3 small_s) (KERNEL_PML4 small_s) (flushed small_s).

(** The loader's demonstration passes on the small machine: the image it builds loads,
    its segments are mapped as asked, the process holds the four capabilities of its
    manifest, each invocation is granted or refused as it should be, and the corrupt
    image is refused. *)
Theorem loader_demo_passes : ∃ block, small_block.1 = Ok (Some block) ∧
  (loader_run small_hhdm ARCH_X86_64 (λ _, replicate 512 0%Z) (Some block) small_ready).1 = Ok ().
Proof. eexists. split; [vm_compute; reflexivity|]. vm_compute. reflexivity. Qed.

(** ** Capabilities *)

Section cap.
Context {BF : Bitflags}.

Lemma flags_contain a b : Z.land a b = b → bf_contains a b = true.
Proof. apply bf_contains_spec. Qed.
Lemma flags_lack a b : Z.land a b ≠ b → bf_contains a b = false.
Proof. intros H. apply not_true_iff_false. by rewrite bf_contains_spec. Qed.

Lemma or_halt_run {A B} (m : CM A) (k : A → M CSpace Isolation.Stop B) cs v cs' : m cs = (Ok v, cs') → (or_halt m ≫= k) cs = k v cs'.
Proof. intros R. apply bind_run. unfold or_halt. by rewrite R. Qed.

(** The space once the root is installed. *)
Definition cap_start (base : Z) : CSpace := mkCSpace (mkCte (mkRawCap Untyped RETYPE base 64 0 0 0) None :: replicate 63 Cte_EMPTY) 1 [].

Lemma cap_start_wf base : (0 <= base)%Z → (base + 64 <= 2 ^ 32)%Z → wf (cap_start base).
Proof.
  intros H1 H2. assert (0 <= RETYPE < 2 ^ 32)%Z by (by vm_compute). change (cap_start base) with (upd_slot 0 (mkCte (mkRawCap Untyped RETYPE base 64 0 0 0) None) (cspace_new 64)).
  apply (wf_fill _ 0 Cte_EMPTY); [apply wf_new|done|done|done| |done].
  unfold cap_ok, RawCap_wf, in_u. cbn. split_and!; lia.
Qed.

Lemma mint_run cs src dest r b e : slots cs !! src = Some e → cap_type (cap e) = Frame → bf_contains (rights (cap e)) DERIVE = true →
  subset_of r (rights (cap e)) = true → slots cs !! dest = Some Cte_EMPTY →
  mint src dest r b cs = (Ok (), upd_slot dest (mkCte (with_rights_badge (cap e) r b) (Some src)) cs).
Proof.
  intros He Ht Hd Hs Hn. unfold mint, mbind, M_bind, reads. assert (live cs src = Ok (cap e)) as -> by (apply live_Ok; split; [congruence|eauto]).
  rewrite Ht, Hd, Hs. cbn [non_duplicable negb]. by rewrite place_eq, Hn.
Qed.
Lemma copy_run cs src dest e q : slots cs !! src = Some e → cap_type (cap e) = Frame → bf_contains (rights (cap e)) DERIVE = true → parent e = Some q →
  slots cs !! dest = Some Cte_EMPTY → copy src dest cs = (Ok (), upd_slot dest (mkCte (cap e) (Some q)) cs).
Proof.
  intros He Ht Hd Hp Hn. unfold copy, mbind, M_bind, reads. assert (live cs src = Ok (cap e)) as -> by (apply live_Ok; split; [congruence|eauto]).
  rewrite Ht, Hd. cbn [non_duplicable negb]. rewrite (slot_Some _ _ _ He), Hp. by rewrite place_eq, Hn.
Qed.
Lemma get_frame cs c e : slots cs !! c = Some e → cap_type (cap e) = Frame → ∃ f, get_cap Obj.Frame cs c = Ok f.
Proof.
  intros He Ht. unfold get_cap. assert (live cs c = Ok (cap e)) as -> by (apply live_Ok; split; [congruence|eauto]). cbn. rewrite Ht. by eexists.
Qed.

(** What the space holds before the revocation. *)
Record derived (base : Z) (cs : CSpace) : Prop := {
  dv_wf : wf cs;
  dv_root : slots cs !! 0 = Some (mkCte (mkRawCap Untyped RETYPE base 64 4 0 0) None);
  dv_len : length (slots cs) = 64;
  dv_below k : 1 ≤ k < 64 → below cs k 0 ∨ slots cs !! k = Some Cte_EMPTY
}.

Lemma revoke_derived base cs : derived base cs →
  ∃ cs', revoke 0 cs = (Ok (), cs') ∧ slots cs' !! 0 = Some (mkCte (mkRawCap Untyped RETYPE base 64 0 0 0) None) ∧ ∀ k, 1 ≤ k < 64 → resolve cs' k = Err EmptySlot.
Proof.
  intros [W He Hl Hb]. destruct (revoke_spec cs 0 _ W He) as (cs1 & zs & R & Hr); [done|]. destruct (rv_self _ _ _ _ R _ He) as (n & He1 & Hn). rewrite Hn in He1 by done.
  exists (reclaim 0 cs1). split; [done|]. assert (reclaim 0 cs1 = upd_slot 0 (mkCte (mkRawCap Untyped RETYPE base 64 0 0 0) None) cs1) as -> by (unfold reclaim; by rewrite He1).
  split; [cbn; apply list_lookup_insert_eq; by eapply lookup_lt_Some|]. intros k Hk.
  assert (slots cs1 !! k = Some Cte_EMPTY) as E.
  { destruct (below_cases cs k 0 W) as [B|B]; [by apply (rv_below _ _ _ _ R)|]. rewrite (rv_other _ _ _ _ R) by (done || lia). by destruct (Hb k Hk). }
  unfold resolve, live, slot, index. cbn [upd_slot slots]. rewrite length_insert, decide_False by (apply lookup_lt_Some in E; lia). by rewrite list_lookup_insert_ne, E by lia.
Qed.

Lemma no_survivors cs : (∀ k, 1 ≤ k < 64 → resolve cs k = Err EmptySlot) → survivors cs = 0.
Proof.
  intros H. unfold survivors. assert (∀ l, (∀ k, k ∈ l → 1 ≤ k < 64) → List.filter (λ s, is_ok (resolve cs s)) l = []) as E.
  { intros l. induction l as [|k l IH]; intros Hk; [done|]. cbn [List.filter]. rewrite H by (apply Hk; left). apply IH. intros j Hj. apply Hk. by right. }
  rewrite E; [done|]. intros k Hk%elem_of_seq. unfold CAP_SLOTS in Hk. lia.
Qed.

Section run.
Variables (base : Z) (cs2 : CSpace).
Hypothesis W2 : wf cs2.
Hypothesis Sl : ∀ k, slots cs2 !! k = if decide (1 ≤ k < 5) then Some (retyped_cte 0 Frame 1 base (k - 1)) else
  if decide (k = 0) then Some (mkCte (mkRawCap Untyped RETYPE base 64 4 0 0) None) else replicate 63 Cte_EMPTY !! (k - 1).

Definition after_mint : CSpace := upd_slot 5 (mkCte (with_rights_badge (cap (retyped_cte 0 Frame 1 base 0)) READ 0xf00d) (Some 1)) cs2.
Definition after_copy : CSpace := upd_slot 7 (mkCte (cap (retyped_cte 0 Frame 1 base 1)) (Some 0)) after_mint.

Lemma frame_rights r : r = READ ∨ r = DERIVE → bf_contains (default_rights Frame) r = true.
Proof using Type. intros H. apply flags_contain. cbn [default_rights]. rewrite !bf_union_spec. by destruct H as [->| ->]. Qed.

Lemma sl_len : length (slots cs2) = 64.
Proof using Sl.
  assert (slots cs2 !! 63 = Some Cte_EMPTY) as H1 by (rewrite Sl; done). assert (slots cs2 !! 64 = None) as H2 by (rewrite Sl; done).
  apply lookup_lt_Some in H1. apply lookup_ge_None_1 in H2. lia.
Qed.

Lemma minted : mint 1 5 READ 0xf00d cs2 = (Ok (), after_mint).
Proof using Sl.
  apply (mint_run cs2 1 5 READ 0xf00d (retyped_cte 0 Frame 1 base 0)); [by rewrite Sl|done|apply frame_rights; by right| |by rewrite Sl].
  unfold subset_of. apply frame_rights. by left.
Qed.
Lemma copied : copy 2 7 after_mint = (Ok (), after_copy).
Proof using Sl.
  apply (copy_run after_mint 2 7 (retyped_cte 0 Frame 1 base 1) 0); [|done|apply frame_rights; by right|done|]; cbn [after_mint upd_slot slots]; rewrite list_lookup_insert_ne by lia; by rewrite Sl.
Qed.
Lemma widening : mint 5 6 (bf_union READ WRITE) 0 after_mint = (Err InsufficientRights, after_mint).
Proof using Sl.
  unfold mint, mbind, M_bind, reads. assert (live after_mint 5 = Ok (with_rights_badge (cap (retyped_cte 0 Frame 1 base 0)) READ 0xf00d)) as ->.
  { apply live_Ok. split; [done|]. eexists. split; [cbn; apply list_lookup_insert_eq; rewrite sl_len; lia|done]. }
  cbn [with_rights_badge cap retyped_cte cap_type rights non_duplicable]. by rewrite (flags_lack READ DERIVE).
Qed.

Lemma derivation : derived base after_copy.
Proof using W2 Sl.
  pose proof sl_len as Hl. assert (wf after_mint) as W3.
  { pose proof (mint_good cs2 1 5 READ 0xf00d W2 ltac:(by vm_compute) ltac:(by vm_compute)) as G. by rewrite minted in G. }
  assert (∀ k, slots after_copy !! k = if decide (k = 7) then Some (mkCte (cap (retyped_cte 0 Frame 1 base 1)) (Some 0)) else
    if decide (k = 5) then Some (mkCte (with_rights_badge (cap (retyped_cte 0 Frame 1 base 0)) READ 0xf00d) (Some 1)) else slots cs2 !! k) as Sk.
  { intros k. cbn [after_copy after_mint upd_slot slots]. case_decide as E; [subst; apply list_lookup_insert_eq; rewrite length_insert; lia|]. rewrite list_lookup_insert_ne by done.
    case_decide as E2; [subst; apply list_lookup_insert_eq; lia|by rewrite list_lookup_insert_ne]. }
  assert (∀ k e p, slots after_copy !! k = Some e → parent e = Some p → parent_of after_copy k p) as Hp by (intros k e p Hk He; by exists e).
  assert (∀ k, 1 ≤ k < 5 → below after_copy k 0) as B4.
  { intros k Hk. apply tc_once. eapply Hp; [rewrite Sk, !decide_False by lia; rewrite Sl, decide_True by lia; reflexivity|done]. }
  split.
  - pose proof (copy_good after_mint 2 7 W3) as G. by rewrite copied in G.
  - by rewrite Sk, Sl.
  - cbn. by rewrite !length_insert.
  - intros k Hk. destruct (decide (k < 5)); [left; apply B4; lia|]. destruct (decide (k = 7)) as [->|]; [left; apply tc_once; by eapply Hp; [by rewrite Sk|]|].
    destruct (decide (k = 5)) as [->|]; [left; eapply tc_l; [by eapply Hp; [by rewrite Sk|]|apply B4; lia]|].
    right. rewrite Sk, !decide_False by lia. rewrite Sl, !decide_False by lia. apply lookup_replicate_2. lia.
Qed.
End run.

(** The block the demonstration was given comes back, whichever block it is, and every
    check on the way holds: in the end the root alone is live, with nothing used. *)
Theorem cap_demo_passes phys cs : let base := phys_to_pfn phys in (base + 64 <= 2 ^ 32)%Z →
  ∃ cs', cap_run (Some phys) cs = (Ok phys, cs') ∧ survivors cs' = 0 ∧
    slots cs' !! 0 = Some (mkCte (mkRawCap Untyped RETYPE base 64 0 0 0) None).
Proof.
  intros base Hb. assert (0 <= base)%Z as H0 by (unfold base, phys_to_pfn, wrap; apply Z.mod_pos_bound; lia).
  pose proof (cap_start_wf base H0 Hb) as W1.
  assert (∃ cs2, retype 0 Frame 1 4 1 (cap_start base) = (Ok (), cs2)) as [cs2 R2].
  { eapply retype_complete; [exact W1|unfold in_u; lia|unfold in_u; lia|reflexivity|reflexivity|by apply flags_contain|reflexivity|lia|lia|simpl; lia|simpl; lia|simpl; lia|].
    intros i Hi. change (Z.to_nat 4) with 4 in Hi. do 4 (destruct i as [|i]; [by eexists|]). lia. }
  pose proof (retype_spec (cap_start base) 0 Frame 1 4 1 W1 ltac:(unfold in_u; lia) ltac:(unfold in_u; lia)) as S2. rewrite R2 in S2. destruct S2 as (W2 & u & Rt).
  pose proof (rt_untyped _ _ _ _ _ _ _ _ Rt) as [[= <-] _].
  assert (∀ k, slots cs2 !! k = if decide (1 ≤ k < 5) then Some (retyped_cte 0 Frame 1 base (k - 1)) else
    if decide (k = 0) then Some (mkCte (mkRawCap Untyped RETYPE base 64 4 0 0) None) else replicate 63 Cte_EMPTY !! (k - 1)) as Sl.
  { intros k. rewrite (rt_slots _ _ _ _ _ _ _ _ Rt). change (1 + Z.to_nat 4) with 5. cbn [cap objref watermark]. rewrite Z.add_0_r. repeat case_decide; try done.
    destruct k as [|k]; [done|]. cbn [cap_start slots lookup list_lookup]. by rewrite Nat.sub_succ, Nat.sub_0_r. }
  destruct (revoke_derived base _ (derivation base cs2 W2 Sl)) as (cs' & Rv & Hroot & Hgone).
  exists cs'. split; [|split; [by apply no_survivors|done]]. unfold cap_run. fold base. cbv zeta. erewrite bind_run by reflexivity.
  rewrite (or_halt_run _ _ _ () (cap_start base)) by reflexivity. rewrite (or_halt_run _ _ _ _ _ R2).
  assert (∀ (X : Type) (g : CSpace → res CapError X) c v, g c = Ok v → reads g c = (Ok v, c)) as Rd by (intros X g c v E; unfold reads; by rewrite E).
  destruct (get_frame cs2 1 (retyped_cte 0 Frame 1 base 0)) as [f1 F1]; [by rewrite Sl|done|]. rewrite (or_halt_run _ _ _ _ _ (Rd _ _ _ _ F1)).
  assert (∀ c e, slots c !! 0 = Some e → cap_type (cap e) = Untyped → resolve c 0 = Ok (cap e)) as Root by (intros c e He Ht; apply live_Ok; split; [congruence|eauto]).
  rewrite (or_halt_run _ _ _ _ _ (Rd _ _ _ _ (Root cs2 _ ltac:(by rewrite Sl) eq_refl))), (or_halt_run _ _ _ _ _ (minted base cs2 Sl)).
  erewrite bind_run by reflexivity. cbv beta. rewrite (widening base cs2 Sl). do 2 (erewrite bind_run by reflexivity). rewrite (or_halt_run _ _ _ _ _ (copied base cs2 Sl)).
  destruct (get_frame (after_copy base cs2) 5 (mkCte (with_rights_badge (cap (retyped_cte 0 Frame 1 base 0)) READ 0xf00d) (Some 1))) as [f5 F5]; [|done|].
  { cbn [after_copy after_mint upd_slot slots]. rewrite list_lookup_insert_ne by lia. apply list_lookup_insert_eq. rewrite (sl_len base cs2 Sl). lia. }
  rewrite (or_halt_run _ _ _ _ _ (Rd _ _ _ _ F5)), (or_halt_run _ _ _ _ _ Rv). erewrite bind_run by reflexivity. rewrite (no_survivors cs' Hgone).
  erewrite bind_run by reflexivity. assert (get_cap Obj.Frame cs' 1 = Err EmptySlot) as ->.
  { unfold get_cap. pose proof (Hgone 1 ltac:(lia)) as E. unfold resolve in E. by rewrite E. }
  erewrite bind_run by reflexivity. by rewrite (or_halt_run _ _ _ _ _ (Rd _ _ _ _ (Root cs' _ Hroot eq_refl))).
Qed.
End cap.
